(** * BountyAgents: the swarm pipeline, its debate arena and its tribunal

    A shallow embedding of the orchestration code of the repository
    (src/swarm/orchestrator.ts, src/swarm/debate-arena, agents/base-agent,
    agents/synthesis/the-pope.ts, agents/forge/verification-tribunal.ts).

    Conventions of the embedding.
    - A promise that may reject is a value of [Result]: [Ok v] for a
      resolved promise, [Throw msg] for a rejected one; [try]/[catch] is a
      match on it.
    - The reasoning oracle is an environment: every oracle call site is a
      function from the identity of the call (indices of the contract, the
      expert, the finding ...) to the [Result string] the call produces.
    - [JSON.parse(...) as T] is a function [string -> option T]: the generic
      [analyzeStructured<T>] is generic in the model as well.
    - A JavaScript string is a [string] whose characters are read as code
      units below 256.
    - A JavaScript number read from the oracle's JSON is kept as the
      rational [Q] that the text denotes. Where the code computes with
      numbers and the outcome depends on the result (the scores that order
      the findings), the arithmetic is that of the doubles, [Double]: every
      operation rounds to the nearest double, ties to even.
    - Objects that are mutated in place and reached through several
      references ([state.findings] and the lists that point into it) are a
      store: the list [findings] of the state, with references as indices. *)

From Stdlib Require Import QArith Qround Qabs Qpower Ascii.
From Stdlib Require Import Lqa.
From stdpp Require Import gmap strings list fin_maps pretty sorting.

Set Warnings "-register-all".

Open Scope string_scope.
Open Scope list_scope.
Open Scope nat_scope.

(** ** Rejected promises *)

Inductive Result (A : Type) : Type :=
| Ok (a : A)
| Throw (msg : string).
Arguments Ok {A} a.
Arguments Throw {A} msg.

Definition rbind {A B : Type} (r : Result A) (k : A -> Result B) : Result B :=
  match r with
  | Ok a => k a
  | Throw m => Throw m
  end.

Notation "'await' x <- r ; k" := (rbind r (fun x => k))
  (at level 10, x name, r at level 100, k at level 200,
   format "'[v' 'await'  x  <-  r ; '/' k ']'").

Definition is_ok {A : Type} (r : Result A) : bool :=
  match r with Ok _ => true | Throw _ => false end.

(** [await Promise.all(xs.map(f))]: rejects as soon as one of the promises
    rejects, otherwise resolves to the results in the order of [xs]. *)
Fixpoint Promise_all {A B : Type} (f : A -> Result B) (xs : list A)
  : Result (list B) :=
  match xs with
  | [] => Ok []
  | x :: xs' =>
      await y <- f x;
      await ys <- Promise_all f xs';
      Ok (y :: ys)
  end.

(** ** Numbers (IEEE 754 binary64, as ECMAScript prescribes)

    A number is a double: a rational on the grid of the doubles, an
    infinity or NaN. The two zeros are not told apart, since the code never
    divides by a computed zero nor prints one. *)

Module Double.

Local Open Scope Q_scope.

Inductive number := Finite (q : Q) | Infinity | NegInfinity | NaN.

Definition pow2 (e : Z) : Q := Qpower 2 e.

(** The exponent of a positive rational: [pow2 e <= q < pow2 (e + 1)]. *)
Definition exponent (q : Q) : Z :=
  let e := (Z.log2 (Qnum q) - Z.log2 (Z.pos (Qden q)))%Z in
  if Qle_bool (pow2 e) q then e else (e - 1)%Z.

(** The nearest integer, ties to the even one; for [0 <= q]. *)
Definition nearestEven (q : Q) : Z :=
  let f := Qfloor q in
  match ((q - inject_Z f) ?= (1 # 2))%Q with
  | Lt => f
  | Gt => (f + 1)%Z
  | Eq => if Z.even f then f else (f + 1)%Z
  end.

Definition signed (positive : bool) : number :=
  if positive then Infinity else NegInfinity.

Definition round (q : Q) : number :=
  let a := Qabs q in
  if Qeq_bool a 0 then Finite 0
  else
    let e := Z.max (exponent a - 52) (-1074) in
    let r := inject_Z (nearestEven (a / pow2 e)) * pow2 e in
    if Qle_bool (pow2 1024) r then signed (Qle_bool 0 q)
    else Finite (if Qle_bool 0 q then r else - r).

Definition neg (x : number) : number :=
  match x with
  | Finite q => Finite (- q)
  | Infinity => NegInfinity
  | NegInfinity => Infinity
  | NaN => NaN
  end.

Definition add (x y : number) : number :=
  match x, y with
  | Finite a, Finite b => round (a + b)
  | NaN, _ | _, NaN => NaN
  | Infinity, NegInfinity | NegInfinity, Infinity => NaN
  | Infinity, _ | _, Infinity => Infinity
  | NegInfinity, _ | _, NegInfinity => NegInfinity
  end.

Definition sub (x y : number) : number := add x (neg y).

(** An infinity of sign [positive] times the finite [a]. *)
Definition scaled (positive : bool) (a : Q) : number :=
  if Qeq_bool a 0 then NaN else signed (Bool.eqb positive (Qle_bool 0 a)).

Definition mul (x y : number) : number :=
  match x, y with
  | Finite a, Finite b => round (a * b)
  | NaN, _ | _, NaN => NaN
  | Infinity, Finite a | Finite a, Infinity => scaled true a
  | NegInfinity, Finite a | Finite a, NegInfinity => scaled false a
  | Infinity, Infinity | NegInfinity, NegInfinity => Infinity
  | Infinity, NegInfinity | NegInfinity, Infinity => NegInfinity
  end.

(** [x / y]; a zero divisor is +0. *)
Definition div (x y : number) : number :=
  match x, y with
  | NaN, _ | _, NaN => NaN
  | Finite a, Finite b =>
      if Qeq_bool b 0 then
        if Qeq_bool a 0 then NaN else signed (Qle_bool 0 a)
      else round (a / b)
  | Finite _, _ => Finite 0
  | Infinity, Finite b => signed (Qle_bool 0 b)
  | NegInfinity, Finite b => signed (negb (Qle_bool 0 b))
  | _, _ => NaN
  end.

(** [x < y] *)
Definition lt (x y : number) : bool :=
  match x, y with
  | NaN, _ | _, NaN => false
  | Finite a, Finite b => negb (Qle_bool b a)
  | _, NegInfinity => false
  | NegInfinity, _ => true
  | Infinity, _ => false
  | _, Infinity => true
  end.

(** [x <= y] *)
Definition le (x y : number) : bool :=
  match x, y with
  | NaN, _ | _, NaN => false
  | Finite a, Finite b => Qle_bool a b
  | NegInfinity, _ => true
  | _, Infinity => true
  | _, _ => false
  end.

Definition negative (x : number) : bool := lt x (Finite 0).

Definition isNaN (x : number) : bool :=
  match x with NaN => true | _ => false end.

End Double.

(** ** Verification votes and results (types/index.ts) *)

Inductive Consensus := PASS | FAIL | SPLIT.

#[global] Instance Consensus_eq_dec : EqDecision Consensus.
Proof. solve_decision. Defined.

Record VerificationVote := {
  verifierId : string;
  vote : string;
  reason : string;
  reproducibilityScore : Q;
  noveltyScore : Q;
  feasibilityScore : Q
}.

Record VerificationResult := {
  findingId : string;
  votes : list VerificationVote;
  consensus : Consensus;
  confidenceScore : Double.number;
  autoSubmit : bool
}.

(** [votes.filter((v) => v.vote === 'pass').length] *)
Definition passCount (vs : list VerificationVote) : nat :=
  length (List.filter (fun v => String.eqb (vote v) "pass") vs).

(** [votes.reduce((sum, v) => sum + (r + n + f) / 3, 0) / votes.length] *)
Definition avgConfidence (vs : list VerificationVote) : Double.number :=
  Double.div
    (fold_left
       (fun sum v =>
          Double.add sum
            (Double.div
               (Double.add
                  (Double.add (Double.round (reproducibilityScore v))
                     (Double.round (noveltyScore v)))
                  (Double.round (feasibilityScore v)))
               (Double.Finite 3)))
       vs (Double.Finite 0))
    (Double.Finite (inject_Z (Z.of_nat (length vs)))).

Module Tribunal.

Record TribunalConfig := {
  verifierCount : nat;
  passThreshold : nat;
  autoSubmitThreshold : nat
}.

(** The constructor's defaults: [config?.x ?? 3], [?? 2], [?? 3]. *)
Definition defaultConfig : TribunalConfig :=
  {| verifierCount := 3; passThreshold := 2; autoSubmitThreshold := 3 |}.

(** The [result] built by [VerificationTribunal.verify] from the votes. *)
Definition verify_result (config : TribunalConfig) (fid : string)
    (vs : list VerificationVote) : VerificationResult :=
  let pc := passCount vs in
  {| findingId := fid;
     votes := vs;
     consensus :=
       if autoSubmitThreshold config <=? pc then PASS
       else if passThreshold config <=? pc then PASS
       else if 0 <? pc then SPLIT
       else FAIL;
     confidenceScore := avgConfidence vs;
     autoSubmit := autoSubmitThreshold config <=? pc |}.

(** [verify(exploit)]: one vote per verifier of the panel, all awaited
    together; [runVerifier v] is the promise of verifier number [v]. *)
Definition verify (config : TribunalConfig) (fid : string)
    (runVerifier : nat -> Result VerificationVote)
  : Result VerificationResult :=
  await vs <- Promise_all runVerifier (seq 1 (verifierCount config));
  Ok (verify_result config fid vs).

End Tribunal.

(** ** JavaScript string operations used by the agents *)

Module JS.

(** White space and line terminators below code unit 256: TAB, LF, VT,
    FF, CR, SP and NBSP. This is both [\s] and what [trim] strips. *)
Definition isWhiteSpace (c : ascii) : bool :=
  let n := nat_of_ascii c in
  ((9 <=? n) && (n <=? 13)) || (n =? 32) || (n =? 160).

(** [\w]: the class [[A-Za-z0-9_]]. *)
Definition isWordChar (c : ascii) : bool :=
  let n := nat_of_ascii c in
  ((48 <=? n) && (n <=? 57)) || ((65 <=? n) && (n <=? 90))
  || (n =? 95) || ((97 <=? n) && (n <=? 122)).

(** Case folding of the [i] flag, restricted to code units below 256:
    only the ASCII letters have a partner. *)
Definition toLower (c : ascii) : ascii :=
  let n := nat_of_ascii c in
  if (65 <=? n) && (n <=? 90) then ascii_of_nat (n + 32) else c.

Fixpoint trimStart (s : string) : string :=
  match s with
  | String c s' => if isWhiteSpace c then trimStart s' else s
  | EmptyString => EmptyString
  end.

(** [trimEnd s] keeps the prefix of [s] that ends at its last character
    that is not white space. *)
Fixpoint trimEnd (s : string) : string :=
  match s with
  | EmptyString => EmptyString
  | String c s' =>
      match trimEnd s' with
      | EmptyString => if isWhiteSpace c then EmptyString else String c EmptyString
      | t => String c t
      end
  end.

Definition trim (s : string) : string := trimEnd (trimStart s).

(** [s.slice(n)] for [n] within the string. *)
Fixpoint drop (n : nat) (s : string) : string :=
  match n, s with
  | S n', String _ s' => drop n' s'
  | _, _ => s
  end.

(** The suffix of [s] that starts right after the first occurrence of
    [pat], together with the text before that occurrence. *)
Fixpoint splitAt (pat s : string) : option (string * string) :=
  if String.prefix pat s then Some (EmptyString, drop (String.length pat) s)
  else
    match s with
    | EmptyString => None
    | String c s' =>
        match splitAt pat s' with
        | Some (before, after) => Some (String c before, after)
        | None => None
        end
    end.

(** The suffix of [s] that starts at the first occurrence of [c]. *)
Fixpoint fromFirst (c : ascii) (s : string) : option string :=
  match s with
  | EmptyString => None
  | String a s' => if Ascii.eqb a c then Some s else fromFirst c s'
  end.

(** The prefix of [s] that ends at the last occurrence of [c]. *)
Fixpoint uptoLast (c : ascii) (s : string) : option string :=
  match s with
  | EmptyString => None
  | String a s' =>
      match uptoLast c s' with
      | Some p => Some (String a p)
      | None => if Ascii.eqb a c then Some (String a EmptyString) else None
      end
  end.

(** [s.match(/O[\s\S]*C/)] for single characters [O] and [C]: the match
    starts at the first [O] that has a [C] after it and, the star being
    greedy, ends at the last [C] of the string. *)
Definition matchGreedy (o c : ascii) (s : string) : option string :=
  match fromFirst o s with
  | Some (String _ rest) =>
      match uptoLast c rest with
      | Some body => Some (String o body)
      | None => None
      end
  | _ => None
  end.

(** Capture group 1 of [s.match(/```(?:json)?\s*([\s\S]*?)```/)].
    The match starts at the first fence; the optional [json] and the
    white space after it are consumed greedily (neither can hide the start
    of a closing fence, so no backtracking changes the outcome), and the
    lazy star stops at the first fence that follows. Without a closing
    fence there is no match at all. *)
Definition matchFence (s : string) : option string :=
  match splitAt "```" s with
  | Some (_, rest) =>
      let rest1 := if String.prefix "json" rest then drop 4 rest else rest in
      let rest2 := trimStart rest1 in
      match splitAt "```" rest2 with
      | Some (captured, _) => Some captured
      | None => None
      end
  | None => None
  end.

(** Does [s] start with the word [w] (given in lower case), compared
    without regard to case, and followed by a word boundary? *)
Fixpoint startsWithWord (w s : string) : bool :=
  match w, s with
  | EmptyString, EmptyString => true
  | EmptyString, String c _ => negb (isWordChar c)
  | String a w', String c s' => Ascii.eqb a (toLower c) && startsWithWord w' s'
  | String _ _, EmptyString => false
  end.

(** [re.test(s)] for a pattern [/\b(w1|w2|...)\b/i] whose alternatives
    begin and end with a word character: some alternative occurs at a
    position that is preceded by no word character and followed by
    none. [prevWord] tells whether the character before [s] is one. *)
Fixpoint testWords (ws : list string) (prevWord : bool) (s : string) : bool :=
  (negb prevWord && existsb (fun w => startsWithWord w s) ws)
  || match s with
     | EmptyString => false
     | String c s' => testWords ws (isWordChar c) s'
     end.

End JS.

(** ** [JSON.parse]

    The built-in parser, as a recursive-descent recogniser of the JSON
    grammar that returns the syntax tree. Number and string tokens are kept
    as their source text. The fuel bounds the nesting depth and the number
    of elements of a container; [parse] starts with more fuel than the text
    has characters. *)

Module JSON.

Inductive value :=
| JNull
| JBool (b : bool)
| JNumber (literal : string)
| JString (raw : string)
| JArray (items : list value)
| JObject (members : list (string * value)).

Definition isJsonSpace (c : ascii) : bool :=
  let n := nat_of_ascii c in
  (n =? 9) || (n =? 10) || (n =? 13) || (n =? 32).

Definition isDigit (c : ascii) : bool :=
  let n := nat_of_ascii c in (48 <=? n) && (n <=? 57).

Definition isHex (c : ascii) : bool :=
  let n := nat_of_ascii c in
  ((48 <=? n) && (n <=? 57)) || ((65 <=? n) && (n <=? 70))
  || ((97 <=? n) && (n <=? 102)).

Fixpoint skipWs (s : string) : string :=
  match s with
  | String c s' => if isJsonSpace c then skipWs s' else s
  | EmptyString => EmptyString
  end.

(** The characters of a string token up to its closing quote. [mode] is
    0 in plain text, 1 right after a backslash, and 2..5 while that many
    minus one hexadecimal digits of a [\u] escape are still due. *)
Fixpoint stringBody (mode : nat) (s : string) : option (string * string) :=
  match s with
  | EmptyString => None
  | String c s' =>
      let keep mode' :=
        match stringBody mode' s' with
        | Some (raw, rest) => Some (String c raw, rest)
        | None => None
        end in
      match mode with
      | 0 =>
          if Ascii.eqb c "034" then Some (EmptyString, s')
          else if Ascii.eqb c "\" then keep 1
          else if nat_of_ascii c <? 32 then None
          else keep 0
      | 1 =>
          if Ascii.eqb c "u" then keep 5
          else if existsb (Ascii.eqb c)
                    ["034"; "\"; "/"; "b"; "f"; "n"; "r"; "t"]%char
          then keep 0 else None
      | 2 => if isHex c then keep 0 else None
      | S m => if isHex c then keep m else None
      end
  end.

Fixpoint spanDigits (s : string) : string * string :=
  match s with
  | String c s' =>
      if isDigit c then let (d, r) := spanDigits s' in (String c d, r)
      else (EmptyString, s)
  | EmptyString => (EmptyString, EmptyString)
  end.

(** A number token: an optional minus sign, an integer part without a
    leading zero (unless it is the single digit 0), an optional fraction
    (a dot and at least one digit), an optional exponent (e or E, an
    optional sign, at least one digit). *)
Definition number (s : string) : option (string * string) :=
  let (sign, s1) :=
    match s with
    | String "-" r => ("-", r)
    | _ => (EmptyString, s)
    end in
  let (int, s2) := spanDigits s1 in
  let intOk :=
    match int with
    | EmptyString => false
    | String "0" (String _ _) => false
    | _ => true
    end in
  if negb intOk then None else
  let fracPart :=
    match s2 with
    | String "." r =>
        let (d, r') := spanDigits r in
        match d with
        | EmptyString => None
        | _ => Some (String "." d, r')
        end
    | _ => Some (EmptyString, s2)
    end in
  match fracPart with
  | None => None
  | Some (frac, s3) =>
      let expPart :=
        match s3 with
        | String e r =>
            if Ascii.eqb e "e" || Ascii.eqb e "E" then
              let (sg, r1) :=
                match r with
                | String "+" r0 => ("+", r0)
                | String "-" r0 => ("-", r0)
                | _ => (EmptyString, r)
                end in
              let (d, r') := spanDigits r1 in
              match d with
              | EmptyString => None
              | _ => Some (String e (sg +:+ d), r')
              end
            else Some (EmptyString, s3)
        | EmptyString => Some (EmptyString, s3)
        end in
      match expPart with
      | None => None
      | Some (ex, s4) => Some (sign +:+ int +:+ frac +:+ ex, s4)
      end
  end.

(** The elements of an array after the first one has been located:
    [pv] parses one value. *)
Fixpoint elements (pv : string -> option (value * string)) (n : nat)
    (s : string) : option (list value * string) :=
  match n with
  | 0 => None
  | S n' =>
      match pv s with
      | None => None
      | Some (v, r) =>
          match skipWs r with
          | String "]" r' => Some ([v], r')
          | String "," r' =>
              match elements pv n' r' with
              | Some (vs, r'') => Some (v :: vs, r'')
              | None => None
              end
          | _ => None
          end
      end
  end.

Fixpoint members (pv : string -> option (value * string)) (n : nat)
    (s : string) : option (list (string * value) * string) :=
  match n with
  | 0 => None
  | S n' =>
      match skipWs s with
      | String "034" r =>
          match stringBody 0 r with
          | None => None
          | Some (key, r1) =>
              match skipWs r1 with
              | String ":" r2 =>
                  match pv r2 with
                  | None => None
                  | Some (v, r3) =>
                      match skipWs r3 with
                      | String "}" r' => Some ([(key, v)], r')
                      | String "," r' =>
                          match members pv n' r' with
                          | Some (kvs, r'') => Some ((key, v) :: kvs, r'')
                          | None => None
                          end
                      | _ => None
                      end
                  end
              | _ => None
              end
          end
      | _ => None
      end
  end.

Fixpoint parseValue (fuel : nat) (s : string) : option (value * string) :=
  match fuel with
  | 0 => None
  | S fuel' =>
      match skipWs s with
      | EmptyString => None
      | String c r =>
          if Ascii.eqb c "n" then
            if String.prefix "ull" r then Some (JNull, JS.drop 3 r) else None
          else if Ascii.eqb c "t" then
            if String.prefix "rue" r then Some (JBool true, JS.drop 3 r) else None
          else if Ascii.eqb c "f" then
            if String.prefix "alse" r then Some (JBool false, JS.drop 4 r) else None
          else if Ascii.eqb c "034" then
            match stringBody 0 r with
            | Some (raw, r') => Some (JString raw, r')
            | None => None
            end
          else if Ascii.eqb c "[" then
            match skipWs r with
            | String "]" r' => Some (JArray [], r')
            | r0 =>
                match elements (parseValue fuel') fuel' r0 with
                | Some (vs, r') => Some (JArray vs, r')
                | None => None
                end
            end
          else if Ascii.eqb c "{" then
            match skipWs r with
            | String "}" r' => Some (JObject [], r')
            | r0 =>
                match members (parseValue fuel') fuel' r0 with
                | Some (kvs, r') => Some (JObject kvs, r')
                | None => None
                end
            end
          else
            match number (String c r) with
            | Some (lit, r') => Some (JNumber lit, r')
            | None => None
            end
      end
  end.

(** [JSON.parse(s)]: [None] stands for the [SyntaxError]. *)
Definition parse (s : string) : option value :=
  match parseValue (S (String.length s)) s with
  | Some (v, rest) =>
      match skipWs rest with
      | EmptyString => Some v
      | _ => None
      end
  | None => None
  end.

End JSON.

(** ** The base agent (agents/base-agent.ts) *)

Module Agent.

(** [getInfo().name] is all the pipeline reads of an agent; what the agent
    answers is given by the oracle of the caller. *)
Record DynamicAgent := { name : string }.

(** [analyzeStructured<T>(prompt)]. [response] is the outcome of
    [this.analyze(prompt)] (its [content]), [JSON_parse] is
    [JSON.parse(...) as T]. *)
Definition analyzeStructured {T : Type} (JSON_parse : string -> option T)
    (response : Result string) : Result T :=
  await content <- response;
  let jsonStr :=
    match JS.matchFence content with
    | Some group1 => group1
    | None => content
    end in
  match JSON_parse (JS.trim jsonStr) with
  | Some data => Ok data
  | None =>
      let objectMatch := JS.matchGreedy "{" "}" jsonStr in
      let arrayMatch := JS.matchGreedy "[" "]" jsonStr in
      let match_ :=
        match objectMatch with
        | Some m => Some m
        | None => arrayMatch
        end in
      match match_ with
      | Some m0 =>
          match JSON_parse m0 with
          | Some data => Ok data
          | None => Throw "SyntaxError"
          end
      | None => Throw "Failed to parse JSON from response"
      end
  end.

(** /\b(concede|accept|valid point|they're right|cannot defend|unable to defend)\b/i *)
Definition concedesPattern_test (s : string) : bool :=
  JS.testWords
    ["concede"; "accept"; "valid point"; "they're right";
     "cannot defend"; "unable to defend"]
    false s.

End Agent.

(** ** The structured parse as the specification words it

    "extract the first fenced code block if present, else the first
    balanced {...} or [...] region, then parse as structured data; raises a
    parse error if neither succeeds". *)

Module StructuredSpec.

(** The text up to the bracket that closes the one already open;
    [depth] counts the brackets of the same kind that are open inside. *)
Fixpoint closeBalanced (o c : ascii) (depth : nat) (s : string) : option string :=
  match s with
  | EmptyString => None
  | String a s' =>
      if Ascii.eqb a c then
        match depth with
        | 0 => Some (String a EmptyString)
        | S d => option_map (String a) (closeBalanced o c d s')
        end
      else if Ascii.eqb a o then option_map (String a) (closeBalanced o c (S depth) s')
      else option_map (String a) (closeBalanced o c depth s')
  end.

(** The first balanced region: it starts at the first brace or bracket of
    the text. *)
Fixpoint firstBalanced (s : string) : option string :=
  match s with
  | EmptyString => None
  | String a s' =>
      if Ascii.eqb a "{" then option_map (String a) (closeBalanced "{" "}" 0 s')
      else if Ascii.eqb a "[" then option_map (String a) (closeBalanced "[" "]" 0 s')
      else firstBalanced s'
  end.

(** Modelled on the words of the specification: the fenced block is tried
    first, then the balanced region; the parse error is raised when neither
    yields data. *)
Definition respondStructured {T : Type} (parse : string -> option T)
    (text : string) : Result T :=
  let fenced :=
    match JS.matchFence text with
    | Some block => parse block
    | None => None
    end in
  match fenced with
  | Some data => Ok data
  | None =>
      match firstBalanced text with
      | Some region =>
          match parse region with
          | Some data => Ok data
          | None => Throw "ParseError"
          end
      | None => Throw "ParseError"
      end
  end.

(** [m] is the span of [s] from its first [o] to its last [c]. *)
Definition greedySpan (o c : ascii) (s m : string) : Prop :=
  exists before body after,
    s = before +:+ String o body +:+ String c after
    /\ m = String o body +:+ String c EmptyString
    /\ JS.fromFirst o before = None
    /\ JS.uptoLast c after = None.

(** The span that [analyzeStructured] falls back to: braces first,
    brackets when there is no brace span. *)
Definition bracketSpan (s m : string) : Prop :=
  greedySpan "{" "}" s m
  \/ ((forall m', ~ greedySpan "{" "}" s m') /\ greedySpan "[" "]" s m).

End StructuredSpec.

(** ** The data model (types/index.ts)

    Record fields carry a short prefix of their record ([f_] finding, [e_]
    debate entry, [r_] round, [s_] session, [c_] contract) because several
    of the source names ([id], [type], [round], [status]) are taken. *)

Inductive Severity := CRITICAL | HIGH | MEDIUM | LOW | INFORMATIONAL.

Inductive FindingStatus :=
  proposed | debating | validated | rejected | exploited | submitted.

Inductive DebateRole := proposer | red_team | blue_team | devils_advocate | pope.

Inductive DebateAction :=
  present | attack | defend | challenge | concede | synthesize.

Inductive RoundType := PRESENTATION | ATTACK | DEFENSE | DEVILS_ADVOCATE | FINAL.

Inductive RoundOutcome := CONTINUES | CONSENSUS | REJECTED.

#[global] Instance Severity_eq_dec : EqDecision Severity.
Proof. solve_decision. Defined.
#[global] Instance FindingStatus_eq_dec : EqDecision FindingStatus.
Proof. solve_decision. Defined.
#[global] Instance DebateAction_eq_dec : EqDecision DebateAction.
Proof. solve_decision. Defined.
#[global] Instance DebateRole_eq_dec : EqDecision DebateRole.
Proof. solve_decision. Defined.

Record DebateEntry := {
  e_round : nat;
  e_speaker : string;
  e_role : DebateRole;
  e_content : string;
  e_action : DebateAction;
  e_timestamp : nat;
  e_targetFinding : option string
}.

Record DebateRound := {
  r_roundNumber : nat;
  r_type : RoundType;
  r_entries : list DebateEntry;
  r_outcome : RoundOutcome
}.

Record VulnerabilityFinding := {
  f_id : string;
  f_type : string;
  f_title : string;
  f_description : string;
  f_severity : Severity;
  f_confidence : Q;
  f_discoveredBy : string;
  f_status : FindingStatus;
  f_debateHistory : option (list DebateEntry)
}.

Definition set_status (st : FindingStatus) (f : VulnerabilityFinding)
  : VulnerabilityFinding :=
  {| f_id := f_id f; f_type := f_type f; f_title := f_title f;
     f_description := f_description f; f_severity := f_severity f;
     f_confidence := f_confidence f; f_discoveredBy := f_discoveredBy f;
     f_status := st; f_debateHistory := f_debateHistory f |}.

Definition set_debateHistory (h : option (list DebateEntry))
    (f : VulnerabilityFinding) : VulnerabilityFinding :=
  {| f_id := f_id f; f_type := f_type f; f_title := f_title f;
     f_description := f_description f; f_severity := f_severity f;
     f_confidence := f_confidence f; f_discoveredBy := f_discoveredBy f;
     f_status := f_status f; f_debateHistory := h |}.

Definition set_assessment (sev : Severity) (conf : Q)
    (f : VulnerabilityFinding) : VulnerabilityFinding :=
  {| f_id := f_id f; f_type := f_type f; f_title := f_title f;
     f_description := f_description f; f_severity := sev;
     f_confidence := conf; f_discoveredBy := f_discoveredBy f;
     f_status := f_status f; f_debateHistory := f_debateHistory f |}.

(** [finding.debateHistory = finding.debateHistory ?? []; .push(e)] *)
Definition history_init_push (e : DebateEntry) (f : VulnerabilityFinding)
  : VulnerabilityFinding :=
  set_debateHistory (Some (default [] (f_debateHistory f) ++ [e])) f.

(** [finding.debateHistory?.push(e)]: nothing happens while the list is
    undefined. *)
Definition history_push (e : DebateEntry) (f : VulnerabilityFinding)
  : VulnerabilityFinding :=
  match f_debateHistory f with
  | Some h => set_debateHistory (Some (h ++ [e])) f
  | None => f
  end.

Record ContractInfo := {
  c_address : string;
  c_name : string;
  c_chain : string;
  c_sourceCode : string
}.

(** A debate session; [F] is how the session holds its findings: the
    arena owns copies, the orchestrator keeps references into
    [state.findings]. *)
Record DebateSession (F : Type) := {
  s_id : string;
  s_contractAddress : string;
  s_findings : list F;
  s_rounds : list DebateRound;
  s_participants : list string;
  s_startTime : nat;
  s_endTime : option nat
}.
Arguments s_id {F} _.
Arguments s_contractAddress {F} _.
Arguments s_findings {F} _.
Arguments s_rounds {F} _.
Arguments s_participants {F} _.
Arguments s_startTime {F} _.
Arguments s_endTime {F} _.

(** [for (const x of xs) { ... await ... }] over a loop state [S]: the
    first rejection leaves the loop. *)
Fixpoint for_of {S A : Type} (body : A -> S -> Result S) (xs : list A) (s : S)
  : Result S :=
  match xs with
  | [] => Ok s
  | x :: xs' =>
      await s' <- body x s;
      for_of body xs' s'
  end.

(** [xs.findIndex(p)] *)
Fixpoint findIndex {A : Type} (p : A -> bool) (xs : list A) : option nat :=
  match xs with
  | [] => None
  | x :: xs' => if p x then Some 0 else option_map S (findIndex p xs')
  end.

(** ** The debate arena (class [DebateArena]) *)

Module Arena.

Import Agent.

Record DebateConfig := {
  maxRounds : nat;
  redTeamSize : nat;
  blueTeamSize : nat;
  devilsAdvocateSize : nat;
  concessionThreshold : Q
}.

Definition defaultConfig : DebateConfig :=
  {| maxRounds := 5; redTeamSize := 3; blueTeamSize := 2;
     devilsAdvocateSize := 2; concessionThreshold := 3 # 10 |}.

(** What the arena cannot decide by itself. Every call is identified by
    the round and by the position of its finding in [session.findings]. *)
Record World := {
  (** the [content] of [agent.analyze(prompt)], or its rejection *)
  analyze : nat -> nat -> Result string;
  (** the natural number behind [Math.floor(Math.random() * n)], which
      is this number modulo [n] *)
  random : nat -> nat -> nat;
  (** [Math.random() > 0.5] of the defense round *)
  coin : nat -> bool;
  (** [new Date()] *)
  Date_now : nat -> nat -> nat;
  (** [content.match(/(?:should|could|need to|must)[^.!?]+[.!?]/gi) ?? []] *)
  feedback : string -> list string
}.

Inductive Fate := alive | dead.
#[global] Instance Fate_eq_dec : EqDecision Fate.
Proof. solve_decision. Defined.

Record DebateResult := {
  session : DebateSession VulnerabilityFinding;
  survivors : list nat;
  rejectedFindings : list (nat * string);
  strengthened : list (nat * list string)
}.

(** [initializeAgents] *)
Definition spawnTeam (prefix : string) (size : nat) : list DynamicAgent :=
  map (fun i => {| name := prefix +:+ pretty i |}) (seq 1 size).

Definition redTeam (config : DebateConfig) : list DynamicAgent :=
  spawnTeam "RedTeamAttacker_" (redTeamSize config).
Definition blueTeam (config : DebateConfig) : list DynamicAgent :=
  spawnTeam "BlueTeamDefender_" (blueTeamSize config).
Definition devilsAdvocates (config : DebateConfig) : list DynamicAgent :=
  spawnTeam "DevilsAdvocate_" (devilsAdvocateSize config).

(** [team[Math.floor(Math.random() * team.length)]] *)
Definition pick (team : list DynamicAgent) (r : nat) : option DynamicAgent :=
  team !! (r mod length team).

(** [agent.analyze(prompt)] on a possibly undefined agent: calling a
    method of [undefined] throws. *)
Definition analyzeBy (W : World) (agent : option DynamicAgent) (rnd i : nat)
  : Result string :=
  match agent with
  | Some _ => analyze W rnd i
  | None => Throw "TypeError"
  end.

Definition speakerOf (agent : option DynamicAgent) : string :=
  match agent with Some a => name a | None => EmptyString end.

(** The loop state of a round: the findings of the session, which the
    round mutates in place, and the entries collected so far. *)
Definition RoundState : Type := list VulnerabilityFinding * list DebateEntry.

Definition runPresentationRound (W : World)
    (specialists : gmap string DynamicAgent) (findings : list nat)
    (store : list VulnerabilityFinding) : Result RoundState :=
  for_of
    (fun i '(store, entries) =>
       match store !! i with
       | None => Ok (store, entries)
       | Some finding =>
           match specialists !! f_discoveredBy finding with
           | None => Ok (store, entries)
           | Some specialist =>
               await response <- analyze W 1 i;
               let entry :=
                 {| e_round := 1; e_speaker := f_discoveredBy finding;
                    e_role := proposer; e_content := response;
                    e_action := present; e_timestamp := Date_now W 1 i;
                    e_targetFinding := Some (f_id finding) |} in
               Ok (alter (history_init_push entry) i store, entries ++ [entry])
           end
       end)
    findings (store, []).

Definition runAttackRound (W : World) (config : DebateConfig)
    (findings : list nat) (store : list VulnerabilityFinding)
  : Result RoundState :=
  for_of
    (fun i '(store, entries) =>
       match store !! i with
       | None => Ok (store, entries)
       | Some finding =>
           let attacker := pick (redTeam config) (random W 2 i) in
           await response <- analyzeBy W attacker 2 i;
           let entry :=
             {| e_round := 2; e_speaker := speakerOf attacker;
                e_role := red_team; e_content := response;
                e_action := attack; e_timestamp := Date_now W 2 i;
                e_targetFinding := Some (f_id finding) |} in
           Ok (alter (history_push entry) i store, entries ++ [entry])
       end)
    findings (store, []).

Definition targets (fid : string) (e : DebateEntry) : bool :=
  bool_decide (e_targetFinding e = Some fid).

Definition runDefenseRound (W : World) (config : DebateConfig)
    (specialists : gmap string DynamicAgent) (attackRound : DebateRound)
    (findings : list nat) (store : list VulnerabilityFinding)
  : Result RoundState :=
  for_of
    (fun i '(store, entries) =>
       match store !! i with
       | None => Ok (store, entries)
       | Some finding =>
           match List.find (targets (f_id finding)) (r_entries attackRound) with
           | None => Ok (store, entries)
           | Some attack_ =>
               let defender :=
                 if coin W i then pick (blueTeam config) (random W 3 i)
                 else specialists !! f_discoveredBy finding in
               match defender with
               | None => Ok (store, entries)
               | Some d =>
                   await response <- analyze W 3 i;
                   let action :=
                     if concedesPattern_test response then concede else defend in
                   let entry :=
                     {| e_round := 3; e_speaker := name d;
                        e_role := blue_team; e_content := response;
                        e_action := action; e_timestamp := Date_now W 3 i;
                        e_targetFinding := Some (f_id finding) |} in
                   Ok (alter (history_push entry) i store, entries ++ [entry])
               end
           end
       end)
    findings (store, []).

Definition runDevilsAdvocateRound (W : World) (config : DebateConfig)
    (findings : list nat) (store : list VulnerabilityFinding)
  : Result RoundState :=
  for_of
    (fun i '(store, entries) =>
       match store !! i with
       | None => Ok (store, entries)
       | Some finding =>
           let advocate := pick (devilsAdvocates config) (random W 4 i) in
           await response <- analyzeBy W advocate 4 i;
           let entry :=
             {| e_round := 4; e_speaker := speakerOf advocate;
                e_role := devils_advocate; e_content := response;
                e_action := challenge; e_timestamp := Date_now W 4 i;
                e_targetFinding := Some (f_id finding) |} in
           Ok (alter (history_push entry) i store, entries ++ [entry])
       end)
    findings (store, []).

Definition runFinalRound (W : World) (config : DebateConfig)
    (findings : list nat) (store : list VulnerabilityFinding)
  : Result RoundState :=
  for_of
    (fun i '(store, entries) =>
       match store !! i with
       | None => Ok (store, entries)
       | Some finding =>
           let defender := blueTeam config !! 0 in
           await response <- analyzeBy W defender 5 i;
           let entry :=
             {| e_round := 5; e_speaker := speakerOf defender;
                e_role := blue_team; e_content := response;
                e_action := defend; e_timestamp := Date_now W 5 i;
                e_targetFinding := Some (f_id finding) |} in
           Ok (alter (history_push entry) i store, entries ++ [entry])
       end)
    findings (store, []).

(** [processConcessions]. The truthiness test [&& entry.targetFinding]
    skips an undefined target and the empty string alike. *)
Definition processConcessions (defenseRound : DebateRound)
    (st : list VulnerabilityFinding * gmap string Fate)
  : list VulnerabilityFinding * gmap string Fate :=
  fold_left
    (fun '(store, status) entry =>
       match e_action entry, e_targetFinding entry with
       | concede, Some target =>
           if String.eqb target EmptyString then (store, status)
           else
             let status' := <[target := dead]> status in
             match findIndex (fun f => String.eqb (f_id f) target) store with
             | Some k => (alter (set_status rejected) k store, status')
             | None => (store, status')
             end
       | _, _ => (store, status)
       end)
    (r_entries defenseRound) st.

(** [session.findings.filter((f) => findingStatus.get(f.id) === 'alive')],
    as the positions of the selected findings. *)
Definition aliveFindings (store : list VulnerabilityFinding)
    (status : gmap string Fate) : list nat :=
  List.filter
    (fun i =>
       match store !! i with
       | Some f => bool_decide (status !! f_id f = Some alive)
       | None => false
       end)
    (seq 0 (length store)).

Definition actionIs (a : DebateAction) (e : DebateEntry) : bool :=
  bool_decide (e_action e = a).

(** The reason recorded by [compileResults] for a rejected finding. *)
Definition rejectionReason (f : VulnerabilityFinding) : string :=
  let h := default [] (f_debateHistory f) in
  match List.find (actionIs concede) h with
  | Some e => e_content e
  | None =>
      match List.find (actionIs attack) h with
      | Some e => e_content e
      | None => "Rejected during debate"
      end
  end.

Definition improvementsOf (W : World) (f : VulnerabilityFinding) : list string :=
  flat_map (fun e => feedback W (e_content e))
    (List.filter
       (fun e => bool_decide (e_role e = devils_advocate)
                 || bool_decide (e_role e = red_team))
       (default [] (f_debateHistory f))).

Record Compiled := {
  cp_store : list VulnerabilityFinding;
  cp_survivors : list nat;
  cp_rejected : list (nat * string);
  cp_strengthened : list (nat * list string)
}.

Definition compileResults (W : World) (store : list VulnerabilityFinding)
    (status : gmap string Fate) : Compiled :=
  fold_left
    (fun acc i =>
       match cp_store acc !! i with
       | None => acc
       | Some finding =>
           if bool_decide (status !! f_id finding = Some dead) then
             {| cp_store := alter (set_status rejected) i (cp_store acc);
                cp_survivors := cp_survivors acc;
                cp_rejected := cp_rejected acc ++ [(i, rejectionReason finding)];
                cp_strengthened := cp_strengthened acc |}
           else
             let improvements := improvementsOf W finding in
             {| cp_store := alter (set_status validated) i (cp_store acc);
                cp_survivors := cp_survivors acc ++ [i];
                cp_rejected := cp_rejected acc;
                cp_strengthened :=
                  if 0 <? length improvements
                  then cp_strengthened acc ++ [(i, improvements)]
                  else cp_strengthened acc |}
       end)
    (seq 0 (length store))
    {| cp_store := store; cp_survivors := []; cp_rejected := [];
       cp_strengthened := [] |}.

Definition mkRound (n : nat) (t : RoundType) (es : list DebateEntry)
    (o : RoundOutcome) : DebateRound :=
  {| r_roundNumber := n; r_type := t; r_entries := es; r_outcome := o |}.

(** [debate(findings, contracts, specialists)] *)
Definition debate (W : World) (config : DebateConfig)
    (findings : list VulnerabilityFinding) (contracts : list ContractInfo)
    (specialists : gmap string DynamicAgent) : Result DebateResult :=
  let store0 := map (set_status debating) findings in
  let participants :=
    map fst (map_to_list specialists)
    ++ map name (redTeam config) ++ map name (blueTeam config)
    ++ map name (devilsAdvocates config) in
  let findingStatus : gmap string Fate :=
    fold_left (fun m f => <[f_id f := alive]> m) findings ∅ in
  (* Round 1 *)
  await r1 <- runPresentationRound W specialists (seq 0 (length store0)) store0;
  let presentationRound := mkRound 1 PRESENTATION r1.2 CONTINUES in
  (* Round 2 *)
  await r2 <- runAttackRound W config (aliveFindings r1.1 findingStatus) r1.1;
  let attackRound := mkRound 2 ATTACK r2.2 CONTINUES in
  (* Round 3 *)
  await r3 <- runDefenseRound W config specialists attackRound
                (aliveFindings r2.1 findingStatus) r2.1;
  let defenseRound := mkRound 3 DEFENSE r3.2 CONTINUES in
  let '(store3, findingStatus3) :=
    processConcessions defenseRound (r3.1, findingStatus) in
  (* Round 4 *)
  await r4 <- runDevilsAdvocateRound W config
                (aliveFindings store3 findingStatus3) store3;
  let daRound := mkRound 4 DEVILS_ADVOCATE r4.2 CONTINUES in
  let rounds4 := [presentationRound; attackRound; defenseRound; daRound] in
  (* Round 5 *)
  let survivors5 := aliveFindings r4.1 findingStatus3 in
  await r5 <-
    (if (0 <? length survivors5) && (length rounds4 <? maxRounds config) then
       await r <- runFinalRound W config survivors5 r4.1;
       Ok (r.1, rounds4 ++ [mkRound 5 FINAL r.2 CONSENSUS])
     else Ok (r4.1, rounds4));
  let compiled := compileResults W r5.1 findingStatus3 in
  Ok {| session :=
          {| s_id := "debate-" +:+ pretty (Date_now W 0 0);
             s_contractAddress :=
               match contracts with
               | c :: _ => c_address c
               | [] => "unknown"
               end;
             s_findings := cp_store compiled;
             s_rounds := r5.2;
             s_participants := participants;
             s_startTime := Date_now W 0 1;
             s_endTime := Some (Date_now W 6 0) |};
        survivors := cp_survivors compiled;
        rejectedFindings := cp_rejected compiled;
        strengthened := cp_strengthened compiled |}.

End Arena.

(** ** What the synthesis oracle returns and what is made of it *)

(** An element of [validated_vulnerabilities]. *)
Record ValidatedRef := {
  v_id : string;
  v_title : string;
  v_description : string;
  v_severity : Severity;
  v_confidence : Q
}.

(** An element of [rejected_vulnerabilities]. *)
Record RejectedRef := {
  rj_id : string;
  rj_reason : string
}.

(** The type argument of the Pope's [analyzeStructured] call. *)
Record SynthesisData := {
  d_synthesis : string;
  d_validated_vulnerabilities : list ValidatedRef;
  d_rejected_vulnerabilities : list RejectedRef;
  d_novel_insights : list string;
  d_combined_attack_vector : option string;
  d_recommended_severity : Severity;
  d_estimated_impact_usd : Q;
  d_confidence : Q
}.

(** [PopeSynthesis]; [F] is how a finding is held (see [DebateSession]),
    [R] what stands for the finding of a rejection. *)
Record PopeSynthesis (F R : Type) := {
  p_summary : string;
  p_validatedVulnerabilities : list F;
  p_rejectedVulnerabilities : list (R * string);
  p_novelInsights : list string;
  p_combinedAttackVector : option string;
  p_recommendedSeverity : Severity;
  p_estimatedImpactUsd : Q;
  p_confidence : Q
}.
Arguments p_summary {F R} _.
Arguments p_validatedVulnerabilities {F R} _.
Arguments p_rejectedVulnerabilities {F R} _.
Arguments p_novelInsights {F R} _.
Arguments p_combinedAttackVector {F R} _.
Arguments p_recommendedSeverity {F R} _.
Arguments p_estimatedImpactUsd {F R} _.
Arguments p_confidence {F R} _.

(** ** The Pope (agents/synthesis/the-pope.ts) *)

Module Pope.

(** [allFindings.find((f) => f.id === v.id || f.title === v.title)] *)
Definition findOriginal (allFindings : list VulnerabilityFinding)
    (v : ValidatedRef) : option VulnerabilityFinding :=
  List.find
    (fun f => String.eqb (f_id f) (v_id v) || String.eqb (f_title f) (v_title v))
    allFindings.

(** [{ ...original, description, severity, confidence, status }] *)
Definition revalidate (v : ValidatedRef) (original : VulnerabilityFinding)
  : VulnerabilityFinding :=
  {| f_id := f_id original; f_type := f_type original;
     f_title := f_title original; f_description := v_description v;
     f_severity := v_severity v; f_confidence := v_confidence v;
     f_discoveredBy := f_discoveredBy original; f_status := validated;
     f_debateHistory := f_debateHistory original |}.

(** "Map validated findings back to full finding objects" *)
Definition validatedFindings (allFindings : list VulnerabilityFinding)
    (data : SynthesisData) : list VulnerabilityFinding :=
  flat_map
    (fun v =>
       match findOriginal allFindings v with
       | Some original => [revalidate v original]
       | None => []
       end)
    (d_validated_vulnerabilities data).

(** "Map rejected findings": the original when the id is known, else the
    stub [{ id: r.id, title: 'Unknown', status: 'rejected' }], which is
    represented by its id. *)
Definition rejectedFindings (allFindings : list VulnerabilityFinding)
    (data : SynthesisData)
  : list ((VulnerabilityFinding + string) * string) :=
  map
    (fun r =>
       (match List.find (fun f => String.eqb (f_id f) (rj_id r)) allFindings with
        | Some original => inl original
        | None => inr (rj_id r)
        end, rj_reason r))
    (d_rejected_vulnerabilities data).

(** [synthesize(debates, contracts)]; [response] is the outcome of the
    Pope's oracle call. *)
Definition synthesize (JSON_parse : string -> option SynthesisData)
    (response : Result string)
    (debates : list (DebateSession VulnerabilityFinding))
  : Result (PopeSynthesis VulnerabilityFinding (VulnerabilityFinding + string)) :=
  let allFindings := flat_map s_findings debates in
  await data <- Agent.analyzeStructured JSON_parse response;
  Ok {| p_summary := d_synthesis data;
        p_validatedVulnerabilities := validatedFindings allFindings data;
        p_rejectedVulnerabilities := rejectedFindings allFindings data;
        p_novelInsights := d_novel_insights data;
        p_combinedAttackVector := d_combined_attack_vector data;
        p_recommendedSeverity := d_recommended_severity data;
        p_estimatedImpactUsd := d_estimated_impact_usd data;
        p_confidence := d_confidence data |}.

End Pope.

(** ** The orchestrator (class [SwarmOrchestrator]) *)

Module Orchestrator.

Import Agent.

Inductive PipelineStage :=
| reconnaissance_stage | expert_spawning | parallel_analysis
| adversarial_debate | synthesis_stage | exploit_forge | verification
| submission.

Record PipelineLog := {
  l_stage : PipelineStage;
  l_action : string;
  l_details : option string
}.

(** What an expert definition holds under [focusAreas]. The value is
    copied from the spawner's JSON as it is ([e.focus_areas ?? []]), so it
    need not be the array that the declared type promises; anything else
    has no [join]. *)
Inductive FocusAreas :=
| areas (l : list string)
| notAnArray.

Record ExpertDefinition := {
  x_name : string;
  x_type : string;
  x_reason : string;
  x_systemPrompt : string;
  x_focusAreas : FocusAreas;
  x_temperature : Q
}.

Record ContractAnalysis := {
  a_summary : string;
  a_detectedPatterns : list string;
  a_integrations : list string;
  a_expertsToSpawn : list ExpertDefinition;
  a_novelPatternsDetected : list string
}.

(** The type arguments of the [analyzeStructured] calls. *)
Record RawExpert := {
  re_name : string;
  re_type : string;
  re_reason : string;
  re_system_prompt : string;
  re_focus_areas : option FocusAreas;
  re_temperature : option Q
}.

Record SpawnData := {
  contract_analysis : option string;
  experts_to_spawn : option (list RawExpert);
  novel_patterns_detected : option (list string)
}.

Record RawFinding := {
  raw_type : string;
  raw_title : string;
  raw_description : string;
  raw_severity : Severity;
  raw_confidence : Q
}.

Record VoteData := {
  vd_vote : string;
  vd_reason : string;
  vd_reproducibility_score : Q;
  vd_novelty_score : Q;
  vd_feasibility_score : Q
}.

Record ExploitApproach := {
  ap_name : string;
  ap_code : string
}.

(** [vulnerability] is a reference into [state.findings]. *)
Record ForgedExploit := {
  ex_id : string;
  ex_vulnerability : nat;
  ex_approaches : list ExploitApproach;
  ex_finalExploit : string;
  ex_verified : bool
}.

(** [PipelineState], together with the [agents] map of the orchestrator
    object. [debates], [synthesis] and [exploits] point into [findings]
    by position. *)
Record PipelineState := {
  currentStage : PipelineStage;
  bountyName : string;
  contracts : list ContractInfo;
  spawnedExperts : list ExpertDefinition;
  findings : list VulnerabilityFinding;
  debates : list (DebateSession nat);
  synthesis : option (PopeSynthesis nat nat);
  exploits : list ForgedExploit;
  verificationResults : list VerificationResult;
  logs : list PipelineLog;
  agents : gmap string DynamicAgent
}.

(** The oracle and the other sources of values that the orchestrator does
    not compute. Calls are identified by position: contract [c], expert
    [e] (in [spawnedExperts]), finding [i] (in [state.findings]),
    exploit [x]. *)
Record World := {
  spawner_analyze : nat -> Result string;
  expert_analyze : nat -> nat -> Result string;
  (** [Date.now()] and the random suffix of the id of the [k]-th finding
      that expert [e] reports on contract [c] *)
  id_suffix : nat -> nat -> nat -> string;
  presentArgument : nat -> Result string;
  (** round 2 (red team) and round 4 (devil's advocates) *)
  attackFinding : nat -> nat -> Result string;
  defendFinding : nat -> Result string;
  pope_analyze : Result string;
  smith_analyze : nat -> nat -> Result string;
  forgeMaster_analyze : nat -> Result string;
  verifier_analyze : nat -> nat -> Result string;
  (** [new Date()] of round [r] for finding [i]; the last argument tells
      the object literal of the round entry (0) from the one pushed onto
      the finding's history (1) *)
  Date_now : nat -> nat -> nat -> nat;
  (** [JSON.parse(...) as T] at each [analyzeStructured<T>] call *)
  parse_spawn : string -> option SpawnData;
  parse_findings : string -> option (list RawFinding);
  parse_synthesis : string -> option SynthesisData;
  parse_vote : string -> option VoteData
}.

(** *** State updates *)

Definition with_stage (stage : PipelineStage) (st : PipelineState) :=
  {| currentStage := stage; bountyName := bountyName st;
     contracts := contracts st; spawnedExperts := spawnedExperts st;
     findings := findings st; debates := debates st;
     synthesis := synthesis st; exploits := exploits st;
     verificationResults := verificationResults st; logs := logs st;
     agents := agents st |}.

Definition with_spawnedExperts (xs : list ExpertDefinition) (st : PipelineState) :=
  {| currentStage := currentStage st; bountyName := bountyName st;
     contracts := contracts st; spawnedExperts := xs;
     findings := findings st; debates := debates st;
     synthesis := synthesis st; exploits := exploits st;
     verificationResults := verificationResults st; logs := logs st;
     agents := agents st |}.

Definition with_findings (fs : list VulnerabilityFinding) (st : PipelineState) :=
  {| currentStage := currentStage st; bountyName := bountyName st;
     contracts := contracts st; spawnedExperts := spawnedExperts st;
     findings := fs; debates := debates st;
     synthesis := synthesis st; exploits := exploits st;
     verificationResults := verificationResults st; logs := logs st;
     agents := agents st |}.

Definition with_debates (ds : list (DebateSession nat)) (st : PipelineState) :=
  {| currentStage := currentStage st; bountyName := bountyName st;
     contracts := contracts st; spawnedExperts := spawnedExperts st;
     findings := findings st; debates := ds;
     synthesis := synthesis st; exploits := exploits st;
     verificationResults := verificationResults st; logs := logs st;
     agents := agents st |}.

Definition with_synthesis (sy : option (PopeSynthesis nat nat)) (st : PipelineState) :=
  {| currentStage := currentStage st; bountyName := bountyName st;
     contracts := contracts st; spawnedExperts := spawnedExperts st;
     findings := findings st; debates := debates st;
     synthesis := sy; exploits := exploits st;
     verificationResults := verificationResults st; logs := logs st;
     agents := agents st |}.

Definition with_exploits (xs : list ForgedExploit) (st : PipelineState) :=
  {| currentStage := currentStage st; bountyName := bountyName st;
     contracts := contracts st; spawnedExperts := spawnedExperts st;
     findings := findings st; debates := debates st;
     synthesis := synthesis st; exploits := xs;
     verificationResults := verificationResults st; logs := logs st;
     agents := agents st |}.

Definition with_verificationResults (rs : list VerificationResult)
    (st : PipelineState) :=
  {| currentStage := currentStage st; bountyName := bountyName st;
     contracts := contracts st; spawnedExperts := spawnedExperts st;
     findings := findings st; debates := debates st;
     synthesis := synthesis st; exploits := exploits st;
     verificationResults := rs; logs := logs st;
     agents := agents st |}.

Definition with_logs (ls : list PipelineLog) (st : PipelineState) :=
  {| currentStage := currentStage st; bountyName := bountyName st;
     contracts := contracts st; spawnedExperts := spawnedExperts st;
     findings := findings st; debates := debates st;
     synthesis := synthesis st; exploits := exploits st;
     verificationResults := verificationResults st; logs := ls;
     agents := agents st |}.

Definition with_agents (ag : gmap string DynamicAgent) (st : PipelineState) :=
  {| currentStage := currentStage st; bountyName := bountyName st;
     contracts := contracts st; spawnedExperts := spawnedExperts st;
     findings := findings st; debates := debates st;
     synthesis := synthesis st; exploits := exploits st;
     verificationResults := verificationResults st; logs := logs st;
     agents := ag |}.

(** [this.agents.set(agent.name, agent)] *)
Definition register (n : string) (st : PipelineState) : PipelineState :=
  with_agents (<[n := {| name := n |}]> (agents st)) st.

(** [this.log(stage, action, details)] *)
Definition log (stage : PipelineStage) (action : string)
    (details : option string) (st : PipelineState) : PipelineState :=
  with_logs
    (logs st ++ [{| l_stage := stage; l_action := action; l_details := details |}])
    st.

(** [xs.map((x, idx) => ...)]: the elements with their positions. *)
Definition indexed {A : Type} (xs : list A) : list (nat * A) :=
  combine (seq 0 (length xs)) xs.

(** *** Stage 1: reconnaissance *)

Definition reconnaissance (st : PipelineState) : Result PipelineState :=
  let st1 :=
    log reconnaissance_stage "Validating contracts"
      (Some (pretty (length (contracts st)) +:+ " contracts")) st in
  Ok (fold_left
        (fun s contract =>
           if String.eqb (c_sourceCode contract) EmptyString then
             log reconnaissance_stage "Missing source"
               (Some ("Contract " +:+ c_address contract +:+ " has no source code")) s
           else s)
        (contracts st1) st1).

(** *** Stage 2: expert spawning *)

Definition defaultExperts : list ExpertDefinition :=
  [ {| x_name := "ReentrancyExpert"; x_type := "vulnerability";
       x_reason := "Standard check";
       x_systemPrompt := "Analyze for reentrancy vulnerabilities.";
       x_focusAreas := areas ["external calls"]; x_temperature := 0 |};
    {| x_name := "AccessControlExpert"; x_type := "vulnerability";
       x_reason := "Standard check";
       x_systemPrompt := "Analyze for access control issues.";
       x_focusAreas := areas ["modifiers"; "roles"]; x_temperature := 0 |};
    {| x_name := "LogicErrorExpert"; x_type := "vulnerability";
       x_reason := "Standard check";
       x_systemPrompt := "Analyze for business logic errors.";
       x_focusAreas := areas ["calculations"; "state changes"]; x_temperature := 0 |} ].

Definition toExpertDefinition (e : RawExpert) : ExpertDefinition :=
  {| x_name := re_name e; x_type := re_type e; x_reason := re_reason e;
     x_systemPrompt := re_system_prompt e;
     x_focusAreas := default (areas []) (re_focus_areas e);
     x_temperature := default 0%Q (re_temperature e) |}.

(** The [try { ... } catch (parseError) { ... }] of [spawnExperts]: the
    analysis of contract number [c] and the state with the log line of
    the [catch] branch, if it was taken. *)
Definition analyzeContract (W : World) (c : nat) (st : PipelineState)
  : ContractAnalysis * PipelineState :=
  match analyzeStructured (parse_spawn W) (spawner_analyze W c) with
  | Ok data =>
      ({| a_summary := default "Analysis complete" (contract_analysis data);
          a_detectedPatterns := [];
          a_integrations := [];
          a_expertsToSpawn :=
            map toExpertDefinition (default [] (experts_to_spawn data));
          a_novelPatternsDetected := default [] (novel_patterns_detected data) |},
       st)
  | Throw parseError =>
      ({| a_summary := "Using default expert configuration";
          a_detectedPatterns := [];
          a_integrations := [];
          a_expertsToSpawn := defaultExperts;
          a_novelPatternsDetected := [] |},
       log expert_spawning "Parse error, using default experts"
         (Some parseError) st)
  end.

(** "Create each expert" *)
Definition createExpert (st : PipelineState) (expertDef : ExpertDefinition)
  : PipelineState :=
  let st1 := register (x_name expertDef) st in
  let st2 := with_spawnedExperts (spawnedExperts st1 ++ [expertDef]) st1 in
  log expert_spawning "Expert spawned" (Some (x_name expertDef)) st2.

Definition spawnForContract (W : World) (st : PipelineState)
    (ic : nat * ContractInfo) : PipelineState :=
  let st1 := log expert_spawning "Analyzing contract" (Some (c_name ic.2)) st in
  let (analysis, st2) := analyzeContract W ic.1 st1 in
  let st3 :=
    log expert_spawning "Analysis complete"
      (Some (pretty (length (a_expertsToSpawn analysis)) +:+ " experts needed"))
      st2 in
  fold_left createExpert (a_expertsToSpawn analysis) st3.

Definition spawnExperts (W : World) (st : PipelineState) : Result PipelineState :=
  let st1 := register "ExpertSpawner" st in
  let st2 := fold_left (spawnForContract W) (indexed (contracts st1)) st1 in
  Ok (log expert_spawning "Spawning complete"
        (Some (pretty (length (spawnedExperts st2)) +:+ " total experts")) st2).

(** *** Stage 3: parallel analysis *)

Definition mkFinding (W : World) (expertDef : ExpertDefinition) (e c : nat)
    (kraw : nat * RawFinding) : VulnerabilityFinding :=
  {| f_id := x_name expertDef +:+ "-" +:+ id_suffix W e c kraw.1;
     f_type := raw_type kraw.2;
     f_title := raw_title kraw.2;
     f_description := raw_description kraw.2;
     f_severity := raw_severity kraw.2;
     f_confidence := raw_confidence kraw.2;
     f_discoveredBy := x_name expertDef;
     f_status := proposed;
     f_debateHistory := None |}.

(** The [try { ... } catch (error) { ... }] around the call of expert [e]
    on contract [c]: the findings of that pair, or the log line of the
    [catch] branch. *)
Definition analyzePair (W : World) (expertDef : ExpertDefinition) (e c : nat)
  : list VulnerabilityFinding * list PipelineLog :=
  match analyzeStructured (parse_findings W) (expert_analyze W e c) with
  | Ok rawFindings => (map (mkFinding W expertDef e c) (indexed rawFindings), [])
  | Throw message =>
      ([], [{| l_stage := parallel_analysis;
               l_action := x_name expertDef +:+ " error";
               l_details := Some message |}])
  end.

(** [expertDef.focusAreas.join(', ')], evaluated while the prompt is
    built, before the [try]. *)
Definition join (focusAreas : FocusAreas) : Result string :=
  match focusAreas with
  | areas l => Ok (String.concat ", " l)
  | notAnArray => Throw "expertDef.focusAreas.join is not a function"
  end.

(** The task that [parallelAnalysis] hands to the limiter for one expert:
    its findings and the lines it logs. The task rejects when the prompt
    cannot be built. *)
Definition analysisTask (W : World) (agents : gmap string DynamicAgent)
    (contracts : list ContractInfo) (ie : nat * ExpertDefinition)
  : Result (list VulnerabilityFinding * list PipelineLog) :=
  match agents !! x_name ie.2 with
  | None => Ok ([], [])
  | Some expert =>
      for_of
        (fun (ic : nat * ContractInfo) '(findings, lines) =>
           let started :=
             {| l_stage := parallel_analysis;
                l_action := x_name ie.2 +:+ " analyzing";
                l_details := Some (c_name ic.2) |} in
           await focus <- join (x_focusAreas ie.2);
           let (found, caught) := analyzePair W ie.2 ie.1 ic.1 in
           Ok (findings ++ found, lines ++ [started] ++ caught))
        (indexed contracts) ([], [])
  end.

(** [await Promise.all(analysisPromises)]: the stage rejects when a task
    does; the log lines of the tasks are kept task by task. *)
Definition parallelAnalysis (W : World) (st : PipelineState)
  : Result PipelineState :=
  let experts := spawnedExperts st in
  let st1 :=
    log parallel_analysis "Starting analysis"
      (Some (pretty (length experts) +:+ " experts analyzing")) st in
  await allFindings <-
    Promise_all (analysisTask W (agents st1) (contracts st1)) (indexed experts);
  let st2 := with_logs (logs st1 ++ concat (map snd allFindings)) st1 in
  let st3 := with_findings (concat (map fst allFindings)) st2 in
  Ok (log parallel_analysis "Analysis complete"
        (Some (pretty (length (findings st3)) +:+ " findings discovered")) st3).

(** *** Stage 4: adversarial debate *)

Definition MAX_FINDINGS_TO_DEBATE : nat := 15.
Definition BATCH_SIZE : nat := 5.

Definition severityWeight (s : Severity) : Q :=
  match s with
  | CRITICAL => 4
  | HIGH => 3
  | MEDIUM => 2
  | LOW => 1
  | INFORMATIONAL => 0
  end.

(** [(severityWeight[f.severity] || 0) * f.confidence], a product of
    doubles; [f.confidence] is the double nearest to the number of the
    oracle's JSON. *)
Definition score (f : VulnerabilityFinding) : Double.number :=
  Double.mul (Double.Finite (severityWeight (f_severity f)))
    (Double.round (f_confidence f)).

(** The comparator [(a, b) => scoreB - scoreA]. *)
Definition comparator (a b : VulnerabilityFinding) : Double.number :=
  Double.sub (score b) (score a).

(** [Array.prototype.sort(cmp)] is a stable sort: [x] goes before the
    first element that the comparator puts strictly after it, that is
    for which [cmp x y < 0]. A comparator value of NaN counts as 0. The
    language fixes the outcome only for a consistent comparator. *)
Fixpoint sortInsert {A : Type} (cmp : A -> A -> Double.number) (x : A)
    (l : list A) : list A :=
  match l with
  | [] => [x]
  | y :: l' =>
      if Double.negative (cmp x y) then x :: l else y :: sortInsert cmp x l'
  end.

Definition sort {A : Type} (cmp : A -> A -> Double.number) (l : list A)
  : list A :=
  fold_left (fun sorted x => sortInsert cmp x sorted) l [].

(** The score of the finding behind a reference. *)
Definition scoreAt (store : list VulnerabilityFinding) (i : nat)
  : Double.number :=
  match store !! i with
  | Some f => score f
  | None => Double.Finite 0
  end.

(** The comparator on references into the store. *)
Definition comparatorAt (store : list VulnerabilityFinding) (i j : nat)
  : Double.number :=
  match store !! i, store !! j with
  | Some a, Some b => comparator a b
  | _, _ => Double.Finite 0
  end.

(** [[...this.state.findings].sort(...).slice(0, MAX_FINDINGS_TO_DEBATE)] *)
Definition prioritize (store : list VulnerabilityFinding) : list nat :=
  take MAX_FINDINGS_TO_DEBATE
    (sort (comparatorAt store) (seq 0 (length store))).

(** The slices [xs.slice(i, i + size)] for [i = 0, size, 2 * size, ...]. *)
Fixpoint batchesFrom {A : Type} (fuel size : nat) (xs : list A)
  : list (list A) :=
  match fuel, xs with
  | S fuel', _ :: _ => take size xs :: batchesFrom fuel' size (drop size xs)
  | _, _ => []
  end.

Definition batches {A : Type} (size : nat) (xs : list A) : list (list A) :=
  batchesFrom (length xs) size xs.

Definition teamNames (prefix : string) (ids : list nat) : list string :=
  map (fun i => prefix +:+ pretty i) ids.

Definition singleEntryRound (n : nat) (t : RoundType) (e : DebateEntry)
  : DebateRound :=
  {| r_roundNumber := n; r_type := t; r_entries := [e]; r_outcome := CONTINUES |}.

(** The loop state of the debate: the findings of the pipeline state and
    [session.rounds]. *)
Definition DebateState : Type := list VulnerabilityFinding * list DebateRound.

(** [for (i ...; i += BATCH_SIZE) await Promise.all(batch.map(body))];
    the tasks of a batch are taken in the order of the batch. *)
Definition inBatches (body : nat * nat -> DebateState -> Result DebateState)
    (refs : list nat) (s : DebateState) : Result DebateState :=
  for_of (fun batch s' => for_of body (indexed batch) s') (batches BATCH_SIZE refs) s.

Definition round1 (W : World) (agents : gmap string DynamicAgent)
    (ki : nat * nat) (s : DebateState) : Result DebateState :=
  let i := ki.2 in
  match s.1 !! i with
  | None => Ok s
  | Some finding =>
      match agents !! f_discoveredBy finding with
      | None => Ok s
      | Some expert =>
          await presentation <- presentArgument W i;
          let entry :=
            {| e_round := 1; e_speaker := f_discoveredBy finding;
               e_role := proposer; e_content := presentation;
               e_action := present; e_timestamp := Date_now W 1 i 0;
               e_targetFinding := Some (f_id finding) |} in
          Ok (alter (set_status debating) i s.1,
              s.2 ++ [singleEntryRound 1 PRESENTATION entry])
      end
  end.

(** Rounds 2 to 4 differ in the team, the oracle call, the round type and
    the way the history list is reached ([push] after [?? []] in round 2,
    [?.push] in rounds 3 and 4). The entry of the round and the entry
    pushed onto the history are two object literals. *)
Definition teamRound (W : World) (n : nat) (t : RoundType)
    (team : list string) (role : DebateRole) (action : DebateAction)
    (call : nat -> Result string)
    (push : DebateEntry -> VulnerabilityFinding -> VulnerabilityFinding)
    (ki : nat * nat) (s : DebateState) : Result DebateState :=
  let (idx, i) := ki in
  match s.1 !! i with
  | None => Ok s
  | Some finding =>
      let member := default EmptyString (team !! (idx mod length team)) in
      await text <- call i;
      let entry site :=
        {| e_round := n; e_speaker := member; e_role := role;
           e_content := text; e_action := action;
           e_timestamp := Date_now W n i site;
           e_targetFinding := Some (f_id finding) |} in
      Ok (alter (push (entry 1)) i s.1,
          s.2 ++ [singleEntryRound n t (entry 0)])
  end.

Definition markUndebated (prioritizedFindings : list nat)
    (store : list VulnerabilityFinding) : list VulnerabilityFinding :=
  imap
    (fun j finding =>
       if bool_decide (j ∈ prioritizedFindings) then finding
       else set_status proposed finding)
    store.

Definition adversarialDebate (W : World) (st : PipelineState)
  : Result PipelineState :=
  if length (findings st) =? 0 then
    Ok (log adversarial_debate "No findings to debate"
          (Some "Skipping debate stage") st)
  else
    let prioritizedFindings := prioritize (findings st) in
    let st1 :=
      log adversarial_debate "Prioritizing findings"
        (Some ("Selected top " +:+ pretty (length prioritizedFindings)
               +:+ " of " +:+ pretty (length (findings st))
               +:+ " findings for debate")) st in
    let redTeam := teamNames "RedTeamAttacker_" [1; 2; 3] in
    let blueTeam := teamNames "BlueTeamDefender_" [1; 2] in
    let devilsAdvocates := teamNames "DevilsAdvocate_" [1; 2] in
    let st2 :=
      fold_left (fun s n => register n s)
        (redTeam ++ blueTeam ++ devilsAdvocates) st1 in
    let participants :=
      map x_name (spawnedExperts st2) ++ redTeam ++ blueTeam ++ devilsAdvocates in
    (* Round 1: Presentations *)
    await s1 <- inBatches (round1 W (agents st2)) prioritizedFindings
                  (findings st2, []);
    (* Round 2: Red Team Attacks *)
    let debatingFindings :=
      List.filter
        (fun i =>
           match s1.1 !! i with
           | Some f => bool_decide (f_status f = debating)
           | None => false
           end)
        prioritizedFindings in
    await s2 <- inBatches
                  (teamRound W 2 ATTACK redTeam red_team attack
                     (attackFinding W 2) history_init_push)
                  debatingFindings s1;
    (* Round 3: Blue Team Defense *)
    await s3 <- inBatches
                  (teamRound W 3 DEFENSE blueTeam blue_team defend
                     (defendFinding W) history_push)
                  debatingFindings s2;
    (* Round 4: Devil's Advocates Challenge *)
    await s4 <- inBatches
                  (teamRound W 4 DEVILS_ADVOCATE devilsAdvocates
                     devils_advocate challenge (attackFinding W 4) history_push)
                  debatingFindings s3;
    let session : DebateSession nat :=
      {| s_id := "debate-" +:+ pretty (Date_now W 0 0 0);
         s_contractAddress :=
           match contracts st2 with
           | c :: _ => c_address c
           | [] => "unknown"
           end;
         s_findings := prioritizedFindings;
         s_rounds := s4.2;
         s_participants := participants;
         s_startTime := Date_now W 0 0 1;
         s_endTime := Some (Date_now W 5 0 0) |} in
    let st3 := with_debates (debates st2 ++ [session]) st2 in
    (* Mark low-priority findings that weren't debated *)
    let st4 := with_findings (markUndebated prioritizedFindings s4.1) st3 in
    Ok (log adversarial_debate "Debate complete"
          (Some (pretty (length (s_rounds session)) +:+ " rounds, "
                 +:+ pretty (length prioritizedFindings)
                 +:+ " high-priority findings debated")) st4).

(** *** Stage 5: synthesis *)

(** [validated_vulnerabilities.find((v) => v.id === finding.id ||
    v.title === finding.title)] *)
Definition findValidated (data : SynthesisData) (finding : VulnerabilityFinding)
  : option ValidatedRef :=
  List.find
    (fun v => String.eqb (v_id v) (f_id finding)
              || String.eqb (v_title v) (f_title finding))
    (d_validated_vulnerabilities data).

(** [rejected_vulnerabilities.find((r) => r.id === finding.id)] *)
Definition findRejected (data : SynthesisData) (finding : VulnerabilityFinding)
  : option RejectedRef :=
  List.find (fun r => String.eqb (rj_id r) (f_id finding))
    (d_rejected_vulnerabilities data).

(** "Update finding statuses based on Pope's synthesis": the body of the
    loop over [state.findings]. *)
Definition applySynthesis (data : SynthesisData) (finding : VulnerabilityFinding)
  : VulnerabilityFinding :=
  match findValidated data finding with
  | Some v => set_assessment (v_severity v) (v_confidence v)
                (set_status validated finding)
  | None =>
      match findRejected data finding with
      | Some _ => set_status rejected finding
      | None => finding
      end
  end.

(** [findings.filter((f) => f.status === st)], as references. *)
Definition withStatus (st : FindingStatus) (store : list VulnerabilityFinding)
  : list nat :=
  List.filter
    (fun i =>
       match store !! i with
       | Some f => bool_decide (f_status f = st)
       | None => false
       end)
    (seq 0 (length store)).

Definition reasonFor (data : SynthesisData) (store : list VulnerabilityFinding)
    (i : nat) : string :=
  match store !! i with
  | Some f =>
      match findRejected data f with
      | Some r => rj_reason r
      | None => "Unknown"
      end
  | None => "Unknown"
  end.

Definition synthesize (W : World) (st : PipelineState) : Result PipelineState :=
  let st1 := register "ThePope" st in
  let st2 :=
    log synthesis_stage "Pope synthesizing"
      (Some "Analyzing all debate transcripts") st1 in
  await data <- analyzeStructured (parse_synthesis W) (pope_analyze W);
  let store := map (applySynthesis data) (findings st2) in
  let st3 := with_findings store st2 in
  let result : PopeSynthesis nat nat :=
    {| p_summary := d_synthesis data;
       p_validatedVulnerabilities := withStatus validated store;
       p_rejectedVulnerabilities :=
         map (fun i => (i, reasonFor data store i)) (withStatus rejected store);
       p_novelInsights := d_novel_insights data;
       p_combinedAttackVector := d_combined_attack_vector data;
       p_recommendedSeverity := d_recommended_severity data;
       p_estimatedImpactUsd := d_estimated_impact_usd data;
       p_confidence := d_confidence data |} in
  let st4 := with_synthesis (Some result) st3 in
  Ok (log synthesis_stage "Synthesis complete"
        (Some (pretty (length (p_validatedVulnerabilities result))
               +:+ " validated, "
               +:+ pretty (length (p_rejectedVulnerabilities result))
               +:+ " rejected")) st4).

(** *** Stage 6: exploit forge *)

Definition smithNames : list string := ["direct"; "flash-loan"; "chained"].

Definition forgeOne (W : World) (i : nat) (st : PipelineState)
  : Result PipelineState :=
  match findings st !! i with
  | None => Throw "TypeError"
  | Some finding =>
      let st1 := log exploit_forge "Forging exploit" (Some (f_title finding)) st in
      await approaches <-
        Promise_all
          (fun kn : nat * string =>
             await code <- smith_analyze W i kn.1;
             Ok {| ap_name := kn.2; ap_code := code |})
          (indexed smithNames);
      await finalExploit <- forgeMaster_analyze W i;
      let exploit :=
        {| ex_id := "exploit-" +:+ f_id finding;
           ex_vulnerability := i;
           ex_approaches := approaches;
           ex_finalExploit := finalExploit;
           ex_verified := false |} in
      let st2 := with_exploits (exploits st1 ++ [exploit]) st1 in
      Ok (with_findings (alter (set_status exploited) i (findings st2)) st2)
  end.

Definition forgeExploits (W : World) (st : PipelineState) : Result PipelineState :=
  match synthesis st with
  | None => Throw "State not initialized"
  | Some sy =>
      let validatedFindings := p_validatedVulnerabilities sy in
      if length validatedFindings =? 0 then
        Ok (log exploit_forge "No validated findings"
              (Some "Skipping exploit forge") st)
      else
        let st1 := register "ForgeMaster" st in
        await st2 <- for_of (forgeOne W) validatedFindings st1;
        Ok (log exploit_forge "Forging complete"
              (Some (pretty (length (exploits st2)) +:+ " exploits created")) st2)
  end.

(** *** Stage 7: verification *)

Definition verifierIds : list nat := [1; 2; 3].

(** The task that [verify] hands to the limiter for verifier [id] and
    exploit number [x]. *)
Definition castVote (W : World) (x id : nat) : Result VerificationVote :=
  await data <- analyzeStructured (parse_vote W) (verifier_analyze W x id);
  Ok {| verifierId := "Verifier_" +:+ pretty id;
        vote := vd_vote data;
        reason := vd_reason data;
        reproducibilityScore := vd_reproducibility_score data;
        noveltyScore := vd_novelty_score data;
        feasibilityScore := vd_feasibility_score data |}.

(** The [result] literal of [verify]. *)
Definition verificationResult (fid : string) (vs : list VerificationVote)
  : VerificationResult :=
  let pc := passCount vs in
  {| findingId := fid;
     votes := vs;
     consensus := if 2 <=? pc then PASS else if pc =? 0 then FAIL else SPLIT;
     confidenceScore := avgConfidence vs;
     autoSubmit := pc =? 3 |}.

Definition set_verified (b : bool) (x : ForgedExploit) : ForgedExploit :=
  {| ex_id := ex_id x; ex_vulnerability := ex_vulnerability x;
     ex_approaches := ex_approaches x; ex_finalExploit := ex_finalExploit x;
     ex_verified := b |}.

Definition consensusName (c : Consensus) : string :=
  match c with PASS => "PASS" | FAIL => "FAIL" | SPLIT => "SPLIT" end.

Definition verifyOne (W : World) (ix : nat * ForgedExploit) (st : PipelineState)
  : Result PipelineState :=
  match findings st !! ex_vulnerability ix.2 with
  | None => Throw "TypeError"
  | Some vulnerability =>
      let st1 :=
        log verification "Verifying exploit" (Some (f_title vulnerability)) st in
      await vs <- Promise_all (castVote W ix.1) verifierIds;
      let result := verificationResult (f_id vulnerability) vs in
      let st2 :=
        with_verificationResults (verificationResults st1 ++ [result]) st1 in
      let st3 :=
        with_exploits
          (alter (set_verified (bool_decide (consensus result = PASS))) ix.1
             (exploits st2)) st2 in
      Ok (log verification ("Verification " +:+ consensusName (consensus result))
            (Some (pretty (passCount vs) +:+ "/3 verifiers passed")) st3)
  end.

Definition verify (W : World) (st : PipelineState) : Result PipelineState :=
  let st1 :=
    fold_left (fun s n => register n s) (teamNames "Verifier_" verifierIds) st in
  for_of (verifyOne W) (indexed (exploits st1)) st1.

(** *** The pipeline *)

Definition initializeState (name : string) (cs : list ContractInfo)
  : PipelineState :=
  {| currentStage := reconnaissance_stage; bountyName := name;
     contracts := cs; spawnedExperts := []; findings := []; debates := [];
     synthesis := None; exploits := []; verificationResults := [];
     logs := []; agents := ∅ |}.

(** [executeStage(stage, fn)]. When [fn] rejects, the state is reported as
    it was when the stage started. *)
Definition executeStage (stage : PipelineStage)
    (fn : PipelineState -> Result PipelineState) (st : PipelineState)
  : Result unit * PipelineState :=
  let st1 := log stage "Stage started" None (with_stage stage st) in
  match fn st1 with
  | Ok st2 => (Ok (), log stage "Stage completed" None st2)
  | Throw e => (Throw e, st1)
  end.

Definition andThen (m k : PipelineState -> Result unit * PipelineState)
    (st : PipelineState) : Result unit * PipelineState :=
  match m st with
  | (Ok _, st') => k st'
  | (Throw e, st') => (Throw e, st')
  end.

Definition generateSummary (st : PipelineState) : string :=
  let nvalidated :=
    match synthesis st with
    | Some sy => length (p_validatedVulnerabilities sy)
    | None => 0
    end in
  let nverified :=
    length (List.filter (fun r => bool_decide (consensus r = PASS))
              (verificationResults st)) in
  let nauto := length (List.filter autoSubmit (verificationResults st)) in
  "Findings: " +:+ pretty (length (findings st))
  +:+ ", Validated: " +:+ pretty nvalidated
  +:+ ", Verified: " +:+ pretty nverified
  +:+ ", Auto-submit: " +:+ pretty nauto.

(** [this.state.synthesis?.validatedVulnerabilities.length] is truthy *)
Definition hasValidated (st : PipelineState) : bool :=
  match synthesis st with
  | Some sy => 0 <? length (p_validatedVulnerabilities sy)
  | None => false
  end.

(** [hunt(bounty)]: the error thrown to the caller, if any, and the state
    that [getState()] shows afterwards. *)
Definition hunt (W : World) (name : string) (cs : list ContractInfo)
  : Result unit * PipelineState :=
  let st0 :=
    log reconnaissance_stage "Pipeline started" (Some ("Hunting " +:+ name))
      (initializeState name cs) in
  let stages :=
    andThen (executeStage reconnaissance_stage reconnaissance)
   (andThen (executeStage expert_spawning (spawnExperts W))
   (andThen (executeStage parallel_analysis (parallelAnalysis W))
   (andThen (executeStage adversarial_debate (adversarialDebate W))
   (andThen (executeStage synthesis_stage (synthesize W))
      (fun st =>
         if hasValidated st then
           andThen (executeStage exploit_forge (forgeExploits W))
                   (executeStage verification (verify W)) st
         else (Ok (), st)))))) in
  match stages st0 with
  | (Ok _, st) =>
      (Ok (), log submission "Pipeline completed" (Some (generateSummary st)) st)
  | (Throw e, st) =>
      (Throw e, log (currentStage st) "Pipeline failed" (Some e) st)
  end.

End Orchestrator.

(** ** Which oracle calls are started together

    The shape of the asynchronous calls of a stage: a call of the oracle,
    awaits in sequence, [Promise.all] over tasks that are all created before
    the first one is awaited, and a task handed to
    [this.concurrencyLimit]. *)

Module Concurrency.

Import Orchestrator.

Inductive Plan :=
| Call
| Seq (ps : list Plan)
| All (ps : list Plan)
| Limited (p : Plan).

(** The number of oracle calls that are in flight once a plan has been
    started and has run up to its first suspension, and the slots of the
    limiter that are still free then. A limited task starts only if a slot
    is free (and keeps it while it runs); a sequence starts with its first
    element; the tasks of [Promise.all] are started one after the other
    before anything is awaited. *)
Fixpoint started (p : Plan) (free : nat) : nat * nat :=
  match p with
  | Call => (1, free)
  | Seq ps =>
      match ps with
      | [] => (0, free)
      | first :: _ => started first free
      end
  | All ps =>
      (fix startAll (qs : list Plan) (free : nat) : nat * nat :=
         match qs with
         | [] => (0, free)
         | q :: qs' =>
             let (n, free1) := started q free in
             let (m, free2) := startAll qs' free1 in
             (n + m, free2)
         end) ps free
  | Limited q =>
      match free with
      | 0 => (0, 0)
      | S free' => started q free'
      end
  end.

(** One round of [adversarialDebate] over the references [refs]:
    [for (i ...; i += BATCH_SIZE) await Promise.all(batch.map(async ...))],
    each task making one oracle call, none of them through the limiter. *)
Definition debateRound (refs : list nat) : Plan :=
  Seq (map (fun batch => All (map (fun _ => Call) batch)) (batches BATCH_SIZE refs)).

(** [parallelAnalysis]: one limited task per expert, each calling the
    oracle contract after contract. *)
Definition analysisPlan (experts contracts : nat) : Plan :=
  All (map (fun _ => Limited (Seq (map (fun _ => Call) (seq 0 contracts))))
         (seq 0 experts)).

(** [verify], for one exploit: one limited task per verifier. *)
Definition verificationPlan : Plan :=
  All (map (fun _ => Limited Call) verifierIds).

(** [forgeExploits], for one finding: the three approaches, limited and
    awaited together, then the call of the forge master. *)
Definition forgePlan : Plan :=
  Seq [All (map (fun _ => Limited Call) smithNames); Call].

End Concurrency.

(** ** The tribunal over several exploits
    (agents/forge/verification-tribunal.ts, [verifyAll]) *)

Module TribunalExploits.

Import Orchestrator.

(** [this.verify(exploit)] for the exploit at position [k]:
    [runVerifier k v] is the promise of verifier number [v] on it. *)
Definition verifyExploit (config : Tribunal.TribunalConfig)
    (store : list VulnerabilityFinding)
    (runVerifier : nat -> nat -> Result VerificationVote)
    (kx : nat * ForgedExploit) : Result VerificationResult :=
  match store !! ex_vulnerability kx.2 with
  | Some vulnerability =>
      Tribunal.verify config (f_id vulnerability) (runVerifier kx.1)
  | None => Throw "TypeError"
  end.

(** The loop of [verifyAll]. The exploits are objects of the caller that
    the loop mutates in place, so a flag set before a rejection stays set:
    the second component is the exploits as they are when the promise
    settles. *)
Fixpoint verifyFrom (config : Tribunal.TribunalConfig)
    (store : list VulnerabilityFinding)
    (runVerifier : nat -> nat -> Result VerificationVote)
    (todo : list (nat * ForgedExploit))
    (results : list VerificationResult) (exploits : list ForgedExploit)
  : Result (list VerificationResult) * list ForgedExploit :=
  match todo with
  | [] => (Ok results, exploits)
  | kx :: todo' =>
      match verifyExploit config store runVerifier kx with
      | Ok result =>
          verifyFrom config store runVerifier todo' (results ++ [result])
            (alter (set_verified (bool_decide (consensus result = PASS))) kx.1
               exploits)
      | Throw e => (Throw e, exploits)
      end
  end.

Definition verifyAll (config : Tribunal.TribunalConfig)
    (store : list VulnerabilityFinding)
    (runVerifier : nat -> nat -> Result VerificationVote)
    (exploits : list ForgedExploit)
  : Result (list VerificationResult) * list ForgedExploit :=
  verifyFrom config store runVerifier (indexed exploits) [] exploits.

End TribunalExploits.

(** ** The autonomous hunter (autonomous-hunter.ts), where it reads the
    state that [hunt] returns *)

Module Hunter.

Import Orchestrator.

(** [{ min, max }] of a severity, and the four of a bounty program. *)
Record Range := { rg_min : Q; rg_max : Q }.

Record SeverityRanges := {
  sr_critical : Range;
  sr_high : Range;
  sr_medium : Range;
  sr_low : Range
}.

(** What the hunter reads of a contract of a bounty program. *)
Record Asset := {
  a_tvl : option Q;
  a_sourceCode : string
}.

Inductive Difficulty :=
  low_difficulty | medium_difficulty | high_difficulty | extreme_difficulty.

(** What the hunter reads of a [PrioritizedBounty]; dates are in
    milliseconds. *)
Record PrioritizedBounty := {
  b_id : string;
  b_platform : string;
  b_name : string;
  b_maxReward : Q;
  b_severity : SeverityRanges;
  b_launchDate : Q;
  b_totalPaid : option Q;
  b_priorityScore : Double.number;
  b_reasons : list string;
  b_estimatedDifficulty : Difficulty;
  b_contracts : list Asset
}.

(** The calls of the callbacks, in the order they are made. A state
    update carries one field. *)
Inductive Event :=
| onLog (level stage message : string) (details : option string)
| onSubmission (platform program vulnerability : string) (severity : Severity)
    (status : string) (bountyValue : Q)
| onStateUpdate (field : string) (value : nat).

(** [Number.prototype.toFixed(0)], [toLocaleString()] and the
    conversion of a number in a template literal. *)
Record Formats := {
  toFixed0 : Q -> string;
  toLocaleString : Q -> string;
  toString : Double.number -> string
}.

Definition midpoint (r : Range) : Q := ((rg_min r + rg_max r) / 2)%Q.

Definition estimateBountyValue (bounty : PrioritizedBounty)
    (vuln : VulnerabilityFinding) : Q :=
  let severityRanges := b_severity bounty in
  match f_severity vuln with
  | CRITICAL => midpoint (sr_critical severityRanges)
  | HIGH => midpoint (sr_high severityRanges)
  | MEDIUM => midpoint (sr_medium severityRanges)
  | LOW => midpoint (sr_low severityRanges)
  | INFORMATIONAL => 0
  end.

(** [exploits.find((e) => e.vulnerability.id === vuln.id)] *)
Definition exploitOf (st : PipelineState) (vuln : VulnerabilityFinding)
  : option ForgedExploit :=
  List.find
    (fun e =>
       match findings st !! ex_vulnerability e with
       | Some v => String.eqb (f_id v) (f_id vuln)
       | None => false
       end)
    (exploits st).

(** [exploit?.verified && synthesis.confidence >= minConfidenceToSubmit] *)
Definition autoSubmits (minConfidenceToSubmit : Q) (st : PipelineState)
    (sy : PopeSynthesis nat nat) (vuln : VulnerabilityFinding) : bool :=
  match exploitOf st vuln with
  | Some exploit => ex_verified exploit
  | None => false
  end
  && Qle_bool minConfidenceToSubmit (p_confidence sy).

(** The body of the loop "Queue each validated finding for submission". *)
Definition queue (F : Formats) (minConfidenceToSubmit : Q)
    (bounty : PrioritizedBounty) (st : PipelineState)
    (sy : PopeSynthesis nat nat) (vuln : VulnerabilityFinding) : list Event :=
  [ onSubmission (b_platform bounty) (b_name bounty) (f_title vuln)
      (f_severity vuln) "pending" (estimateBountyValue bounty vuln);
    onStateUpdate "validatedFindings" (length (p_validatedVulnerabilities sy)) ]
  ++ (if autoSubmits minConfidenceToSubmit st sy vuln then
        [ onLog "success" "submission" ("Auto-submitting: " +:+ f_title vuln)
            (Some ("Verified exploit with "
                   +:+ toFixed0 F (p_confidence sy * 100) +:+ "% confidence")) ]
      else []).

(** [processResults(bounty, result.synthesis, result.exploits)] on the
    state [result] that [hunt] returned. The validated vulnerabilities are
    references into the findings of that state. *)
Definition processResults (F : Formats) (minConfidenceToSubmit : Q)
    (bounty : PrioritizedBounty) (st : PipelineState) : list Event :=
  let nothing (details : string) :=
    [ onLog "info" "synthesis" "No validated vulnerabilities" (Some details);
      onStateUpdate "totalFindings" 0 ] in
  match synthesis st with
  | None => nothing "No insights"
  | Some sy =>
      let validated := p_validatedVulnerabilities sy in
      if length validated =? 0 then
        let joined := String.concat "; " (p_novelInsights sy) in
        nothing (if String.eqb joined EmptyString then "No insights" else joined)
      else
        onLog "success" "synthesis"
          (pretty (length validated) +:+ " vulnerabilities validated!")
          (Some ("Confidence: " +:+ toFixed0 F (p_confidence sy * 100)
                 +:+ "%, Est. Impact: $"
                 +:+ toLocaleString F (p_estimatedImpactUsd sy)))
        :: flat_map
             (fun i =>
                match findings st !! i with
                | Some vuln => queue F minConfidenceToSubmit bounty st sy vuln
                | None => []
                end)
             validated
  end.

(** [daysSince(date)] when [Date.now()] gives [now]; both are in
    milliseconds. *)
Definition daysSince (now date : Q) : Double.number :=
  Double.div (Double.sub (Double.round now) (Double.round date))
    (Double.Finite 86400000).

Definition freshnessBonus (daysOld : Double.number) : Double.number :=
  if Double.lt daysOld (Double.Finite 30) then Double.Finite 10
  else if Double.lt daysOld (Double.Finite 90) then Double.Finite 5
  else if Double.lt daysOld (Double.Finite 180) then Double.Finite 2
  else if Double.lt (Double.Finite 730) daysOld then Double.round (1 # 10)
  else Double.Finite 1.

(** [b.contracts.reduce((sum, c) => sum + (c.tvl || 0), 0) > 10_000_000
    ? 1.5 : 1] *)
Definition tvlMultiplier (b : PrioritizedBounty) : Double.number :=
  if Double.lt (Double.Finite 10000000)
       (fold_left
          (fun sum c => Double.add sum (Double.round (default 0%Q (a_tvl c))))
          (b_contracts b) (Double.Finite 0))
  then Double.round (15 # 10) else Double.Finite 1.

Definition difficultyPenalty (b : PrioritizedBounty) : Double.number :=
  match b_estimatedDifficulty b with
  | extreme_difficulty => Double.Finite 2
  | high_difficulty => Double.round (15 # 10)
  | _ => Double.Finite 1
  end.

(** [b.contracts.some(c => c.sourceCode && c.sourceCode.length > 100)
    ? 2 : 0.5] *)
Definition sourceBonus (b : PrioritizedBounty) : Double.number :=
  if existsb (fun c => 100 <? String.length (a_sourceCode c)) (b_contracts b)
  then Double.Finite 2 else Double.round (5 # 10).

(** [(b.totalPaid || 0) < 100000 ? 1.5 : 1] *)
Definition historyBonus (b : PrioritizedBounty) : Double.number :=
  if Double.lt (Double.round (default 0%Q (b_totalPaid b))) (Double.Finite 100000)
  then Double.round (15 # 10) else Double.Finite 1.

Definition difficultyName (d : Difficulty) : string :=
  match d with
  | low_difficulty => "low"
  | medium_difficulty => "medium"
  | high_difficulty => "high"
  | extreme_difficulty => "extreme"
  end.

(** The [priorityScore] that [prioritizeBounties] gives a bounty:
    [(b.maxReward * freshnessBonus * tvlMultiplier * sourceBonus *
    historyBonus) / difficultyPenalty / 10000], from left to right. *)
Definition priorityOf (now : Q) (b : PrioritizedBounty) : Double.number :=
  Double.div
    (Double.div
       (Double.mul
          (Double.mul
             (Double.mul
                (Double.mul (Double.round (b_maxReward b))
                   (freshnessBonus (daysSince now (b_launchDate b))))
                (tvlMultiplier b))
             (sourceBonus b))
          (historyBonus b))
       (difficultyPenalty b))
    (Double.Finite 10000).

(** The callback of [.map]: the bounty with its score and the reasons. *)
Definition scored (F : Formats) (now : Q) (b : PrioritizedBounty)
  : PrioritizedBounty :=
  let daysOld := daysSince now (b_launchDate b) in
  {| b_id := b_id b; b_platform := b_platform b; b_name := b_name b;
     b_maxReward := b_maxReward b; b_severity := b_severity b;
     b_launchDate := b_launchDate b; b_totalPaid := b_totalPaid b;
     b_priorityScore := priorityOf now b;
     b_reasons :=
       [ "Freshness: " +:+ toString F daysOld +:+ " days old ("
         +:+ toString F (freshnessBonus daysOld) +:+ "x)";
         "Source: "
         +:+ (if Double.lt (Double.Finite 1) (sourceBonus b) then "YES" else "NO")
         +:+ " (" +:+ toString F (sourceBonus b) +:+ "x)";
         "Difficulty: " +:+ difficultyName (b_estimatedDifficulty b)
         +:+ " (/" +:+ toString F (difficultyPenalty b) +:+ ")" ];
     b_estimatedDifficulty := b_estimatedDifficulty b;
     b_contracts := b_contracts b |}.

(** [prioritizeBounties(bounties)]; [now k] is what [Date.now()] gives
    while the bounty at position [k] is scored. *)
Definition prioritizeBounties (F : Formats) (now : nat -> Q)
    (bounties : list PrioritizedBounty) : list PrioritizedBounty :=
  sort (fun a b => Double.sub (b_priorityScore b) (b_priorityScore a))
    (map (fun kb : nat * PrioritizedBounty => scored F (now kb.1) kb.2)
       (indexed bounties)).

End Hunter.

(** * Sample runs

    Concrete worlds and inputs on which the statements below are
    instantiated. *)

Module Sample.

Import Orchestrator.

(** A decoder that reads the whole text as the vote. *)
Definition voteOfText (s : string) : option VoteData :=
  Some {| vd_vote := s; vd_reason := "ok"; vd_reproducibility_score := 1;
          vd_novelty_score := 1; vd_feasibility_score := 1 |}.

Definition reentrancy : VulnerabilityFinding :=
  {| f_id := "ReentrancyExpert-1-a"; f_type := "reentrancy";
     f_title := "Reentrancy in withdraw"; f_description := "state after call";
     f_severity := HIGH; f_confidence := 9 # 10;
     f_discoveredBy := "ReentrancyExpert"; f_status := exploited;
     f_debateHistory := None |}.

(** Verifiers 1 and 2 pass, verifier 3 fails. *)
Definition world : World :=
  {| spawner_analyze := fun _ => Throw "overloaded";
     expert_analyze := fun _ _ => Throw "overloaded";
     id_suffix := fun _ _ k => pretty k;
     presentArgument := fun _ => Ok "It is real.";
     attackFinding := fun _ _ => Ok "There is a guard.";
     defendFinding := fun _ => Ok "The guard is bypassed.";
     pope_analyze := Throw "overloaded";
     smith_analyze := fun _ _ => Ok "contract Exploit {}";
     forgeMaster_analyze := fun _ => Ok "contract Exploit {}";
     verifier_analyze := fun _ id => Ok (if id =? 3 then "fail" else "pass");
     Date_now := fun r i site => 100 * r + 10 * i + site;
     parse_spawn := fun _ => None;
     parse_findings := fun _ => None;
     parse_synthesis := fun _ => None;
     parse_vote := voteOfText |}.

Definition verifying : PipelineState :=
  with_exploits
    [{| ex_id := "exploit-ReentrancyExpert-1-a"; ex_vulnerability := 0;
        ex_approaches := []; ex_finalExploit := "contract Exploit {}";
        ex_verified := false |}]
    (with_findings [reentrancy] (initializeState "demo" [])).

(** Seventeen findings of one expert; finding number [k] has severity
    number [k mod 5] and confidence [(k mod 7 + 1) / 10]. *)
Definition severityOf (k : nat) : Severity :=
  match k mod 5 with
  | 0 => CRITICAL
  | 1 => HIGH
  | 2 => MEDIUM
  | 3 => LOW
  | _ => INFORMATIONAL
  end.

Definition candidate (k : nat) : VulnerabilityFinding :=
  {| f_id := "ReentrancyExpert-1-" +:+ pretty k; f_type := "reentrancy";
     f_title := "Finding " +:+ pretty k; f_description := "candidate";
     f_severity := severityOf k;
     f_confidence := Z.of_nat (k mod 7 + 1) # 10;
     f_discoveredBy := "ReentrancyExpert"; f_status := proposed;
     f_debateHistory := None |}.

Definition analysed : PipelineState :=
  with_findings (map candidate (seq 0 17))
    (register "ReentrancyExpert" (initializeState "demo" [])).

(** One finding, as [parallelAnalysis] leaves it, and its expert. *)
Definition single : PipelineState :=
  with_findings [candidate 0]
    (register "ReentrancyExpert" (initializeState "demo" [])).

(** Two debated findings and a synthesis that validates one reference:
    it carries the id of the first finding and the title of the second. *)
Definition overflow : VulnerabilityFinding :=
  {| f_id := "LogicErrorExpert-1-a"; f_type := "integer-overflow";
     f_title := "Unchecked arithmetic"; f_description := "wraps around";
     f_severity := LOW; f_confidence := 2 # 10;
     f_discoveredBy := "LogicErrorExpert"; f_status := debating;
     f_debateHistory := None |}.

Definition debated : VulnerabilityFinding := set_status debating reentrancy.

Definition crossed : ValidatedRef :=
  {| v_id := "ReentrancyExpert-1-a"; v_title := "Unchecked arithmetic";
     v_description := "confirmed"; v_severity := CRITICAL;
     v_confidence := 95 # 100 |}.

Definition verdict : SynthesisData :=
  {| d_synthesis := "One real issue.";
     d_validated_vulnerabilities := [crossed];
     d_rejected_vulnerabilities := [];
     d_novel_insights := [];
     d_combined_attack_vector := None;
     d_recommended_severity := CRITICAL;
     d_estimated_impact_usd := 0;
     d_confidence := 9 # 10 |}.

(** A third finding that the verdict does not mention. *)
Definition access : VulnerabilityFinding :=
  {| f_id := "AccessControlExpert-1-a"; f_type := "access-control";
     f_title := "Missing onlyOwner"; f_description := "anyone can pause";
     f_severity := MEDIUM; f_confidence := 5 # 10;
     f_discoveredBy := "AccessControlExpert"; f_status := debating;
     f_debateHistory := None |}.

(** The Pope answers with some text, which the decoder reads as
    [verdict]. *)
Definition popeWorld : World :=
  {| spawner_analyze := spawner_analyze world;
     expert_analyze := expert_analyze world;
     id_suffix := id_suffix world;
     presentArgument := presentArgument world;
     attackFinding := attackFinding world;
     defendFinding := defendFinding world;
     pope_analyze := Ok "{}";
     smith_analyze := smith_analyze world;
     forgeMaster_analyze := forgeMaster_analyze world;
     verifier_analyze := verifier_analyze world;
     Date_now := Date_now world;
     parse_spawn := parse_spawn world;
     parse_findings := parse_findings world;
     parse_synthesis := fun _ => Some verdict;
     parse_vote := parse_vote world |}.

Definition afterDebate : PipelineState :=
  with_findings [debated; overflow; access] (initializeState "demo" []).

(** A decoder that reads the whole text as the title of one finding. *)
Definition findingOfText (s : string) : option (list RawFinding) :=
  Some [{| raw_type := "logic-error"; raw_title := s;
           raw_description := "reported"; raw_severity := HIGH;
           raw_confidence := 8 # 10 |}].

(** The spawner fails, so the three default experts are installed; the
    first of them fails on every contract, the other two report. *)
Definition analysisWorld : World :=
  {| spawner_analyze := spawner_analyze world;
     expert_analyze := fun e _ =>
       if e =? 0 then Throw "rate limit" else Ok "Unprotected call";
     id_suffix := id_suffix world;
     presentArgument := presentArgument world;
     attackFinding := attackFinding world;
     defendFinding := defendFinding world;
     pope_analyze := pope_analyze world;
     smith_analyze := smith_analyze world;
     forgeMaster_analyze := forgeMaster_analyze world;
     verifier_analyze := verifier_analyze world;
     Date_now := Date_now world;
     parse_spawn := parse_spawn world;
     parse_findings := findingOfText;
     parse_synthesis := parse_synthesis world;
     parse_vote := parse_vote world |}.

(** The first of the default experts. *)
Definition reentrancyExpert : ExpertDefinition :=
  {| x_name := "ReentrancyExpert"; x_type := "vulnerability";
     x_reason := "Standard check";
     x_systemPrompt := "Analyze for reentrancy vulnerabilities.";
     x_focusAreas := areas ["external calls"]; x_temperature := 0 |}.

Definition vault : ContractInfo :=
  {| c_address := "0xabc"; c_name := "Vault"; c_chain := "ethereum";
     c_sourceCode := "contract Vault {}" |}.

End Sample.

Module ArenaSample.

Import Arena.

(** The defender always answers with a concession; the coin sends every
    defense to the original specialist. *)
Definition world : World :=
  {| analyze := fun rnd _ =>
       Ok (match rnd with
           | 1 => "The call precedes the state update."
           | 2 => "There is a reentrancy guard."
           | 3 => "I concede, the guard covers it."
           | 4 => "Has this ever been exploited?"
           | _ => "Closing statement."
           end);
     random := fun _ _ => 0;
     coin := fun _ => false;
     Date_now := fun r i => 100 * r + i;
     feedback := fun _ => [] |}.

Definition specialists : gmap string Agent.DynamicAgent :=
  {[ "ReentrancyExpert" := {| Agent.name := "ReentrancyExpert" |} ]}.

(** The same finding under its generated id and under the empty id. *)
Definition named : VulnerabilityFinding := Sample.candidate 0.

Definition unnamed : VulnerabilityFinding :=
  {| f_id := EmptyString; f_type := f_type named; f_title := f_title named;
     f_description := f_description named; f_severity := f_severity named;
     f_confidence := f_confidence named;
     f_discoveredBy := f_discoveredBy named; f_status := proposed;
     f_debateHistory := None |}.

Definition concession (fid : string) : DebateEntry :=
  {| e_round := 3; e_speaker := "ReentrancyExpert"; e_role := blue_team;
     e_content := "I concede, the guard covers it."; e_action := concede;
     e_timestamp := 300; e_targetFinding := Some fid |}.

End ArenaSample.

(** Further worlds and inputs. *)

Module Cases.

Import Orchestrator.

(** As [Sample.world], but the second verifier does not answer. *)
Definition silentVerifier : World :=
  {| spawner_analyze := spawner_analyze Sample.world;
     expert_analyze := expert_analyze Sample.world;
     id_suffix := id_suffix Sample.world;
     presentArgument := presentArgument Sample.world;
     attackFinding := attackFinding Sample.world;
     defendFinding := defendFinding Sample.world;
     pope_analyze := pope_analyze Sample.world;
     smith_analyze := smith_analyze Sample.world;
     forgeMaster_analyze := forgeMaster_analyze Sample.world;
     verifier_analyze := fun _ id => if id =? 2 then Throw "timeout" else Ok "pass";
     Date_now := Date_now Sample.world;
     parse_spawn := parse_spawn Sample.world;
     parse_findings := parse_findings Sample.world;
     parse_synthesis := parse_synthesis Sample.world;
     parse_vote := parse_vote Sample.world |}.

(** A session of the arena over two findings, and a verdict of the Pope
    on it: one reference matches the first finding by id and the second by
    title, one names a finding that is not in the session. *)
Definition arenaSession : DebateSession VulnerabilityFinding :=
  {| s_id := "debate-1"; s_contractAddress := "0xabc";
     s_findings := [Sample.debated; Sample.overflow];
     s_rounds := []; s_participants := []; s_startTime := 0;
     s_endTime := Some 1 |}.

Definition stray : ValidatedRef :=
  {| v_id := "Nobody-1-a"; v_title := "No such finding";
     v_description := "invented"; v_severity := HIGH; v_confidence := 1 |}.

Definition popeVerdict : SynthesisData :=
  {| d_synthesis := "One real issue.";
     d_validated_vulnerabilities := [Sample.crossed; stray];
     d_rejected_vulnerabilities :=
       [{| rj_id := "LogicErrorExpert-1-a"; rj_reason := "guarded" |};
        {| rj_id := "Nobody-2-b"; rj_reason := "not in scope" |}];
     d_novel_insights := [];
     d_combined_attack_vector := None;
     d_recommended_severity := CRITICAL;
     d_estimated_impact_usd := 0;
     d_confidence := 9 # 10 |}.

(** Two exploits of the same finding; every verifier passes the first,
    and no verifier answers on the second. *)
Definition twoExploits : list ForgedExploit :=
  exploits Sample.verifying ++ exploits Sample.verifying.

Definition failingOnSecond (k v : nat) : Result VerificationVote :=
  if k =? 1 then Throw "timeout"
  else Ok {| verifierId := "Verifier_" +:+ pretty v; vote := "pass";
             reason := "ok"; reproducibilityScore := 1;
             noveltyScore := 1; feasibilityScore := 1 |}.

(** The state of [Sample.afterDebate] after synthesis and forge in
    [Sample.popeWorld], and after the verification that follows: two of the
    three verifiers pass every exploit. *)
Definition forged : PipelineState :=
  match
    (await s1 <- synthesize Sample.popeWorld Sample.afterDebate;
     forgeExploits Sample.popeWorld s1)
  with
  | Ok st => st
  | Throw _ => Sample.afterDebate
  end.

Definition hunted : PipelineState :=
  match verify Sample.popeWorld forged with
  | Ok st => st
  | Throw _ => forged
  end.

Definition program : Hunter.PrioritizedBounty :=
  {| Hunter.b_id := "vault"; Hunter.b_platform := "immunefi";
     Hunter.b_name := "Vault";
     Hunter.b_maxReward := 1000000;
     Hunter.b_launchDate := 0;
     Hunter.b_totalPaid := None;
     Hunter.b_priorityScore := Double.Finite 0;
     Hunter.b_reasons := [];
     Hunter.b_estimatedDifficulty := Hunter.high_difficulty;
     Hunter.b_contracts := [];
     Hunter.b_severity :=
       {| Hunter.sr_critical := {| Hunter.rg_min := 50000; Hunter.rg_max := 1000000 |};
          Hunter.sr_high := {| Hunter.rg_min := 10000; Hunter.rg_max := 50000 |};
          Hunter.sr_medium := {| Hunter.rg_min := 1000; Hunter.rg_max := 10000 |};
          Hunter.sr_low := {| Hunter.rg_min := 100; Hunter.rg_max := 1000 |} |} |}.

(** Numbers printed by their integer part. *)
Definition integerPart : Hunter.Formats :=
  {| Hunter.toFixed0 := fun q => pretty (Qnum q / Z.pos (Qden q))%Z;
     Hunter.toLocaleString := fun q => pretty (Qnum q / Z.pos (Qden q))%Z;
     Hunter.toString := fun x =>
       match x with
       | Double.Finite q => pretty (Qnum q / Z.pos (Qden q))%Z
       | Double.Infinity => "Infinity"
       | Double.NegInfinity => "-Infinity"
       | Double.NaN => "NaN"
       end |}.

(** A program launched two years before [program], with twice the
    reward. *)
Definition oldProgram : Hunter.PrioritizedBounty :=
  {| Hunter.b_id := "bridge"; Hunter.b_platform := "immunefi";
     Hunter.b_name := "Bridge";
     Hunter.b_maxReward := 2000000;
     Hunter.b_launchDate := (- (800 * 86400000))%Q;
     Hunter.b_totalPaid := None;
     Hunter.b_priorityScore := Double.Finite 0;
     Hunter.b_reasons := [];
     Hunter.b_estimatedDifficulty := Hunter.high_difficulty;
     Hunter.b_contracts := [];
     Hunter.b_severity := Hunter.b_severity program |}.

(** The spawner answers with one expert whose focus_areas are a string,
    not an array. *)
Definition looseExpert : ExpertDefinition :=
  {| x_name := "OracleExpert"; x_type := "protocol";
     x_reason := "price feeds"; x_systemPrompt := "Analyze the oracle.";
     x_focusAreas := notAnArray; x_temperature := 0 |}.

Definition looseWorld : World :=
  {| spawner_analyze := fun _ => Ok "{}";
     expert_analyze := expert_analyze Sample.world;
     id_suffix := id_suffix Sample.world;
     presentArgument := presentArgument Sample.world;
     attackFinding := attackFinding Sample.world;
     defendFinding := defendFinding Sample.world;
     pope_analyze := pope_analyze Sample.world;
     smith_analyze := smith_analyze Sample.world;
     forgeMaster_analyze := forgeMaster_analyze Sample.world;
     verifier_analyze := verifier_analyze Sample.world;
     Date_now := Date_now Sample.world;
     parse_spawn := fun _ =>
       Some {| contract_analysis := None;
               experts_to_spawn :=
                 Some [{| re_name := "OracleExpert"; re_type := "protocol";
                          re_reason := "price feeds";
                          re_system_prompt := "Analyze the oracle.";
                          re_focus_areas := Some notAnArray;
                          re_temperature := None |}];
               novel_patterns_detected := None |};
     parse_findings := parse_findings Sample.world;
     parse_synthesis := parse_synthesis Sample.world;
     parse_vote := parse_vote Sample.world |}.

(** A synthesis whose one validated reference carries an id that no
    finding has and the title of [Sample.access]. *)
Definition byTitle : SynthesisData :=
  {| d_synthesis := "One real issue.";
     d_validated_vulnerabilities :=
       [{| v_id := "finding-3"; v_title := "Missing onlyOwner";
           v_description := "confirmed"; v_severity := CRITICAL;
           v_confidence := 99 # 100 |}];
     d_rejected_vulnerabilities := [];
     d_novel_insights := [];
     d_combined_attack_vector := None;
     d_recommended_severity := CRITICAL;
     d_estimated_impact_usd := 0;
     d_confidence := 9 # 10 |}.

Definition titleWorld : World :=
  {| spawner_analyze := spawner_analyze Sample.world;
     expert_analyze := expert_analyze Sample.world;
     id_suffix := id_suffix Sample.world;
     presentArgument := presentArgument Sample.world;
     attackFinding := attackFinding Sample.world;
     defendFinding := defendFinding Sample.world;
     pope_analyze := Ok "{}";
     smith_analyze := smith_analyze Sample.world;
     forgeMaster_analyze := forgeMaster_analyze Sample.world;
     verifier_analyze := verifier_analyze Sample.world;
     Date_now := Date_now Sample.world;
     parse_spawn := parse_spawn Sample.world;
     parse_findings := parse_findings Sample.world;
     parse_synthesis := fun _ => Some byTitle;
     parse_vote := parse_vote Sample.world |}.

(** Four exploits of one finding before a panel of which the verifiers
    1 to [3 - x] pass exploit number [x] and the others fail it: three,
    two, one and no 'pass' vote. *)
Definition panelWorld : World :=
  {| spawner_analyze := spawner_analyze Sample.world;
     expert_analyze := expert_analyze Sample.world;
     id_suffix := id_suffix Sample.world;
     presentArgument := presentArgument Sample.world;
     attackFinding := attackFinding Sample.world;
     defendFinding := defendFinding Sample.world;
     pope_analyze := pope_analyze Sample.world;
     smith_analyze := smith_analyze Sample.world;
     forgeMaster_analyze := forgeMaster_analyze Sample.world;
     verifier_analyze := fun x id => Ok (if id <=? 3 - x then "pass" else "fail");
     Date_now := Date_now Sample.world;
     parse_spawn := parse_spawn Sample.world;
     parse_findings := parse_findings Sample.world;
     parse_synthesis := parse_synthesis Sample.world;
     parse_vote := Sample.voteOfText |}.

Definition fourExploits : PipelineState :=
  with_exploits
    (exploits Sample.verifying ++ exploits Sample.verifying
     ++ exploits Sample.verifying ++ exploits Sample.verifying)
    Sample.verifying.

(** Sixteen findings: fourteen critical ones of confidence 0.9, a low one
    of confidence 0.3 and a high one of confidence 0.1. In exact arithmetic
    the last two both score 0.3; as doubles, 3 * 0.1 exceeds 0.3. *)
Definition rating (k : nat) : VulnerabilityFinding :=
  {| f_id := "ReentrancyExpert-1-" +:+ pretty k; f_type := "reentrancy";
     f_title := "Finding " +:+ pretty k; f_description := "candidate";
     f_severity := if k <? 14 then CRITICAL else if k =? 14 then LOW else HIGH;
     f_confidence :=
       if k <? 14 then 9 # 10 else if k =? 14 then 3 # 10 else 1 # 10;
     f_discoveredBy := "ReentrancyExpert"; f_status := validated;
     f_debateHistory := None |}.

Definition rated : PipelineState :=
  with_findings (map rating (seq 0 16))
    (register "ReentrancyExpert" (initializeState "demo" [])).

End Cases.

(** * Properties *)

(** ** Promises and loops *)

Lemma rbind_Ok {A B : Type} (r : Result A) (k : A -> Result B) (b : B) :
  rbind r k = Ok b -> exists a, r = Ok a /\ k a = Ok b.
Proof. destruct r as [a|m]; simpl; [eauto | discriminate]. Qed.

Ltac inv_await H :=
  let a := fresh "a" in
  let Ha := fresh "Ha" in
  apply rbind_Ok in H; destruct H as (a & Ha & H).

Lemma Promise_all_length {A B : Type} (f : A -> Result B) xs ys :
  Promise_all f xs = Ok ys -> length ys = length xs.
Proof.
  revert ys; induction xs as [|x xs IH]; intros ys; simpl.
  - intros [= <-]; reflexivity.
  - destruct (f x) as [y|]; simpl; [|discriminate].
    destruct (Promise_all f xs) as [ys'|]; simpl; [|discriminate].
    intros [= <-]; simpl; f_equal; apply IH; reflexivity.
Qed.

Lemma Promise_all_ok {A B : Type} (f : A -> Result B) xs :
  (forall x, In x xs -> is_ok (f x) = true) ->
  exists ys, Promise_all f xs = Ok ys.
Proof.
  induction xs as [|x xs IH]; intros H; simpl.
  - eexists; reflexivity.
  - assert (Hx : is_ok (f x) = true) by (apply H; left; reflexivity).
    destruct (f x) as [y|]; [|discriminate]; simpl.
    destruct IH as [ys ->]; [intros; apply H; right; assumption|].
    simpl; eexists; reflexivity.
Qed.

Lemma for_of_inv {S A : Type} (P : S -> Prop) (body : A -> S -> Result S) xs :
  (forall x s s', In x xs -> P s -> body x s = Ok s' -> P s') ->
  forall s s', P s -> for_of body xs s = Ok s' -> P s'.
Proof.
  induction xs as [|x xs IH]; intros Hstep s s' Hs; simpl.
  - intros [= <-]; exact Hs.
  - intros H; inv_await H.
    eapply IH; [| |exact H].
    + intros; eapply Hstep; eauto; right; assumption.
    + eapply Hstep; eauto; left; reflexivity.
Qed.

Lemma for_of_app {S A : Type} (body : A -> S -> Result S) xs ys s :
  for_of body (xs ++ ys) s = rbind (for_of body xs s) (for_of body ys).
Proof.
  revert s; induction xs as [|x xs IH]; intros s; simpl; [reflexivity|].
  destruct (body x s) as [s1|m]; simpl; [apply IH | reflexivity].
Qed.

Lemma Promise_all_each {A B : Type} (f : A -> Result B) xs ys :
  Promise_all f xs = Ok ys -> Forall2 (fun x y => f x = Ok y) xs ys.
Proof.
  revert ys. induction xs as [|x xs IH]; intros ys; simpl.
  - intros [= <-]. constructor.
  - intros H. inv_await H. apply rbind_Ok in H. destruct H as (ys' & Hys & H).
    injection H as <-. constructor; [exact Ha|]. apply IH. exact Hys.
Qed.

Lemma Promise_all_In {A B : Type} (f : A -> Result B) xs ys :
  Promise_all f xs = Ok ys -> forall x, In x xs -> exists y, f x = Ok y.
Proof.
  revert ys. induction xs as [|a xs IH]; intros ys H x Hx; [destruct Hx|].
  simpl in H. inv_await H. apply rbind_Ok in H. destruct H as (ys' & Hys & _).
  destruct Hx as [<-|Hx]; [eauto|]. eapply IH; eauto.
Qed.

(** ** Numbers

    The doubles lie on a grid: every finite double is an integer multiple
    of the smallest positive one. *)

Section Numbers.

Import Double.
Local Open Scope Q_scope.

Definition quantum : Q := pow2 (-1074).

Definition grid (q : Q) : Prop := exists k : Z, q == inject_Z k * quantum.

Definition isDouble (x : number) : Prop :=
  match x with Finite q => grid q | _ => True end.

Lemma pow2_pos e : 0 < pow2 e.
Proof. unfold pow2. apply Qpower_0_lt. reflexivity. Qed.

Lemma pow2_nonneg e : (0 <= e)%Z -> pow2 e == inject_Z (2 ^ e).
Proof. intros He. unfold pow2. symmetry. apply (Zpower_Qpower 2 e He). Qed.

Lemma pow2_minus a b : pow2 (a - b) == pow2 a / pow2 b.
Proof. unfold pow2. apply Qpower_minus. discriminate. Qed.

Lemma pow2_plus a b : pow2 (a + b) == pow2 a * pow2 b.
Proof. unfold pow2. apply Qpower_plus. discriminate. Qed.

Lemma pow2_le a b : (a <= b)%Z -> pow2 a <= pow2 b.
Proof. intros H. unfold pow2. apply Qpower_le_compat_l; [exact H|]. discriminate. Qed.

Lemma exponent_le a : 0 < a -> pow2 (exponent a) <= a.
Proof.
  intros Ha. unfold exponent.
  set (ln := Z.log2 (Qnum a)). set (ld := Z.log2 (Z.pos (Qden a))).
  destruct (Qle_bool (pow2 (ln - ld)) a) eqn:E.
  - apply Qle_bool_iff. exact E.
  - clear E.
    assert (Hn : (0 < Qnum a)%Z).
    { destruct a as [n d]. unfold Qlt in Ha. simpl in *. lia. }
    destruct (Z.log2_spec (Qnum a) Hn) as [Hn1 _].
    destruct (Z.log2_spec (Z.pos (Qden a)) ltac:(lia)) as [_ Hd2].
    fold ln in Hn1. fold ld in Hd2.
    assert (Hln : (0 <= ln)%Z) by apply Z.log2_nonneg.
    assert (Hld : (0 <= ld)%Z) by apply Z.log2_nonneg.
    replace (ln - ld - 1)%Z with (ln - Z.succ ld)%Z by lia.
    rewrite pow2_minus, (pow2_nonneg ln Hln), (pow2_nonneg (Z.succ ld)) by lia.
    apply Qle_shift_div_r.
    + change 0 with (inject_Z 0). rewrite <- Zlt_Qlt. lia.
    + destruct a as [n d]. simpl in *.
      unfold Qle, Qmult, inject_Z. simpl. nia.
Qed.

Lemma nearestEven_ge q : 1 <= q -> (1 <= nearestEven q)%Z.
Proof.
  intros Hq. unfold nearestEven.
  assert (H1 : (1 <= Qfloor q)%Z).
  { change 1%Z with (Qfloor 1). apply Qfloor_resp_le. exact Hq. }
  destruct (_ ?= _); [destruct (Z.even _)| |]; lia.
Qed.

Lemma nearestEven_nonneg q : 0 <= q -> (0 <= nearestEven q)%Z.
Proof.
  intros Hq. unfold nearestEven.
  assert (H1 : (0 <= Qfloor q)%Z).
  { change 0%Z with (Qfloor 0). apply Qfloor_resp_le. exact Hq. }
  destruct (_ ?= _); [destruct (Z.even _)| |]; lia.
Qed.

Lemma grid_step q : grid q -> ~ q == 0 -> quantum <= Qabs q.
Proof.
  intros [k Hk] Hq.
  assert (Hu : 0 < quantum) by apply pow2_pos.
  rewrite Hk, Qabs_Qmult, (Qabs_pos quantum) by lra.
  assert (Hk0 : k <> 0%Z).
  { intros ->. apply Hq. rewrite Hk. ring. }
  assert (H1 : 1 <= Qabs (inject_Z k)).
  { apply Qabs_case; intros Hs.
    - change 1 with (inject_Z 1). rewrite <- Zle_Qle.
      change 0 with (inject_Z 0) in Hs. rewrite <- Zle_Qle in Hs. lia.
    - rewrite <- inject_Z_opp. change 1 with (inject_Z 1). rewrite <- Zle_Qle.
      change 0 with (inject_Z 0) in Hs. rewrite <- Zle_Qle in Hs. lia. }
  nra.
Qed.

Lemma grid_minus a b : grid a -> grid b -> grid (a + - b).
Proof.
  intros [ka Ha] [kb Hb]. exists (ka + - kb)%Z.
  rewrite Ha, Hb, inject_Z_plus, inject_Z_opp. ring.
Qed.

Lemma grid_opp a : grid a -> grid (- a).
Proof.
  intros [ka Ha]. exists (- ka)%Z. rewrite Ha, inject_Z_opp. ring.
Qed.

Lemma grid_0 : grid 0.
Proof. exists 0%Z. ring. Qed.

Lemma round_double q : isDouble (round q).
Proof.
  unfold round.
  destruct (Qeq_bool (Qabs q) 0); [apply grid_0|].
  set (e := Z.max (exponent (Qabs q) - 52) (-1074)).
  set (m := nearestEven (Qabs q / pow2 e)).
  destruct (Qle_bool (pow2 1024) (inject_Z m * pow2 e)).
  { destruct (Qle_bool 0 q); exact I. }
  assert (G : grid (inject_Z m * pow2 e)).
  { exists (m * 2 ^ (e + 1074))%Z.
    replace e with ((e + 1074) + -1074)%Z at 1 by lia.
    rewrite pow2_plus, (pow2_nonneg (e + 1074)) by lia.
    rewrite inject_Z_mult. unfold quantum. ring. }
  destruct (Qle_bool 0 q); simpl; [exact G | apply grid_opp, G].
Qed.

(** The sign of a rounded number is the sign of what was rounded, as long
    as this lies on the grid of the doubles. *)
Lemma round_negative q :
  grid q -> negative (round q) = negb (Qle_bool 0 q).
Proof.
  intros G. unfold round.
  destruct (Qeq_bool (Qabs q) 0) eqn:Ez.
  { apply Qeq_bool_iff in Ez.
    assert (Hq : 0 <= q).
    { revert Ez. apply Qabs_case; intros; lra. }
    apply Qle_bool_iff in Hq. rewrite Hq. reflexivity. }
  assert (Hnz : ~ q == 0).
  { intros Hq. rewrite Hq in Ez. discriminate. }
  pose proof (grid_step q G Hnz) as Hstep.
  set (a := Qabs q) in *.
  assert (Ha : 0 < a).
  { pose proof (pow2_pos (-1074)). unfold quantum in Hstep. lra. }
  set (e := Z.max (exponent a - 52) (-1074)).
  assert (He : pow2 e <= a).
  { unfold e. apply Z.max_case_strong; intros _.
    - pose proof (exponent_le a Ha).
      pose proof (pow2_le (exponent a - 52) (exponent a) ltac:(lia)). lra.
    - exact Hstep. }
  pose proof (pow2_pos e) as Hpe.
  assert (Hm : (1 <= nearestEven (a / pow2 e))%Z).
  { apply nearestEven_ge. apply Qle_shift_div_l; lra. }
  set (m := nearestEven (a / pow2 e)) in *.
  assert (Hr : 0 < inject_Z m * pow2 e).
  { assert (1 <= inject_Z m).
    { change 1 with (inject_Z 1). rewrite <- Zle_Qle. exact Hm. }
    nra. }
  destruct (Qle_bool (pow2 1024) (inject_Z m * pow2 e)).
  - destruct (Qle_bool 0 q); reflexivity.
  - destruct (Qle_bool 0 q) eqn:Es; unfold negative, lt.
    + f_equal. apply Qle_bool_iff. lra.
    + simpl. f_equal. destruct (Qle_bool 0 (- _)) eqn:E2; [|reflexivity].
      apply Qle_bool_iff in E2. lra.
Qed.

Lemma mul_double x y : isDouble (mul x y).
Proof.
  destruct x as [a| | |], y as [b| | |]; simpl; try exact I.
  - apply round_double.
  - unfold scaled. destruct (Qeq_bool a 0); [exact I|]. destruct (Bool.eqb _ _); exact I.
  - unfold scaled. destruct (Qeq_bool a 0); [exact I|]. destruct (Bool.eqb _ _); exact I.
  - unfold scaled. destruct (Qeq_bool b 0); [exact I|]. destruct (Bool.eqb _ _); exact I.
  - unfold scaled. destruct (Qeq_bool b 0); [exact I|]. destruct (Bool.eqb _ _); exact I.
Qed.

Lemma Qle_bool_minus a b : Qle_bool 0 (a + - b) = Qle_bool b a.
Proof.
  destruct (Qle_bool b a) eqn:E.
  - apply Qle_bool_iff in E. apply Qle_bool_iff. lra.
  - destruct (Qle_bool 0 (a + - b)) eqn:E2; [|reflexivity].
    apply Qle_bool_iff in E2.
    assert (H : b <= a) by lra. apply Qle_bool_iff in H. congruence.
Qed.

(** The comparator of a sort, [x - y], is negative exactly when [x < y]:
    a difference of two doubles does not round to zero. *)
Lemma sub_negative x y :
  isDouble x -> isDouble y -> negative (sub x y) = Double.lt x y.
Proof.
  destruct x as [a| | |], y as [b| | |]; simpl; intros Hx Hy; try reflexivity.
  unfold sub, neg, add.
  rewrite round_negative by (apply grid_minus; assumption).
  rewrite Qle_bool_minus. reflexivity.
Qed.

Lemma lt_asym x y : Double.lt x y = true -> Double.lt y x = false.
Proof.
  destruct x as [a| | |], y as [b| | |]; simpl; try reflexivity; try discriminate.
  rewrite !negb_true_iff, negb_false_iff. intros H.
  destruct (Qle_bool a b) eqn:E; [reflexivity|].
  destruct (Qlt_le_dec b a) as [Hlt|Hle].
  - assert (H' : b <= a) by lra. apply Qle_bool_iff in H'. congruence.
  - apply Qle_bool_iff in Hle. congruence.
Qed.

Lemma Qle_bool_false a b : Qle_bool a b = false <-> b < a.
Proof.
  split.
  - intros H. destruct (Qlt_le_dec b a) as [Hlt|Hle]; [exact Hlt|].
    apply Qle_bool_iff in Hle. congruence.
  - intros H. destruct (Qle_bool a b) eqn:E; [|reflexivity].
    apply Qle_bool_iff in E. lra.
Qed.

(** [z <= y < x] leaves no room for [x < z]. *)
Lemma lt_below x y z :
  Double.lt y x = true -> Double.lt y z = false -> Double.lt x z = false.
Proof.
  destruct x as [a| | |], y as [b| | |], z as [c| | |]; simpl;
    try reflexivity; try discriminate.
  rewrite negb_true_iff, !negb_false_iff.
  intros H1 H2. apply Qle_bool_false in H1. apply Qle_bool_iff in H2.
  apply Qle_bool_iff. lra.
Qed.

Lemma lt_false_le x y :
  isNaN x = false -> isNaN y = false ->
  Double.lt x y = false -> Double.le y x = true.
Proof.
  destruct x as [a| | |], y as [b| | |]; simpl;
    try reflexivity; try discriminate.
  intros _ _. rewrite negb_false_iff. trivial.
Qed.

Lemma le_trans x y z :
  Double.le x y = true -> Double.le y z = true -> Double.le x z = true.
Proof.
  destruct x as [a| | |], y as [b| | |], z as [c| | |]; simpl;
    try reflexivity; try discriminate.
  intros H1 H2.
  apply Qle_bool_iff in H1, H2. apply Qle_bool_iff. lra.
Qed.

Lemma lt_trans x y z :
  Double.lt x y = true -> Double.lt y z = true -> Double.lt x z = true.
Proof.
  destruct x as [a| | |], y as [b| | |], z as [c| | |]; simpl;
    try reflexivity; try discriminate.
  rewrite !negb_true_iff. intros H1 H2.
  apply Qle_bool_false in H1, H2. apply Qle_bool_false. lra.
Qed.

Lemma le_lt_trans x y z :
  Double.le x y = true -> Double.lt y z = true -> Double.lt x z = true.
Proof.
  destruct x as [a| | |], y as [b| | |], z as [c| | |]; simpl;
    try reflexivity; try discriminate.
  rewrite !negb_true_iff. intros H1 H2.
  apply Qle_bool_iff in H1. apply Qle_bool_false in H2.
  apply Qle_bool_false. lra.
Qed.

Lemma le_lt_false x y : Double.le y x = true -> Double.lt x y = false.
Proof.
  destruct x as [a| | |], y as [b| | |]; simpl;
    try reflexivity; try discriminate.
  intros ->. reflexivity.
Qed.

End Numbers.

(** ** The tribunal (C1) *)

Section TribunalRule.

Import Orchestrator.

(** What verifier [id] answered about exploit number [x], as the
    structured parse reads it. *)
Definition answer (W : World) (x id : nat) : Result VoteData :=
  Agent.analyzeStructured (parse_vote W) (verifier_analyze W x id).

(** How many of the answers vote 'pass'. *)
Definition passes (ds : list VoteData) : nat :=
  length (List.filter (fun d => String.eqb (vd_vote d) "pass") ds).

(** The vote that [verify] makes of an answer. *)
Definition recorded (id : nat) (d : VoteData) (v : VerificationVote) : Prop :=
  verifierId v = "Verifier_" +:+ pretty id
  /\ vote v = vd_vote d
  /\ reason v = vd_reason d
  /\ reproducibilityScore v = vd_reproducibility_score d
  /\ noveltyScore v = vd_novelty_score d
  /\ feasibilityScore v = vd_feasibility_score d.

(** The consensus rule for a panel of three, on a count [n] of 'pass'
    votes. *)
Definition ruled (n : nat) (r : VerificationResult) : Prop :=
  (2 <= n -> consensus r = PASS)
  /\ (n = 0 -> consensus r = FAIL)
  /\ (n = 1 -> consensus r = SPLIT)
  /\ (autoSubmit r = true <-> n = 3).

Lemma passCount_le vs : passCount vs <= length vs.
Proof.
  unfold passCount. induction vs as [|v vs IH]; simpl; [lia|].
  destruct (String.eqb (vote v) "pass"); simpl; lia.
Qed.

Lemma castVote_Ok W x id v :
  castVote W x id = Ok v -> exists d, answer W x id = Ok d /\ recorded id d v.
Proof.
  unfold castVote, answer. intros H. inv_await H. injection H as <-.
  exists a. split; [exact Ha|]. repeat split.
Qed.

Lemma panel_votes W x vs :
  Promise_all (castVote W x) verifierIds = Ok vs ->
  exists d1 d2 d3 v1 v2 v3,
    vs = [v1; v2; v3]
    /\ answer W x 1 = Ok d1 /\ answer W x 2 = Ok d2 /\ answer W x 3 = Ok d3
    /\ recorded 1 d1 v1 /\ recorded 2 d2 v2 /\ recorded 3 d3 v3.
Proof.
  intros H. apply Promise_all_each in H.
  inversion H as [|? v1 ? l1 H1 T1]; subst.
  inversion T1 as [|? v2 ? l2 H2 T2]; subst.
  inversion T2 as [|? v3 ? l3 H3 T3]; subst.
  inversion T3; subst.
  apply castVote_Ok in H1, H2, H3.
  destruct H1 as (d1 & A1 & R1), H2 as (d2 & A2 & R2), H3 as (d3 & A3 & R3).
  exists d1, d2, d3, v1, v2, v3. auto 10.
Qed.

Lemma recorded_passes d1 d2 d3 v1 v2 v3 :
  recorded 1 d1 v1 -> recorded 2 d2 v2 -> recorded 3 d3 v3 ->
  passCount [v1; v2; v3] = passes [d1; d2; d3].
Proof.
  intros (_ & E1 & _) (_ & E2 & _) (_ & E3 & _).
  unfold passCount, passes. simpl. rewrite E1, E2, E3.
  destruct (String.eqb (vd_vote d1) "pass"), (String.eqb (vd_vote d2) "pass"),
    (String.eqb (vd_vote d3) "pass"); reflexivity.
Qed.

(** The result that the orchestrator builds in line. *)
Lemma verificationResult_ruled fid vs :
  length vs = 3 -> ruled (passCount vs) (verificationResult fid vs).
Proof.
  intros Hlen. unfold ruled, verificationResult.
  cbn [votes consensus autoSubmit].
  pose proof (passCount_le vs) as Hle. rewrite Hlen in Hle.
  destruct (passCount vs) as [|[|[|[|n]]]]; cbn; repeat split;
    try reflexivity; try lia; try discriminate.
Qed.

(** The result that the class [VerificationTribunal] builds with its
    default thresholds. *)
Lemma verify_result_ruled fid vs :
  length vs = 3 ->
  ruled (passCount vs) (Tribunal.verify_result Tribunal.defaultConfig fid vs).
Proof.
  intros Hlen. unfold ruled, Tribunal.verify_result.
  cbn [votes consensus autoSubmit Tribunal.defaultConfig
         Tribunal.autoSubmitThreshold Tribunal.passThreshold].
  pose proof (passCount_le vs) as Hle. rewrite Hlen in Hle.
  destruct (passCount vs) as [|[|[|[|n]]]]; cbn; repeat split;
    try reflexivity; try lia; try discriminate.
Qed.

Lemma verifyOne_effect W i x st st' :
  verifyOne W (i, x) st = Ok st' ->
  exists f vs,
    findings st !! ex_vulnerability x = Some f
    /\ Promise_all (castVote W i) verifierIds = Ok vs
    /\ verificationResults st'
       = verificationResults st ++ [verificationResult (f_id f) vs]
    /\ exploits st'
       = alter (set_verified
                  (bool_decide (consensus (verificationResult (f_id f) vs) = PASS)))
           i (exploits st)
    /\ findings st' = findings st.
Proof.
  unfold verifyOne. simpl.
  destruct (findings st !! ex_vulnerability x) as [f|]; [|discriminate].
  intros H. apply rbind_Ok in H. destruct H as (vs & Hvs & H).
  injection H as <-. exists f, vs. simpl. auto.
Qed.

(** The loop of [verify]: one result per exploit, in order, built from
    the votes of the panel on that exploit. *)
Lemma verify_loop W ixs : forall st st',
  for_of (verifyOne W) ixs st = Ok st' ->
  findings st' = findings st
  /\ exists new,
       verificationResults st' = verificationResults st ++ new
       /\ length new = length ixs
       /\ forall p i x, ixs !! p = Some (i, x) ->
            exists f vs,
              findings st !! ex_vulnerability x = Some f
              /\ Promise_all (castVote W i) verifierIds = Ok vs
              /\ new !! p = Some (verificationResult (f_id f) vs).
Proof.
  induction ixs as [|[i x] ixs IH]; intros st st'; simpl.
  - intros [= <-]. split; [reflexivity|]. exists [].
    rewrite app_nil_r. split; [reflexivity|]. split; [reflexivity|].
    intros p i x Hp. discriminate.
  - intros H. inv_await H.
    apply verifyOne_effect in Ha.
    destruct Ha as (f & vs & Hf & Hvs & Hres & _ & Hfs).
    destruct (IH _ _ H) as (Hfs' & new & Hnew & Hlen & Heach).
    split; [congruence|].
    exists (verificationResult (f_id f) vs :: new).
    split; [rewrite Hnew, Hres, <- app_assoc; reflexivity|].
    split; [simpl; f_equal; exact Hlen|].
    intros [|p] i' x' Hp; simpl in Hp.
    + injection Hp as <- <-. exists f, vs. auto.
    + destruct (Heach p i' x' Hp) as (f' & vs' & Hf' & Hvs' & Hr).
      exists f', vs'. split; [rewrite <- Hfs; exact Hf'|]. auto.
Qed.

Lemma indexed_length {A : Type} (xs : list A) :
  length (indexed xs) = length xs.
Proof.
  unfold indexed.
  rewrite length_combine, length_seq. lia.
Qed.

Lemma indexed_nth {A : Type} (xs : list A) k x :
  xs !! k = Some x -> indexed xs !! k = Some (k, x).
Proof.
  unfold indexed.
  assert (H : forall (l : list A) a k x,
            l !! k = Some x -> combine (seq a (length l)) l !! k = Some (a + k, x)).
  { induction l as [|y l IH]; intros a [|j] z; simpl; try discriminate.
    - intros [= <-]. rewrite Nat.add_0_r. reflexivity.
    - intros Hj. rewrite (IH (S a) j z Hj). f_equal. f_equal. lia. }
  intros Hk. apply (H xs 0 k x Hk).
Qed.

Lemma register_all_exploits ns st :
  exploits (fold_left (fun s n => register n s) ns st) = exploits st
  /\ verificationResults (fold_left (fun s n => register n s) ns st)
     = verificationResults st.
Proof.
  revert st; induction ns as [|n ns IH]; intros st; simpl; [auto|].
  destruct (IH (register n st)) as [-> ->]. auto.
Qed.

Lemma register_all_store ns st :
  findings (fold_left (fun s n => register n s) ns st) = findings st.
Proof.
  revert st; induction ns as [|n ns IH]; intros st; simpl; [reflexivity|].
  rewrite IH. reflexivity.
Qed.

End TribunalRule.

(** C1. Every verification of an exploit by the panel of three verifiers
    appends one result. Its votes are made of what the three verifiers
    answered, in their order; its consensus is PASS when at least two of the
    answers vote 'pass', FAIL when none does, SPLIT when one does, and its
    autoSubmit flag is set exactly when all three do. The class
    [VerificationTribunal] with its default thresholds (2 to pass, 3 to
    auto-submit) rules the same way on the votes that its three verifiers
    return. *)
Theorem tribunal_consensus_rule W st st' k x :
  Orchestrator.verify W st = Ok st' ->
  Orchestrator.exploits st !! k = Some x ->
  (exists r f d1 d2 d3 v1 v2 v3,
      Orchestrator.verificationResults st'
        !! (length (Orchestrator.verificationResults st) + k) = Some r
      /\ Orchestrator.findings st !! Orchestrator.ex_vulnerability x = Some f
      /\ findingId r = f_id f
      /\ answer W k 1 = Ok d1 /\ answer W k 2 = Ok d2 /\ answer W k 3 = Ok d3
      /\ votes r = [v1; v2; v3]
      /\ recorded 1 d1 v1 /\ recorded 2 d2 v2 /\ recorded 3 d3 v3
      /\ ruled (passes [d1; d2; d3]) r)
  /\ (forall fid runVerifier r,
        Tribunal.verify Tribunal.defaultConfig fid runVerifier = Ok r ->
        exists v1 v2 v3,
          runVerifier 1 = Ok v1 /\ runVerifier 2 = Ok v2 /\ runVerifier 3 = Ok v3
          /\ findingId r = fid
          /\ votes r = [v1; v2; v3]
          /\ ruled (passCount [v1; v2; v3]) r).
Proof.
  intros H Hx. split.
  - unfold Orchestrator.verify in H.
    set (ns := Orchestrator.teamNames "Verifier_" Orchestrator.verifierIds) in *.
    destruct (register_all_exploits ns st) as [Hex Hvr].
    pose proof (register_all_store ns st) as Hfs.
    destruct (verify_loop W _ _ _ H) as (_ & new & Hnew & _ & Heach).
    destruct (Heach k k x) as (f & vs & Hf & Hvs & Hr).
    { rewrite Hex. apply indexed_nth. exact Hx. }
    destruct (panel_votes W k vs Hvs)
      as (d1 & d2 & d3 & v1 & v2 & v3 & -> & A1 & A2 & A3 & R1 & R2 & R3).
    exists (Orchestrator.verificationResult (f_id f) [v1; v2; v3]),
      f, d1, d2, d3, v1, v2, v3.
    split.
    { rewrite Hnew, Hvr. rewrite lookup_app_r by lia.
      rewrite Nat.add_comm, Nat.add_sub. exact Hr. }
    split; [rewrite <- Hfs; exact Hf|].
    split; [reflexivity|].
    split; [exact A1|]. split; [exact A2|]. split; [exact A3|].
    split; [reflexivity|].
    split; [exact R1|]. split; [exact R2|]. split; [exact R3|].
    rewrite <- (recorded_passes d1 d2 d3 v1 v2 v3 R1 R2 R3).
    apply verificationResult_ruled. reflexivity.
  - intros fid runVerifier r Hr. unfold Tribunal.verify in Hr.
    inv_await Hr. injection Hr as <-.
    apply Promise_all_each in Ha. simpl in Ha.
    inversion Ha as [|? v1 ? l1 H1 T1]; subst.
    inversion T1 as [|? v2 ? l2 H2 T2]; subst.
    inversion T2 as [|? v3 ? l3 H3 T3]; subst.
    inversion T3; subst.
    exists v1, v2, v3.
    split; [exact H1|]. split; [exact H2|]. split; [exact H3|].
    split; [reflexivity|]. split; [reflexivity|].
    apply verify_result_ruled. reflexivity.
Qed.

Lemma tribunal_consensus_rule_witness :
  exists st',
    Orchestrator.verify Cases.panelWorld Cases.fourExploits = Ok st'
    /\ map consensus (Orchestrator.verificationResults st')
       = [PASS; PASS; SPLIT; FAIL]
    /\ map autoSubmit (Orchestrator.verificationResults st')
       = [true; false; false; false]
    /\ exists r d1 d2 d3,
         Orchestrator.verificationResults st' !! 1 = Some r
         /\ answer Cases.panelWorld 1 1 = Ok d1
         /\ answer Cases.panelWorld 1 2 = Ok d2
         /\ answer Cases.panelWorld 1 3 = Ok d3
         /\ ruled (passes [d1; d2; d3]) r.
Proof.
  eexists. split; [vm_compute; reflexivity|].
  split; [vm_compute; reflexivity|].
  split; [vm_compute; reflexivity|].
  match goal with
  | |- context [Orchestrator.verificationResults ?st' !! 1] =>
      assert (H : Orchestrator.verify Cases.panelWorld Cases.fourExploits = Ok st')
        by (vm_compute; reflexivity);
      destruct (tribunal_consensus_rule Cases.panelWorld Cases.fourExploits st'
                  1 _ H eq_refl)
        as [(r & f & d1 & d2 & d3 & v1 & v2 & v3
             & Hr & _ & _ & A1 & A2 & A3 & _ & _ & _ & _ & Hrule) _]
  end.
  exists r, d1, d2, d3. auto.
Defined.

(** ** The debate cutoff (C2) *)

Section Prioritize.

Import Orchestrator.

Variable store : list VulnerabilityFinding.

(** [j] does not score higher than [i]: the order the sort produces. *)
Definition notBelow (i j : nat) : Prop :=
  Double.lt (scoreAt store i) (scoreAt store j) = false.

Lemma scoreAt_double i : isDouble (scoreAt store i).
Proof.
  unfold scoreAt. destruct (store !! i) as [f|]; [apply mul_double | apply grid_0].
Qed.

Lemma comparatorAt_spec i j :
  i < length store -> j < length store ->
  comparatorAt store i j = Double.sub (scoreAt store j) (scoreAt store i).
Proof.
  intros Hi Hj. unfold comparatorAt, scoreAt, comparator.
  destruct (lookup_lt_is_Some_2 store i Hi) as [a ->].
  destruct (lookup_lt_is_Some_2 store j Hj) as [b ->].
  reflexivity.
Qed.

(** The comparator puts [i] strictly before [j] exactly when [j] scores
    less. *)
Lemma comparatorAt_negative i j :
  i < length store -> j < length store ->
  Double.negative (comparatorAt store i j)
  = Double.lt (scoreAt store j) (scoreAt store i).
Proof.
  intros Hi Hj. rewrite comparatorAt_spec by assumption.
  apply sub_negative; apply scoreAt_double.
Qed.

Lemma sortInsert_perm {A : Type} (cmp : A -> A -> Double.number) x l :
  sortInsert cmp x l ≡ₚ x :: l.
Proof.
  induction l as [|y l IH]; simpl; [reflexivity|].
  destruct (Double.negative (cmp x y)); [reflexivity|].
  rewrite IH. apply perm_swap.
Qed.

Lemma sort_perm_acc {A : Type} (cmp : A -> A -> Double.number) l : forall acc,
  fold_left (fun sorted x => sortInsert cmp x sorted) l acc ≡ₚ acc ++ l.
Proof.
  induction l as [|x l IH]; intros acc; simpl.
  - rewrite app_nil_r. reflexivity.
  - rewrite IH, sortInsert_perm. apply Permutation_middle.
Qed.

Lemma sort_perm {A : Type} (cmp : A -> A -> Double.number) l :
  sort cmp l ≡ₚ l.
Proof. unfold sort. rewrite sort_perm_acc. reflexivity. Qed.

Definition inRange (i : nat) : Prop := i < length store.

Lemma sortInsert_sorted x l :
  inRange x -> Forall inRange l ->
  StronglySorted notBelow l ->
  StronglySorted notBelow (sortInsert (comparatorAt store) x l).
Proof.
  intros Hx Hl Hs. induction Hs as [|y l Hs IH Hy]; simpl.
  - repeat constructor.
  - inversion Hl as [|? ? Hyr Hlr]; subst.
    rewrite comparatorAt_negative by assumption.
    destruct (Double.lt (scoreAt store y) (scoreAt store x)) eqn:E.
    + constructor; [constructor; assumption|].
      constructor.
      * unfold notBelow. apply lt_asym. exact E.
      * eapply Forall_impl; [exact Hy|]. unfold notBelow. intros z Hz.
        exact (lt_below _ _ _ E Hz).
    + constructor; [apply IH; assumption|].
      rewrite sortInsert_perm. constructor; [exact E | exact Hy].
Qed.

Lemma sort_sorted_acc l : forall acc,
  Forall inRange l -> Forall inRange acc ->
  StronglySorted notBelow acc ->
  StronglySorted notBelow
    (fold_left (fun sorted x => sortInsert (comparatorAt store) x sorted) l acc).
Proof.
  induction l as [|x l IH]; intros acc Hl Hacc Hs; simpl; [exact Hs|].
  inversion Hl; subst. apply IH; [assumption| |].
  - rewrite sortInsert_perm. constructor; assumption.
  - apply sortInsert_sorted; assumption.
Qed.

Lemma sort_sorted l :
  Forall inRange l -> StronglySorted notBelow (sort (comparatorAt store) l).
Proof.
  intros Hl. apply sort_sorted_acc; [exact Hl | constructor | constructor].
Qed.

Lemma seq_inRange : Forall inRange (seq 0 (length store)).
Proof. apply Forall_forall. intros i Hi. apply elem_of_seq in Hi. unfold inRange. lia. Qed.

Lemma prioritize_NoDup : NoDup (prioritize store).
Proof.
  unfold prioritize. eapply sublist_NoDup; [|apply sublist_take].
  rewrite sort_perm. apply NoDup_seq.
Qed.

Lemma prioritize_length :
  length (prioritize store) = Nat.min MAX_FINDINGS_TO_DEBATE (length store).
Proof.
  unfold prioritize. rewrite length_take.
  rewrite (Permutation_length (sort_perm _ _)), length_seq. reflexivity.
Qed.

Lemma prioritize_inRange i : i ∈ prioritize store -> i < length store.
Proof.
  unfold prioritize. intros Hi. apply elem_of_take in Hi.
  destruct Hi as (k & Hk & _). apply list_elem_of_lookup_2 in Hk.
  rewrite sort_perm in Hk. apply elem_of_seq in Hk. lia.
Qed.

(** No score of the store is NaN: the comparator is then consistent, and
    the language fixes what the sort returns. *)
Definition comparable : Prop :=
  Forall (fun f => Double.isNaN (score f) = false) store.

Lemma scoreAt_comparable i :
  comparable -> Double.isNaN (scoreAt store i) = false.
Proof.
  intros Hc. unfold scoreAt. destruct (store !! i) as [f|] eqn:E; [|reflexivity].
  unfold comparable in Hc. rewrite Forall_forall in Hc. apply Hc.
  eapply list_elem_of_lookup_2. exact E.
Qed.

Lemma prioritize_top i j :
  comparable ->
  i ∈ prioritize store -> j < length store -> j ∉ prioritize store ->
  Double.le (scoreAt store j) (scoreAt store i) = true.
Proof.
  unfold prioritize. intros Hc Hi Hj Hnj.
  set (sorted := sort (comparatorAt store) (seq 0 (length store))) in *.
  assert (Hin : j ∈ sorted).
  { unfold sorted. rewrite sort_perm. apply elem_of_seq. lia. }
  rewrite <- (take_drop MAX_FINDINGS_TO_DEBATE sorted) in Hin.
  apply elem_of_app in Hin. destruct Hin as [Hin|Hin]; [contradiction|].
  pose proof (sort_sorted _ seq_inRange) as Hs. fold sorted in Hs.
  rewrite <- (take_drop MAX_FINDINGS_TO_DEBATE sorted) in Hs.
  apply lt_false_le; try (apply scoreAt_comparable; exact Hc).
  exact (StronglySorted_app_1_elem_of _ _ _ _ _ Hs Hi Hin).
Qed.

End Prioritize.

Section DebateFrame.

Import Orchestrator.

Lemma batchesFrom_In {A : Type} fuel size (xs : list A) batch x :
  In batch (batchesFrom fuel size xs) -> In x batch -> In x xs.
Proof.
  revert xs. induction fuel as [|fuel IH]; intros xs; simpl; [tauto|].
  destruct xs as [|y ys]; [simpl; tauto|].
  intros [<-|Hb] Hx.
  - apply list_elem_of_In. apply list_elem_of_In in Hx.
    apply elem_of_take in Hx. destruct Hx as (k & Hk & _).
    eapply list_elem_of_lookup_2; exact Hk.
  - specialize (IH _ Hb Hx).
    apply list_elem_of_In. apply list_elem_of_In in IH.
    eapply elem_of_sublist; [exact IH | apply sublist_drop].
Qed.

Lemma indexed_In {A : Type} (xs : list A) k x :
  In (k, x) (indexed xs) -> In x xs.
Proof. unfold indexed. apply in_combine_r. Qed.

(** An invariant of the loop state that every task of a round preserves
    is preserved by the round. *)
Lemma inBatches_inv (P : DebateState -> Prop) body refs :
  (forall k i s s', In i refs -> P s -> body (k, i) s = Ok s' -> P s') ->
  forall s s', P s -> inBatches body refs s = Ok s' -> P s'.
Proof.
  intros Hstep s s' Hs H. unfold inBatches in H.
  eapply (for_of_inv P); [|exact Hs|exact H].
  intros batch s1 s2 Hbatch Hs1 H1.
  eapply (for_of_inv P); [|exact Hs1|exact H1].
  intros [k i] s3 s4 Hki Hs3 H3.
  eapply Hstep; [|exact Hs3|exact H3].
  eapply batchesFrom_In; [exact Hbatch|]. eapply indexed_In; exact Hki.
Qed.

(** What a task of a round does to the loop state: nothing, or it alters
    the finding it is about and appends one round record. *)
Lemma round1_shape W ag k i s s' :
  round1 W ag (k, i) s = Ok s' ->
  s' = s \/ exists r, s' = (alter (set_status debating) i s.1, s.2 ++ [r]).
Proof.
  unfold round1. simpl.
  destruct (s.1 !! i) as [f|]; [|intros [= <-]; auto].
  destruct (ag !! f_discoveredBy f); [|intros [= <-]; auto].
  intros H. inv_await H. injection H as <-. right. eauto.
Qed.

Lemma teamRound_shape W n t team role action call push k i s s' :
  teamRound W n t team role action call push (k, i) s = Ok s' ->
  s' = s
  \/ exists e r,
       e_action e = action /\ s' = (alter (push e) i s.1, s.2 ++ [r]).
Proof.
  unfold teamRound.
  destruct (s.1 !! i) as [f|]; [|intros [= <-]; auto].
  intros H. inv_await H. injection H as <-. right.
  eexists _, _. split; [|reflexivity]. reflexivity.
Qed.

Variable sel : list nat.
Variable store0 : list VulnerabilityFinding.

(** The findings outside [sel] are as in [store0]. *)
Definition frame (s : DebateState) : Prop :=
  forall j, j ∉ sel -> s.1 !! j = store0 !! j.

Lemma frame_alter g i s rs :
  i ∈ sel -> frame s -> frame (alter g i s.1, rs).
Proof.
  intros Hi Hs j Hj. simpl.
  rewrite list_lookup_alter_ne; [apply Hs; exact Hj|].
  intros ->. contradiction.
Qed.

Lemma round1_frame W ag refs s s' :
  (forall i, In i refs -> i ∈ sel) ->
  frame s -> inBatches (round1 W ag) refs s = Ok s' -> frame s'.
Proof.
  intros Hsub. apply inBatches_inv.
  intros k i s1 s2 Hi Hs1 H. apply round1_shape in H.
  destruct H as [->|(r & ->)]; [exact Hs1|].
  apply frame_alter; auto.
Qed.

Lemma teamRound_frame W n t team role action call push refs s s' :
  (forall i, In i refs -> i ∈ sel) ->
  frame s ->
  inBatches (teamRound W n t team role action call push) refs s = Ok s' ->
  frame s'.
Proof.
  intros Hsub. apply inBatches_inv.
  intros k i s1 s2 Hi Hs1 H. apply teamRound_shape in H.
  destruct H as [->|(e & r & _ & ->)]; [exact Hs1|].
  apply frame_alter; auto.
Qed.

End DebateFrame.

Lemma register_all_findings ns st :
  let st' := fold_left (fun s n => Orchestrator.register n s) ns st in
  Orchestrator.findings st' = Orchestrator.findings st
  /\ Orchestrator.debates st' = Orchestrator.debates st
  /\ Orchestrator.spawnedExperts st' = Orchestrator.spawnedExperts st.
Proof.
  revert st; induction ns as [|n ns IH]; intros st; simpl; [auto|].
  destruct (IH (Orchestrator.register n st)) as (-> & -> & ->). auto.
Qed.

Lemma register_all_logs ns st :
  Orchestrator.logs (fold_left (fun s n => Orchestrator.register n s) ns st)
  = Orchestrator.logs st.
Proof.
  revert st; induction ns as [|n ns IH]; intros st; simpl; [reflexivity|].
  rewrite IH. reflexivity.
Qed.

(** The state that [adversarialDebate] returns, field by field. *)
Lemma debated_logs s a d X Y st st2 l0 :
  Orchestrator.logs st2 = Orchestrator.logs st ++ l0 ->
  exists l,
    Orchestrator.logs
      (Orchestrator.log s a d
         (Orchestrator.with_findings X (Orchestrator.with_debates Y st2)))
    = Orchestrator.logs st ++ l.
Proof. intros H. simpl. rewrite H, <- app_assoc. eexists. reflexivity. Qed.

Lemma debated_experts s a d X Y st st2 :
  Orchestrator.spawnedExperts st2 = Orchestrator.spawnedExperts st ->
  Orchestrator.spawnedExperts
    (Orchestrator.log s a d
       (Orchestrator.with_findings X (Orchestrator.with_debates Y st2)))
  = Orchestrator.spawnedExperts st.
Proof. intros H. exact H. Qed.

Lemma debated_findings s a d X Y st2 :
  Orchestrator.findings
    (Orchestrator.log s a d
       (Orchestrator.with_findings X (Orchestrator.with_debates Y st2)))
  = X.
Proof. reflexivity. Qed.

Lemma debated_debates s a d X Y st2 :
  Orchestrator.debates
    (Orchestrator.log s a d
       (Orchestrator.with_findings X (Orchestrator.with_debates Y st2)))
  = Y.
Proof. reflexivity. Qed.

(** How [adversarialDebate] runs when there is something to debate: the
    four rounds in turn, over the selected references. *)
Lemma adversarialDebate_shape W st st' :
  Orchestrator.findings st <> [] ->
  Orchestrator.adversarialDebate W st = Ok st' ->
  let sel := Orchestrator.prioritize (Orchestrator.findings st) in
  exists (ag : gmap string Agent.DynamicAgent)
         (s1 s2 s3 s4 : Orchestrator.DebateState) refs session,
    Orchestrator.inBatches (Orchestrator.round1 W ag) sel
      (Orchestrator.findings st, []) = Ok s1
    /\ (forall i, In i refs -> i ∈ sel)
    /\ Orchestrator.inBatches
         (Orchestrator.teamRound W 2 ATTACK
            (Orchestrator.teamNames "RedTeamAttacker_" [1; 2; 3])
            red_team attack (Orchestrator.attackFinding W 2) history_init_push)
         refs s1 = Ok s2
    /\ Orchestrator.inBatches
         (Orchestrator.teamRound W 3 DEFENSE
            (Orchestrator.teamNames "BlueTeamDefender_" [1; 2])
            blue_team defend (Orchestrator.defendFinding W) history_push)
         refs s2 = Ok s3
    /\ Orchestrator.inBatches
         (Orchestrator.teamRound W 4 DEVILS_ADVOCATE
            (Orchestrator.teamNames "DevilsAdvocate_" [1; 2])
            devils_advocate challenge (Orchestrator.attackFinding W 4)
            history_push)
         refs s3 = Ok s4
    /\ Orchestrator.findings st' = Orchestrator.markUndebated sel s4.1
    /\ Orchestrator.debates st' = Orchestrator.debates st ++ [session]
    /\ s_findings session = sel
    /\ s_rounds session = s4.2
    /\ Orchestrator.spawnedExperts st' = Orchestrator.spawnedExperts st
    /\ exists l, Orchestrator.logs st' = Orchestrator.logs st ++ l.
Proof.
  intros Hne H. unfold Orchestrator.adversarialDebate in H.
  destruct (Nat.eqb_spec (length (Orchestrator.findings st)) 0) as [E|_].
  { destruct (Orchestrator.findings st); [contradiction | discriminate]. }
  match type of H with
  | context [fold_left ?f ?ns ?s0] =>
      pose proof (register_all_findings ns s0) as Hreg;
      pose proof (register_all_logs ns s0) as Hl;
      remember (fold_left f ns s0) as st2 eqn:E2
  end.
  cbv zeta in Hreg. clear E2.
  destruct Hreg as (Hf & Hd & Hx).
  cbn [Orchestrator.findings Orchestrator.debates Orchestrator.spawnedExperts
         Orchestrator.logs Orchestrator.log Orchestrator.with_logs]
    in Hf, Hd, Hx, Hl.
  apply rbind_Ok in H. destruct H as (s1 & H1 & H).
  apply rbind_Ok in H. destruct H as (s2 & H2 & H).
  apply rbind_Ok in H. destruct H as (s3 & H3 & H).
  apply rbind_Ok in H. destruct H as (s4 & H4 & H).
  injection H as <-.
  rewrite Hf in H1.
  eexists (Orchestrator.agents st2), s1, s2, s3, s4, _, _.
  split; [exact H1|]. split; [|split; [exact H2|split; [exact H3|split; [exact H4|]]]].
  - intros i Hi. apply list_elem_of_In. apply filter_In in Hi. apply Hi.
  - split; [apply debated_findings|].
    split; [rewrite debated_debates, Hd; reflexivity|].
    split; [reflexivity|]. split; [reflexivity|].
    split; [apply debated_experts; exact Hx|].
    eapply debated_logs. exact Hl.
Qed.

Lemma adversarialDebate_empty W st st' :
  Orchestrator.findings st = [] ->
  Orchestrator.adversarialDebate W st = Ok st' ->
  Orchestrator.findings st' = [].
Proof.
  intros E H. unfold Orchestrator.adversarialDebate in H.
  rewrite E in H. simpl in H. injection H as <-. simpl. exact E.
Qed.



(** ** Entries of the rounds and entries of the histories (C5) *)

Section DebateHistory.

Import Orchestrator.

Definition historyOf (f : VulnerabilityFinding) : list DebateEntry :=
  default [] (f_debateHistory f).

(** No history list of the store holds a presentation. *)
Definition noPresentation (store : list VulnerabilityFinding) : Prop :=
  forall j f e, store !! j = Some f -> e ∈ historyOf f -> e_action e <> present.

Lemma noPresentation_alter g i store :
  (forall f, (forall e, e ∈ historyOf f -> e_action e <> present) ->
             forall e, e ∈ historyOf (g f) -> e_action e <> present) ->
  noPresentation store -> noPresentation (alter g i store).
Proof.
  intros Hg Hs j f e Hj He.
  destruct (decide (i = j)) as [->|Hne].
  - rewrite list_lookup_alter_eq in Hj.
    destruct (store !! j) as [f0|] eqn:E; [|discriminate].
    simpl in Hj. injection Hj as <-.
    eapply Hg; [|exact He]. intros e0. eapply Hs. exact E.
  - rewrite list_lookup_alter_ne in Hj by exact Hne. eapply Hs; eauto.
Qed.

Lemma historyOf_push e f x :
  x ∈ historyOf (history_push e f) -> x ∈ historyOf f \/ x = e.
Proof.
  unfold history_push, historyOf.
  destruct (f_debateHistory f) as [h|] eqn:E; simpl.
  - rewrite elem_of_app, list_elem_of_singleton. tauto.
  - rewrite E. simpl. tauto.
Qed.

Lemma historyOf_init_push e f x :
  x ∈ historyOf (history_init_push e f) -> x ∈ historyOf f \/ x = e.
Proof.
  unfold history_init_push, historyOf. simpl.
  rewrite elem_of_app, list_elem_of_singleton. tauto.
Qed.

Lemma teamRound_noPresentation W n t team role action call push refs s s' :
  action <> present ->
  (forall e f x, x ∈ historyOf (push e f) -> x ∈ historyOf f \/ x = e) ->
  noPresentation s.1 ->
  inBatches (teamRound W n t team role action call push) refs s = Ok s' ->
  noPresentation s'.1.
Proof.
  intros Hact Hpush.
  apply (inBatches_inv (fun s => noPresentation s.1)).
  intros k i s1 s2 _ Hs1 H. apply teamRound_shape in H.
  destruct H as [->|(e & r & He & ->)]; [exact Hs1|]. simpl.
  apply noPresentation_alter; [|exact Hs1].
  intros f Hf x Hx. apply Hpush in Hx. destruct Hx as [Hx| ->]; [auto|].
  rewrite He. exact Hact.
Qed.

Lemma round1_noPresentation W ag refs s s' :
  noPresentation s.1 ->
  inBatches (round1 W ag) refs s = Ok s' -> noPresentation s'.1.
Proof.
  apply (inBatches_inv (fun s => noPresentation s.1)).
  intros k i s1 s2 _ Hs1 H. apply round1_shape in H.
  destruct H as [->|(r & ->)]; [exact Hs1|]. simpl.
  apply noPresentation_alter; [|exact Hs1]. intros f Hf x Hx. exact (Hf x Hx).
Qed.

(** The presentation of round 1 never reaches a history list: after the
    stage no finding has an entry with action 'present' in its history,
    provided none had one before (the findings of [parallelAnalysis] have no
    history at all). *)
Lemma history_without_presentation W st st' :
  noPresentation (findings st) ->
  adversarialDebate W st = Ok st' ->
  noPresentation (findings st').
Proof.
  intros H0 H.
  destruct (decide (findings st = [])) as [E|Hne].
  { rewrite (adversarialDebate_empty W st st' E H). intros j f e Hj. discriminate. }
  destruct (adversarialDebate_shape W st st' Hne H)
    as (ag & s1 & s2 & s3 & s4 & refs & session
        & H1 & _ & H2 & H3 & H4 & Hf & _).
  assert (H4' : noPresentation s4.1).
  { eapply teamRound_noPresentation; [| | |exact H4];
      [discriminate|apply historyOf_push|].
    eapply teamRound_noPresentation; [| | |exact H3];
      [discriminate|apply historyOf_push|].
    eapply teamRound_noPresentation; [| | |exact H2];
      [discriminate|apply historyOf_init_push|].
    eapply round1_noPresentation; [|exact H1]. exact H0. }
  rewrite Hf. intros j f e Hj He.
  unfold markUndebated in Hj. rewrite list_lookup_imap in Hj.
  destruct (s4.1 !! j) as [f4|] eqn:E4; [|discriminate]. simpl in Hj.
  injection Hj as <-.
  eapply (H4' j f4 e E4).
  destruct (bool_decide _); exact He.
Qed.

End DebateHistory.

(** C5, evaluated. One finding of a registered expert is debated. The
    session then holds a round whose entry presents the finding, but the
    finding's own history has no entry with action 'present' (it has none
    instead of exactly one), and the attack entry of the round is not the
    entry of the history either: the two are separate records, here with
    different timestamps. *)
Theorem orchestrator_history_misses_presentation :
  exists st' session f p a,
    Orchestrator.adversarialDebate Sample.world Sample.single = Ok st'
    /\ Orchestrator.debates st' = [session]
    /\ Orchestrator.findings st' !! 0 = Some f
    /\ Orchestrator.singleEntryRound 1 PRESENTATION p ∈ s_rounds session
    /\ e_action p = present
    /\ e_targetFinding p = Some (f_id f)
    /\ (p ∉ historyOf f)
    /\ length (List.filter (Arena.actionIs present) (historyOf f)) = 0
    /\ Orchestrator.singleEntryRound 2 ATTACK a ∈ s_rounds session
    /\ e_targetFinding a = Some (f_id f)
    /\ (a ∉ historyOf f).
Proof.
  eexists _, _, _, _, _.
  split; [vm_compute; reflexivity|].
  split; [reflexivity|].
  split; [reflexivity|].
  split; [apply list_elem_of_here|].
  split; [reflexivity|].
  split; [reflexivity|].
  split.
  { intros Hin.
    repeat (apply elem_of_cons in Hin; destruct Hin as [Hin|Hin]; [discriminate|]).
    apply elem_of_nil in Hin. exact Hin. }
  split; [reflexivity|].
  split; [apply list_elem_of_further, list_elem_of_here|].
  split; [reflexivity|].
  intros Hin.
  repeat (apply elem_of_cons in Hin; destruct Hin as [Hin|Hin]; [discriminate|]).
  apply elem_of_nil in Hin. exact Hin.
Qed.

(** ** Synthesis: how references are resolved (C3) and what is left alone (C9) *)

Section Synthesis.

Import Orchestrator.

Lemma find_first {A : Type} (p : A -> bool) l x :
  List.find p l = Some x ->
  exists l1 l2, l = l1 ++ x :: l2 /\ p x = true /\ Forall (fun y => p y = false) l1.
Proof.
  induction l as [|y l IH]; simpl; [discriminate|].
  destruct (p y) eqn:E.
  - intros [= ->]. exists [], l. auto.
  - intros H. destruct (IH H) as (l1 & l2 & -> & Hx & Hl1).
    exists (y :: l1), l2. auto.
Qed.

Lemma find_none {A : Type} (p : A -> bool) l :
  List.find p l = None <-> Forall (fun y => p y = false) l.
Proof.
  induction l as [|y l IH]; simpl.
  - split; [constructor | reflexivity].
  - destruct (p y) eqn:E.
    + split; [discriminate|]. intros H. inversion H; congruence.
    + rewrite IH. split; [constructor; assumption|]. intros H. inversion H; assumption.
Qed.

(** The reference matches the finding by one of the two keys. *)
Definition matches (v : ValidatedRef) (f : VulnerabilityFinding) : Prop :=
  v_id v = f_id f \/ v_title v = f_title f.

Lemma matches_spec v f :
  String.eqb (v_id v) (f_id f) || String.eqb (v_title v) (f_title f) = true
  <-> matches v f.
Proof.
  unfold matches. rewrite orb_true_iff, !String.eqb_eq. reflexivity.
Qed.

Lemma matches_false v f :
  String.eqb (v_id v) (f_id f) || String.eqb (v_title v) (f_title f) = false
  <-> ~ matches v f.
Proof.
  rewrite <- matches_spec. destruct (_ || _); split; congruence.
Qed.

Lemma synthesize_findings W st st' :
  synthesize W st = Ok st' ->
  exists data,
    Agent.analyzeStructured (parse_synthesis W) (pope_analyze W) = Ok data
    /\ findings st' = map (applySynthesis data) (findings st).
Proof.
  unfold synthesize. intros H. apply rbind_Ok in H.
  destruct H as (data & Hd & H). injection H as <-.
  exists data. split; [exact Hd | reflexivity].
Qed.

Lemma synthesize_ok W st data :
  Agent.analyzeStructured (parse_synthesis W) (pope_analyze W) = Ok data ->
  exists st', synthesize W st = Ok st'.
Proof.
  intros Hd. unfold synthesize. rewrite Hd. simpl. eexists. reflexivity.
Qed.

End Synthesis.

(** C3, refuted. The verdict holds one validated reference; its id is the
    id of the first finding, its title is the title of the second. The
    orchestrator resolves it to the second finding although its id names the
    first: the second finding comes out validated with the severity and the
    confidence of the reference. The Pope class, asked for the original of
    the same reference among the two findings with the title match first,
    returns the title match although an id match exists. *)
Lemma title_match_beside_id_match :
  v_id Sample.crossed = f_id Sample.debated
  /\ f_id Sample.overflow <> v_id Sample.crossed
  /\ Orchestrator.findValidated Sample.verdict Sample.overflow
     = Some Sample.crossed
  /\ (exists st',
        Orchestrator.synthesize Sample.popeWorld Sample.afterDebate = Ok st'
        /\ Orchestrator.findings st' !! 1
           = Some (set_assessment CRITICAL (95 # 100)
                     (set_status validated Sample.overflow)))
  /\ Pope.findOriginal [Sample.overflow; Sample.debated] Sample.crossed
     = Some Sample.overflow.
Proof.
  split; [reflexivity|].
  split; [discriminate|].
  split; [reflexivity|].
  split; [|reflexivity].
  eexists. split; [vm_compute; reflexivity|]. reflexivity.
Qed.

(** C3, amended. A validated reference is resolved to a finding when its
    id equals the finding's id or its title equals the finding's title, the
    two keys having the same rank: the finding takes the first reference of
    the oracle's list that matches it by either key, and turns validated
    with the severity and confidence of that reference. A rejected
    reference is resolved by its id alone, and only for a finding that no
    validated reference matches. The Pope class resolves a validated
    reference to the first finding that matches it by either key. *)
Theorem reference_resolution data f v :
  Orchestrator.findValidated data f = Some v ->
  (exists before after,
     d_validated_vulnerabilities data = before ++ v :: after
     /\ matches v f
     /\ Forall (fun u => ~ matches u f) before)
  /\ Orchestrator.applySynthesis data f
     = set_assessment (v_severity v) (v_confidence v) (set_status validated f)
  /\ (forall g r,
        Orchestrator.findValidated data g = None ->
        Orchestrator.findRejected data g = Some r ->
        rj_id r = f_id g
        /\ Orchestrator.applySynthesis data g = set_status rejected g)
  /\ (forall allFindings u g,
        Pope.findOriginal allFindings u = Some g ->
        exists before after,
          allFindings = before ++ g :: after
          /\ matches u g
          /\ Forall (fun h => ~ matches u h) before).
Proof.
  intros H. split; [|split; [|split]].
  - unfold Orchestrator.findValidated in H. apply find_first in H.
    destruct H as (l1 & l2 & E & Hv & Hl1). exists l1, l2.
    split; [exact E|]. split; [apply matches_spec; exact Hv|].
    eapply Forall_impl; [exact Hl1|]. intros u Hu. apply matches_false. exact Hu.
  - unfold Orchestrator.applySynthesis. rewrite H. reflexivity.
  - intros g r Hg Hr. unfold Orchestrator.applySynthesis. rewrite Hg, Hr.
    split; [|reflexivity].
    unfold Orchestrator.findRejected in Hr. apply find_first in Hr.
    destruct Hr as (_ & _ & _ & Hr & _). apply String.eqb_eq. exact Hr.
  - intros allFindings u g Hg. unfold Pope.findOriginal in Hg.
    apply find_first in Hg. destruct Hg as (l1 & l2 & E & Hu & Hl1).
    exists l1, l2. split; [exact E|].
    assert (Hsym : forall h,
               String.eqb (f_id h) (v_id u) || String.eqb (f_title h) (v_title u)
               = String.eqb (v_id u) (f_id h) || String.eqb (v_title u) (f_title h)).
    { intros h. rewrite (String.eqb_sym (f_id h)), (String.eqb_sym (f_title h)).
      reflexivity. }
    split.
    + apply matches_spec. rewrite <- Hsym. exact Hu.
    + eapply Forall_impl; [exact Hl1|]. intros h Hh. apply matches_false.
      rewrite <- Hsym. exact Hh.
Qed.

Lemma reference_resolution_witness :
  Orchestrator.findValidated Sample.verdict Sample.debated = Some Sample.crossed
  /\ Orchestrator.applySynthesis Sample.verdict Sample.debated
     = set_assessment CRITICAL (95 # 100) (set_status validated Sample.debated).
Proof.
  split; [reflexivity|].
  exact (proj1 (proj2 (reference_resolution Sample.verdict Sample.debated
                         Sample.crossed eq_refl))).
Defined.

(** C9, refuted. The synthesis output names the third finding in neither
    set: its one validated reference carries another id, and nothing is
    rejected. The reference carries the finding's title, though, and the
    stage resolves by title as well: the finding comes out validated, with
    the severity and the confidence of the reference. *)
Lemma title_alone_changes_finding :
  Orchestrator.findings Sample.afterDebate !! 2 = Some Sample.access
  /\ (forall v, In v (d_validated_vulnerabilities Cases.byTitle) ->
                v_id v <> f_id Sample.access)
  /\ d_rejected_vulnerabilities Cases.byTitle = []
  /\ (f_status Sample.access = debating
      /\ f_severity Sample.access = MEDIUM
      /\ f_confidence Sample.access = 5 # 10)
  /\ exists st' f',
       Orchestrator.synthesize Cases.titleWorld Sample.afterDebate = Ok st'
       /\ Orchestrator.findings st' !! 2 = Some f'
       /\ f_status f' = validated
       /\ f_severity f' = CRITICAL
       /\ f_confidence f' = 99 # 100.
Proof.
  split; [reflexivity|].
  split; [intros v [<-|[]]; discriminate|].
  split; [reflexivity|].
  split; [repeat split|].
  eexists _, _. split; [vm_compute; reflexivity|].
  split; [reflexivity|]. repeat split.
Qed.



(** ** The arena: concession is final (C4) *)

Section ArenaFacts.

Import Arena.

Definition ids (store : list VulnerabilityFinding) : list string :=
  map f_id store.

Lemma ids_alter g i store :
  (forall f, f_id (g f) = f_id f) -> ids (alter g i store) = ids store.
Proof.
  intros Hg. unfold ids. revert i.
  induction store as [|f store IH]; intros [|i]; simpl; try reflexivity.
  - rewrite Hg. reflexivity.
  - f_equal. apply IH.
Qed.

Lemma ids_lookup store i f :
  store !! i = Some f -> ids store !! i = Some (f_id f).
Proof. intros H. unfold ids. rewrite list_lookup_fmap, H. reflexivity. Qed.

Lemma f_id_history_push e f : f_id (history_push e f) = f_id f.
Proof. unfold history_push. destruct (f_debateHistory f); reflexivity. Qed.

Lemma f_id_history_init_push e f : f_id (history_init_push e f) = f_id f.
Proof. reflexivity. Qed.

Variable W : World.
Variable config : DebateConfig.
Variable specialists : gmap string Agent.DynamicAgent.

(** The entries of a round target findings of the round, by their ids. *)
Definition targetsOf (idl : list string) (refs : list nat) (es : list DebateEntry)
  : Prop :=
  Forall (fun e => exists i t,
            In i refs /\ idl !! i = Some t /\ e_targetFinding e = Some t) es.

Definition roundInv (idl : list string) (refs : list nat) (s : RoundState) : Prop :=
  ids s.1 = idl /\ targetsOf idl refs s.2.

Lemma roundInv_push idl refs store entries i f e :
  roundInv idl refs (store, entries) ->
  In i refs -> store !! i = Some f ->
  e_targetFinding e = Some (f_id f) ->
  forall g, (forall x, f_id (g x) = f_id x) ->
  roundInv idl refs (alter g i store, entries ++ [e]).
Proof.
  intros [Hids Ht] Hi Hf He g Hg. split; simpl in *.
  - rewrite ids_alter by exact Hg. exact Hids.
  - apply Forall_app. split; [exact Ht|]. constructor; [|constructor].
    exists i, (f_id f). rewrite <- Hids. auto using ids_lookup.
Qed.

Lemma presentation_inv refs store s' :
  runPresentationRound W specialists refs store = Ok s' ->
  roundInv (ids store) refs s'.
Proof.
  unfold runPresentationRound.
  apply (for_of_inv (roundInv (ids store) refs)); [|split; [reflexivity|constructor]].
  intros i [st es] s2 Hi Hs. 
  destruct (st !! i) as [f|] eqn:E; [|intros [= <-]; exact Hs].
  destruct (specialists !! f_discoveredBy f); [|intros [= <-]; exact Hs].
  intros H. inv_await H. injection H as <-.
  eapply roundInv_push; eauto using f_id_history_init_push.
Qed.

Lemma attack_inv refs store s' :
  runAttackRound W config refs store = Ok s' ->
  roundInv (ids store) refs s'.
Proof.
  unfold runAttackRound.
  apply (for_of_inv (roundInv (ids store) refs)); [|split; [reflexivity|constructor]].
  intros i [st es] s2 Hi Hs.
  destruct (st !! i) as [f|] eqn:E; [|intros [= <-]; exact Hs].
  intros H. inv_await H. injection H as <-.
  eapply roundInv_push; eauto using f_id_history_push.
Qed.

Lemma defense_inv attackRound refs store s' :
  runDefenseRound W config specialists attackRound refs store = Ok s' ->
  roundInv (ids store) refs s'.
Proof.
  unfold runDefenseRound.
  apply (for_of_inv (roundInv (ids store) refs)); [|split; [reflexivity|constructor]].
  intros i [st es] s2 Hi Hs.
  destruct (st !! i) as [f|] eqn:E; [|intros [= <-]; exact Hs].
  destruct (List.find _ _); [|intros [= <-]; exact Hs].
  destruct (if coin W i then _ else _); [|intros [= <-]; exact Hs].
  intros H. inv_await H. injection H as <-.
  eapply roundInv_push; eauto using f_id_history_push.
Qed.

Lemma devilsAdvocate_inv refs store s' :
  runDevilsAdvocateRound W config refs store = Ok s' ->
  roundInv (ids store) refs s'.
Proof.
  unfold runDevilsAdvocateRound.
  apply (for_of_inv (roundInv (ids store) refs)); [|split; [reflexivity|constructor]].
  intros i [st es] s2 Hi Hs.
  destruct (st !! i) as [f|] eqn:E; [|intros [= <-]; exact Hs].
  intros H. inv_await H. injection H as <-.
  eapply roundInv_push; eauto using f_id_history_push.
Qed.

Lemma final_inv refs store s' :
  runFinalRound W config refs store = Ok s' ->
  roundInv (ids store) refs s'.
Proof.
  unfold runFinalRound.
  apply (for_of_inv (roundInv (ids store) refs)); [|split; [reflexivity|constructor]].
  intros i [st es] s2 Hi Hs.
  destruct (st !! i) as [f|] eqn:E; [|intros [= <-]; exact Hs].
  intros H. inv_await H. injection H as <-.
  eapply roundInv_push; eauto using f_id_history_push.
Qed.

End ArenaFacts.

Section Concessions.

Import Arena.

(** One entry of the defense round, as [processConcessions] treats it. *)
Definition concessionStep (st : list VulnerabilityFinding * gmap string Fate)
    (entry : DebateEntry) : list VulnerabilityFinding * gmap string Fate :=
  let '(store, status) := st in
  match e_action entry, e_targetFinding entry with
  | concede, Some target =>
      if String.eqb target EmptyString then (store, status)
      else
        let status' := <[target := dead]> status in
        match findIndex (fun f => String.eqb (f_id f) target) store with
        | Some k => (alter (set_status rejected) k store, status')
        | None => (store, status')
        end
  | _, _ => (store, status)
  end.

Lemma fold_left_pointwise {A B : Type} (f g : A -> B -> A) l :
  (forall a b, f a b = g a b) ->
  forall a, fold_left f l a = fold_left g l a.
Proof.
  intros Hfg. induction l as [|b l IH]; intros a; simpl; [reflexivity|].
  rewrite Hfg. apply IH.
Qed.

Lemma processConcessions_fold defenseRound st :
  processConcessions defenseRound st
  = fold_left concessionStep (r_entries defenseRound) st.
Proof.
  unfold processConcessions. apply fold_left_pointwise.
  intros [store status] entry. reflexivity.
Qed.

Lemma concessionStep_ids st e : ids (concessionStep st e).1 = ids st.1.
Proof.
  destruct st as [store status]. unfold concessionStep.
  destruct (e_action e); try reflexivity.
  destruct (e_targetFinding e) as [t|]; [|reflexivity].
  destruct (String.eqb t EmptyString); [reflexivity|].
  destruct (findIndex _ store); [|reflexivity].
  simpl. apply ids_alter. reflexivity.
Qed.

Lemma concessionStep_dead_stable st e t :
  st.2 !! t = Some dead -> (concessionStep st e).2 !! t = Some dead.
Proof.
  destruct st as [store status]. unfold concessionStep. simpl. intros H.
  destruct (e_action e); try exact H.
  destruct (e_targetFinding e) as [t'|]; [|exact H].
  destruct (String.eqb t' EmptyString); [exact H|].
  assert (Hins : <[t' := dead]> status !! t = Some dead).
  { destruct (decide (t' = t)) as [->|Hne].
    - apply lookup_insert_eq.
    - rewrite lookup_insert_ne by exact Hne. exact H. }
  destruct (findIndex _ store); exact Hins.
Qed.

Lemma concessionStep_marks st e t :
  e_action e = concede -> e_targetFinding e = Some t -> t <> EmptyString ->
  (concessionStep st e).2 !! t = Some dead.
Proof.
  destruct st as [store status]. unfold concessionStep. intros -> -> Ht.
  apply String.eqb_neq in Ht. rewrite Ht.
  destruct (findIndex _ store); simpl; apply lookup_insert_eq.
Qed.

Lemma concessions_ids es : forall st,
  ids (fold_left concessionStep es st).1 = ids st.1.
Proof.
  induction es as [|e es IH]; intros st; simpl; [reflexivity|].
  rewrite IH. apply concessionStep_ids.
Qed.

Lemma concessions_dead_stable es t : forall st,
  st.2 !! t = Some dead -> (fold_left concessionStep es st).2 !! t = Some dead.
Proof.
  induction es as [|e es IH]; intros st H; simpl; [exact H|].
  apply IH. apply concessionStep_dead_stable. exact H.
Qed.

(** A concession that names a finding by a non-empty id marks that id as
    rejected in the status map, for good. *)
Lemma concessions_mark es e t st :
  e ∈ es -> e_action e = concede -> e_targetFinding e = Some t ->
  t <> EmptyString ->
  (fold_left concessionStep es st).2 !! t = Some dead.
Proof.
  intros Hin Ha Ht Hne. revert st.
  induction es as [|x es IH]; intros st; [apply elem_of_nil in Hin; contradiction|].
  simpl. apply elem_of_cons in Hin. destruct Hin as [<-|Hin].
  - apply concessions_dead_stable. apply concessionStep_marks; assumption.
  - apply IH. exact Hin.
Qed.

Lemma aliveFindings_spec store status i :
  In i (aliveFindings store status) ->
  exists f, store !! i = Some f /\ status !! f_id f = Some alive.
Proof.
  unfold aliveFindings. intros H. apply filter_In in H. destruct H as [_ H].
  destruct (store !! i) as [f|]; [|discriminate].
  exists f. split; [reflexivity|]. apply bool_decide_eq_true in H. exact H.
Qed.

(** The entries of a round over the findings that are alive target ids
    that the status map holds alive. *)
Lemma alive_targets store status es :
  targetsOf (ids store) (aliveFindings store status) es ->
  Forall (fun e => exists t, e_targetFinding e = Some t
                             /\ status !! t = Some alive) es.
Proof.
  unfold targetsOf. intros H. eapply Forall_impl; [exact H|]. clear H.
  intros e (i & t & Hi & Ht & He).
  apply aliveFindings_spec in Hi. destruct Hi as (f & Hf & Hal).
  apply ids_lookup in Hf. rewrite Hf in Ht. injection Ht as <-.
  exists (f_id f). auto.
Qed.

(** One finding of the session, as [compileResults] treats it. *)
Definition compileStep (W : World) (status : gmap string Fate)
    (acc : Compiled) (i : nat) : Compiled :=
  match cp_store acc !! i with
  | None => acc
  | Some finding =>
      if bool_decide (status !! f_id finding = Some dead) then
        {| cp_store := alter (set_status rejected) i (cp_store acc);
           cp_survivors := cp_survivors acc;
           cp_rejected := cp_rejected acc ++ [(i, rejectionReason finding)];
           cp_strengthened := cp_strengthened acc |}
      else
        let improvements := improvementsOf W finding in
        {| cp_store := alter (set_status validated) i (cp_store acc);
           cp_survivors := cp_survivors acc ++ [i];
           cp_rejected := cp_rejected acc;
           cp_strengthened :=
             if 0 <? length improvements
             then cp_strengthened acc ++ [(i, improvements)]
             else cp_strengthened acc |}
  end.

Definition verdictOf (status : gmap string Fate) (f : VulnerabilityFinding)
  : VulnerabilityFinding :=
  set_status
    (if bool_decide (status !! f_id f = Some dead) then rejected else validated) f.

Lemma compileStep_store W status acc i j :
  cp_store (compileStep W status acc i) !! j
  = if decide (i = j) then verdictOf status <$> cp_store acc !! j
    else cp_store acc !! j.
Proof.
  unfold compileStep.
  destruct (decide (i = j)) as [->|Hne].
  - destruct (cp_store acc !! j) as [f|] eqn:E; [|rewrite E; reflexivity].
    cbn [fmap option_fmap option_map]. unfold verdictOf.
    destruct (bool_decide (status !! f_id f = Some dead)); simpl;
      rewrite list_lookup_alter_eq, E; reflexivity.
  - destruct (cp_store acc !! i) as [f|]; [|reflexivity].
    destruct (bool_decide (status !! f_id f = Some dead)); simpl;
      rewrite list_lookup_alter_ne by exact Hne; reflexivity.
Qed.

Lemma compile_store W status refs : forall acc j,
  NoDup refs ->
  cp_store (fold_left (compileStep W status) refs acc) !! j
  = if decide (j ∈ refs) then verdictOf status <$> cp_store acc !! j
    else cp_store acc !! j.
Proof.
  induction refs as [|i refs IH]; intros acc j Hnd; simpl.
  - destruct (decide (j ∈ [])) as [H|_]; [apply elem_of_nil in H; contradiction|].
    reflexivity.
  - apply NoDup_cons in Hnd. destruct Hnd as [Hi Hnd].
    rewrite IH by exact Hnd. rewrite compileStep_store.
    destruct (decide (i = j)) as [->|Hne].
    + destruct (decide (j ∈ refs)) as [H|_]; [contradiction|].
      destruct (decide (j ∈ j :: refs)) as [_|H]; [reflexivity|].
      exfalso. apply H. left.
    + destruct (decide (j ∈ refs)) as [H|H];
        destruct (decide (j ∈ i :: refs)) as [H'|H']; try reflexivity.
      * exfalso. apply H'. right. exact H.
      * exfalso. apply elem_of_cons in H'. destruct H' as [->|H']; [congruence|].
        contradiction.
Qed.

(** The findings of the compiled session: each finding of the last round,
    rejected if its id is marked rejected, validated otherwise. *)
Lemma compileResults_store W store status j :
  cp_store (compileResults W store status) !! j = verdictOf status <$> store !! j.
Proof.
  unfold compileResults.
  change (fold_left _ (seq 0 (length store)) ?a)
    with (fold_left (compileStep W status) (seq 0 (length store)) a).
  rewrite compile_store by apply NoDup_seq. simpl.
  destruct (decide (j ∈ seq 0 (length store))) as [_|H]; [reflexivity|].
  rewrite elem_of_seq in H.
  rewrite (lookup_ge_None_2 store j) by lia. reflexivity.
Qed.

End Concessions.

Section ConcessionFinality.

Import Arena.

(** The run of [debate], round by round. *)
Lemma debate_shape W config findings contracts specialists res :
  debate W config findings contracts specialists = Ok res ->
  exists r1 r2 r3 r4 store5 tail,
    let status0 := fold_left (fun m f => <[f_id f := alive]> m) findings ∅ in
    let c := processConcessions (mkRound 3 DEFENSE r3.2 CONTINUES) (r3.1, status0) in
    runPresentationRound W specialists
      (seq 0 (length (map (set_status debating) findings)))
      (map (set_status debating) findings) = Ok r1
    /\ runAttackRound W config (aliveFindings r1.1 status0) r1.1 = Ok r2
    /\ runDefenseRound W config specialists (mkRound 2 ATTACK r2.2 CONTINUES)
         (aliveFindings r2.1 status0) r2.1 = Ok r3
    /\ runDevilsAdvocateRound W config (aliveFindings c.1 c.2) c.1 = Ok r4
    /\ (tail = [] /\ store5 = r4.1
        \/ exists r5,
             runFinalRound W config (aliveFindings r4.1 c.2) r4.1 = Ok r5
             /\ tail = [mkRound 5 FINAL r5.2 CONSENSUS] /\ store5 = r5.1)
    /\ s_rounds (session res)
       = [mkRound 1 PRESENTATION r1.2 CONTINUES; mkRound 2 ATTACK r2.2 CONTINUES;
          mkRound 3 DEFENSE r3.2 CONTINUES;
          mkRound 4 DEVILS_ADVOCATE r4.2 CONTINUES] ++ tail
    /\ s_findings (session res) = cp_store (compileResults W store5 c.2).
Proof.
  unfold debate. intros H.
  apply rbind_Ok in H. destruct H as (r1 & H1 & H).
  apply rbind_Ok in H. destruct H as (r2 & H2 & H).
  apply rbind_Ok in H. destruct H as (r3 & H3 & H).
  destruct (processConcessions (mkRound 3 DEFENSE r3.2 CONTINUES) _)
    as [store3 status3] eqn:Ec.
  apply rbind_Ok in H. destruct H as (r4 & H4 & H).
  apply rbind_Ok in H. destruct H as (r5 & H5 & H).
  injection H as <-.
  exists r1, r2, r3, r4. cbv zeta. rewrite Ec. simpl.
  destruct (_ && _) in H5.
  - apply rbind_Ok in H5. destruct H5 as (rf & Hf & H5). injection H5 as <-.
    eexists _, _. repeat (split; [eassumption|]).
    split; [right; eexists; split; [exact Hf|split; reflexivity]|].
    split; reflexivity.
  - injection H5 as <-.
    eexists _, _. repeat (split; [eassumption|]).
    split; [left; split; reflexivity|].
    split; reflexivity.
Qed.


End ConcessionFinality.



(** ** The structured parse (C6) *)

Section Strings.

Lemma append_cons (x : ascii) (a b : string) :
  String x a +:+ b = String x (a +:+ b).
Proof. reflexivity. Qed.

Lemma append_nil_l (b : string) : EmptyString +:+ b = b.
Proof. reflexivity. Qed.

Lemma append_assoc (a b c : string) : (a +:+ b) +:+ c = a +:+ (b +:+ c).
Proof.
  induction a as [|x a IH]; [reflexivity|].
  rewrite !append_cons. f_equal. exact IH.
Qed.

Lemma append_nil_r (a : string) : a +:+ EmptyString = a.
Proof.
  induction a as [|x a IH]; [reflexivity|].
  rewrite append_cons. f_equal. exact IH.
Qed.

Ltac push_append := rewrite ?append_cons, ?append_nil_l in *.

Lemma fromFirst_Some c s r :
  JS.fromFirst c s = Some r ->
  exists before rest,
    s = before +:+ r /\ r = String c rest /\ JS.fromFirst c before = None.
Proof.
  revert r. induction s as [|a s IH]; intros r; simpl; [discriminate|].
  destruct (Ascii.eqb_spec a c) as [->|Hne].
  - intros [= <-]. exists EmptyString, s. auto.
  - intros H. destruct (IH _ H) as (before & rest & -> & -> & Hb).
    exists (String a before), rest. simpl.
    destruct (Ascii.eqb_spec a c); [contradiction|]. auto.
Qed.

Lemma fromFirst_app c before rest :
  JS.fromFirst c before = None ->
  JS.fromFirst c (before +:+ String c rest) = Some (String c rest).
Proof.
  induction before as [|a before IH]; push_append; simpl.
  - intros _. rewrite Ascii.eqb_refl. reflexivity.
  - destruct (Ascii.eqb a c); [discriminate|]. exact IH.
Qed.

Lemma fromFirst_None_app c a b :
  JS.fromFirst c a = None -> JS.fromFirst c b = None ->
  JS.fromFirst c (a +:+ b) = None.
Proof.
  induction a as [|x a IH]; push_append; simpl; [auto|].
  destruct (Ascii.eqb x c); [discriminate|]. exact IH.
Qed.

Lemma uptoLast_Some c s p :
  JS.uptoLast c s = Some p ->
  exists body after,
    s = p +:+ after /\ p = body +:+ String c EmptyString
    /\ JS.uptoLast c after = None.
Proof.
  revert p. induction s as [|a s IH]; intros p; simpl; [discriminate|].
  destruct (JS.uptoLast c s) as [q|] eqn:E.
  - intros [= <-]. destruct (IH _ eq_refl) as (body & after & -> & -> & Ha).
    exists (String a body), after. auto.
  - destruct (Ascii.eqb_spec a c) as [->|Hne]; [|discriminate].
    intros [= <-]. exists EmptyString, s. auto.
Qed.

Lemma uptoLast_app c body after :
  JS.uptoLast c after = None ->
  JS.uptoLast c (body +:+ String c after)
  = Some (body +:+ String c EmptyString).
Proof.
  intros Ha. induction body as [|a body IH]; push_append; simpl.
  - rewrite Ha, Ascii.eqb_refl. reflexivity.
  - rewrite IH. reflexivity.
Qed.

Lemma uptoLast_None_fromFirst c s :
  JS.uptoLast c s = None <-> JS.fromFirst c s = None.
Proof.
  induction s as [|a s IH]; simpl; [tauto|].
  destruct (JS.uptoLast c s) as [q|] eqn:E.
  - split; [discriminate|]. destruct (Ascii.eqb a c); [discriminate|].
    intros H. apply IH in H. discriminate.
  - destruct (Ascii.eqb a c); [split; discriminate|].
    split; intros _; [apply IH|]; reflexivity.
Qed.

(** The greedy pattern finds the span from the first opening character to
    the last closing one, and finds nothing when there is no such span. *)
Lemma matchGreedy_spec o c s m :
  JS.matchGreedy o c s = Some m <-> StructuredSpec.greedySpan o c s m.
Proof.
  unfold JS.matchGreedy, StructuredSpec.greedySpan. split.
  - destruct (JS.fromFirst o s) as [r|] eqn:E; [|discriminate].
    destruct (fromFirst_Some _ _ _ E) as (before & rest & -> & -> & Hb).
    destruct (JS.uptoLast c rest) as [p|] eqn:E2; [|discriminate].
    intros [= <-].
    destruct (uptoLast_Some _ _ _ E2) as (body & after & -> & -> & Ha).
    exists before, body, after. split; [|auto].
    rewrite append_cons, append_assoc, append_cons, append_nil_l. reflexivity.
  - intros (before & body & after & -> & -> & Hb & Ha).
    rewrite !append_cons.
    rewrite fromFirst_app by exact Hb.
    rewrite uptoLast_app by exact Ha. reflexivity.
Qed.

Lemma matchGreedy_None o c s :
  JS.matchGreedy o c s = None <-> forall m, ~ StructuredSpec.greedySpan o c s m.
Proof.
  split.
  - intros H m Hm. apply matchGreedy_spec in Hm. congruence.
  - intros H. destruct (JS.matchGreedy o c s) as [m|] eqn:E; [|reflexivity].
    apply matchGreedy_spec in E. destruct (H m E).
Qed.

End Strings.

(** C6, refuted. The text "[1] and [2]" has no fenced block and its first
    balanced region "[1]" is valid JSON, so the operation the claim describes
    yields data; the code takes the span from the first bracket to the last
    one, "[1] and [2]", fails to parse it and raises. Conversely, the text
    "42" has neither a fenced block nor a bracketed region, so the described
    operation raises, while the code parses the whole trimmed text and
    returns the number. *)
Lemma greedy_span_is_not_first_balanced_region :
  JS.matchFence "[1] and [2]" = None
  /\ StructuredSpec.firstBalanced "[1] and [2]" = Some "[1]"
  /\ JSON.parse "[1]" = Some (JSON.JArray [JSON.JNumber "1"])
  /\ StructuredSpec.respondStructured JSON.parse "[1] and [2]"
     = Ok (JSON.JArray [JSON.JNumber "1"])
  /\ Agent.analyzeStructured JSON.parse (Ok "[1] and [2]") = Throw "SyntaxError"
  /\ StructuredSpec.respondStructured JSON.parse "42" = Throw "ParseError"
  /\ Agent.analyzeStructured JSON.parse (Ok "42") = Ok (JSON.JNumber "42").
Proof. vm_compute. repeat split. Qed.

(** C6, amended. The operation takes the content of the first fenced
    block if the text has one, else the whole text, and parses it trimmed.
    If that fails it parses, within the same string, the span from the first
    opening brace to the last closing brace, or, when there is no such span,
    from the first opening bracket to the last closing bracket. It returns
    the data of the first of these parses that succeeds and raises exactly
    when the trimmed parse fails and the span is missing or does not
    parse. *)
Theorem structured_parse_outcome {T : Type} (parse : string -> option T)
    (content : string) (outcome : Result T) :
  Agent.analyzeStructured parse (Ok content) = outcome ->
  let jsonStr := default content (JS.matchFence content) in
  match outcome with
  | Ok data =>
      parse (JS.trim jsonStr) = Some data
      \/ (parse (JS.trim jsonStr) = None
          /\ exists m, StructuredSpec.bracketSpan jsonStr m /\ parse m = Some data)
  | Throw _ =>
      parse (JS.trim jsonStr) = None
      /\ forall m, StructuredSpec.bracketSpan jsonStr m -> parse m = None
  end.
Proof.
  intros <-. unfold Agent.analyzeStructured. simpl.
  change (match JS.matchFence content with
          | Some group1 => group1
          | None => content
          end) with (default content (JS.matchFence content)).
  set (jsonStr := default content (JS.matchFence content)).
  destruct (parse (JS.trim jsonStr)) as [d|] eqn:E0; [left; reflexivity|].
  destruct (JS.matchGreedy "{" "}" jsonStr) as [m|] eqn:Eo.
  - assert (Hm : forall m', StructuredSpec.bracketSpan jsonStr m' -> m' = m).
    { intros m' [H|[H _]].
      - apply matchGreedy_spec in H. congruence.
      - apply matchGreedy_None in H. congruence. }
    destruct (parse m) as [d|] eqn:Em.
    + right. split; [reflexivity|]. exists m. split; [|exact Em].
      left. apply matchGreedy_spec. exact Eo.
    + split; [reflexivity|]. intros m' Hm'. rewrite (Hm m' Hm'). exact Em.
  - destruct (JS.matchGreedy "[" "]" jsonStr) as [m|] eqn:Ea.
    + assert (Hm : forall m', StructuredSpec.bracketSpan jsonStr m' -> m' = m).
      { intros m' [H|[_ H]]; apply matchGreedy_spec in H; congruence. }
      destruct (parse m) as [d|] eqn:Em.
      * right. split; [reflexivity|]. exists m. split; [|exact Em].
        right. split; [apply matchGreedy_None; exact Eo|].
        apply matchGreedy_spec. exact Ea.
      * split; [reflexivity|]. intros m' Hm'. rewrite (Hm m' Hm'). exact Em.
    + split; [reflexivity|].
      intros m' [H|[_ H]]; apply matchGreedy_spec in H; congruence.
Qed.

Lemma structured_parse_outcome_witness :
  JSON.parse (JS.trim "Sure: {[1]} and {}") = None
  /\ forall m, StructuredSpec.bracketSpan "Sure: {[1]} and {}" m ->
               JSON.parse m = None.
Proof.
  exact (structured_parse_outcome JSON.parse "Sure: {[1]} and {}"
           (Throw "SyntaxError") eq_refl).
Defined.

(** ** Expert spawning never aborts (C7) *)

Section Spawning.

Import Orchestrator.

(** The experts that [spawnExperts] creates for contract number [c]. *)
Definition expertsFor (W : World) (c : nat) : list ExpertDefinition :=
  match Agent.analyzeStructured (parse_spawn W) (spawner_analyze W c) with
  | Ok data => map toExpertDefinition (default [] (experts_to_spawn data))
  | Throw _ => defaultExperts
  end.

Definition registered (n : string) (st : PipelineState) : Prop :=
  is_Some (agents st !! n).

Lemma registered_register n m st : registered n st -> registered n (register m st).
Proof.
  unfold registered, register. simpl. intros H.
  destruct (decide (m = n)) as [->|Hne].
  - rewrite lookup_insert_eq. eauto.
  - rewrite lookup_insert_ne by exact Hne. exact H.
Qed.

Lemma registered_here n st : registered n (register n st).
Proof. unfold registered, register. simpl. rewrite lookup_insert_eq. eauto. Qed.

Lemma analyzeContract_experts W c st :
  a_expertsToSpawn (analyzeContract W c st).1 = expertsFor W c.
Proof.
  unfold analyzeContract, expertsFor.
  destruct (Agent.analyzeStructured _ _); reflexivity.
Qed.

Lemma analyzeContract_state W c st :
  let st' := (analyzeContract W c st).2 in
  spawnedExperts st' = spawnedExperts st
  /\ agents st' = agents st
  /\ contracts st' = contracts st
  /\ findings st' = findings st
  /\ exists l, logs st' = logs st ++ l.
Proof.
  unfold analyzeContract.
  destruct (Agent.analyzeStructured _ _); simpl; repeat split; eauto.
  exists []. rewrite app_nil_r. reflexivity.
Qed.

(** What a state keeps of an earlier one while experts are created. *)
Definition grows (xs : list ExpertDefinition) (st st' : PipelineState) : Prop :=
  spawnedExperts st' = spawnedExperts st ++ xs
  /\ contracts st' = contracts st
  /\ findings st' = findings st
  /\ (forall n, registered n st -> registered n st')
  /\ (forall x, x ∈ xs -> registered (x_name x) st')
  /\ exists l, logs st' = logs st ++ l.

Lemma grows_refl st : grows [] st st.
Proof.
  unfold grows. rewrite app_nil_r. repeat split; auto.
  - intros x Hx. apply elem_of_nil in Hx. contradiction.
  - exists []. rewrite app_nil_r. reflexivity.
Qed.

Lemma grows_trans xs ys st1 st2 st3 :
  grows xs st1 st2 -> grows ys st2 st3 -> grows (xs ++ ys) st1 st3.
Proof.
  intros (E1 & C1 & F1 & R1 & N1 & l1 & L1) (E2 & C2 & F2 & R2 & N2 & l2 & L2).
  unfold grows. rewrite E2, E1, C2, C1, F2, F1, L2, L1, <- !app_assoc.
  repeat split; auto.
  - intros x Hx. apply elem_of_app in Hx. destruct Hx as [Hx|Hx]; auto.
  - eauto.
Qed.

Lemma createExpert_grows st x : grows [x] st (createExpert st x).
Proof.
  unfold grows, createExpert. simpl. repeat split.
  - intros n Hn. apply (registered_register n (x_name x) st Hn).
  - intros y Hy. apply list_elem_of_singleton in Hy. subst y.
    apply (registered_here (x_name x) st).
  - eauto.
Qed.

Lemma createExperts_grows xs : forall st, grows xs st (fold_left createExpert xs st).
Proof.
  induction xs as [|x xs IH]; intros st; simpl; [apply grows_refl|].
  apply (grows_trans [x] xs _ _ _ (createExpert_grows st x) (IH _)).
Qed.

Lemma spawnForContract_grows W st c contract :
  grows (expertsFor W c) st (spawnForContract W st (c, contract)).
Proof.
  unfold spawnForContract. simpl.
  destruct (analyzeContract W c _) as [analysis st2] eqn:E.
  pose proof (analyzeContract_experts W c
                (log expert_spawning "Analyzing contract" (Some (c_name contract)) st))
    as Hx.
  pose proof (analyzeContract_state W c
                (log expert_spawning "Analyzing contract" (Some (c_name contract)) st))
    as Hs.
  rewrite E in Hx, Hs. simpl in Hx, Hs. cbv zeta in Hs.
  destruct Hs as (E1 & E2 & E3 & E4 & l & E5). rewrite <- Hx.
  eapply (grows_trans [] _ st _ _); [|apply createExperts_grows].
  unfold grows. simpl. rewrite app_nil_r, E1, E3, E4, E5. simpl.
  repeat split; auto.
  - intros n Hn. unfold registered in *. simpl. rewrite E2. exact Hn.
  - intros x Hx'. apply elem_of_nil in Hx'. contradiction.
  - rewrite <- !app_assoc. eexists. reflexivity.
Qed.

Lemma spawnAll_grows W cs : forall k st,
  grows (concat (map (expertsFor W) (seq k (length cs)))) st
    (fold_left (spawnForContract W) (combine (seq k (length cs)) cs) st).
Proof.
  induction cs as [|c cs IH]; intros k st; simpl; [apply grows_refl|].
  eapply grows_trans; [apply spawnForContract_grows | apply IH].
Qed.

(** [spawnExperts] always resolves; it appends, contract by contract, the
    experts of the analysis or the default experts. *)
Lemma spawnExperts_grows W st :
  exists st',
    spawnExperts W st = Ok st'
    /\ grows (concat (map (expertsFor W) (seq 0 (length (contracts st))))) st st'.
Proof.
  unfold spawnExperts. eexists. split; [reflexivity|].
  pose proof (spawnAll_grows W (contracts st) 0 (register "ExpertSpawner" st))
    as (E & C & F & R & N & l & L).
  unfold grows. cbn [spawnedExperts contracts findings logs log with_logs].
  unfold indexed. cbn [contracts register with_agents].
  cbn [spawnedExperts contracts findings logs register with_agents] in E, C, F, L.
  rewrite E, C, F, L. repeat split.
  - intros n Hn. apply R. apply registered_register. exact Hn.
  - exact N.
  - rewrite <- app_assoc. eexists. reflexivity.
Qed.

Lemma concat_map_seq_split {A : Type} (g : nat -> list A) n c :
  c < n ->
  concat (map g (seq 0 n))
  = concat (map g (seq 0 c)) ++ g c ++ concat (map g (seq (S c) (n - S c))).
Proof.
  intros Hc. replace n with (c + S (n - S c)) at 1 by lia.
  rewrite seq_app, map_app, concat_app. simpl. reflexivity.
Qed.

End Spawning.

(** ** What the later stages keep of the state *)

Section Frames.

Import Orchestrator.

(** What a finding reports: all of it but the assessment (severity and
    confidence), the status and the debate history, which later stages
    rewrite. *)
Definition report (f : VulnerabilityFinding)
  : string * string * string * string * string :=
  (f_id f, f_type f, f_title f, f_description f, f_discoveredBy f).

Definition reports (store : list VulnerabilityFinding)
  : list (string * string * string * string * string) :=
  report <$> store.

(** [st'] has the experts of [st], its findings with the same reports and
    in the same order, and its log with more lines at the end. *)
Definition keeps (st st' : PipelineState) : Prop :=
  spawnedExperts st' = spawnedExperts st
  /\ reports (findings st') = reports (findings st)
  /\ exists l, logs st' = logs st ++ l.

Lemma reports_ids store store' :
  reports store' = reports store -> ids store' = ids store.
Proof.
  unfold reports, ids. intros H.
  assert (E : forall l : list VulnerabilityFinding,
            f_id <$> l = (fun r => r.1.1.1.1) <$> (report <$> l)).
  { intros l. rewrite <- list_fmap_compose. reflexivity. }
  rewrite !E, H. reflexivity.
Qed.

Lemma reports_elem_of store store' f :
  reports store' = reports store -> f ∈ store ->
  exists f', f' ∈ store' /\ report f' = report f.
Proof.
  unfold reports. intros H Hf.
  apply (list_elem_of_fmap_2 report) in Hf. rewrite <- H in Hf.
  apply list_elem_of_fmap in Hf. destruct Hf as (f' & Hf' & Hin).
  exists f'. split; [exact Hin | symmetry; exact Hf'].
Qed.

Lemma reports_alter g i store :
  (forall f, report (g f) = report f) -> reports (alter g i store) = reports store.
Proof.
  intros Hg. unfold reports. apply list_eq. intros j.
  rewrite !list_lookup_fmap.
  destruct (decide (i = j)) as [->|Hne].
  - rewrite list_lookup_alter_eq. destruct (store !! j); simpl; [|reflexivity].
    rewrite Hg. reflexivity.
  - rewrite list_lookup_alter_ne by exact Hne. reflexivity.
Qed.

Lemma report_history_push e f : report (history_push e f) = report f.
Proof. unfold history_push. destruct (f_debateHistory f); reflexivity. Qed.

Lemma report_history_init_push e f : report (history_init_push e f) = report f.
Proof. reflexivity. Qed.

Lemma keeps_refl st : keeps st st.
Proof.
  split; [reflexivity|]. split; [reflexivity|].
  exists []. rewrite app_nil_r. reflexivity.
Qed.

Lemma keeps_trans st1 st2 st3 : keeps st1 st2 -> keeps st2 st3 -> keeps st1 st3.
Proof.
  intros (E1 & F1 & l1 & L1) (E2 & F2 & l2 & L2).
  split; [congruence|]. split; [congruence|].
  exists (l1 ++ l2). rewrite L2, L1, app_assoc. reflexivity.
Qed.

Lemma keeps_log s a d st : keeps st (log s a d st).
Proof.
  split; [reflexivity|]. split; [reflexivity|]. eexists. reflexivity.
Qed.

Lemma keeps_with_stage s st : keeps st (with_stage s st).
Proof.
  split; [reflexivity|]. split; [reflexivity|].
  exists []. rewrite app_nil_r. reflexivity.
Qed.

Lemma keeps_register n st : keeps st (register n st).
Proof.
  split; [reflexivity|]. split; [reflexivity|].
  exists []. rewrite app_nil_r. reflexivity.
Qed.

Lemma keeps_register_all ns : forall st,
  keeps st (fold_left (fun s n => register n s) ns st).
Proof.
  induction ns as [|n ns IH]; intros st; simpl; [apply keeps_refl|].
  eapply keeps_trans; [apply keeps_register | apply IH].
Qed.

Lemma keeps_with_findings fs st :
  reports fs = reports (findings st) -> keeps st (with_findings fs st).
Proof.
  intros H. split; [reflexivity|]. split; [exact H|].
  exists []. rewrite app_nil_r. reflexivity.
Qed.

Lemma keeps_with_debates ds st : keeps st (with_debates ds st).
Proof.
  split; [reflexivity|]. split; [reflexivity|].
  exists []. rewrite app_nil_r. reflexivity.
Qed.

Lemma keeps_with_synthesis sy st : keeps st (with_synthesis sy st).
Proof.
  split; [reflexivity|]. split; [reflexivity|].
  exists []. rewrite app_nil_r. reflexivity.
Qed.

Lemma keeps_with_exploits xs st : keeps st (with_exploits xs st).
Proof.
  split; [reflexivity|]. split; [reflexivity|].
  exists []. rewrite app_nil_r. reflexivity.
Qed.

Lemma keeps_with_verificationResults rs st :
  keeps st (with_verificationResults rs st).
Proof.
  split; [reflexivity|]. split; [reflexivity|].
  exists []. rewrite app_nil_r. reflexivity.
Qed.

Lemma ids_imap (g : nat -> VulnerabilityFinding -> VulnerabilityFinding) store :
  (forall j f, f_id (g j f) = f_id f) -> ids (imap g store) = ids store.
Proof.
  intros Hg. unfold ids. apply list_eq. intros j.
  rewrite !list_lookup_fmap, list_lookup_imap.
  destruct (store !! j) as [f|]; simpl; [|reflexivity].
  rewrite Hg. reflexivity.
Qed.

Lemma ids_markUndebated sel store : ids (markUndebated sel store) = ids store.
Proof.
  apply ids_imap. intros j f. destruct (bool_decide (j ∈ sel)); reflexivity.
Qed.

Lemma reports_imap (g : nat -> VulnerabilityFinding -> VulnerabilityFinding) store :
  (forall j f, report (g j f) = report f) -> reports (imap g store) = reports store.
Proof.
  intros Hg. unfold reports. apply list_eq. intros j.
  rewrite !list_lookup_fmap, list_lookup_imap.
  destruct (store !! j) as [f|]; simpl; [|reflexivity].
  rewrite Hg. reflexivity.
Qed.

Lemma reports_markUndebated sel store :
  reports (markUndebated sel store) = reports store.
Proof.
  apply reports_imap. intros j f. destruct (bool_decide (j ∈ sel)); reflexivity.
Qed.

Lemma round1_reports W ag refs s s' :
  inBatches (round1 W ag) refs s = Ok s' -> reports s'.1 = reports s.1.
Proof.
  apply (inBatches_inv (fun x => reports x.1 = reports s.1)); [|reflexivity].
  intros k i s1 s2 _ Hs1 H. apply round1_shape in H.
  destruct H as [->|(r & ->)]; [exact Hs1|]. simpl.
  rewrite reports_alter by reflexivity. exact Hs1.
Qed.

Lemma teamRound_reports W n t team role action call push refs s s' :
  (forall e f, report (push e f) = report f) ->
  inBatches (teamRound W n t team role action call push) refs s = Ok s' ->
  reports s'.1 = reports s.1.
Proof.
  intros Hpush.
  apply (inBatches_inv (fun x => reports x.1 = reports s.1)); [|reflexivity].
  intros k i s1 s2 _ Hs1 H. apply teamRound_shape in H.
  destruct H as [->|(e & r & _ & ->)]; [exact Hs1|]. simpl.
  rewrite reports_alter by (intros f; apply Hpush). exact Hs1.
Qed.

Lemma round1_ids W ag refs s s' :
  inBatches (round1 W ag) refs s = Ok s' -> ids s'.1 = ids s.1.
Proof.
  apply (inBatches_inv (fun x => ids x.1 = ids s.1)); [|reflexivity].
  intros k i s1 s2 _ Hs1 H. apply round1_shape in H.
  destruct H as [->|(r & ->)]; [exact Hs1|]. simpl.
  rewrite ids_alter by reflexivity. exact Hs1.
Qed.

Lemma teamRound_ids W n t team role action call push refs s s' :
  (forall e f, f_id (push e f) = f_id f) ->
  inBatches (teamRound W n t team role action call push) refs s = Ok s' ->
  ids s'.1 = ids s.1.
Proof.
  intros Hpush.
  apply (inBatches_inv (fun x => ids x.1 = ids s.1)); [|reflexivity].
  intros k i s1 s2 _ Hs1 H. apply teamRound_shape in H.
  destruct H as [->|(e & r & _ & ->)]; [exact Hs1|]. simpl.
  rewrite ids_alter by (intros f; apply Hpush). exact Hs1.
Qed.

Lemma adversarialDebate_keeps W st st' :
  adversarialDebate W st = Ok st' -> keeps st st'.
Proof.
  intros H. destruct (decide (findings st = [])) as [E|Hne].
  - unfold adversarialDebate in H. rewrite E in H. simpl in H.
    injection H as <-. apply keeps_log.
  - destruct (adversarialDebate_shape W st st' Hne H)
      as (ag & s1 & s2 & s3 & s4 & refs & session
          & H1 & _ & H2 & H3 & H4 & Hf & _ & _ & _ & Hx & Hl).
    split; [exact Hx|]. split; [|exact Hl].
    rewrite Hf, reports_markUndebated.
    rewrite (teamRound_reports _ _ _ _ _ _ _ _ _ _ _ report_history_push H4).
    rewrite (teamRound_reports _ _ _ _ _ _ _ _ _ _ _ report_history_push H3).
    rewrite (teamRound_reports _ _ _ _ _ _ _ _ _ _ _ report_history_init_push H2).
    rewrite (round1_reports _ _ _ _ _ H1). reflexivity.
Qed.

Lemma ids_map (g : VulnerabilityFinding -> VulnerabilityFinding) store :
  (forall f, f_id (g f) = f_id f) -> ids (map g store) = ids store.
Proof.
  intros Hg. unfold ids. induction store as [|f store IH]; simpl; [reflexivity|].
  rewrite Hg. f_equal. exact IH.
Qed.

Lemma f_id_applySynthesis data f : f_id (applySynthesis data f) = f_id f.
Proof.
  unfold applySynthesis.
  destruct (findValidated data f); [reflexivity|].
  destruct (findRejected data f); reflexivity.
Qed.

Lemma reports_map (g : VulnerabilityFinding -> VulnerabilityFinding) store :
  (forall f, report (g f) = report f) -> reports (map g store) = reports store.
Proof.
  intros Hg. unfold reports. induction store as [|f store IH]; [reflexivity|].
  cbn [map fmap list_fmap]. rewrite Hg. f_equal. exact IH.
Qed.

Lemma report_applySynthesis data f : report (applySynthesis data f) = report f.
Proof.
  unfold applySynthesis.
  destruct (findValidated data f); [reflexivity|].
  destruct (findRejected data f); reflexivity.
Qed.

Lemma synthesize_keeps W st st' : synthesize W st = Ok st' -> keeps st st'.
Proof.
  unfold synthesize. intros H. apply rbind_Ok in H.
  destruct H as (data & _ & H). injection H as <-.
  eapply keeps_trans; [apply keeps_register|].
  eapply keeps_trans; [apply keeps_log|].
  eapply keeps_trans; [apply keeps_with_findings|].
  { apply reports_map. apply report_applySynthesis. }
  eapply keeps_trans; [apply keeps_with_synthesis|].
  apply keeps_log.
Qed.

Lemma forgeOne_keeps W i st st' : forgeOne W i st = Ok st' -> keeps st st'.
Proof.
  unfold forgeOne. destruct (findings st !! i) as [f|]; [|discriminate].
  intros H. apply rbind_Ok in H. destruct H as (aps & _ & H).
  apply rbind_Ok in H. destruct H as (fin & _ & H). injection H as <-.
  eapply keeps_trans; [apply keeps_log|].
  eapply keeps_trans; [apply keeps_with_exploits|].
  apply keeps_with_findings. apply reports_alter. reflexivity.
Qed.

Lemma for_of_keeps {A : Type} (body : A -> PipelineState -> Result PipelineState) xs :
  (forall x s s', body x s = Ok s' -> keeps s s') ->
  forall st st', for_of body xs st = Ok st' -> keeps st st'.
Proof.
  intros Hbody st st' H.
  eapply (for_of_inv (keeps st)); [|apply keeps_refl|exact H].
  intros x s s' _ Hs Hx. eapply keeps_trans; [exact Hs|]. eapply Hbody. exact Hx.
Qed.

Lemma forgeExploits_keeps W st st' : forgeExploits W st = Ok st' -> keeps st st'.
Proof.
  unfold forgeExploits. destruct (synthesis st) as [sy|]; [|discriminate].
  destruct (length (p_validatedVulnerabilities sy) =? 0).
  - intros [= <-]. apply keeps_log.
  - intros H. apply rbind_Ok in H. destruct H as (st2 & H2 & H).
    injection H as <-.
    eapply keeps_trans; [apply keeps_register|].
    eapply keeps_trans; [|apply keeps_log].
    eapply for_of_keeps; [|exact H2]. intros x s s'. apply forgeOne_keeps.
Qed.

Lemma verifyOne_keeps W ix st st' : verifyOne W ix st = Ok st' -> keeps st st'.
Proof.
  unfold verifyOne.
  destruct (findings st !! ex_vulnerability ix.2) as [f|]; [|discriminate].
  intros H. apply rbind_Ok in H. destruct H as (vs & _ & H). injection H as <-.
  eapply keeps_trans; [apply keeps_log|].
  eapply keeps_trans; [apply keeps_with_verificationResults|].
  eapply keeps_trans; [apply keeps_with_exploits|].
  apply keeps_log.
Qed.

Lemma verify_keeps W st st' : verify W st = Ok st' -> keeps st st'.
Proof.
  unfold verify. intros H.
  eapply keeps_trans; [apply keeps_register_all|].
  eapply for_of_keeps; [|exact H]. intros x s s'. apply verifyOne_keeps.
Qed.

(** A stage that keeps the state when it resolves keeps it under
    [executeStage], whether it resolves or rejects. *)
Lemma executeStage_keeps stage fn st r st' :
  (forall s s', fn s = Ok s' -> keeps s s') ->
  executeStage stage fn st = (r, st') -> keeps st st'.
Proof.
  intros Hfn. unfold executeStage.
  destruct (fn _) as [st2|e] eqn:E; intros [= <- <-].
  - eapply keeps_trans; [apply keeps_with_stage|].
    eapply keeps_trans; [apply keeps_log|].
    eapply keeps_trans; [apply (Hfn _ _ E)|]. apply keeps_log.
  - eapply keeps_trans; [apply keeps_with_stage|]. apply keeps_log.
Qed.

Lemma andThen_keeps m k st r st' :
  (forall s r' s', m s = (r', s') -> keeps s s') ->
  (forall s r' s', k s = (r', s') -> keeps s s') ->
  andThen m k st = (r, st') -> keeps st st'.
Proof.
  intros Hm Hk. unfold andThen.
  destruct (m st) as [[u|e] st1] eqn:E.
  - intros H. eapply keeps_trans; [eapply Hm; exact E | eapply Hk; exact H].
  - intros [= <- <-]. eapply Hm; exact E.
Qed.

End Frames.

(** ** Parallel analysis isolates failures (C8) *)

Section Analysis.

Import Orchestrator.

(** The findings that the pair (expert [e], contract [c]) contributes. *)
Definition pairFindings (W : World) (x : ExpertDefinition) (e c : nat)
  : list VulnerabilityFinding :=
  (analyzePair W x e c).1.

Lemma pairFindings_Throw W x e c msg :
  Agent.analyzeStructured (parse_findings W) (expert_analyze W e c) = Throw msg ->
  pairFindings W x e c = [].
Proof. unfold pairFindings, analyzePair. intros ->. reflexivity. Qed.

Lemma pairFindings_Ok W x e c raws :
  Agent.analyzeStructured (parse_findings W) (expert_analyze W e c) = Ok raws ->
  pairFindings W x e c = map (mkFinding W x e c) (indexed raws).
Proof. unfold pairFindings, analyzePair. intros ->. reflexivity. Qed.

Lemma combine_seq_lookup {A : Type} (xs : list A) : forall k i x,
  xs !! i = Some x -> In (k + i, x) (combine (seq k (length xs)) xs).
Proof.
  induction xs as [|y xs IH]; intros k i x; [discriminate|].
  destruct i as [|i]; simpl.
  - intros [= ->]. left. f_equal. lia.
  - intros H. right. replace (k + S i) with (S k + i) by lia. apply IH. exact H.
Qed.

Lemma indexed_lookup {A : Type} (xs : list A) i x :
  xs !! i = Some x -> In (i, x) (indexed xs).
Proof. intros H. apply (combine_seq_lookup xs 0 i x H). Qed.

(** The focus areas of [x] are an array, as the declared type has it. *)
Definition wellFormed (x : ExpertDefinition) : Prop :=
  exists l, x_focusAreas x = areas l.

(** The line that a task logs when it turns to a contract. *)
Definition analyzing (x : ExpertDefinition) (contract : ContractInfo)
  : PipelineLog :=
  {| l_stage := parallel_analysis;
     l_action := x_name x +:+ " analyzing";
     l_details := Some (c_name contract) |}.

(** The lines of the pair (expert [e], contract [ic]): the one above and
    the line of the [catch] branch, if it was taken. *)
Definition pairLines (W : World) (x : ExpertDefinition) (e : nat)
    (ic : nat * ContractInfo) : list PipelineLog :=
  analyzing x ic.2 :: (analyzePair W x e ic.1).2.

(** The loop of a task over the contracts, for an expert that is
    registered. *)
Definition taskLoop (W : World) (x : ExpertDefinition) (e : nat)
    (ics : list (nat * ContractInfo))
    (acc : list VulnerabilityFinding * list PipelineLog)
  : Result (list VulnerabilityFinding * list PipelineLog) :=
  for_of
    (fun (ic : nat * ContractInfo) '(findings, lines) =>
       let started :=
         {| l_stage := parallel_analysis;
            l_action := x_name x +:+ " analyzing";
            l_details := Some (c_name ic.2) |} in
       await focus <- join (x_focusAreas x);
       let (found, caught) := analyzePair W x e ic.1 in
       Ok (findings ++ found, lines ++ [started] ++ caught))
    ics acc.

Lemma taskLoop_Ok W x e ics : forall acc r,
  taskLoop W x e ics acc = Ok r ->
  r = (acc.1 ++ flat_map (fun ic => pairFindings W x e ic.1) ics,
       acc.2 ++ flat_map (pairLines W x e) ics).
Proof.
  unfold taskLoop, pairFindings, pairLines, analyzing.
  destruct (join (x_focusAreas x)) as [focus|].
  - induction ics as [|ic ics IH]; intros [fs ls] r; simpl.
    + intros [= <-]. rewrite !app_nil_r. reflexivity.
    + destruct (analyzePair W x e ic.1) as [found caught]. simpl.
      intros H. apply IH in H. rewrite H. simpl.
      rewrite <- !app_assoc. reflexivity.
  - destruct ics as [|ic ics]; intros [fs ls] r; simpl.
    + intros [= <-]. rewrite !app_nil_r. reflexivity.
    + discriminate.
Qed.

Lemma taskLoop_resolves W x e ics :
  wellFormed x -> forall acc, exists r, taskLoop W x e ics acc = Ok r.
Proof.
  intros [l Hl]. unfold taskLoop. rewrite Hl. simpl.
  induction ics as [|ic ics IH]; intros [fs ls]; simpl.
  - eexists. reflexivity.
  - destruct (analyzePair W x e ic.1) as [found caught]. simpl. apply IH.
Qed.

(** Without an array the first contract already makes the task reject. *)
Lemma taskLoop_rejects W x e ic ics acc :
  x_focusAreas x = notAnArray ->
  taskLoop W x e (ic :: ics) acc
  = Throw "expertDef.focusAreas.join is not a function".
Proof.
  intros Hx. destruct acc as [fs ls]. unfold taskLoop. simpl. rewrite Hx.
  reflexivity.
Qed.

Lemma pairLines_Throw W x e ic msg :
  Agent.analyzeStructured (parse_findings W) (expert_analyze W e ic.1) = Throw msg ->
  In {| l_stage := parallel_analysis; l_action := x_name x +:+ " error";
        l_details := Some msg |}
    (pairLines W x e ic).
Proof.
  unfold pairLines, analyzePair. intros ->. right. left. reflexivity.
Qed.

Lemma report_mkFinding W x e c k raw f :
  report f = report (mkFinding W x e c (k, raw)) ->
  f_id f = x_name x +:+ "-" +:+ id_suffix W e c k
  /\ f_type f = raw_type raw
  /\ f_title f = raw_title raw
  /\ f_description f = raw_description raw
  /\ f_discoveredBy f = x_name x.
Proof.
  unfold report, mkFinding. cbn [f_id f_type f_title f_description f_discoveredBy fst snd].
  intros H. injection H as E1 E2 E3 E4 E5. auto.
Qed.

(** What the task of expert [e] resolves to, when it does. *)
Definition taskResult (W : World) (ag : gmap string Agent.DynamicAgent)
    (cs : list ContractInfo) (ie : nat * ExpertDefinition)
  : list VulnerabilityFinding * list PipelineLog :=
  match ag !! x_name ie.2 with
  | None => ([], [])
  | Some _ =>
      (flat_map (fun ic => pairFindings W ie.2 ie.1 ic.1) (indexed cs),
       flat_map (pairLines W ie.2 ie.1) (indexed cs))
  end.

Lemma analysisTask_Ok W ag cs ie r :
  analysisTask W ag cs ie = Ok r -> r = taskResult W ag cs ie.
Proof.
  unfold analysisTask, taskResult.
  destruct (ag !! x_name ie.2) as [a|]; [|intros [= <-]; reflexivity].
  intros H. apply (taskLoop_Ok W ie.2 ie.1 (indexed cs) ([], []) r H).
Qed.

Lemma analysisTask_resolves W ag cs ie :
  wellFormed ie.2 -> exists r, analysisTask W ag cs ie = Ok r.
Proof.
  intros Hx. unfold analysisTask.
  destruct (ag !! x_name ie.2) as [a|]; [|eexists; reflexivity].
  apply (taskLoop_resolves W ie.2 ie.1 (indexed cs) Hx ([], [])).
Qed.

Lemma Promise_all_map {A B : Type} (f : A -> Result B) (g : A -> B) xs ys :
  (forall x y, f x = Ok y -> y = g x) ->
  Promise_all f xs = Ok ys -> ys = map g xs.
Proof.
  intros Hg. revert ys. induction xs as [|x xs IH]; intros ys; simpl.
  - intros [= <-]. reflexivity.
  - intros H. inv_await H. apply rbind_Ok in H. destruct H as (ys' & Hys & H).
    injection H as <-. rewrite (Hg _ _ Ha), (IH _ Hys). reflexivity.
Qed.

(** The stage, when it resolves. *)
Lemma parallelAnalysis_Ok W st st' :
  parallelAnalysis W st = Ok st' ->
  let results :=
    map (taskResult W (agents st) (contracts st)) (indexed (spawnedExperts st)) in
  findings st' = concat (map fst results)
  /\ spawnedExperts st' = spawnedExperts st
  /\ exists before after,
       logs st' = logs st ++ before ++ concat (map snd results) ++ after.
Proof.
  unfold parallelAnalysis. intros H. inv_await H. injection H as <-.
  apply (Promise_all_map _ (taskResult W (agents st) (contracts st))) in Ha.
  2:{ intros ie r. apply analysisTask_Ok. }
  cbn [agents contracts log with_logs] in Ha. subst a.
  split; [reflexivity|]. split; [reflexivity|].
  cbn [logs log with_logs with_findings]. rewrite <- !app_assoc.
  eexists [_], [_]. reflexivity.
Qed.

Lemma parallelAnalysis_findings W st st' :
  parallelAnalysis W st = Ok st' ->
  findings st'
  = concat (map fst (map (taskResult W (agents st) (contracts st))
                       (indexed (spawnedExperts st))))
  /\ spawnedExperts st' = spawnedExperts st
  /\ exists l, logs st' = logs st ++ l.
Proof.
  intros H. destruct (parallelAnalysis_Ok W st st' H) as (Hf & Hx & b & a & Hl).
  split; [exact Hf|]. split; [exact Hx|]. rewrite Hl. eexists. reflexivity.
Qed.

(** The stage resolves when the focus areas of every expert are an
    array. *)
Lemma parallelAnalysis_resolves W st :
  Forall wellFormed (spawnedExperts st) ->
  exists st', parallelAnalysis W st = Ok st'.
Proof.
  intros Hwf. unfold parallelAnalysis.
  destruct (Promise_all_ok
              (analysisTask W
                 (agents (log parallel_analysis "Starting analysis"
                            (Some (pretty (length (spawnedExperts st))
                                   +:+ " experts analyzing")) st))
                 (contracts (log parallel_analysis "Starting analysis"
                               (Some (pretty (length (spawnedExperts st))
                                      +:+ " experts analyzing")) st)))
              (indexed (spawnedExperts st))) as [rs Hrs].
  { intros [e x] Hin.
    destruct (analysisTask_resolves W (agents st) (contracts st) (e, x)) as [r Hr].
    - rewrite Forall_forall in Hwf. apply Hwf.
      apply list_elem_of_In. eapply indexed_In. exact Hin.
    - cbn [agents contracts log with_logs]. rewrite Hr. reflexivity. }
  rewrite Hrs. simpl. eexists. reflexivity.
Qed.

(** A finding of a pair whose call resolved is in the findings of the
    stage. *)
Lemma parallelAnalysis_contributes W st st' e x c f :
  parallelAnalysis W st = Ok st' ->
  spawnedExperts st !! e = Some x ->
  registered (x_name x) st ->
  c < length (contracts st) ->
  f ∈ pairFindings W x e c ->
  f ∈ findings st'.
Proof.
  intros H He [a Ha] Hc Hf.
  destruct (parallelAnalysis_findings W st st' H) as (Hfs & _).
  rewrite Hfs.
  apply list_elem_of_In, in_concat.
  exists (taskResult W (agents st) (contracts st) (e, x)).1. split.
  - apply in_map, in_map. apply indexed_lookup. exact He.
  - unfold taskResult. simpl. rewrite Ha. simpl.
    apply in_flat_map.
    destruct (lookup_lt_is_Some_2 (contracts st) c Hc) as [contract Hcontract].
    exists (c, contract). split; [apply indexed_lookup; exact Hcontract|].
    apply list_elem_of_In. exact Hf.
Qed.

(** The lines of a pair are in the log of the stage. *)
Lemma parallelAnalysis_lines W st st' e x c contract line :
  parallelAnalysis W st = Ok st' ->
  spawnedExperts st !! e = Some x ->
  registered (x_name x) st ->
  contracts st !! c = Some contract ->
  In line (pairLines W x e (c, contract)) ->
  In line (logs st').
Proof.
  intros H He [a Ha] Hc Hline.
  destruct (parallelAnalysis_Ok W st st' H) as (_ & _ & b & af & Hl).
  rewrite Hl. apply in_or_app. right. apply in_or_app. right.
  apply in_or_app. left. apply in_concat.
  exists (taskResult W (agents st) (contracts st) (e, x)).2. split.
  - apply in_map, in_map. apply indexed_lookup. exact He.
  - unfold taskResult. simpl. rewrite Ha. simpl.
    apply in_flat_map. exists (c, contract).
    split; [apply indexed_lookup; exact Hc | exact Hline].
Qed.

End Analysis.

(** ** The pipeline up to the analysis and beyond *)

Section Pipeline.

Import Orchestrator.

Lemma grows_log xs s a d st st' : grows xs st st' -> grows xs st (log s a d st').
Proof.
  intros (E & C & F & R & N & l & L). unfold grows. simpl.
  rewrite E, C, F, L. repeat split; try assumption.
  rewrite <- app_assoc. eexists. reflexivity.
Qed.

Lemma grows_with_stage xs s st st' : grows xs st st' -> grows xs (with_stage s st) st'.
Proof. intros H. exact H. Qed.

Lemma reconnaissance_grows st :
  exists st', reconnaissance st = Ok st' /\ grows [] st st'.
Proof.
  unfold reconnaissance. eexists. split; [reflexivity|].
  match goal with
  | |- grows [] st (fold_left ?f ?cs ?s0) =>
      assert (H : forall l s, grows [] st s -> grows [] st (fold_left f l s))
  end.
  { induction l as [|c l IH]; intros s Hs; simpl; [exact Hs|].
    apply IH. destruct (String.eqb _ _); [apply grows_log|]; exact Hs. }
  apply H. apply grows_log. apply grows_refl.
Qed.

Lemma executeStage_Ok stage fn st st2 :
  fn (log stage "Stage started" None (with_stage stage st)) = Ok st2 ->
  executeStage stage fn st = (Ok (), log stage "Stage completed" None st2).
Proof. intros H. unfold executeStage. rewrite H. reflexivity. Qed.

Lemma executeStage_Throw stage fn st e :
  fn (log stage "Stage started" None (with_stage stage st)) = Throw e ->
  executeStage stage fn st
  = (Throw e, log stage "Stage started" None (with_stage stage st)).
Proof. intros H. unfold executeStage. rewrite H. reflexivity. Qed.

Lemma andThen_Ok m k st st1 : m st = (Ok (), st1) -> andThen m k st = k st1.
Proof. intros H. unfold andThen. rewrite H. reflexivity. Qed.

Lemma andThen_Throw m k st e st1 :
  m st = (Throw e, st1) -> andThen m k st = (Throw e, st1).
Proof. intros H. unfold andThen. rewrite H. reflexivity. Qed.

Definition stageLine (stage : PipelineStage) (action : string) : PipelineLog :=
  {| l_stage := stage; l_action := action; l_details := None |}.

(** The stages after the analysis keep the state. *)
Lemma laterStages_keeps W st r st' :
  andThen (executeStage adversarial_debate (adversarialDebate W))
    (andThen (executeStage synthesis_stage (synthesize W))
       (fun st =>
          if hasValidated st then
            andThen (executeStage exploit_forge (forgeExploits W))
              (executeStage verification (verify W)) st
          else (Ok (), st))) st = (r, st') ->
  keeps st st'.
Proof.
  apply andThen_keeps.
  - intros s r' s'. apply executeStage_keeps. apply adversarialDebate_keeps.
  - intros s r' s'. apply andThen_keeps.
    + intros s0 r0 s0'. apply executeStage_keeps. apply synthesize_keeps.
    + intros s0 r0 s0'. destruct (hasValidated s0).
      * apply andThen_keeps.
        -- intros s1 r1 s1'. apply executeStage_keeps. apply forgeExploits_keeps.
        -- intros s1 r1 s1'. apply executeStage_keeps. apply verify_keeps.
      * intros [= <- <-]. apply keeps_refl.
Qed.

(** Every run of [hunt] gets through reconnaissance and expert spawning
    and enters parallel analysis, in the state [stB]. If that stage
    resolves, in [stC], then whatever happens later the state shown
    afterwards keeps the experts, the findings of the analysis (what they
    report) and the log lines written up to then. *)
Lemma hunt_run W name cs :
  exists stB,
    spawnedExperts stB = concat (map (expertsFor W) (seq 0 (length cs)))
    /\ contracts stB = cs
    /\ (forall x, x ∈ spawnedExperts stB -> registered (x_name x) stB)
    /\ In (stageLine expert_spawning "Stage completed") (logs stB)
    /\ In (stageLine parallel_analysis "Stage started") (logs stB)
    /\ spawnedExperts (hunt W name cs).2 = spawnedExperts stB
    /\ (exists l, logs (hunt W name cs).2 = logs stB ++ l)
    /\ (forall e, parallelAnalysis W stB = Throw e ->
          (hunt W name cs).1 = Throw e)
    /\ (forall stC, parallelAnalysis W stB = Ok stC ->
          In (stageLine parallel_analysis "Stage completed")
            (logs (hunt W name cs).2)
          /\ keeps stC (hunt W name cs).2).
Proof.
  unfold hunt.
  set (st0 := log reconnaissance_stage "Pipeline started" _ (initializeState name cs)).
  destruct (reconnaissance_grows
              (log reconnaissance_stage "Stage started" None
                 (with_stage reconnaissance_stage st0)))
    as (stA & HA & GA).
  rewrite (andThen_Ok _ _ _ _ (executeStage_Ok _ _ _ _ HA)).
  set (stA' := log reconnaissance_stage "Stage completed" None stA).
  destruct (spawnExperts_grows W
              (log expert_spawning "Stage started" None
                 (with_stage expert_spawning stA')))
    as (stS & HS & GS).
  rewrite (andThen_Ok _ _ _ _ (executeStage_Ok _ _ _ _ HS)).
  set (stS' := log expert_spawning "Stage completed" None stS).
  set (stB := log parallel_analysis "Stage started" None
                (with_stage parallel_analysis stS')).
  destruct GA as (EA & CA & _ & _ & _ & _).
  destruct GS as (ES & CS & _ & RS & NS & lS & LS).
  assert (Hcs : contracts stS = cs).
  { rewrite CS. exact CA. }
  assert (Hxs : spawnedExperts stS
                = concat (map (expertsFor W) (seq 0 (length cs)))).
  { rewrite ES. cbn [spawnedExperts log with_logs with_stage].
    unfold stA'. cbn [spawnedExperts log with_logs]. rewrite EA.
    cbn [contracts log with_logs with_stage]. rewrite CA. reflexivity. }
  exists stB.
  split; [exact Hxs|]. split; [exact Hcs|].
  split.
  { intros x Hx. change (spawnedExperts stB) with (spawnedExperts stS) in Hx.
    rewrite ES in Hx. apply NS.
    cbn [spawnedExperts log with_logs with_stage] in Hx.
    unfold stA' in Hx. cbn [spawnedExperts log with_logs] in Hx.
    rewrite EA in Hx. exact Hx. }
  split.
  { change (logs stB) with ((logs stS ++ [stageLine expert_spawning "Stage completed"])
                            ++ [stageLine parallel_analysis "Stage started"]).
    apply in_or_app. left. apply in_or_app. right. left. reflexivity. }
  split.
  { change (logs stB) with ((logs stS ++ [stageLine expert_spawning "Stage completed"])
                            ++ [stageLine parallel_analysis "Stage started"]).
    apply in_or_app. right. left. reflexivity. }
  destruct (parallelAnalysis W stB) as [stC|e] eqn:HC.
  - rewrite (andThen_Ok _ _ _ _ (executeStage_Ok _ _ _ _ HC)).
    destruct (parallelAnalysis_findings W stB stC HC) as (_ & HxC & lC & HlC).
    set (stC' := log parallel_analysis "Stage completed" None stC).
    match goal with
    | |- context [andThen ?m ?k stC'] => destruct (andThen m k stC') as [r stF] eqn:E
    end.
    apply laterStages_keeps in E.
    assert (K : keeps stC' (match r with
                            | Ok _ => (Ok (), log submission "Pipeline completed"
                                                (Some (generateSummary stF)) stF)
                            | Throw e => (Throw e, log (currentStage stF)
                                                     "Pipeline failed" (Some e) stF)
                            end).2).
    { eapply keeps_trans; [exact E|]. destruct r; apply keeps_log. }
    destruct K as (K1 & K2 & lF & K3).
    split; [rewrite K1; exact HxC|].
    split.
    { rewrite K3.
      change (logs stC') with (logs stC ++ [stageLine parallel_analysis "Stage completed"]).
      rewrite HlC, <- !app_assoc. eexists. reflexivity. }
    split; [discriminate|].
    intros stC2 [= <-].
    split.
    { rewrite K3. apply in_or_app. left.
      change (logs stC') with (logs stC ++ [stageLine parallel_analysis "Stage completed"]).
      apply in_or_app. right. left. reflexivity. }
    split; [exact K1|]. split; [exact K2|].
    rewrite K3.
    change (logs stC') with (logs stC ++ [stageLine parallel_analysis "Stage completed"]).
    rewrite <- app_assoc. eexists. reflexivity.
  - rewrite (andThen_Throw _ _ _ _ _ (executeStage_Throw _ _ _ _ HC)).
    cbn [fst snd spawnedExperts logs log with_logs].
    split; [reflexivity|].
    split; [eexists; reflexivity|].
    split; [intros e' [= <-]; reflexivity|].
    discriminate.
Qed.

End Pipeline.

Section Isolation.

Import Orchestrator.

(** The findings of the analysis, pair by pair. *)
Definition expectedFindings (W : World) (experts : list ExpertDefinition)
    (cs : list ContractInfo) : list VulnerabilityFinding :=
  flat_map
    (fun ex : nat * ExpertDefinition =>
       flat_map (fun ic : nat * ContractInfo => pairFindings W ex.2 ex.1 ic.1)
         (indexed cs))
    (indexed experts).

Lemma parallelAnalysis_expected W st st' :
  (forall x, x ∈ spawnedExperts st -> registered (x_name x) st) ->
  parallelAnalysis W st = Ok st' ->
  findings st' = expectedFindings W (spawnedExperts st) (contracts st).
Proof.
  intros Hreg H.
  destruct (parallelAnalysis_findings W st st' H) as (Hfs & _).
  rewrite Hfs.
  unfold expectedFindings. rewrite map_map, flat_map_concat_map. f_equal.
  apply map_ext_in. intros [e x] Hin.
  destruct (Hreg x) as [a Ha].
  { apply list_elem_of_In. eapply indexed_In. exact Hin. }
  unfold taskResult. simpl. rewrite Ha. reflexivity.
Qed.

(** Every expert that the spawner defines for a contract of the run has an
    array as focus areas. The default experts have. *)
Definition wellFormedExperts (W : World) (cs : list ContractInfo) : Prop :=
  forall c, c < length cs -> Forall wellFormed (expertsFor W c).

Lemma defaultExperts_wellFormed : Forall wellFormed defaultExperts.
Proof. repeat constructor; eexists; reflexivity. Qed.

Lemma wellFormedExperts_concat W cs :
  wellFormedExperts W cs ->
  Forall wellFormed (concat (map (expertsFor W) (seq 0 (length cs)))).
Proof.
  intros H. apply Forall_concat, Forall_forall. intros l Hl.
  apply list_elem_of_In, in_map_iff in Hl. destruct Hl as (c & <- & Hc).
  apply in_seq in Hc. apply H. lia.
Qed.

End Isolation.

(** C7. When the structured parse of the oracle's answer for a contract
    fails during expert spawning, the stage neither raises nor aborts the
    run: [spawnExperts] resolves, and it installs the fixed default set of
    three experts for that contract, all of the generic defect kind
    ('vulnerability'): they are appended to the spawned experts and
    their agents are registered. The stage completes and the pipeline
    enters parallel analysis; there, provided the focus areas of every
    expert that the spawner defined are an array, each default expert
    analyzes each contract and the stage completes. *)
Theorem spawning_survives_parse_failure W name cs c contract msg :
  cs !! c = Some contract ->
  Agent.analyzeStructured (Orchestrator.parse_spawn W)
    (Orchestrator.spawner_analyze W c) = Throw msg ->
  let final := (Orchestrator.hunt W name cs).2 in
  (forall st, Orchestrator.contracts st = cs ->
     exists st' before after,
       Orchestrator.spawnExperts W st = Ok st'
       /\ Orchestrator.spawnedExperts st'
          = Orchestrator.spawnedExperts st
            ++ before ++ Orchestrator.defaultExperts ++ after
       /\ forall x, x ∈ Orchestrator.defaultExperts ->
                    registered (Orchestrator.x_name x) st')
  /\ length Orchestrator.defaultExperts = 3
  /\ (forall x, x ∈ Orchestrator.defaultExperts ->
                Orchestrator.x_type x = "vulnerability")
  /\ (exists before after,
        Orchestrator.spawnedExperts final
        = before ++ Orchestrator.defaultExperts ++ after)
  /\ In (stageLine Orchestrator.expert_spawning "Stage completed")
       (Orchestrator.logs final)
  /\ In (stageLine Orchestrator.parallel_analysis "Stage started")
       (Orchestrator.logs final)
  /\ (wellFormedExperts W cs ->
      In (stageLine Orchestrator.parallel_analysis "Stage completed")
        (Orchestrator.logs final)
      /\ forall x contract',
           x ∈ Orchestrator.defaultExperts -> contract' ∈ cs ->
           In (analyzing x contract') (Orchestrator.logs final)).
Proof.
  intros Hc Hfail final.
  assert (Hlt : c < length cs) by (eapply lookup_lt_Some; exact Hc).
  assert (Hsplit : exists before after,
            concat (map (expertsFor W) (seq 0 (length cs)))
            = before ++ Orchestrator.defaultExperts ++ after).
  { rewrite (concat_map_seq_split (expertsFor W) (length cs) c Hlt).
    unfold expertsFor at 2. rewrite Hfail. eauto. }
  destruct Hsplit as (before & after & Hsplit).
  destruct (hunt_run W name cs)
    as (stB & Hxs & Hcs & Hreg & L1 & L2 & Hfx & (l & Hl) & _ & Hok).
  fold final in Hfx, Hl, Hok. clearbody final.
  split.
  { intros st Hst. destruct (spawnExperts_grows W st) as (st' & H & G).
    destruct G as (E & _ & _ & _ & N & _). rewrite Hst, Hsplit in E, N.
    exists st', before, after. split; [exact H|]. split; [exact E|].
    intros x Hx. apply N. apply elem_of_app. right.
    apply elem_of_app. left. exact Hx. }
  split; [reflexivity|].
  split.
  { intros x Hx.
    repeat (apply elem_of_cons in Hx; destruct Hx as [->|Hx]; [reflexivity|]).
    apply elem_of_nil in Hx. contradiction. }
  split.
  { exists before, after. rewrite Hfx, Hxs. exact Hsplit. }
  split; [rewrite Hl; apply in_or_app; left; exact L1|].
  split; [rewrite Hl; apply in_or_app; left; exact L2|].
  intros Hwf.
  destruct (parallelAnalysis_resolves W stB) as [stC HC].
  { rewrite Hxs. apply wellFormedExperts_concat. exact Hwf. }
  destruct (Hok stC HC) as (L3 & _ & _ & lF & HlF).
  split; [exact L3|].
  intros x contract' Hx Hcontract.
  assert (Hspawned : x ∈ Orchestrator.spawnedExperts stB).
  { rewrite Hxs, Hsplit. apply elem_of_app. right.
    apply elem_of_app. left. exact Hx. }
  pose proof (Hreg x Hspawned) as Hr.
  apply list_elem_of_lookup_1 in Hspawned. destruct Hspawned as [e He].
  apply list_elem_of_lookup_1 in Hcontract. destruct Hcontract as [c' Hc'].
  rewrite HlF. apply in_or_app. left.
  apply (parallelAnalysis_lines W stB stC e x c' contract'); try assumption.
  - rewrite Hcs. exact Hc'.
  - left. reflexivity.
Qed.

Lemma spawning_survives_parse_failure_witness :
  (exists before after,
     Orchestrator.spawnedExperts
       (Orchestrator.hunt Sample.world "demo" [Sample.vault]).2
     = before ++ Orchestrator.defaultExperts ++ after)
  /\ In (stageLine Orchestrator.parallel_analysis "Stage completed")
       (Orchestrator.logs (Orchestrator.hunt Sample.world "demo" [Sample.vault]).2)
  /\ In (analyzing Sample.reentrancyExpert Sample.vault)
       (Orchestrator.logs (Orchestrator.hunt Sample.world "demo" [Sample.vault]).2).
Proof.
  destruct (spawning_survives_parse_failure Sample.world "demo" [Sample.vault]
              0 Sample.vault "overloaded" eq_refl eq_refl)
    as (_ & _ & _ & H4 & _ & _ & H7).
  destruct H7 as [H7 H8].
  { intros c Hc. destruct c as [|c]; [|simpl in Hc; lia].
    repeat constructor; eexists; reflexivity. }
  split; [exact H4|]. split; [exact H7|].
  apply H8; apply list_elem_of_here.
Defined.



(** ** The debate and the concurrency limit (C10) *)

Section Limit.

Import Concurrency.

Lemma started_calls (xs : list nat) free :
  started (All (map (fun _ => Call) xs)) free = (length xs, free).
Proof.
  simpl. induction xs as [|x xs IH]; simpl; [reflexivity|].
  simpl in IH. rewrite IH. reflexivity.
Qed.

(** A round of the debate starts its first batch whole, whatever the
    limiter allows: with [n] references, min(5, n) calls are in flight at
    once and no slot of the limiter is taken. *)
Lemma debateRound_started refs free :
  started (debateRound refs) free
  = (Nat.min Orchestrator.BATCH_SIZE (length refs), free).
Proof.
  unfold debateRound, Orchestrator.batches.
  destruct refs as [|i refs]; [reflexivity|].
  cbn [Orchestrator.batchesFrom length map].
  change (started (Seq (?b :: ?bs)) free) with (started b free).
  rewrite started_calls, length_take. reflexivity.
Qed.

Lemma started_limited (xs : list nat) p : forall free,
  (forall f, started p f = (1, f)) ->
  started (All (map (fun _ => Limited p) xs)) free
  = (Nat.min (length xs) free, free - length xs).
Proof.
  intros free Hp. revert free.
  induction xs as [|x xs IH]; intros free; [simpl; f_equal; lia|].
  cbn [map]. change (started (All (?q :: ?qs)) free)
    with (let (n, free1) := started q free in
          let (m, free2) := started (All qs) free1 in (n + m, free2)).
  destruct free as [|free].
  - change (started (Limited p) 0) with (0, 0). cbv beta iota.
    rewrite IH. rewrite !Nat.min_0_r. reflexivity.
  - change (started (Limited p) (S free)) with (started p free).
    rewrite Hp. cbv beta iota. rewrite IH. cbn [length]. f_equal; lia.
Qed.

End Limit.

(** C10, evaluated. With the limit K = 1 (maxConcurrentAgents: 1) and two
    findings in the debate, a round of the debate has two oracle calls in
    flight at once, none of them holding the slot of the limiter; the
    stages that go through the limiter (the analysis with two experts, the
    verification with its three verifiers) have one. *)
Theorem debate_exceeds_limit :
  Concurrency.started (Concurrency.debateRound [0; 1]) 1 = (2, 1)
  /\ Concurrency.started (Concurrency.analysisPlan 2 1) 1 = (1, 0)
  /\ Concurrency.started Concurrency.verificationPlan 1 = (1, 0).
Proof. repeat split. Qed.

(** * Further properties of the code *)

(** ** The debate arena: what a debate changes and how it decides *)

Section ArenaOutcome.

Import Arena.

(** A finding without the two fields that a debate writes. *)
Definition body (f : VulnerabilityFinding) : VulnerabilityFinding :=
  set_debateHistory None (set_status proposed f).

Definition bodies (store : list VulnerabilityFinding)
  : list VulnerabilityFinding :=
  map body store.

Lemma bodies_alter g i store :
  (forall f, body (g f) = body f) -> bodies (alter g i store) = bodies store.
Proof.
  intros Hg. unfold bodies. revert i.
  induction store as [|f store IH]; intros [|i]; simpl; try reflexivity.
  - rewrite Hg. reflexivity.
  - f_equal. apply IH.
Qed.

Lemma body_history_push e f : body (history_push e f) = body f.
Proof. unfold history_push. destruct (f_debateHistory f); reflexivity. Qed.

Lemma body_history_init_push e f : body (history_init_push e f) = body f.
Proof. reflexivity. Qed.

Lemma body_set_status s f : body (set_status s f) = body f.
Proof. reflexivity. Qed.

Lemma bodies_map_status s store : bodies (map (set_status s) store) = bodies store.
Proof. unfold bodies. rewrite map_map. reflexivity. Qed.

Variable W : World.
Variable config : DebateConfig.
Variable specialists : gmap string Agent.DynamicAgent.

Lemma presentation_bodies refs store s' :
  runPresentationRound W specialists refs store = Ok s' ->
  bodies s'.1 = bodies store.
Proof.
  unfold runPresentationRound.
  apply (for_of_inv (fun s : RoundState => bodies s.1 = bodies store));
    [|reflexivity].
  intros i [st es] s2 _ Hs.
  destruct (st !! i) as [f|]; [|intros [= <-]; exact Hs].
  destruct (specialists !! f_discoveredBy f); [|intros [= <-]; exact Hs].
  intros H. inv_await H. injection H as <-. simpl in *.
  rewrite bodies_alter; [exact Hs | apply body_history_init_push].
Qed.

Lemma attack_bodies refs store s' :
  runAttackRound W config refs store = Ok s' -> bodies s'.1 = bodies store.
Proof.
  unfold runAttackRound.
  apply (for_of_inv (fun s : RoundState => bodies s.1 = bodies store));
    [|reflexivity].
  intros i [st es] s2 _ Hs.
  destruct (st !! i) as [f|]; [|intros [= <-]; exact Hs].
  intros H. inv_await H. injection H as <-. simpl in *.
  rewrite bodies_alter; [exact Hs | apply body_history_push].
Qed.

Lemma defense_bodies attackRound refs store s' :
  runDefenseRound W config specialists attackRound refs store = Ok s' ->
  bodies s'.1 = bodies store.
Proof.
  unfold runDefenseRound.
  apply (for_of_inv (fun s : RoundState => bodies s.1 = bodies store));
    [|reflexivity].
  intros i [st es] s2 _ Hs.
  destruct (st !! i) as [f|]; [|intros [= <-]; exact Hs].
  destruct (List.find _ _); [|intros [= <-]; exact Hs].
  destruct (if coin W i then _ else _); [|intros [= <-]; exact Hs].
  intros H. inv_await H. injection H as <-. simpl in *.
  rewrite bodies_alter; [exact Hs | apply body_history_push].
Qed.

Lemma devilsAdvocate_bodies refs store s' :
  runDevilsAdvocateRound W config refs store = Ok s' ->
  bodies s'.1 = bodies store.
Proof.
  unfold runDevilsAdvocateRound.
  apply (for_of_inv (fun s : RoundState => bodies s.1 = bodies store));
    [|reflexivity].
  intros i [st es] s2 _ Hs.
  destruct (st !! i) as [f|]; [|intros [= <-]; exact Hs].
  intros H. inv_await H. injection H as <-. simpl in *.
  rewrite bodies_alter; [exact Hs | apply body_history_push].
Qed.

Lemma final_bodies refs store s' :
  runFinalRound W config refs store = Ok s' -> bodies s'.1 = bodies store.
Proof.
  unfold runFinalRound.
  apply (for_of_inv (fun s : RoundState => bodies s.1 = bodies store));
    [|reflexivity].
  intros i [st es] s2 _ Hs.
  destruct (st !! i) as [f|]; [|intros [= <-]; exact Hs].
  intros H. inv_await H. injection H as <-. simpl in *.
  rewrite bodies_alter; [exact Hs | apply body_history_push].
Qed.

Lemma concessionStep_bodies st e : bodies (concessionStep st e).1 = bodies st.1.
Proof.
  destruct st as [store status]. unfold concessionStep.
  destruct (e_action e); try reflexivity.
  destruct (e_targetFinding e) as [t|]; [|reflexivity].
  destruct (String.eqb t EmptyString); [reflexivity|].
  destruct (findIndex _ store); [|reflexivity].
  simpl. apply bodies_alter. apply body_set_status.
Qed.

Lemma concessions_bodies es : forall st,
  bodies (fold_left concessionStep es st).1 = bodies st.1.
Proof.
  induction es as [|e es IH]; intros st; simpl; [reflexivity|].
  rewrite IH. apply concessionStep_bodies.
Qed.

Lemma compileResults_bodies store status :
  bodies (cp_store (compileResults W store status)) = bodies store.
Proof.
  apply list_eq. intros j. unfold bodies.
  rewrite !list_lookup_fmap, compileResults_store.
  destruct (store !! j); reflexivity.
Qed.

Lemma debate_bodies findings contracts res :
  debate W config findings contracts specialists = Ok res ->
  bodies (s_findings (session res)) = bodies findings.
Proof.
  intros H. apply debate_shape in H.
  destruct H as (r1 & r2 & r3 & r4 & store5 & tail
                 & H1 & H2 & H3 & H4 & H5 & _ & Hfind).
  cbv zeta in *.
  rewrite Hfind, compileResults_bodies.
  apply presentation_bodies in H1. apply attack_bodies in H2.
  apply defense_bodies in H3. apply devilsAdvocate_bodies in H4.
  rewrite processConcessions_fold, concessions_bodies in H4. simpl in H4.
  assert (H45 : bodies store5 = bodies r4.1).
  { destruct H5 as [[_ ->]|(r5 & H5 & _ & ->)]; [reflexivity|].
    apply final_bodies in H5. exact H5. }
  rewrite H45, H4, H3, H2, H1. apply bodies_map_status.
Qed.

End ArenaOutcome.

(** X1. A debate of the arena writes only the status and the debate history
    of a finding: the session holds as many findings as were passed in, in the
    same order, and each of them keeps its id, type, title, description,
    severity, confidence and discoverer. *)
Theorem arena_writes_status_and_history
    W config findings contracts specialists res :
  Arena.debate W config findings contracts specialists = Ok res ->
  length (s_findings (Arena.session res)) = length findings
  /\ forall i f', s_findings (Arena.session res) !! i = Some f' ->
       exists f,
         findings !! i = Some f
         /\ f_id f' = f_id f /\ f_type f' = f_type f
         /\ f_title f' = f_title f /\ f_description f' = f_description f
         /\ f_severity f' = f_severity f /\ f_confidence f' = f_confidence f
         /\ f_discoveredBy f' = f_discoveredBy f.
Proof.
  intros H. apply debate_bodies in H. split.
  - apply (f_equal length) in H. unfold bodies in H.
    rewrite !length_map in H. exact H.
  - intros i f' Hf'.
    assert (Hi : bodies (s_findings (Arena.session res)) !! i = Some (body f')).
    { unfold bodies. rewrite list_lookup_fmap, Hf'. reflexivity. }
    rewrite H in Hi. unfold bodies in Hi. rewrite list_lookup_fmap in Hi.
    destruct (findings !! i) as [f|]; [|discriminate].
    injection Hi as E1 E2 E3 E4 E5 E6 E7. exists f. split; [reflexivity|].
    repeat split; symmetry; assumption.
Qed.

Lemma arena_writes_status_and_history_witness :
  exists res,
    Arena.debate ArenaSample.world Arena.defaultConfig
      [ArenaSample.named; ArenaSample.unnamed] [] ArenaSample.specialists = Ok res
    /\ length (s_findings (Arena.session res)) = 2
    /\ forall i f', s_findings (Arena.session res) !! i = Some f' ->
         exists f,
           [ArenaSample.named; ArenaSample.unnamed] !! i = Some f
           /\ f_id f' = f_id f /\ f_type f' = f_type f
           /\ f_title f' = f_title f /\ f_description f' = f_description f
           /\ f_severity f' = f_severity f /\ f_confidence f' = f_confidence f
           /\ f_discoveredBy f' = f_discoveredBy f.
Proof.
  eexists. split; [vm_compute; reflexivity|].
  apply (arena_writes_status_and_history ArenaSample.world Arena.defaultConfig
           [ArenaSample.named; ArenaSample.unnamed] [] ArenaSample.specialists).
  vm_compute. reflexivity.
Defined.

Section ArenaVerdict.

Import Arena.

Lemma status0_not_dead (fs : list VulnerabilityFinding) t : forall m : gmap string Fate,
  fold_left (fun m f => <[f_id f := alive]> m) fs m !! t = Some dead ->
  m !! t = Some dead.
Proof.
  induction fs as [|f fs IH]; intros m; simpl; [auto|].
  intros H. apply IH in H.
  destruct (decide (f_id f = t)) as [<-|Hne].
  - rewrite lookup_insert_eq in H. discriminate.
  - rewrite lookup_insert_ne in H by exact Hne. exact H.
Qed.

Lemma status0_alive_stable (fs : list VulnerabilityFinding) t :
  forall m : gmap string Fate,
  m !! t = Some alive ->
  fold_left (fun m f => <[f_id f := alive]> m) fs m !! t = Some alive.
Proof.
  induction fs as [|f fs IH]; intros m H; simpl; [exact H|].
  apply IH. destruct (decide (f_id f = t)) as [<-|Hne].
  - apply lookup_insert_eq.
  - rewrite lookup_insert_ne by exact Hne. exact H.
Qed.

Lemma status0_alive (fs : list VulnerabilityFinding) f :
  f ∈ fs -> forall m : gmap string Fate,
  fold_left (fun m f => <[f_id f := alive]> m) fs m !! f_id f = Some alive.
Proof.
  induction fs as [|x fs IH]; intros Hin m; [apply elem_of_nil in Hin; contradiction|].
  simpl. apply elem_of_cons in Hin. destruct Hin as [->|Hin].
  - apply status0_alive_stable. apply lookup_insert_eq.
  - apply IH. exact Hin.
Qed.

Lemma concessionStep_dead st e t :
  (concessionStep st e).2 !! t = Some dead ->
  st.2 !! t = Some dead
  \/ (e_action e = concede /\ e_targetFinding e = Some t /\ t <> EmptyString).
Proof.
  destruct st as [store status]. unfold concessionStep. simpl.
  destruct (e_action e) eqn:Ea; try (intros H; left; exact H).
  destruct (e_targetFinding e) as [t'|] eqn:Et; [|intros H; left; exact H].
  destruct (String.eqb t' EmptyString) eqn:E0; [intros H; left; exact H|].
  intros H.
  assert (H' : <[t' := dead]> status !! t = Some dead).
  { destruct (findIndex _ store); exact H. }
  destruct (decide (t' = t)) as [->|Hne].
  - right. split; [reflexivity|]. split; [reflexivity|].
    apply String.eqb_neq. exact E0.
  - left. rewrite lookup_insert_ne in H' by exact Hne. exact H'.
Qed.

(** Only a concession marks an id as rejected. *)
Lemma concessions_dead es t : forall st,
  (fold_left concessionStep es st).2 !! t = Some dead ->
  st.2 !! t = Some dead
  \/ exists e, e ∈ es /\ e_action e = concede
               /\ e_targetFinding e = Some t /\ t <> EmptyString.
Proof.
  induction es as [|e es IH]; intros st; simpl; [auto|].
  intros H. apply IH in H. destruct H as [H|(e' & Hin & He')].
  - apply concessionStep_dead in H. destruct H as [H|H]; [left; exact H|].
    right. exists e. split; [apply list_elem_of_here|exact H].
  - right. exists e'. split; [apply list_elem_of_further; exact Hin|exact He'].
Qed.

(** The id of the finding at position [i] is marked rejected. *)
Definition marked (status : gmap string Fate)
    (store : list VulnerabilityFinding) (i : nat) : bool :=
  match store !! i with
  | Some f => bool_decide (status !! f_id f = Some dead)
  | None => false
  end.

Lemma compileStep_length W status acc i :
  length (cp_store (compileStep W status acc i)) = length (cp_store acc).
Proof.
  unfold compileStep. destruct (cp_store acc !! i) as [f|]; [|reflexivity].
  destruct (bool_decide _); simpl; apply length_alter.
Qed.

Lemma compileStep_marked W status acc i j :
  i <> j ->
  marked status (cp_store (compileStep W status acc i)) j
  = marked status (cp_store acc) j.
Proof.
  intros Hne. unfold marked. rewrite compileStep_store.
  destruct (decide (i = j)); [contradiction|reflexivity].
Qed.

Lemma compile_lists W status refs : forall acc,
  NoDup refs -> (forall i, i ∈ refs -> i < length (cp_store acc)) ->
  let out := fold_left (compileStep W status) refs acc in
  cp_survivors out
  = cp_survivors acc
    ++ List.filter (fun i => negb (marked status (cp_store acc) i)) refs
  /\ map fst (cp_rejected out)
     = map fst (cp_rejected acc) ++ List.filter (marked status (cp_store acc)) refs
  /\ forall i, i ∈ map fst (cp_strengthened out) ->
       i ∈ map fst (cp_strengthened acc)
       \/ i ∈ List.filter (fun i => negb (marked status (cp_store acc) i)) refs.
Proof.
  induction refs as [|i refs IH]; intros acc Hnd Hin; cbv zeta; simpl.
  - rewrite !app_nil_r. auto.
  - apply NoDup_cons in Hnd. destruct Hnd as [Hi Hnd].
    assert (Hrest : forall j, j ∈ refs ->
              marked status (cp_store (compileStep W status acc i)) j
              = marked status (cp_store acc) j).
    { intros j Hj. apply compileStep_marked. intros ->. contradiction. }
    specialize (IH (compileStep W status acc i) Hnd).
    destruct IH as (IH1 & IH2 & IH3).
    { intros j Hj. rewrite compileStep_length. apply Hin. right. exact Hj. }
    assert (Ef1 :
              List.filter
                (fun j => negb (marked status (cp_store (compileStep W status acc i)) j))
                refs
              = List.filter (fun j => negb (marked status (cp_store acc) j)) refs).
    { apply filter_ext_in. intros j Hj.
      rewrite Hrest; [reflexivity|apply list_elem_of_In; exact Hj]. }
    assert (Ef2 :
              List.filter (marked status (cp_store (compileStep W status acc i))) refs
              = List.filter (marked status (cp_store acc)) refs).
    { apply filter_ext_in. intros j Hj. apply Hrest, list_elem_of_In. exact Hj. }
    rewrite Ef1 in IH1, IH3. rewrite Ef2 in IH2. clear Ef1 Ef2 Hrest.
    assert (Hlt : i < length (cp_store acc)) by (apply Hin; left).
    destruct (lookup_lt_is_Some_2 _ _ Hlt) as [f Hf].
    assert (Esurv : cp_survivors (compileStep W status acc i)
                    = cp_survivors acc
                      ++ (if marked status (cp_store acc) i then [] else [i])).
    { unfold compileStep, marked. rewrite Hf.
      destruct (bool_decide _); simpl; rewrite ?app_nil_r; reflexivity. }
    assert (Erej : map fst (cp_rejected (compileStep W status acc i))
                   = map fst (cp_rejected acc)
                     ++ (if marked status (cp_store acc) i then [i] else [])).
    { unfold compileStep, marked. rewrite Hf.
      destruct (bool_decide _); simpl; rewrite ?map_app, ?app_nil_r; reflexivity. }
    assert (Hstrong : forall j,
              j ∈ map fst (cp_strengthened (compileStep W status acc i)) ->
              j ∈ map fst (cp_strengthened acc)
              \/ (j = i /\ marked status (cp_store acc) i = false)).
    { intros j. unfold compileStep, marked. rewrite Hf.
      destruct (bool_decide (status !! f_id f = Some dead)); simpl; [auto|].
      destruct (0 <? length (improvementsOf W f)); [|auto].
      rewrite map_app. simpl. intros Hj. apply elem_of_app in Hj.
      destruct Hj as [Hj|Hj]; [left; exact Hj|].
      apply list_elem_of_singleton in Hj. auto. }
    rewrite IH1, IH2, Esurv, Erej.
    split; [|split].
    + destruct (marked status (cp_store acc) i); simpl;
        rewrite <- ?app_assoc, ?app_nil_r; reflexivity.
    + destruct (marked status (cp_store acc) i); simpl;
        rewrite <- ?app_assoc, ?app_nil_r; reflexivity.
    + intros j Hj. apply IH3 in Hj. destruct Hj as [Hj|Hj].
      * apply Hstrong in Hj. destruct Hj as [Hj|[-> Hm]]; [left; exact Hj|].
        right. rewrite Hm. simpl. left.
      * right. destruct (negb (marked status (cp_store acc) i)); [right|]; exact Hj.
Qed.

(** What [compileResults] returns beside the findings. *)
Lemma compileResults_lists W store status :
  let out := compileResults W store status in
  let all := seq 0 (length store) in
  cp_survivors out = List.filter (fun i => negb (marked status store i)) all
  /\ map fst (cp_rejected out) = List.filter (marked status store) all
  /\ forall i, i ∈ map fst (cp_strengthened out) -> i ∈ cp_survivors out.
Proof.
  cbv zeta. unfold compileResults.
  change (fold_left _ (seq 0 (length store)) ?a)
    with (fold_left (compileStep W status) (seq 0 (length store)) a).
  destruct (compile_lists W status (seq 0 (length store))
              {| cp_store := store; cp_survivors := []; cp_rejected := [];
                 cp_strengthened := [] |}) as (H1 & H2 & H3).
  - apply NoDup_seq.
  - intros i Hi. apply elem_of_seq in Hi. simpl. lia.
  - simpl in *. split; [exact H1|]. split; [exact H2|].
    intros i Hi. rewrite H1. apply H3 in Hi.
    destruct Hi as [Hi|Hi]; [apply elem_of_nil in Hi; contradiction|exact Hi].
Qed.

(** The result of [debate] is what [compileResults] makes of the findings
    after the last round. *)
Lemma debate_compiled W config findings contracts specialists res :
  debate W config findings contracts specialists = Ok res ->
  exists store status,
    s_findings (session res) = cp_store (compileResults W store status)
    /\ survivors res = cp_survivors (compileResults W store status)
    /\ rejectedFindings res = cp_rejected (compileResults W store status)
    /\ strengthened res = cp_strengthened (compileResults W store status).
Proof.
  unfold debate. intros H.
  apply rbind_Ok in H. destruct H as (r1 & H1 & H).
  apply rbind_Ok in H. destruct H as (r2 & H2 & H).
  apply rbind_Ok in H. destruct H as (r3 & H3 & H).
  destruct (processConcessions (mkRound 3 DEFENSE r3.2 CONTINUES) _)
    as [store3 status3] eqn:Ec.
  apply rbind_Ok in H. destruct H as (r4 & H4 & H).
  apply rbind_Ok in H. destruct H as (r5 & H5 & H).
  injection H as <-. exists r5.1, status3. simpl.
  split; [reflexivity|]. split; [reflexivity|]. split; reflexivity.
Qed.

Lemma withStatus_verdicts status store final st :
  (forall j, final !! j = verdictOf status <$> store !! j) ->
  Orchestrator.withStatus st final
  = List.filter
      (fun i =>
         match store !! i with
         | Some f => bool_decide (f_status (verdictOf status f) = st)
         | None => false
         end)
      (seq 0 (length store)).
Proof.
  intros H. unfold Orchestrator.withStatus.
  assert (Hlen : length final = length store).
  { apply Nat.le_antisymm.
    - destruct (Nat.le_gt_cases (length final) (length store)) as [Hle|Hgt];
        [exact Hle|].
      destruct (lookup_lt_is_Some_2 final (length store)) as [x Hx]; [lia|].
      rewrite H, (lookup_ge_None_2 store) in Hx by lia. discriminate.
    - destruct (Nat.le_gt_cases (length store) (length final)) as [Hle|Hgt];
        [exact Hle|].
      destruct (lookup_lt_is_Some_2 store (length final)) as [x Hx]; [lia|].
      pose proof (H (length final)) as Hf.
      rewrite Hx, (lookup_ge_None_2 final) in Hf by lia. discriminate. }
  rewrite Hlen. apply filter_ext. intros i. rewrite H.
  destruct (store !! i); reflexivity.
Qed.

End ArenaVerdict.

(** X2. The verdict of the arena. After a debate every finding of the
    session is validated or rejected; [survivors] lists the validated
    findings and [rejected] the rejected ones, each in the order of the
    session, so every finding is in exactly one of them; and only survivors
    are reported as strengthened. *)
Theorem arena_verdict_partition W config findings contracts specialists res :
  Arena.debate W config findings contracts specialists = Ok res ->
  let final := s_findings (Arena.session res) in
  (forall i f, final !! i = Some f ->
     f_status f = validated \/ f_status f = rejected)
  /\ Arena.survivors res = Orchestrator.withStatus validated final
  /\ map fst (Arena.rejectedFindings res) = Orchestrator.withStatus rejected final
  /\ forall i, i ∈ map fst (Arena.strengthened res) -> i ∈ Arena.survivors res.
Proof.
  intros H. cbv zeta. apply debate_compiled in H.
  destruct H as (store & status & Hf & Hs & Hr & Hg).
  destruct (compileResults_lists W store status) as (L1 & L2 & L3).
  assert (Hlook : forall j, s_findings (Arena.session res) !! j
                            = verdictOf status <$> store !! j).
  { intros j. rewrite Hf. apply compileResults_store. }
  split; [|split; [|split]].
  - intros i f Hi. rewrite Hlook in Hi.
    destruct (store !! i) as [f0|]; [|discriminate]. injection Hi as <-.
    unfold verdictOf. simpl. destruct (bool_decide _); auto.
  - rewrite Hs, L1, (withStatus_verdicts status store _ validated Hlook).
    apply filter_ext_in. intros i Hi. apply in_seq in Hi.
    destruct (lookup_lt_is_Some_2 store i) as [f0 Hf0]; [lia|].
    unfold marked, verdictOf. rewrite Hf0. simpl.
    destruct (bool_decide (status !! f_id f0 = Some Arena.dead)); reflexivity.
  - rewrite Hr, L2, (withStatus_verdicts status store _ rejected Hlook).
    apply filter_ext. intros i. unfold marked, verdictOf.
    destruct (store !! i) as [f0|]; [|reflexivity]. simpl.
    destruct (bool_decide (status !! f_id f0 = Some Arena.dead)); reflexivity.
  - rewrite Hg, Hs. exact L3.
Qed.

Lemma arena_verdict_partition_witness :
  exists res,
    Arena.debate ArenaSample.world Arena.defaultConfig
      [ArenaSample.named; ArenaSample.unnamed] [] ArenaSample.specialists = Ok res
    /\ Arena.survivors res = [1]
    /\ map fst (Arena.rejectedFindings res) = [0]
    /\ let final := s_findings (Arena.session res) in
       (forall i f, final !! i = Some f ->
          f_status f = validated \/ f_status f = rejected)
       /\ Arena.survivors res = Orchestrator.withStatus validated final
       /\ map fst (Arena.rejectedFindings res)
          = Orchestrator.withStatus rejected final
       /\ forall i, i ∈ map fst (Arena.strengthened res) -> i ∈ Arena.survivors res.
Proof.
  eexists. split; [vm_compute; reflexivity|].
  split; [reflexivity|]. split; [reflexivity|].
  apply (arena_verdict_partition ArenaSample.world Arena.defaultConfig
           [ArenaSample.named; ArenaSample.unnamed] [] ArenaSample.specialists).
  vm_compute. reflexivity.
Defined.

(** X3. The arena rejects nothing but what was conceded: a finding that
    leaves the debate rejected received, in the defense round, a 'concede'
    entry that targets its id, and this id is not the empty string. Attacks
    and challenges alone never reject a finding. *)
Theorem arena_rejection_needs_concession
    W config findings contracts specialists res i f :
  Arena.debate W config findings contracts specialists = Ok res ->
  s_findings (Arena.session res) !! i = Some f ->
  f_status f = rejected ->
  exists r e,
    s_rounds (Arena.session res) !! 2 = Some r
    /\ r_type r = DEFENSE
    /\ e ∈ r_entries r
    /\ e_action e = concede
    /\ e_targetFinding e = Some (f_id f)
    /\ f_id f <> EmptyString.
Proof.
  intros H Hf Hrej. apply debate_shape in H.
  destruct H as (r1 & r2 & r3 & r4 & store5 & tail
                 & H1 & H2 & H3 & H4 & H5 & Hrounds & Hfind).
  cbv zeta in *.
  rewrite Hfind, compileResults_store in Hf.
  destruct (store5 !! i) as [f5|]; [|discriminate]. injection Hf as <-.
  unfold verdictOf in Hrej. simpl in Hrej.
  destruct (bool_decide (_ !! f_id f5 = Some Arena.dead)) eqn:Ed; [|discriminate].
  apply bool_decide_eq_true in Ed.
  rewrite processConcessions_fold in Ed. simpl in Ed.
  apply concessions_dead in Ed. simpl in Ed.
  destruct Ed as [Ed|(e & Hin & Ha & Ht & Hne)].
  - apply status0_not_dead in Ed. rewrite lookup_empty in Ed. discriminate.
  - exists (Arena.mkRound 3 DEFENSE r3.2 CONTINUES), e.
    rewrite Hrounds. simpl.
    split; [reflexivity|]. split; [reflexivity|]. split; [exact Hin|].
    split; [exact Ha|]. split; [exact Ht|exact Hne].
Qed.

Lemma arena_rejection_needs_concession_witness :
  exists res f r e,
    Arena.debate ArenaSample.world Arena.defaultConfig [ArenaSample.named] []
      ArenaSample.specialists = Ok res
    /\ s_findings (Arena.session res) !! 0 = Some f
    /\ f_status f = rejected
    /\ s_rounds (Arena.session res) !! 2 = Some r
    /\ r_type r = DEFENSE
    /\ e ∈ r_entries r
    /\ e_action e = concede
    /\ e_targetFinding e = Some (f_id f)
    /\ f_id f <> EmptyString.
Proof.
  assert (Hrun : exists res,
            Arena.debate ArenaSample.world Arena.defaultConfig [ArenaSample.named] []
              ArenaSample.specialists = Ok res
            /\ exists f, s_findings (Arena.session res) !! 0 = Some f
                         /\ f_status f = rejected).
  { eexists. split; [vm_compute; reflexivity|].
    eexists. split; reflexivity. }
  destruct Hrun as (res & Hres & f & Hf & Hst).
  destruct (arena_rejection_needs_concession _ _ _ _ _ _ _ _ Hres Hf Hst)
    as (r & e & H).
  exists res, f, r, e. auto.
Defined.

(** ** The debate arena: who is attacked and who keeps a history *)

(** A loop in which every element leaves a mark [Q] that later iterations
    keep: after the loop every element has left its mark. *)
Lemma for_of_each {S A : Type} (P : S -> Prop) (Q : A -> S -> Prop)
    (body : A -> S -> Result S) xs :
  (forall x s s', P s -> body x s = Ok s' -> P s' /\ Q x s') ->
  (forall x y s s', P s -> Q x s -> body y s = Ok s' -> Q x s') ->
  forall s s', P s -> for_of body xs s = Ok s' ->
  forall x, In x xs -> Q x s'.
Proof.
  intros Hstep Hkeep.
  assert (Hall : forall ys s s' x,
            P s -> Q x s -> for_of body ys s = Ok s' -> Q x s').
  { induction ys as [|y ys IH]; intros s s' x Hs Hq; simpl.
    - intros [= <-]. exact Hq.
    - intros H. inv_await H.
      apply (IH a s' x); [|eapply Hkeep; eauto|exact H].
      eapply Hstep; eauto. }
  induction xs as [|y xs IH]; intros s s' Hs H x Hx; [destruct Hx|].
  simpl in H. inv_await H.
  destruct (Hstep _ _ _ Hs Ha) as [Hs1 Hq1].
  destruct Hx as [<-|Hx].
  - eapply Hall; eauto.
  - eapply IH; eauto.
Qed.

Section ArenaAttack.

Import Arena.

Variable W : World.
Variable config : DebateConfig.
Variable specialists : gmap string Agent.DynamicAgent.

Lemma aliveFindings_In store status i f :
  store !! i = Some f -> status !! f_id f = Some alive ->
  In i (aliveFindings store status).
Proof.
  intros Hf Hs. unfold aliveFindings. apply filter_In. split.
  - apply in_seq. apply lookup_lt_Some in Hf. lia.
  - rewrite Hf. apply bool_decide_eq_true. exact Hs.
Qed.

Lemma ids_lookup_inv store i t :
  ids store !! i = Some t -> exists f, store !! i = Some f /\ f_id f = t.
Proof.
  unfold ids. rewrite list_lookup_fmap.
  destruct (store !! i) as [f|]; [|discriminate].
  intros [= <-]. exists f. auto.
Qed.

(** The attack round leaves an 'attack' entry for each of its findings. *)
Lemma attack_entries refs store s' :
  runAttackRound W config refs store = Ok s' ->
  forall i t, In i refs -> ids store !! i = Some t ->
  exists e, e ∈ s'.2 /\ e_round e = 2 /\ e_action e = attack
            /\ e_targetFinding e = Some t.
Proof.
  unfold runAttackRound. intros H i t Hi Ht.
  refine (for_of_each
            (fun s : RoundState => ids s.1 = ids store)
            (fun i (s : RoundState) =>
               forall t, ids store !! i = Some t ->
               exists e, e ∈ s.2 /\ e_round e = 2 /\ e_action e = attack
                         /\ e_targetFinding e = Some t)
            _ refs _ _ (store, []) s' eq_refl H i Hi t Ht).
  - clear. intros j [st es] s2 Hs. simpl in Hs.
    destruct (st !! j) as [f|] eqn:E.
    + intros H. inv_await H. injection H as <-. simpl. split.
      * rewrite ids_alter by apply f_id_history_push. exact Hs.
      * intros t Ht. rewrite <- Hs in Ht. apply ids_lookup_inv in Ht.
        destruct Ht as (f' & Hf' & <-). rewrite E in Hf'. injection Hf' as <-.
        eexists. split; [apply elem_of_app; right; apply list_elem_of_here|].
        split; [reflexivity|]. split; reflexivity.
    + intros [= <-]. split; [exact Hs|].
      intros t Ht. rewrite <- Hs in Ht. apply ids_lookup_inv in Ht.
      destruct Ht as (f' & Hf' & _). simpl in Hf'. congruence.
  - clear. intros j k [st es] s2 _ Hq.
    intros H t Ht. destruct (Hq t Ht) as (e & He & Hrest).
    exists e. split; [|exact Hrest].
    destruct (st !! k) as [f|].
    + inv_await H. injection H as <-. simpl. apply elem_of_app. left. exact He.
    + injection H as <-. exact He.
Qed.

(** Without a red team the attack round can only run over no finding. *)
Lemma attack_without_team refs store s' :
  redTeamSize config = 0 ->
  runAttackRound W config refs store = Ok s' ->
  forall i, In i refs -> store !! i = None.
Proof.
  unfold runAttackRound. intros H0 H i Hi.
  assert (Hnone : ids store !! i = None).
  { refine (for_of_each
              (fun s : RoundState => ids s.1 = ids store)
              (fun i (_ : RoundState) => ids store !! i = None)
              _ refs _ _ (store, []) s' eq_refl H i Hi).
    - intros j [st es] s2 Hs. simpl in Hs.
      destruct (st !! j) as [f|] eqn:E.
      + unfold redTeam, spawnTeam, pick. rewrite H0. simpl.
        rewrite ?lookup_nil. simpl. discriminate.
      + intros [= <-]. split; [exact Hs|].
        rewrite <- Hs. unfold ids. rewrite list_lookup_fmap, E. reflexivity.
    - intros j k s s2 _ Hq _. exact Hq. }
  unfold ids in Hnone. rewrite list_lookup_fmap in Hnone.
  destruct (store !! i); [discriminate|reflexivity].
Qed.

(** No history and a discoverer that is not among the specialists. *)
Definition silent (d : string) (i : nat) (store : list VulnerabilityFinding)
  : Prop :=
  exists f, store !! i = Some f /\ f_debateHistory f = None
            /\ f_discoveredBy f = d.

Lemma silent_alter d i g j store :
  (forall f, f_debateHistory f = None -> f_debateHistory (g f) = None) ->
  (forall f, f_discoveredBy (g f) = f_discoveredBy f) ->
  silent d i store -> silent d i (alter g j store).
Proof.
  intros Hh Hd (f & Hf & Hn & Hb). unfold silent.
  destruct (decide (j = i)) as [->|Hne].
  - exists (g f). rewrite list_lookup_alter_eq, Hf. simpl.
    split; [reflexivity|]. split; [apply Hh; exact Hn|].
    rewrite Hd. exact Hb.
  - exists f. rewrite list_lookup_alter_ne by exact Hne. auto.
Qed.

Lemma history_push_None e f :
  f_debateHistory f = None -> f_debateHistory (history_push e f) = None.
Proof. intros H. unfold history_push. rewrite H. exact H. Qed.

Lemma discoveredBy_history_push e f :
  f_discoveredBy (history_push e f) = f_discoveredBy f.
Proof. unfold history_push. destruct (f_debateHistory f); reflexivity. Qed.

Variable d : string.
Variable i : nat.
Hypothesis unknown : specialists !! d = None.

Lemma presentation_silent refs store s' :
  runPresentationRound W specialists refs store = Ok s' ->
  silent d i store -> silent d i s'.1.
Proof.
  unfold runPresentationRound. intros H Hs. revert H.
  apply (for_of_inv (fun s : RoundState => silent d i s.1)); [|exact Hs].
  intros j [st es] s2 _ Hst.
  destruct (st !! j) as [f|] eqn:E; [|intros [= <-]; exact Hst].
  destruct (specialists !! f_discoveredBy f) eqn:Es; [|intros [= <-]; exact Hst].
  intros H. inv_await H. injection H as <-. simpl in *.
  destruct Hst as (f0 & Hf0 & Hn & Hb).
  destruct (decide (j = i)) as [->|Hne].
  - rewrite Hf0 in E. injection E as ->. rewrite Hb, unknown in Es. discriminate.
  - exists f0. rewrite list_lookup_alter_ne by exact Hne. auto.
Qed.

Lemma attack_silent refs store s' :
  runAttackRound W config refs store = Ok s' ->
  silent d i store -> silent d i s'.1.
Proof.
  unfold runAttackRound. intros H Hs. revert H.
  apply (for_of_inv (fun s : RoundState => silent d i s.1)); [|exact Hs].
  intros j [st es] s2 _ Hst.
  destruct (st !! j) as [f|]; [|intros [= <-]; exact Hst].
  intros H. inv_await H. injection H as <-. simpl in *.
  apply silent_alter;
    auto using history_push_None, discoveredBy_history_push.
Qed.

Lemma defense_silent attackRound refs store s' :
  runDefenseRound W config specialists attackRound refs store = Ok s' ->
  silent d i store -> silent d i s'.1.
Proof.
  unfold runDefenseRound. intros H Hs. revert H.
  apply (for_of_inv (fun s : RoundState => silent d i s.1)); [|exact Hs].
  intros j [st es] s2 _ Hst.
  destruct (st !! j) as [f|]; [|intros [= <-]; exact Hst].
  destruct (List.find _ _); [|intros [= <-]; exact Hst].
  destruct (if coin W j then _ else _); [|intros [= <-]; exact Hst].
  intros H. inv_await H. injection H as <-. simpl in *.
  apply silent_alter;
    auto using history_push_None, discoveredBy_history_push.
Qed.

Lemma devilsAdvocate_silent refs store s' :
  runDevilsAdvocateRound W config refs store = Ok s' ->
  silent d i store -> silent d i s'.1.
Proof.
  unfold runDevilsAdvocateRound. intros H Hs. revert H.
  apply (for_of_inv (fun s : RoundState => silent d i s.1)); [|exact Hs].
  intros j [st es] s2 _ Hst.
  destruct (st !! j) as [f|]; [|intros [= <-]; exact Hst].
  intros H. inv_await H. injection H as <-. simpl in *.
  apply silent_alter;
    auto using history_push_None, discoveredBy_history_push.
Qed.

Lemma final_silent refs store s' :
  runFinalRound W config refs store = Ok s' ->
  silent d i store -> silent d i s'.1.
Proof.
  unfold runFinalRound. intros H Hs. revert H.
  apply (for_of_inv (fun s : RoundState => silent d i s.1)); [|exact Hs].
  intros j [st es] s2 _ Hst.
  destruct (st !! j) as [f|]; [|intros [= <-]; exact Hst].
  intros H. inv_await H. injection H as <-. simpl in *.
  apply silent_alter;
    auto using history_push_None, discoveredBy_history_push.
Qed.

Lemma concessions_silent es : forall st,
  silent d i st.1 -> silent d i (fold_left concessionStep es st).1.
Proof.
  induction es as [|e es IH]; intros st Hs; simpl; [exact Hs|].
  apply IH. destruct st as [store status]. unfold concessionStep.
  destruct (e_action e); try exact Hs.
  destruct (e_targetFinding e) as [t|]; [|exact Hs].
  destruct (String.eqb t EmptyString); [exact Hs|].
  destruct (findIndex _ store); [|exact Hs].
  simpl. apply silent_alter; [auto|reflexivity|exact Hs].
Qed.

End ArenaAttack.

(** X4. A finding whose discoverer is not among the specialists handed to
    the arena is never presented, so its history list is never created: the
    red team still attacks it in round 2 (the entry is in the session), but
    the optional push onto the finding's history does nothing and the
    finding leaves the debate with its history undefined. *)
Theorem arena_unknown_specialist_keeps_no_history
    W config findings contracts specialists res i f :
  Arena.debate W config findings contracts specialists = Ok res ->
  findings !! i = Some f ->
  f_debateHistory f = None ->
  specialists !! f_discoveredBy f = None ->
  (exists r e,
     s_rounds (Arena.session res) !! 1 = Some r
     /\ e ∈ r_entries r /\ e_action e = attack
     /\ e_targetFinding e = Some (f_id f))
  /\ exists f', s_findings (Arena.session res) !! i = Some f'
                /\ f_debateHistory f' = None.
Proof.
  intros H Hf Hn Hu. apply debate_shape in H.
  destruct H as (r1 & r2 & r3 & r4 & store5 & tail
                 & H1 & H2 & H3 & H4 & H5 & Hrounds & Hfind).
  cbv zeta in *.
  set (status0 := fold_left (fun m f => <[f_id f := Arena.alive]> m) findings ∅) in *.
  assert (S0 : silent (f_discoveredBy f) i (map (set_status debating) findings)).
  { exists (set_status debating f). rewrite list_lookup_fmap, Hf. auto. }
  pose proof (presentation_silent _ _ _ _ Hu _ _ _ H1 S0) as S1.
  split.
  - apply presentation_inv in H1. destruct H1 as [I1 _].
    destruct S1 as (f1 & Hf1 & _ & _).
    assert (Hid : f_id f1 = f_id f).
    { apply ids_lookup in Hf1. rewrite I1 in Hf1. unfold ids in Hf1.
      rewrite map_map, list_lookup_fmap, Hf in Hf1. simpl in Hf1.
      injection Hf1 as <-. reflexivity. }
    assert (Hal : In i (Arena.aliveFindings r1.1 status0)).
    { apply (aliveFindings_In _ _ _ f1 Hf1). rewrite Hid.
      apply status0_alive. eapply list_elem_of_lookup_2. exact Hf. }
    destruct (attack_entries _ _ _ _ _ H2 i (f_id f) Hal) as (e & He & _ & Ha & Ht).
    { apply ids_lookup in Hf1. rewrite Hid in Hf1. exact Hf1. }
    exists (Arena.mkRound 2 ATTACK r2.2 CONTINUES), e. rewrite Hrounds.
    split; [reflexivity|]. split; [exact He|]. split; [exact Ha|exact Ht].
  - pose proof (attack_silent _ _ _ _ _ _ _ H2 S1) as S2.
    pose proof (defense_silent _ _ _ _ _ _ _ _ _ H3 S2) as S3.
    assert (S3' : silent (f_discoveredBy f) i
                    (Arena.processConcessions
                       (Arena.mkRound 3 DEFENSE r3.2 CONTINUES)
                       (r3.1, status0)).1).
    { rewrite processConcessions_fold. apply concessions_silent. exact S3. }
    pose proof (devilsAdvocate_silent _ _ _ _ _ _ _ H4 S3') as S4.
    assert (S5 : silent (f_discoveredBy f) i store5).
    { destruct H5 as [[_ ->]|(r5 & H5 & _ & ->)]; [exact S4|].
      exact (final_silent _ _ _ _ _ _ _ H5 S4). }
    destruct S5 as (f5 & Hf5 & Hn5 & _).
    rewrite Hfind. eexists. rewrite compileResults_store, Hf5.
    split; [reflexivity|]. exact Hn5.
Qed.

Lemma arena_unknown_specialist_keeps_no_history_witness :
  exists res,
    Arena.debate ArenaSample.world Arena.defaultConfig [Sample.overflow] []
      ArenaSample.specialists = Ok res
    /\ (exists r e,
          s_rounds (Arena.session res) !! 1 = Some r
          /\ e ∈ r_entries r /\ e_action e = attack
          /\ e_targetFinding e = Some (f_id Sample.overflow))
    /\ exists f', s_findings (Arena.session res) !! 0 = Some f'
                  /\ f_debateHistory f' = None.
Proof.
  eexists. split; [vm_compute; reflexivity|].
  apply (arena_unknown_specialist_keeps_no_history ArenaSample.world
           Arena.defaultConfig [Sample.overflow] [] ArenaSample.specialists
           _ 0 Sample.overflow).
  - vm_compute. reflexivity.
  - reflexivity.
  - reflexivity.
  - vm_compute. reflexivity.
Defined.

(** X5. A debate needs a red team: with [redTeamSize] 0 the attacker drawn
    in round 2 is undefined, so a debate over at least one finding rejects
    (a TypeError, unless round 1 has rejected before). *)
Theorem arena_rejects_without_red_team W config findings contracts specialists :
  Arena.redTeamSize config = 0 ->
  findings <> [] ->
  is_ok (Arena.debate W config findings contracts specialists) = false.
Proof.
  intros H0 Hne.
  destruct (Arena.debate W config findings contracts specialists) as [res|]
    eqn:H; [|reflexivity].
  exfalso. apply debate_shape in H.
  destruct H as (r1 & r2 & r3 & r4 & store5 & tail
                 & H1 & H2 & _).
  cbv zeta in *.
  destruct findings as [|f fs]; [contradiction|].
  apply presentation_inv in H1. destruct H1 as [I1 _].
  assert (Hf1 : exists f1, r1.1 !! 0 = Some f1 /\ f_id f1 = f_id f).
  { apply ids_lookup_inv. rewrite I1. reflexivity. }
  destruct Hf1 as (f1 & Hf1 & Hid).
  assert (Hal : In 0 (Arena.aliveFindings r1.1
                        (fold_left (fun m f => <[f_id f := Arena.alive]> m)
                           (f :: fs) ∅))).
  { apply (aliveFindings_In _ _ _ f1 Hf1). rewrite Hid.
    apply status0_alive. left. }
  pose proof (attack_without_team _ _ _ _ _ H0 H2 0 Hal) as Hnone.
  congruence.
Qed.

Lemma arena_rejects_without_red_team_witness :
  is_ok (Arena.debate ArenaSample.world
           {| Arena.maxRounds := 5; Arena.redTeamSize := 0;
              Arena.blueTeamSize := 2; Arena.devilsAdvocateSize := 2;
              Arena.concessionThreshold := 3 # 10 |}
           [ArenaSample.named] [] ArenaSample.specialists) = false.
Proof.
  apply arena_rejects_without_red_team; [reflexivity|discriminate].
Defined.

(** ** The debate arena: from the defender's words to the verdict *)

Section ArenaConcession.

Import Arena.

Variable W : World.
Variable config : DebateConfig.
Variable specialists : gmap string Agent.DynamicAgent.

Lemma bodies_lookup a b i f :
  bodies a = bodies b -> b !! i = Some f ->
  exists f', a !! i = Some f' /\ body f' = body f.
Proof.
  intros H Hf. apply (f_equal (fun l => l !! i)) in H. unfold bodies in H.
  rewrite !list_lookup_fmap, Hf in H.
  destruct (a !! i) as [f'|]; [|discriminate].
  injection H as H. exists f'. split; [reflexivity|].
  unfold body, set_debateHistory, set_status. simpl. congruence.
Qed.

Lemma body_id f f' : body f' = body f -> f_id f' = f_id f.
Proof. intros H. exact (f_equal f_id H). Qed.

Lemma body_discoveredBy f f' :
  body f' = body f -> f_discoveredBy f' = f_discoveredBy f.
Proof. intros H. exact (f_equal f_discoveredBy H). Qed.

(** The defender of the finding at position [i]. *)
Definition defenderOf (i : nat) (f : VulnerabilityFinding)
  : option Agent.DynamicAgent :=
  if coin W i then pick (blueTeam config) (random W 3 i)
  else specialists !! f_discoveredBy f.

(** The defense round leaves, for each of its findings that was attacked
    and has a defender, an entry whose action is read off the answer. *)
Lemma defense_entries attackRound refs store s' :
  runDefenseRound W config specialists attackRound refs store = Ok s' ->
  forall i f response,
    In i refs -> store !! i = Some f ->
    (exists a, a ∈ r_entries attackRound /\ e_targetFinding a = Some (f_id f)) ->
    is_Some (defenderOf i f) ->
    analyze W 3 i = Ok response ->
    exists e, e ∈ s'.2
              /\ e_targetFinding e = Some (f_id f)
              /\ e_content e = response
              /\ e_action e
                 = if Agent.concedesPattern_test response then concede else defend.
Proof.
  unfold runDefenseRound. intros H i f response Hi Hf Hatt Hdef Hresp.
  refine (for_of_each
            (fun s : RoundState => bodies s.1 = bodies store)
            (fun i (s : RoundState) =>
               forall f response,
                 store !! i = Some f ->
                 (exists a, a ∈ r_entries attackRound
                            /\ e_targetFinding a = Some (f_id f)) ->
                 is_Some (defenderOf i f) ->
                 analyze W 3 i = Ok response ->
                 exists e, e ∈ s.2
                           /\ e_targetFinding e = Some (f_id f)
                           /\ e_content e = response
                           /\ e_action e
                              = if Agent.concedesPattern_test response
                                then concede else defend)
            _ refs _ _ (store, []) s' eq_refl H i Hi f response Hf Hatt Hdef Hresp).
  - clear. intros j [st es] s2 Hs. simpl in Hs.
    destruct (st !! j) as [fj|] eqn:E.
    + destruct (List.find (targets (f_id fj)) (r_entries attackRound))
        as [att|] eqn:Efind.
      * destruct (if coin W j then _ else _) as [dfd|] eqn:Edef.
        -- intros H. inv_await H. injection H as <-. simpl. split.
           ++ rewrite bodies_alter by apply body_history_push. exact Hs.
           ++ intros f response Hf _ _ Hresp.
              destruct (bodies_lookup _ _ _ _ Hs Hf) as (f' & Hf' & Hb).
              rewrite E in Hf'. injection Hf' as <-.
              rewrite Hresp in Ha. injection Ha as <-.
              eexists. split; [apply elem_of_app; right; apply list_elem_of_here|].
              simpl. rewrite (body_id _ _ Hb).
              split; [reflexivity|]. split; reflexivity.
        -- intros [= <-]. split; [exact Hs|].
           intros f response Hf _ Hdef _. exfalso.
           destruct (bodies_lookup _ _ _ _ Hs Hf) as (f' & Hf' & Hb).
           simpl in Hf'. rewrite E in Hf'. injection Hf' as <-.
           unfold defenderOf in Hdef. rewrite <- (body_discoveredBy _ _ Hb) in Hdef.
           rewrite Edef in Hdef. destruct Hdef as [? Hdef]. discriminate.
      * intros [= <-]. split; [exact Hs|].
        intros f response Hf (a & Ha & Hta) _ _. exfalso.
        destruct (bodies_lookup _ _ _ _ Hs Hf) as (f' & Hf' & Hb).
        simpl in Hf'. rewrite E in Hf'. injection Hf' as <-.
        apply find_none in Efind. rewrite Forall_forall in Efind.
        specialize (Efind a Ha). unfold targets in Efind.
        rewrite (body_id _ _ Hb) in Efind.
        apply bool_decide_eq_false in Efind. contradiction.
    + intros [= <-]. split; [exact Hs|].
      intros f response Hf _ _ _. exfalso.
      destruct (bodies_lookup _ _ _ _ Hs Hf) as (f' & Hf' & _).
      simpl in Hf'. congruence.
  - clear. intros j k [st es] s2 _ Hq H f response Hf Hatt Hdef Hresp.
    destruct (Hq f response Hf Hatt Hdef Hresp) as (e & He & Hrest).
    exists e. split; [|exact Hrest]. simpl in He.
    destruct (st !! k) as [fk|]; [|injection H as <-; exact He].
    destruct (List.find _ _); [|injection H as <-; exact He].
    destruct (if coin W k then _ else _); [|injection H as <-; exact He].
    inv_await H. injection H as <-. simpl. apply elem_of_app. left. exact He.
Qed.

End ArenaConcession.

(** X6. From the defender's words to the verdict. If the answer of the
    defender of a finding contains one of the phrases of the concession
    pattern ("concede", "accept", "valid point", ...), the finding leaves the
    debate rejected, with that answer recorded as a 'concede' entry of the
    defense round. This holds for every finding with a non-empty id that has
    a defender: a member of the blue team when the coin falls that way, its
    own specialist otherwise. *)
Theorem arena_conceding_answer_rejects
    W config findings contracts specialists res i f response :
  Arena.debate W config findings contracts specialists = Ok res ->
  findings !! i = Some f ->
  f_id f <> EmptyString ->
  is_Some (defenderOf W config specialists i f) ->
  Arena.analyze W 3 i = Ok response ->
  Agent.concedesPattern_test response = true ->
  (exists r e,
     s_rounds (Arena.session res) !! 2 = Some r
     /\ e ∈ r_entries r /\ e_action e = concede /\ e_content e = response
     /\ e_targetFinding e = Some (f_id f))
  /\ exists f', s_findings (Arena.session res) !! i = Some f'
                /\ f_status f' = rejected.
Proof.
  intros H Hf Hne Hdef Hresp Htest.
  pose proof (debate_bodies _ _ _ _ _ _ H) as Hbodies.
  apply debate_shape in H.
  destruct H as (r1 & r2 & r3 & r4 & store5 & tail
                 & H1 & H2 & H3 & H4 & H5 & Hrounds & Hfind).
  cbv zeta in *.
  set (status0 := fold_left (fun m f => <[f_id f := Arena.alive]> m) findings ∅) in *.
  assert (Halive : status0 !! f_id f = Some Arena.alive).
  { apply status0_alive. eapply list_elem_of_lookup_2. exact Hf. }
  (* round 1 *)
  pose proof (presentation_bodies _ _ _ _ _ H1) as B1.
  rewrite bodies_map_status in B1.
  destruct (bodies_lookup _ _ _ _ B1 Hf) as (f1 & Hf1 & Hb1).
  (* round 2 *)
  assert (Hal1 : In i (Arena.aliveFindings r1.1 status0)).
  { apply (aliveFindings_In _ _ _ f1 Hf1). rewrite (body_id _ _ Hb1). exact Halive. }
  destruct (attack_entries _ _ _ _ _ H2 i (f_id f) Hal1) as (a & Ha & _ & _ & Hta).
  { apply ids_lookup in Hf1. rewrite (body_id _ _ Hb1) in Hf1. exact Hf1. }
  pose proof (attack_bodies _ _ _ _ _ H2) as B2.
  destruct (bodies_lookup _ _ _ _ B2 Hf1) as (f2 & Hf2 & Hb2).
  assert (Hid2 : f_id f2 = f_id f).
  { rewrite (body_id _ _ Hb2). apply body_id. exact Hb1. }
  (* round 3 *)
  assert (Hal2 : In i (Arena.aliveFindings r2.1 status0)).
  { apply (aliveFindings_In _ _ _ f2 Hf2). rewrite Hid2. exact Halive. }
  destruct (defense_entries _ _ _ _ _ _ _ H3 i f2 response Hal2 Hf2)
    as (e & He & Hte & Hce & Hae).
  { exists a. split; [exact Ha|]. rewrite Hid2. exact Hta. }
  { unfold defenderOf in *.
    rewrite (body_discoveredBy _ _ Hb2), (body_discoveredBy _ _ Hb1). exact Hdef. }
  { exact Hresp. }
  rewrite Htest in Hae. rewrite Hid2 in Hte.
  split.
  - exists (Arena.mkRound 3 DEFENSE r3.2 CONTINUES), e. rewrite Hrounds.
    split; [reflexivity|]. split; [exact He|]. split; [exact Hae|].
    split; [exact Hce|exact Hte].
  - destruct (bodies_lookup _ _ _ _ Hbodies Hf) as (f' & Hf' & Hb').
    exists f'. split; [exact Hf'|].
    rewrite Hfind, compileResults_store in Hf'.
    destruct (store5 !! i) as [f5|]; [|discriminate]. injection Hf' as <-.
    unfold verdictOf in *. simpl in *.
    pose proof (body_id _ _ Hb') as Hid5. simpl in Hid5.
    rewrite bool_decide_eq_true_2; [reflexivity|].
    rewrite Hid5, processConcessions_fold. simpl.
    eapply concessions_mark; eauto.
Qed.

Lemma arena_conceding_answer_rejects_witness :
  exists res,
    Arena.debate ArenaSample.world Arena.defaultConfig [ArenaSample.named] []
      ArenaSample.specialists = Ok res
    /\ (exists r e,
          s_rounds (Arena.session res) !! 2 = Some r
          /\ e ∈ r_entries r /\ e_action e = concede
          /\ e_content e = "I concede, the guard covers it."
          /\ e_targetFinding e = Some (f_id ArenaSample.named))
    /\ exists f', s_findings (Arena.session res) !! 0 = Some f'
                  /\ f_status f' = rejected.
Proof.
  eexists. split; [vm_compute; reflexivity|].
  apply (arena_conceding_answer_rejects ArenaSample.world Arena.defaultConfig
           [ArenaSample.named] [] ArenaSample.specialists _ 0 ArenaSample.named).
  - vm_compute. reflexivity.
  - reflexivity.
  - discriminate.
  - vm_compute. eexists. reflexivity.
  - reflexivity.
  - vm_compute. reflexivity.
Defined.

(** ** The pipeline: what a run needs to resolve *)

Section HuntOutcome.

Import Orchestrator.

Lemma andThen_inv m k st u st' :
  andThen m k st = (Ok u, st') ->
  exists st1, m st = (Ok (), st1) /\ k st1 = (Ok u, st').
Proof.
  unfold andThen. destruct (m st) as [[[]|e] st1]; [|discriminate].
  intros H. exists st1. auto.
Qed.

Lemma executeStage_inv stage fn st u st' :
  executeStage stage fn st = (Ok u, st') ->
  exists st2, fn (log stage "Stage started" None (with_stage stage st)) = Ok st2
              /\ st' = log stage "Stage completed" None st2.
Proof.
  unfold executeStage.
  destruct (fn (log stage "Stage started" None (with_stage stage st)))
    as [st2|e]; [|discriminate].
  intros [= <-]. exists st2. auto.
Qed.

(** The stages that a resolved run has gone through. *)
Lemma hunt_resolved W name cs :
  (hunt W name cs).1 = Ok () ->
  exists st3 st4 st4' st5,
    adversarialDebate W st3 = Ok st4
    /\ synthesize W st4' = Ok st5
    /\ findings st4' = findings st4.
Proof.
  unfold hunt.
  match goal with
  | |- context [andThen ?m ?k ?s] => destruct (andThen m k s) as [[[]|e] st] eqn:E
  end; [|discriminate].
  intros _.
  apply andThen_inv in E. destruct E as (sA & _ & E).
  apply andThen_inv in E. destruct E as (sB & _ & E).
  apply andThen_inv in E. destruct E as (sC & _ & E).
  apply andThen_inv in E. destruct E as (sD & HD & E).
  apply andThen_inv in E. destruct E as (sE & HE & _).
  apply executeStage_inv in HD. destruct HD as (st4 & HD & ->).
  apply executeStage_inv in HE. destruct HE as (st5 & HE & _).
  eexists _, st4, _, st5. split; [exact HD|]. split; [exact HE|]. reflexivity.
Qed.

End HuntOutcome.

(** X7. A run resolves only if the Pope's answer could be parsed. The
    synthesis stage has no fallback: when the structured parse of the
    Pope's answer fails, [hunt] rejects, whatever the other stages did. *)
Theorem hunt_rejects_on_unparsed_synthesis W name cs msg :
  Agent.analyzeStructured (Orchestrator.parse_synthesis W)
    (Orchestrator.pope_analyze W) = Throw msg ->
  is_ok (Orchestrator.hunt W name cs).1 = false.
Proof.
  intros Hfail.
  destruct (Orchestrator.hunt W name cs).1 as [[]|e] eqn:H; [|reflexivity].
  exfalso. apply hunt_resolved in H.
  destruct H as (st3 & st4 & st4' & st5 & _ & H & _).
  apply synthesize_findings in H. destruct H as (data & Hdata & _).
  congruence.
Qed.

Lemma hunt_rejects_on_unparsed_synthesis_witness :
  is_ok (Orchestrator.hunt Sample.world "demo" [Sample.vault]).1 = false.
Proof.
  apply (hunt_rejects_on_unparsed_synthesis Sample.world "demo" [Sample.vault]
           "overloaded").
  reflexivity.
Defined.

(** ** The exploit forge and the verification stage *)

Section Forge.

Import Orchestrator.

(** What the forge makes for the finding behind reference [i]. *)
Definition forgedFor (idl : list string) (x : ForgedExploit) : Prop :=
  map ap_name (ex_approaches x) = smithNames
  /\ ex_verified x = false
  /\ exists t, idl !! ex_vulnerability x = Some t
               /\ ex_id x = "exploit-" +:+ t.

Lemma forgeOne_effect W i st st' :
  forgeOne W i st = Ok st' ->
  exists x,
    exploits st' = exploits st ++ [x]
    /\ ex_vulnerability x = i
    /\ forgedFor (ids (findings st)) x
    /\ findings st' = alter (set_status exploited) i (findings st)
    /\ verificationResults st' = verificationResults st
    /\ synthesis st' = synthesis st.
Proof.
  unfold forgeOne. destruct (findings st !! i) as [f|] eqn:E; [|discriminate].
  intros H. apply rbind_Ok in H. destruct H as (approaches & Happ & H).
  apply rbind_Ok in H. destruct H as (final & Hfinal & H).
  injection H as <-. eexists. split; [reflexivity|]. split; [reflexivity|].
  split.
  - split; [|split; [reflexivity|]].
    + simpl. apply Promise_all_each in Happ. simpl in Happ.
      inversion Happ as [|? a1 ? l1 H1 Happ1]; subst.
      inversion Happ1 as [|? a2 ? l2 H2 Happ2]; subst.
      inversion Happ2 as [|? a3 ? l3 H3 Happ3]; subst.
      inversion Happ3; subst.
      apply rbind_Ok in H1. destruct H1 as (c1 & _ & [= <-]).
      apply rbind_Ok in H2. destruct H2 as (c2 & _ & [= <-]).
      apply rbind_Ok in H3. destruct H3 as (c3 & _ & [= <-]).
      reflexivity.
    + exists (f_id f). split; [apply ids_lookup; exact E|reflexivity].
  - split; [reflexivity|]. split; reflexivity.
Qed.

Lemma forge_loop W refs : forall st st',
  for_of (forgeOne W) refs st = Ok st' ->
  exists new,
    exploits st' = exploits st ++ new
    /\ map ex_vulnerability new = refs
    /\ Forall (forgedFor (ids (findings st))) new
    /\ (forall j, findings st' !! j
                  = if decide (j ∈ refs)
                    then set_status exploited <$> findings st !! j
                    else findings st !! j)
    /\ verificationResults st' = verificationResults st
    /\ synthesis st' = synthesis st.
Proof.
  induction refs as [|i refs IH]; intros st st'; simpl.
  - intros [= <-]. exists []. rewrite app_nil_r.
    split; [reflexivity|]. split; [reflexivity|]. split; [constructor|].
    split; [|split; reflexivity].
    intros j. destruct (decide (j ∈ [])) as [H|_]; [|reflexivity].
    apply elem_of_nil in H. contradiction.
  - intros H. inv_await H.
    apply forgeOne_effect in Ha.
    destruct Ha as (x & Hx & Hxi & Hfx & Hfs & Hvr & Hsy).
    apply IH in H. destruct H as (new & Hnew & Hrefs & Hall & Hlook & Hvr' & Hsy').
    exists (x :: new).
    split; [rewrite Hnew, Hx, <- app_assoc; reflexivity|].
    split; [simpl; rewrite Hxi, Hrefs; reflexivity|].
    split.
    { constructor; [exact Hfx|].
      rewrite Hfs, ids_alter in Hall by reflexivity. exact Hall. }
    split; [|split; congruence].
    intros j. rewrite Hlook, Hfs.
    destruct (decide (i = j)) as [->|Hne].
    + rewrite list_lookup_alter_eq.
      destruct (decide (j ∈ j :: refs)) as [_|Hn]; [|exfalso; apply Hn; left].
      destruct (decide (j ∈ refs)); destruct (findings st !! j); reflexivity.
    + rewrite list_lookup_alter_ne by exact Hne.
      destruct (decide (j ∈ refs)) as [Hj|Hj];
        destruct (decide (j ∈ i :: refs)) as [Hj'|Hj']; try reflexivity.
      * exfalso. apply Hj'. right. exact Hj.
      * exfalso. apply elem_of_cons in Hj'. destruct Hj' as [->|Hj']; contradiction.
Qed.

End Forge.

(** X8. The exploit forge makes one exploit per validated finding of the
    synthesis, in their order: each is appended to the exploits of the
    state, points to its finding, carries the id "exploit-" followed by the
    finding's id, holds the three approaches direct, flash-loan and chained,
    and is not verified yet. The findings it forged for become 'exploited';
    no other finding changes, and no verification result is written. *)
Theorem forge_one_exploit_per_validated W st st' sy :
  Orchestrator.forgeExploits W st = Ok st' ->
  Orchestrator.synthesis st = Some sy ->
  let refs := p_validatedVulnerabilities sy in
  (exists new,
     Orchestrator.exploits st' = Orchestrator.exploits st ++ new
     /\ map Orchestrator.ex_vulnerability new = refs
     /\ Forall (forgedFor (ids (Orchestrator.findings st))) new)
  /\ (forall j, Orchestrator.findings st' !! j
                = if decide (j ∈ refs)
                  then set_status exploited <$> Orchestrator.findings st !! j
                  else Orchestrator.findings st !! j)
  /\ Orchestrator.verificationResults st' = Orchestrator.verificationResults st.
Proof.
  intros H Hsy. cbv zeta. unfold Orchestrator.forgeExploits in H.
  rewrite Hsy in H.
  destruct (Nat.eqb_spec (length (p_validatedVulnerabilities sy)) 0) as [E|_].
  - injection H as <-.
    destruct (p_validatedVulnerabilities sy); [|discriminate].
    split; [exists []; rewrite app_nil_r; repeat split; constructor|].
    split; [|reflexivity].
    intros j. destruct (decide (j ∈ [])) as [Hj|_]; [|reflexivity].
    apply elem_of_nil in Hj. contradiction.
  - apply rbind_Ok in H. destruct H as (st2 & H & Hst').
    injection Hst' as <-.
    apply forge_loop in H.
    destruct H as (new & Hnew & Hrefs & Hall & Hlook & Hvr & _).
    split; [exists new; auto|]. split; [exact Hlook|exact Hvr].
Qed.

Lemma forge_one_exploit_per_validated_witness :
  exists st1 st2 sy x f,
    Orchestrator.synthesize Sample.popeWorld Sample.afterDebate = Ok st1
    /\ Orchestrator.synthesis st1 = Some sy
    /\ p_validatedVulnerabilities sy = [0; 1]
    /\ Orchestrator.forgeExploits Sample.popeWorld st1 = Ok st2
    /\ Orchestrator.exploits st2 !! 1 = Some x
    /\ Orchestrator.ex_id x = "exploit-LogicErrorExpert-1-a"
    /\ Orchestrator.findings st2 !! 1 = Some f
    /\ f_status f = exploited.
Proof.
  assert (Hrun : exists st1 st2 sy,
            Orchestrator.synthesize Sample.popeWorld Sample.afterDebate = Ok st1
            /\ Orchestrator.synthesis st1 = Some sy
            /\ p_validatedVulnerabilities sy = [0; 1]
            /\ Orchestrator.forgeExploits Sample.popeWorld st1 = Ok st2
            /\ Orchestrator.exploits st1 = []
            /\ ids (Orchestrator.findings st1) !! 1 = Some "LogicErrorExpert-1-a").
  { eexists _, _, _. split; [vm_compute; reflexivity|].
    split; [reflexivity|]. split; [reflexivity|].
    split; [vm_compute; reflexivity|]. split; reflexivity. }
  destruct Hrun as (st1 & st2 & sy & H1 & Hsy & Hrefs & H2 & Hx0 & Hid).
  destruct (forge_one_exploit_per_validated _ _ _ _ H2 Hsy)
    as ((new & Hnew & Hmap & Hall) & Hlook & _).
  rewrite Hrefs in Hmap, Hlook. rewrite Hx0 in Hnew. simpl in Hnew.
  destruct new as [|x0 [|x [|? ?]]]; try discriminate.
  injection Hmap as _ Hv1.
  apply Forall_cons in Hall. destruct Hall as [_ Hall].
  apply Forall_cons in Hall. destruct Hall as [(_ & _ & t & Ht & Hxid) _].
  rewrite Hv1, Hid in Ht. injection Ht as <-.
  specialize (Hlook 1). simpl in Hlook.
  destruct (decide (1 ∈ [0; 1])) as [_|Hn];
    [|exfalso; apply Hn; right; left].
  destruct (Orchestrator.findings st1 !! 1) as [f1|] eqn:Ef;
    [|unfold ids in Hid; rewrite list_lookup_fmap, Ef in Hid; discriminate].
  exists st1, st2, sy, x, (set_status exploited f1).
  rewrite Hnew. auto 10.
Defined.

Section VerifyFlags.

Import Orchestrator.

Lemma combine_seq_nth {A : Type} (xs : list A) : forall a k x,
  xs !! k = Some x -> combine (seq a (length xs)) xs !! k = Some (a + k, x).
Proof.
  induction xs as [|y xs IH]; intros a [|k] x; simpl; try discriminate.
  - intros [= <-]. rewrite Nat.add_0_r. reflexivity.
  - intros H. rewrite (IH (S a) k x H). f_equal. f_equal. lia.
Qed.

Lemma combine_seq_fst {A : Type} (xs : list A) : forall a,
  map fst (combine (seq a (length xs)) xs) = seq a (length xs).
Proof.
  induction xs as [|y xs IH]; intros a; simpl; [reflexivity|].
  f_equal. apply IH.
Qed.

Lemma verify_flags_loop W ixs : forall st st',
  for_of (verifyOne W) ixs st = Ok st' ->
  NoDup (map fst ixs) ->
  findings st' = findings st
  /\ exists new,
       verificationResults st' = verificationResults st ++ new
       /\ length new = length ixs
       /\ (forall p i x, ixs !! p = Some (i, x) ->
             exists r f,
               new !! p = Some r
               /\ findings st !! ex_vulnerability x = Some f
               /\ findingId r = f_id f
               /\ exploits st' !! i
                  = set_verified (bool_decide (consensus r = PASS))
                    <$> exploits st !! i)
       /\ (forall j, j ∉ map fst ixs -> exploits st' !! j = exploits st !! j).
Proof.
  induction ixs as [|[i x] ixs IH]; intros st st'; simpl.
  - intros [= <-] _. split; [reflexivity|]. exists [].
    rewrite app_nil_r. split; [reflexivity|]. split; [reflexivity|].
    split; [intros p i x Hp; discriminate|reflexivity].
  - intros H Hnd. inv_await H.
    apply NoDup_cons in Hnd. destruct Hnd as [Hi Hnd].
    apply verifyOne_effect in Ha.
    destruct Ha as (f & vs & Hf & _ & Hres & Hex & Hfs).
    destruct (IH _ _ H Hnd) as (Hfs' & new & Hnew & Hlen & Heach & Hother).
    split; [congruence|].
    exists (verificationResult (f_id f) vs :: new).
    split; [rewrite Hnew, Hres, <- app_assoc; reflexivity|].
    split; [simpl; f_equal; exact Hlen|].
    split.
    + intros [|p] i' x' Hp; simpl in Hp.
      * injection Hp as <- <-. exists (verificationResult (f_id f) vs), f.
        split; [reflexivity|]. split; [exact Hf|]. split; [reflexivity|].
        rewrite (Hother i Hi), Hex. apply list_lookup_alter_eq.
      * destruct (Heach p i' x' Hp) as (r & f' & Hr & Hf' & Hid & Hflag).
        exists r, f'. split; [exact Hr|]. split; [rewrite <- Hfs; exact Hf'|].
        split; [exact Hid|].
        rewrite Hflag, Hex. rewrite list_lookup_alter_ne; [reflexivity|].
        intros ->. apply Hi. apply list_elem_of_fmap. exists (i', x').
        split; [reflexivity|]. eapply list_elem_of_lookup_2. exact Hp.
    + intros j Hj. rewrite Hother, Hex.
      * apply list_lookup_alter_ne. intros ->. apply Hj. left.
      * intros Hj'. apply Hj. right. exact Hj'.
Qed.

End VerifyFlags.

(** X9. The verification stage flags each exploit with the verdict on it:
    for the exploit at position [k] the stage appends the [k]-th new result,
    which names the exploit's finding by its id, and sets the exploit's
    [verified] flag to whether that result's consensus is PASS; nothing else
    of the exploit changes, and the findings are left as they were. *)
Theorem verify_flags_exploits W st st' k x :
  Orchestrator.verify W st = Ok st' ->
  Orchestrator.exploits st !! k = Some x ->
  Orchestrator.findings st' = Orchestrator.findings st
  /\ exists r f,
       Orchestrator.verificationResults st'
         !! (length (Orchestrator.verificationResults st) + k) = Some r
       /\ Orchestrator.findings st !! Orchestrator.ex_vulnerability x = Some f
       /\ findingId r = f_id f
       /\ Orchestrator.exploits st' !! k
          = Some (Orchestrator.set_verified (bool_decide (consensus r = PASS)) x).
Proof.
  intros H Hx. unfold Orchestrator.verify in H.
  set (st1 := fold_left (fun s n => Orchestrator.register n s)
                (Orchestrator.teamNames "Verifier_" Orchestrator.verifierIds) st) in *.
  destruct (register_all_findings
              (Orchestrator.teamNames "Verifier_" Orchestrator.verifierIds) st)
    as (Hfs & _).
  pose proof (register_all_exploits
                (Orchestrator.teamNames "Verifier_" Orchestrator.verifierIds) st)
    as Hreg.
  fold st1 in Hfs, Hreg. destruct Hreg as (Hex & Hvr).
  apply verify_flags_loop in H.
  - destruct H as (Hfs' & new & Hnew & Hlen & Heach & _).
    split; [congruence|].
    destruct (Heach k k x) as (r & f & Hr & Hf & Hid & Hflag).
    { unfold Orchestrator.indexed. rewrite Hex.
      apply (combine_seq_nth (Orchestrator.exploits st) 0 k x Hx). }
    exists r, f. rewrite Hnew, Hvr.
    split; [rewrite lookup_app_r by lia; rewrite Nat.add_comm, Nat.add_sub; exact Hr|].
    split; [rewrite <- Hfs; exact Hf|]. split; [exact Hid|].
    rewrite Hflag, Hex, Hx. reflexivity.
  - unfold Orchestrator.indexed. rewrite combine_seq_fst. apply NoDup_seq.
Qed.

Lemma verify_flags_exploits_witness :
  exists st' r x',
    Orchestrator.verify Sample.world Sample.verifying = Ok st'
    /\ Orchestrator.verificationResults st' !! 0 = Some r
    /\ consensus r = PASS
    /\ Orchestrator.exploits st' !! 0 = Some x'
    /\ Orchestrator.ex_verified x' = true.
Proof.
  assert (Hrun : exists st',
            Orchestrator.verify Sample.world Sample.verifying = Ok st'
            /\ exists r, Orchestrator.verificationResults st' !! 0 = Some r
                         /\ consensus r = PASS).
  { eexists. split; [vm_compute; reflexivity|]. eexists. split; reflexivity. }
  destruct Hrun as (st' & H & r & Hr & Hc).
  destruct (verify_flags_exploits Sample.world Sample.verifying st' 0 _ H eq_refl)
    as (_ & r' & f & Hr' & _ & _ & Hflag).
  simpl in Hr'. rewrite Hr in Hr'. injection Hr' as <-.
  eexists st', r, _. split; [exact H|]. split; [exact Hr|]. split; [exact Hc|].
  split; [exact Hflag|]. simpl. apply bool_decide_eq_true. exact Hc.
Defined.

(** X10. The verification of an exploit is all or nothing: the three votes
    are awaited together, so as soon as the answer of one verifier is
    rejected or cannot be parsed, the stage rejects; no result is made of
    the votes that did arrive. *)
Theorem verify_rejects_on_failed_verifier W st k x id msg :
  Orchestrator.exploits st !! k = Some x ->
  id ∈ Orchestrator.verifierIds ->
  Orchestrator.castVote W k id = Throw msg ->
  is_ok (Orchestrator.verify W st) = false.
Proof.
  intros Hx Hid Hfail.
  destruct (Orchestrator.verify W st) as [st'|] eqn:H; [|reflexivity].
  exfalso. unfold Orchestrator.verify in H.
  set (st1 := fold_left (fun s n => Orchestrator.register n s)
                (Orchestrator.teamNames "Verifier_" Orchestrator.verifierIds) st) in *.
  pose proof (register_all_exploits
                (Orchestrator.teamNames "Verifier_" Orchestrator.verifierIds) st)
    as Hreg.
  fold st1 in Hreg. destruct Hreg as (Hex & _).
  assert (Hin : In (k, x) (Orchestrator.indexed (Orchestrator.exploits st1))).
  { rewrite Hex. apply indexed_lookup. exact Hx. }
  assert (Hvotes : exists vs,
            Promise_all (Orchestrator.castVote W k) Orchestrator.verifierIds
            = Ok vs).
  { refine (for_of_each (fun _ => True)
              (fun (ix : nat * Orchestrator.ForgedExploit) _ =>
                 exists vs, Promise_all (Orchestrator.castVote W ix.1)
                              Orchestrator.verifierIds = Ok vs)
              _ _ _ _ st1 st' I H (k, x) Hin).
    - intros [i y] s s' _ Hs. split; [exact I|].
      apply verifyOne_effect in Hs. destruct Hs as (? & vs & _ & Hvs & _).
      exists vs. exact Hvs.
    - intros ? ? ? ? _ Hq _. exact Hq. }
  destruct Hvotes as (vs & Hvs).
  apply list_elem_of_In in Hid.
  destruct (Promise_all_In _ _ _ Hvs id Hid) as (v & Hv).
  congruence.
Qed.

Lemma verify_rejects_on_failed_verifier_witness :
  is_ok (Orchestrator.verify Cases.silentVerifier Sample.verifying) = false.
Proof.
  eapply (verify_rejects_on_failed_verifier Cases.silentVerifier Sample.verifying
            0 _ 2 "timeout").
  - reflexivity.
  - right. left.
  - vm_compute. reflexivity.
Defined.

(** ** Batches *)

Section Batches.

Import Orchestrator.

Lemma batchesFrom_concat {A : Type} size (xs : list A) :
  0 < size -> forall fuel, length xs <= fuel ->
  concat (batchesFrom fuel size xs) = xs
  /\ Forall (fun b => 0 < length b <= size) (batchesFrom fuel size xs).
Proof.
  intros Hsize fuel. revert xs.
  induction fuel as [|fuel IH]; intros xs Hlen.
  - destruct xs; [|simpl in Hlen; lia]. split; [reflexivity|constructor].
  - destruct xs as [|x xs]; [split; [reflexivity|constructor]|].
    cbn [batchesFrom].
    destruct (IH (drop size (x :: xs))) as [IH1 IH2].
    { rewrite length_drop. simpl in *. lia. }
    split.
    + cbn [concat]. rewrite IH1. apply take_drop.
    + constructor; [|exact IH2]. rewrite length_take. simpl. lia.
Qed.

End Batches.

(** ** The debate of the orchestrator: what a session looks like *)

Section OrchestratorSession.

Import Orchestrator.

(** The four kinds of round record that the stage writes. *)
Definition roundKinds : list (nat * RoundType * DebateRole * DebateAction) :=
  [ (1, PRESENTATION, proposer, present);
    (2, ATTACK, red_team, attack);
    (3, DEFENSE, blue_team, defend);
    (4, DEVILS_ADVOCATE, devils_advocate, challenge) ].

(** A round record with a single entry, of the kind of its round. *)
Definition singleEntry (r : DebateRound) : Prop :=
  exists e,
    r_entries r = [e]
    /\ r_outcome r = CONTINUES
    /\ e_round e = r_roundNumber r
    /\ (r_roundNumber r, r_type r, e_role e, e_action e) ∈ roundKinds.

(** The status of [f'] is that of [f], or 'debating'. *)
Definition statusKept (store0 : list VulnerabilityFinding) (s : DebateState)
  : Prop :=
  forall j f', s.1 !! j = Some f' ->
  exists f, store0 !! j = Some f
            /\ (f_status f' = f_status f \/ f_status f' = debating).

Lemma statusKept_alter store0 g i s rs :
  (forall f, f_status (g f) = f_status f \/ f_status (g f) = debating) ->
  statusKept store0 s -> statusKept store0 (alter g i s.1, rs).
Proof.
  intros Hg Hs j f'. simpl. destruct (decide (i = j)) as [->|Hne].
  - rewrite list_lookup_alter_eq.
    destruct (s.1 !! j) as [f1|] eqn:E; [|discriminate].
    intros [= <-]. destruct (Hs j f1 E) as (f & Hf & Hst).
    exists f. split; [exact Hf|].
    destruct (Hg f1) as [H|H]; [rewrite H; exact Hst|right; exact H].
  - rewrite list_lookup_alter_ne by exact Hne. apply Hs.
Qed.

Lemma f_status_history_push e f : f_status (history_push e f) = f_status f.
Proof. unfold history_push. destruct (f_debateHistory f); reflexivity. Qed.

Lemma round1_session W ag store0 refs s s' :
  inBatches (round1 W ag) refs s = Ok s' ->
  Forall singleEntry s.2 /\ statusKept store0 s ->
  Forall singleEntry s'.2 /\ statusKept store0 s'.
Proof.
  intros H Hs. revert H.
  apply (inBatches_inv
           (fun s => Forall singleEntry s.2 /\ statusKept store0 s));
    [|exact Hs].
  clear. intros k i s s' _ [Hr Hk]. unfold round1. simpl.
  destruct (s.1 !! i) as [f|]; [|intros [= <-]; auto].
  destruct (ag !! f_discoveredBy f); [|intros [= <-]; auto].
  intros H. inv_await H. injection H as <-. split.
  - simpl. apply Forall_app. split; [exact Hr|]. constructor; [|constructor].
    eexists. split; [reflexivity|]. split; [reflexivity|].
    split; [reflexivity|]. simpl. left.
  - apply statusKept_alter; [|exact Hk]. intros f0. right. reflexivity.
Qed.

Lemma teamRound_session W n t team role action call push store0 refs s s' :
  (n, t, role, action) ∈ roundKinds ->
  (forall e f, f_status (push e f) = f_status f) ->
  inBatches (teamRound W n t team role action call push) refs s = Ok s' ->
  Forall singleEntry s.2 /\ statusKept store0 s ->
  Forall singleEntry s'.2 /\ statusKept store0 s'.
Proof.
  intros Hkind Hpush H Hs. revert H.
  apply (inBatches_inv
           (fun s => Forall singleEntry s.2 /\ statusKept store0 s));
    [|exact Hs].
  intros k i s1 s2 _ [Hr Hk]. unfold teamRound.
  destruct (s1.1 !! i) as [f|]; [|intros [= <-]; auto].
  intros H. inv_await H. injection H as <-. split.
  - simpl. apply Forall_app. split; [exact Hr|]. constructor; [|constructor].
    eexists. split; [reflexivity|]. split; [reflexivity|].
    split; [reflexivity|]. exact Hkind.
  - apply statusKept_alter; [|exact Hk]. intros f0. left. apply Hpush.
Qed.

End OrchestratorSession.

(** X12. The batches of a debate round cut the selected findings into
    consecutive slices of at most five: put end to end they are the
    selection itself, so every selected finding is in exactly one batch, in
    priority order, and no batch is empty. *)
Theorem debate_batches_partition (refs : list nat) :
  concat (Orchestrator.batches Orchestrator.BATCH_SIZE refs) = refs
  /\ Forall (fun batch => 0 < length batch <= 5)
       (Orchestrator.batches Orchestrator.BATCH_SIZE refs).
Proof.
  unfold Orchestrator.batches.
  apply batchesFrom_concat; [unfold Orchestrator.BATCH_SIZE; lia|reflexivity].
Qed.

(** ** The Pope: what becomes of the references of the verdict *)

Section PopeLists.

Lemma validatedFindings_length all data :
  length (Pope.validatedFindings all data)
  <= length (d_validated_vulnerabilities data)
  /\ (length (Pope.validatedFindings all data)
      = length (d_validated_vulnerabilities data)
      <-> forall v, v ∈ d_validated_vulnerabilities data ->
                    is_Some (Pope.findOriginal all v)).
Proof.
  unfold Pope.validatedFindings.
  induction (d_validated_vulnerabilities data) as [|v vs [IH1 IH2]]; simpl.
  - split; [lia|]. split; [|reflexivity].
    intros _ v Hv. apply elem_of_nil in Hv. contradiction.
  - rewrite length_app.
    destruct (Pope.findOriginal all v) as [original|] eqn:E; simpl.
    + split; [lia|]. split.
      * intros H v' Hv'. apply elem_of_cons in Hv'.
        destruct Hv' as [->|Hv']; [rewrite E; eauto|].
        apply IH2; [lia|exact Hv'].
      * intros H. f_equal. apply IH2. intros v' Hv'. apply H. right. exact Hv'.
    + split; [lia|]. split.
      * intros H. lia.
      * intros H. destruct (H v) as [? Hv]; [left|]. congruence.
Qed.

Lemma validatedFindings_each all data f :
  f ∈ Pope.validatedFindings all data ->
  exists v original,
    v ∈ d_validated_vulnerabilities data
    /\ original ∈ all
    /\ matches v original
    /\ f = Pope.revalidate v original.
Proof.
  unfold Pope.validatedFindings. intros H.
  apply list_elem_of_In, in_flat_map in H. destruct H as (v & Hv & Hf).
  destruct (Pope.findOriginal all v) as [original|] eqn:E; [|destruct Hf].
  destruct Hf as [<-|[]]. unfold Pope.findOriginal in E.
  apply find_first in E. destruct E as (l1 & l2 & Hall & Hp & _).
  exists v, original. split; [apply list_elem_of_In; exact Hv|].
  split; [rewrite Hall; apply elem_of_app; right; left|].
  split; [|reflexivity].
  apply orb_true_iff in Hp. unfold matches.
  destruct Hp as [Hp|Hp]; apply String.eqb_eq in Hp; auto.
Qed.

Lemma rejectedFindings_each all data :
  Forall2
    (fun r (entry : (VulnerabilityFinding + string) * string) =>
       entry.2 = rj_reason r
       /\ match entry.1 with
          | inl original => original ∈ all /\ f_id original = rj_id r
          | inr fid => fid = rj_id r /\ forall f, f ∈ all -> f_id f <> rj_id r
          end)
    (d_rejected_vulnerabilities data) (Pope.rejectedFindings all data).
Proof.
  unfold Pope.rejectedFindings.
  induction (d_rejected_vulnerabilities data) as [|r rs IH]; simpl;
    constructor; [|exact IH].
  simpl. split; [reflexivity|].
  destruct (List.find _ all) as [original|] eqn:E.
  - apply find_first in E. destruct E as (l1 & l2 & Hall & Hp & _).
    split; [rewrite Hall; apply elem_of_app; right; left|].
    apply String.eqb_eq. exact Hp.
  - split; [reflexivity|]. intros f Hf. apply find_none in E.
    rewrite Forall_forall in E. specialize (E f Hf).
    apply String.eqb_neq. exact E.
Qed.

End PopeLists.

(** X13. What the Pope makes of the references of the verdict. A validated
    reference that matches no finding of the debates (by id or by title) is
    dropped without notice, so the validated list can be shorter than the
    verdict's and is as long exactly when every reference matches; each of
    its members is a finding of the debates with the reference's
    description, severity and confidence and the status 'validated'. A
    rejected reference is never dropped: each yields one entry with its
    reason, holding the finding of that id, or a stub when no finding has
    it. *)
Theorem pope_resolves_references parse response debates data syn :
  Agent.analyzeStructured parse response = Ok data ->
  Pope.synthesize parse response debates = Ok syn ->
  let all := flat_map s_findings debates in
  length (p_validatedVulnerabilities syn)
  <= length (d_validated_vulnerabilities data)
  /\ (length (p_validatedVulnerabilities syn)
      = length (d_validated_vulnerabilities data)
      <-> forall v, v ∈ d_validated_vulnerabilities data ->
                    exists f, f ∈ all /\ matches v f)
  /\ (forall f, f ∈ p_validatedVulnerabilities syn ->
        f_status f = validated
        /\ exists v original,
             v ∈ d_validated_vulnerabilities data /\ original ∈ all
             /\ matches v original /\ f = Pope.revalidate v original)
  /\ Forall2
       (fun r (entry : (VulnerabilityFinding + string) * string) =>
          entry.2 = rj_reason r
          /\ match entry.1 with
             | inl original => original ∈ all /\ f_id original = rj_id r
             | inr fid => fid = rj_id r /\ forall f, f ∈ all -> f_id f <> rj_id r
             end)
       (d_rejected_vulnerabilities data) (p_rejectedVulnerabilities syn).
Proof.
  intros Hdata H. cbv zeta. unfold Pope.synthesize in H.
  rewrite Hdata in H. simpl in H. injection H as <-. simpl.
  destruct (validatedFindings_length (flat_map s_findings debates) data)
    as [L1 L2].
  split; [exact L1|]. split; [|split].
  - rewrite L2. split; intros H v Hv.
    + destruct (H v Hv) as [f Hf]. unfold Pope.findOriginal in Hf.
      apply find_first in Hf. destruct Hf as (l1 & l2 & Hall & Hp & _).
      exists f. split; [rewrite Hall; apply elem_of_app; right; left|].
      apply orb_true_iff in Hp. unfold matches.
      destruct Hp as [Hp|Hp]; apply String.eqb_eq in Hp; auto.
    + destruct (H v Hv) as (f & Hf & Hm). unfold Pope.findOriginal.
      destruct (List.find _ _) as [x|] eqn:E; [eauto|].
      apply find_none in E. rewrite Forall_forall in E. specialize (E f Hf).
      apply orb_false_iff in E. destruct E as [E1 E2].
      apply String.eqb_neq in E1. apply String.eqb_neq in E2.
      destruct Hm as [Hm|Hm]; congruence.
  - intros f Hf. apply validatedFindings_each in Hf.
    destruct Hf as (v & original & Hv & Ho & Hm & ->).
    split; [reflexivity|]. eauto 10.
  - apply rejectedFindings_each.
Qed.

Lemma pope_resolves_references_witness :
  exists syn,
    Pope.synthesize (fun _ => Some Cases.popeVerdict) (Ok "{}")
      [Cases.arenaSession] = Ok syn
    /\ length (p_validatedVulnerabilities syn) = 1
    /\ length (d_validated_vulnerabilities Cases.popeVerdict) = 2
    /\ length (p_rejectedVulnerabilities syn) = 2
    /\ forall f, f ∈ p_validatedVulnerabilities syn -> f_status f = validated.
Proof.
  eexists. split; [vm_compute; reflexivity|].
  split; [reflexivity|]. split; [reflexivity|]. split; [reflexivity|].
  intros f Hf.
  destruct (pope_resolves_references (fun _ => Some Cases.popeVerdict) (Ok "{}")
              [Cases.arenaSession] Cases.popeVerdict _ eq_refl eq_refl)
    as (_ & _ & H & _).
  apply H. exact Hf.
Defined.

(** ** The tribunal under any thresholds *)

(** X14. The consensus rule of VerificationTribunal for any configuration
    and any panel: the result is PASS exactly when the 'pass' votes reach the
    pass threshold or the auto-submit threshold (so a result marked for
    auto-submission is always PASS, also when the auto-submit threshold is
    set below the pass threshold), FAIL exactly when there is no 'pass' vote
    and both thresholds are positive, and SPLIT otherwise. *)
Theorem tribunal_rule_for_any_thresholds config fid vs :
  let r := Tribunal.verify_result config fid vs in
  let pc := passCount vs in
  (consensus r = PASS
   <-> Tribunal.passThreshold config <= pc
       \/ Tribunal.autoSubmitThreshold config <= pc)
  /\ (consensus r = FAIL
      <-> pc = 0 /\ 0 < Tribunal.passThreshold config
          /\ 0 < Tribunal.autoSubmitThreshold config)
  /\ (autoSubmit r = true <-> Tribunal.autoSubmitThreshold config <= pc)
  /\ (autoSubmit r = true -> consensus r = PASS)
  /\ votes r = vs /\ findingId r = fid.
Proof.
  cbv zeta. unfold Tribunal.verify_result. simpl.
  destruct (Nat.leb_spec (Tribunal.autoSubmitThreshold config) (passCount vs));
    destruct (Nat.leb_spec (Tribunal.passThreshold config) (passCount vs));
    destruct (Nat.ltb_spec 0 (passCount vs));
    repeat split; intros; try discriminate; try lia; auto;
    repeat match goal with
           | H : _ \/ _ |- _ => destruct H
           | H : _ /\ _ |- _ => destruct H
           end; try lia.
Qed.

(** ** Parallel analysis: what a finding looks like when it is reported *)

Section AnalysisOutput.

Import Orchestrator.

Lemma indexed_In_lookup {A : Type} (xs : list A) k x :
  In (k, x) (indexed xs) -> xs !! k = Some x.
Proof.
  unfold indexed. revert k.
  assert (H : forall a k, In (k, x) (combine (seq a (length xs)) xs) ->
                          a <= k /\ xs !! (k - a) = Some x).
  { induction xs as [|y xs IH]; intros a k; simpl; [intros []|].
    intros [[= <- <-]|H].
    - rewrite Nat.sub_diag. auto.
    - apply IH in H. destruct H as [Hle H]. split; [lia|].
      replace (k - a) with (S (k - S a)) by lia. exact H. }
  intros k Hk. apply H in Hk. destruct Hk as [_ Hk].
  rewrite Nat.sub_0_r in Hk. exact Hk.
Qed.

End AnalysisOutput.

(** X15. What parallel analysis reports. The stage replaces the finding
    list; every finding in it is fresh: its status is 'proposed', it has no
    debate history, it is attributed to a spawned expert whose agent is
    registered, and its id is that expert's name, a dash and the suffix
    drawn for it. *)
Theorem analysis_reports_fresh_findings W st st' f :
  Orchestrator.parallelAnalysis W st = Ok st' ->
  f ∈ Orchestrator.findings st' ->
  f_status f = proposed
  /\ f_debateHistory f = None
  /\ exists e x c k,
       Orchestrator.spawnedExperts st !! e = Some x
       /\ registered (Orchestrator.x_name x) st
       /\ c < length (Orchestrator.contracts st)
       /\ f_discoveredBy f = Orchestrator.x_name x
       /\ f_id f = Orchestrator.x_name x +:+ "-" +:+ Orchestrator.id_suffix W e c k.
Proof.
  intros H Hf.
  destruct (parallelAnalysis_findings W st st' H) as (Hfs & _).
  rewrite Hfs in Hf.
  apply list_elem_of_In, in_concat in Hf. destruct Hf as (l & Hl & Hf).
  apply in_map_iff in Hl. destruct Hl as (task & <- & Htask).
  apply in_map_iff in Htask. destruct Htask as ([e x] & <- & Hex).
  apply indexed_In_lookup in Hex.
  unfold taskResult in Hf. simpl in Hf.
  destruct (Orchestrator.agents st !! Orchestrator.x_name x) as [a|] eqn:Ea.
  - simpl in Hf.
    apply in_flat_map in Hf. destruct Hf as ([c contract] & Hc & Hf).
    apply indexed_In_lookup, lookup_lt_Some in Hc. simpl in Hf.
    unfold pairFindings, Orchestrator.analyzePair in Hf.
    destruct (Agent.analyzeStructured _ _) as [raws|]; [|destruct Hf].
    simpl in Hf. apply in_map_iff in Hf. destruct Hf as ([k raw] & <- & _).
    split; [reflexivity|]. split; [reflexivity|].
    exists e, x, c, k. split; [exact Hex|]. split; [exists a; exact Ea|].
    split; [exact Hc|]. split; reflexivity.
  - destruct Hf.
Qed.

Lemma analysis_reports_fresh_findings_witness :
  exists st' f,
    Orchestrator.parallelAnalysis Sample.analysisWorld
      (Orchestrator.with_spawnedExperts [Sample.reentrancyExpert; Sample.reentrancyExpert]
         (Orchestrator.with_findings [Sample.reentrancy]
            (Orchestrator.register "ReentrancyExpert"
               (Orchestrator.initializeState "demo" [Sample.vault])))) = Ok st'
    /\ Orchestrator.findings st' = [f]
    /\ f_id f = "ReentrancyExpert-0"
    /\ f_status f = proposed
    /\ f_debateHistory f = None.
Proof.
  assert (Hrun : exists st' f,
            Orchestrator.parallelAnalysis Sample.analysisWorld
              (Orchestrator.with_spawnedExperts
                 [Sample.reentrancyExpert; Sample.reentrancyExpert]
                 (Orchestrator.with_findings [Sample.reentrancy]
                    (Orchestrator.register "ReentrancyExpert"
                       (Orchestrator.initializeState "demo" [Sample.vault]))))
            = Ok st'
            /\ Orchestrator.findings st' = [f]
            /\ f_id f = "ReentrancyExpert-0").
  { eexists _, _. split; [vm_compute; reflexivity|]. split; reflexivity. }
  destruct Hrun as (st' & f & H & Hfs & Hid).
  destruct (analysis_reports_fresh_findings _ _ _ f H) as (H1 & H2 & _);
    [rewrite Hfs; left|].
  exists st', f. auto.
Defined.

(** ** The order of the findings selected for debate *)

Section Ties.

Import Orchestrator.

Variable store : list VulnerabilityFinding.

(** [i] goes before [j]: it scores higher, or as high and it was reported
    earlier. *)
Definition goesBefore (i j : nat) : Prop :=
  Double.lt (scoreAt store j) (scoreAt store i) = true
  \/ (Double.le (scoreAt store i) (scoreAt store j) = true
      /\ Double.le (scoreAt store j) (scoreAt store i) = true
      /\ i < j).

Hypothesis consistent : comparable store.

Lemma sortInsert_stable x l :
  inRange store x -> Forall (inRange store) l -> Forall (fun y => y < x) l ->
  StronglySorted goesBefore l ->
  StronglySorted goesBefore (sortInsert (comparatorAt store) x l).
Proof.
  intros Hx Hl Hlt Hs. induction Hs as [|y l Hs IH Hy]; simpl.
  - repeat constructor.
  - inversion Hl as [|? ? Hyr Hlr]; subst.
    inversion Hlt as [|? ? Hyx Hlx]; subst.
    rewrite comparatorAt_negative by assumption.
    destruct (Double.lt (scoreAt store y) (scoreAt store x)) eqn:E.
    + constructor; [constructor; assumption|].
      constructor.
      * left. exact E.
      * eapply Forall_impl; [exact Hy|]. intros z [Hz|(_ & Hz & _)]; left.
        -- exact (lt_trans _ _ _ Hz E).
        -- exact (le_lt_trans _ _ _ Hz E).
    + constructor; [apply IH; assumption|].
      rewrite sortInsert_perm. constructor; [|exact Hy].
      pose proof (scoreAt_comparable store x consistent) as Nx.
      pose proof (scoreAt_comparable store y consistent) as Ny.
      destruct (Double.lt (scoreAt store x) (scoreAt store y)) eqn:E2.
      * left. exact E2.
      * right. split; [|split; [|exact Hyx]].
        -- exact (lt_false_le _ _ Nx Ny E2).
        -- exact (lt_false_le _ _ Ny Nx E).
Qed.

Lemma sort_stable_acc n : forall a acc,
  a + n <= length store ->
  Forall (inRange store) acc -> Forall (fun y => y < a) acc ->
  StronglySorted goesBefore acc ->
  StronglySorted goesBefore
    (fold_left (fun sorted x => sortInsert (comparatorAt store) x sorted)
       (seq a n) acc).
Proof.
  induction n as [|n IH]; intros a acc Hn Hacc Hlt Hs; simpl; [exact Hs|].
  apply IH.
  - lia.
  - rewrite sortInsert_perm. constructor; [unfold inRange; lia|exact Hacc].
  - rewrite sortInsert_perm. constructor; [lia|].
    eapply Forall_impl; [exact Hlt|]. intros y Hy. simpl in Hy. lia.
  - apply sortInsert_stable; [unfold inRange; lia|exact Hacc|exact Hlt|exact Hs].
Qed.

Lemma StronglySorted_lookup {A : Type} (R : A -> A -> Prop) l :
  StronglySorted R l ->
  forall p q x y, p < q -> l !! p = Some x -> l !! q = Some y -> R x y.
Proof.
  induction 1 as [|a l Hs IH Ha]; intros p q x y Hpq Hp Hq; [discriminate|].
  destruct q as [|q]; [lia|]. simpl in Hq.
  destruct p as [|p]; simpl in Hp.
  - injection Hp as <-. rewrite Forall_forall in Ha. apply Ha.
    eapply list_elem_of_lookup_2. exact Hq.
  - apply (IH p q); [lia|exact Hp|exact Hq].
Qed.

End Ties.



(** ** The debate of the orchestrator: who attacks which finding *)

Section Rotation.

Import Orchestrator.

Lemma batchesFrom_lookup {A : Type} size (xs : list A) :
  0 < size -> forall fuel p x, length xs <= fuel -> xs !! p = Some x ->
  exists batch, In batch (batchesFrom fuel size xs)
                /\ batch !! (p mod size) = Some x.
Proof.
  intros Hsize fuel. revert xs.
  induction fuel as [|fuel IH]; intros xs p x Hlen Hp.
  - apply lookup_lt_Some in Hp. lia.
  - destruct xs as [|y xs]; [discriminate|]. cbn [batchesFrom].
    destruct (Nat.lt_ge_cases p size) as [Hlt|Hge].
    + exists (take size (y :: xs)). split; [left; reflexivity|].
      rewrite Nat.mod_small by exact Hlt.
      rewrite lookup_take_lt by exact Hlt. exact Hp.
    + destruct (IH (drop size (y :: xs)) (p - size) x) as (batch & Hin & Hb).
      * rewrite length_drop. simpl in *. lia.
      * rewrite lookup_drop. replace (size + (p - size)) with p by lia. exact Hp.
      * exists batch. split; [right; exact Hin|].
        replace (p mod size) with ((p - size) mod size); [exact Hb|].
        replace p with ((p - size) + 1 * size) at 2 by lia.
        rewrite Nat.Div0.mod_add. reflexivity.
Qed.

(** A round in which the task of every finding leaves a mark [Q] that
    later tasks keep: afterwards the finding at position [p] of the round
    bears the mark of batch position [p mod BATCH_SIZE]. *)
Lemma inBatches_each (P : DebateState -> Prop)
    (Q : nat -> nat -> DebateState -> Prop) body refs :
  (forall k i s s', P s -> body (k, i) s = Ok s' -> P s' /\ Q k i s') ->
  (forall k i k' i' s s', P s -> Q k i s -> body (k', i') s = Ok s' -> Q k i s') ->
  forall s s', P s -> inBatches body refs s = Ok s' ->
  forall p i, refs !! p = Some i -> Q (p mod BATCH_SIZE) i s'.
Proof.
  intros Hstep Hkeep s s' Hs H p i Hp. unfold inBatches in H.
  destruct (batchesFrom_lookup BATCH_SIZE refs ltac:(unfold BATCH_SIZE; lia)
              (length refs) p i (le_n _) Hp) as (batch & Hin & Hb).
  assert (HP : forall ys s1 s2, P s1 -> for_of body ys s1 = Ok s2 -> P s2).
  { intros ys s1 s2 Hs1. apply (for_of_inv P); [|exact Hs1].
    intros [k j] s3 s4 _ Hs3 H3. apply (Hstep k j s3 s4 Hs3 H3). }
  assert (HQ : forall k j ys s1 s2,
            P s1 -> Q k j s1 -> for_of body ys s1 = Ok s2 -> Q k j s2).
  { intros k j ys s1 s2 Hs1 Hq H12.
    refine (proj2 (for_of_inv (fun s => P s /\ Q k j s) body ys _ s1 s2
                     (conj Hs1 Hq) H12)).
    intros [k' j'] s3 s4 _ [Hs3 Hq3] H3. split.
    - apply (Hstep k' j' s3 s4 Hs3 H3).
    - apply (Hkeep k j k' j' s3 s4 Hs3 Hq3 H3). }
  refine (for_of_each P
            (fun (b : list nat) s => forall k j, b !! k = Some j -> Q k j s)
            _ (batches BATCH_SIZE refs) _ _ s s' Hs H batch Hin _ _ Hb).
  - intros b s1 s2 Hs1 H12. split; [exact (HP _ _ _ Hs1 H12)|].
    intros k j Hkj.
    refine (for_of_each P (fun (kj : nat * nat) s => Q kj.1 kj.2 s) body
              (indexed b) _ _ s1 s2 Hs1 H12 (k, j) (indexed_lookup _ _ _ Hkj)).
    + intros [k' j'] s3 s4 Hs3 H3. apply (Hstep k' j' s3 s4 Hs3 H3).
    + intros [k1 j1] [k2 j2] s3 s4 Hs3 Hq3 H3.
      apply (Hkeep k1 j1 k2 j2 s3 s4 Hs3 Hq3 H3).
  - intros b y s1 s2 Hs1 Hq H12 k j Hkj.
    exact (HQ k j _ _ _ Hs1 (Hq k j Hkj) H12).
Qed.

Lemma register_all_agents ns : forall st n,
  is_Some (agents st !! n) ->
  is_Some (agents (fold_left (fun s m => register m s) ns st) !! n).
Proof.
  induction ns as [|m ns IH]; intros st n Hn; simpl; [exact Hn|].
  apply IH. unfold register. simpl.
  destruct (decide (m = n)) as [->|Hne].
  - rewrite lookup_insert_eq. eauto.
  - rewrite lookup_insert_ne by exact Hne. exact Hn.
Qed.

(** The rounds of [adversarialDebate], with the findings that rounds 2
    to 4 go over. *)
Lemma adversarialDebate_rounds W st st' :
  findings st <> [] ->
  adversarialDebate W st = Ok st' ->
  let sel := prioritize (findings st) in
  exists (ag : gmap string Agent.DynamicAgent) (s1 s2 s3 s4 : DebateState) session,
    let debatingFindings :=
      List.filter
        (fun i => match s1.1 !! i with
                  | Some f => bool_decide (f_status f = debating)
                  | None => false
                  end) sel in
    (forall n, is_Some (agents st !! n) -> is_Some (ag !! n))
    /\ inBatches (round1 W ag) sel (findings st, []) = Ok s1
    /\ inBatches
         (teamRound W 2 ATTACK (teamNames "RedTeamAttacker_" [1; 2; 3])
            red_team attack (attackFinding W 2) history_init_push)
         debatingFindings s1 = Ok s2
    /\ inBatches
         (teamRound W 3 DEFENSE (teamNames "BlueTeamDefender_" [1; 2])
            blue_team defend (defendFinding W) history_push)
         debatingFindings s2 = Ok s3
    /\ inBatches
         (teamRound W 4 DEVILS_ADVOCATE (teamNames "DevilsAdvocate_" [1; 2])
            devils_advocate challenge (attackFinding W 4) history_push)
         debatingFindings s3 = Ok s4
    /\ debates st' = debates st ++ [session]
    /\ s_rounds session = s4.2.
Proof.
  intros Hne H. unfold adversarialDebate in H.
  destruct (Nat.eqb_spec (length (findings st)) 0) as [E|_].
  { destruct (findings st); [contradiction | discriminate]. }
  match type of H with
  | context [fold_left ?f ?ns ?s0] =>
      pose proof (register_all_findings ns s0) as Hreg;
      pose proof (register_all_agents ns s0) as Hag;
      remember (fold_left f ns s0) as st2 eqn:E2
  end.
  cbv zeta in Hreg. clear E2.
  destruct Hreg as (Hf & Hd & _).
  cbn [findings debates agents log with_logs] in Hf, Hd, Hag.
  apply rbind_Ok in H. destruct H as (s1 & H1 & H).
  apply rbind_Ok in H. destruct H as (s2 & H2 & H).
  apply rbind_Ok in H. destruct H as (s3 & H3 & H).
  apply rbind_Ok in H. destruct H as (s4 & H4 & H).
  injection H as <-.
  rewrite Hf in H1.
  eexists (agents st2), s1, s2, s3, s4, _.
  split; [exact Hag|]. split; [exact H1|]. split; [exact H2|].
  split; [exact H3|]. split; [exact H4|].
  split; [rewrite debated_debates, Hd; reflexivity|reflexivity].
Qed.

Variable W : World.

(** Round 1 marks the findings of registered experts as debating. *)
Lemma round1_marks ag store0 refs s' :
  inBatches (round1 W ag) refs (store0, []) = Ok s' ->
  forall p i f, refs !! p = Some i -> store0 !! i = Some f ->
  is_Some (ag !! f_discoveredBy f) ->
  exists f', s'.1 !! i = Some f' /\ f_status f' = debating.
Proof.
  intros H p i f Hp Hf Hreg.
  refine (inBatches_each
            (fun s => bodies s.1 = bodies store0)
            (fun _ i s => forall f, store0 !! i = Some f ->
                          is_Some (ag !! f_discoveredBy f) ->
                          exists f', s.1 !! i = Some f' /\ f_status f' = debating)
            _ refs _ _ (store0, []) s' eq_refl H p i Hp f Hf Hreg).
  - clear. intros k i s s' Hs. unfold round1. simpl.
    destruct (s.1 !! i) as [fi|] eqn:E.
    + destruct (ag !! f_discoveredBy fi) as [a|] eqn:Ea.
      * intros H. inv_await H. injection H as <-. simpl. split.
        -- rewrite bodies_alter by apply body_set_status. exact Hs.
        -- intros f Hf _. eexists. rewrite list_lookup_alter_eq, E.
           split; reflexivity.
      * intros [= <-]. split; [exact Hs|]. intros f Hf [a Ha]. exfalso.
        destruct (bodies_lookup _ _ _ _ Hs Hf) as (f' & Hf' & Hb).
        rewrite E in Hf'. injection Hf' as <-.
        rewrite (body_discoveredBy _ _ Hb) in Ea. congruence.
    + intros [= <-]. split; [exact Hs|]. intros f Hf _. exfalso.
      destruct (bodies_lookup _ _ _ _ Hs Hf) as (f' & Hf' & _). congruence.
  - clear. intros k i k' i' s s' _ Hq H f Hf Hreg.
    destruct (Hq f Hf Hreg) as (f' & Hf' & Hst).
    apply round1_shape in H. destruct H as [->|(r & ->)]; [eauto|].
    simpl. destruct (decide (i' = i)) as [->|Hne].
    + eexists. rewrite list_lookup_alter_eq, Hf'. split; reflexivity.
    + exists f'. rewrite list_lookup_alter_ne by exact Hne. auto.
Qed.

(** The record of round [n] in which the member at position [k] of the
    team speaks about the finding with id [tgt]. *)
Definition spoken (n : nat) (team : list string) (k : nat) (tgt : string)
    (rs : list DebateRound) : Prop :=
  exists r e,
    r ∈ rs /\ r_roundNumber r = n /\ r_entries r = [e]
    /\ e_targetFinding e = Some tgt
    /\ e_speaker e = default EmptyString (team !! (k mod length team)).

Lemma teamRound_speaks n t team role action call push refs s s' :
  (forall e f, f_id (push e f) = f_id f) ->
  inBatches (teamRound W n t team role action call push) refs s = Ok s' ->
  forall p i f, refs !! p = Some i -> s.1 !! i = Some f ->
  spoken n team (p mod BATCH_SIZE) (f_id f) s'.2.
Proof.
  intros Hpush H p i f Hp Hf.
  refine (inBatches_each
            (fun s1 => ids s1.1 = ids s.1)
            (fun k i s1 => forall f, s.1 !! i = Some f ->
                           spoken n team k (f_id f) s1.2)
            _ refs _ _ s s' eq_refl H p i Hp f Hf).
  - intros k j s1 s2 Hs1. unfold teamRound.
    destruct (s1.1 !! j) as [fj|] eqn:E.
    + intros H'. inv_await H'. injection H' as <-. simpl. split.
      * rewrite ids_alter by apply Hpush. exact Hs1.
      * intros f0 Hf0. apply ids_lookup in Hf0. rewrite <- Hs1 in Hf0.
        apply ids_lookup_inv in Hf0. destruct Hf0 as (f1 & Hf1 & <-).
        rewrite E in Hf1. injection Hf1 as <-.
        eexists _, _. split; [apply elem_of_app; right; apply list_elem_of_here|].
        split; [reflexivity|]. split; [reflexivity|]. split; reflexivity.
    + intros [= <-]. split; [exact Hs1|]. intros f0 Hf0. exfalso.
      apply ids_lookup in Hf0. rewrite <- Hs1 in Hf0.
      apply ids_lookup_inv in Hf0. destruct Hf0 as (f1 & Hf1 & _). congruence.
  - intros k j k' j' s1 s2 _ Hq H' f0 Hf0.
    destruct (Hq f0 Hf0) as (r & e & Hr & Hrest).
    exists r, e. split; [|exact Hrest].
    apply teamRound_shape in H'. destruct H' as [->|(e' & r' & _ & ->)];
      [exact Hr|]. simpl. apply elem_of_app. left. exact Hr.
Qed.

Lemma teamRound_grows n t team role action call push refs s s' r :
  inBatches (teamRound W n t team role action call push) refs s = Ok s' ->
  r ∈ s.2 -> r ∈ s'.2.
Proof.
  intros H Hr. revert H.
  apply (inBatches_inv (fun s1 => r ∈ s1.2)); [|exact Hr].
  intros k i s1 s2 _ H1 H'.
  apply teamRound_shape in H'. destruct H' as [->|(e' & r' & _ & ->)];
    [exact H1|]. simpl. apply elem_of_app. left. exact H1.
Qed.

Lemma filter_all {A : Type} (p : A -> bool) l :
  (forall x, In x l -> p x = true) -> List.filter p l = l.
Proof.
  induction l as [|x l IH]; intros H; simpl; [reflexivity|].
  rewrite (H x) by (left; reflexivity). f_equal. apply IH.
  intros y Hy. apply H. right. exact Hy.
Qed.

End Rotation.

Section SessionRecords.

Import Orchestrator.

Variable W : World.

(** What a round record says: its number and type and, of each entry, the
    role, the action and the target. *)
Definition key (r : DebateRound)
  : nat * RoundType * list (DebateRole * DebateAction * option string) :=
  (r_roundNumber r, r_type r,
   map (fun e => (e_role e, e_action e, e_targetFinding e)) (r_entries r)).

(** The record of the stage of kind [kind] on the finding behind [i]. *)
Definition recordOf (store : list VulnerabilityFinding)
    (kind : nat * RoundType * DebateRole * DebateAction) (i : nat)
  : list (nat * RoundType * list (DebateRole * DebateAction * option string)) :=
  match store !! i with
  | Some f => [(kind.1.1.1, kind.1.1.2, [(kind.1.2, kind.2, Some (f_id f))])]
  | None => []
  end.

Lemma for_of_trace {S A B : Type} (P : S -> Prop) (m : S -> list B)
    (w : A -> list B) (body : A -> S -> Result S) xs :
  (forall x s s', P s -> body x s = Ok s' -> P s' /\ m s' = m s ++ w x) ->
  forall s s', P s -> for_of body xs s = Ok s' ->
  P s' /\ m s' = m s ++ flat_map w xs.
Proof.
  intros Hstep. induction xs as [|x xs IH]; intros s s' Hs; simpl.
  - intros [= <-]. rewrite app_nil_r. auto.
  - intros H. inv_await H. destruct (Hstep x s a Hs Ha) as [Pa Ma].
    destruct (IH a s' Pa H) as [Ps' Ms'].
    split; [exact Ps'|]. rewrite Ms', Ma, <- app_assoc. reflexivity.
Qed.

Lemma flat_map_indexed {A B : Type} (w : A -> list B) (xs : list A) :
  flat_map (fun kx : nat * A => w kx.2) (indexed xs) = flat_map w xs.
Proof.
  unfold indexed. generalize 0.
  induction xs as [|x xs IH]; intros a; simpl; [reflexivity|].
  rewrite IH. reflexivity.
Qed.

Lemma flat_map_concat {A B : Type} (w : A -> list B) (ls : list (list A)) :
  flat_map (fun l => flat_map w l) ls = flat_map w (concat ls).
Proof.
  induction ls as [|l ls IH]; simpl; [reflexivity|].
  rewrite IH, flat_map_app. reflexivity.
Qed.

(** A round in which the task of reference [i] appends [w i] to what the
    state [m] holds: the round appends these in the order of the
    references. *)
Lemma inBatches_trace {B : Type} (P : DebateState -> Prop)
    (m : DebateState -> list B) (w : nat -> list B) body refs :
  (forall k i s s', P s -> body (k, i) s = Ok s' -> P s' /\ m s' = m s ++ w i) ->
  forall s s', P s -> inBatches body refs s = Ok s' ->
  P s' /\ m s' = m s ++ flat_map w refs.
Proof.
  intros Hstep s s' Hs H. unfold inBatches in H.
  destruct (for_of_trace P m (fun batch : list nat => flat_map w batch)
              (fun batch s1 => for_of body (indexed batch) s1)
              (batches BATCH_SIZE refs)) with (s := s) (s' := s')
    as [Ps' Ms']; [|exact Hs|exact H|].
  - intros batch s1 s2 Hs1 H12.
    destruct (for_of_trace P m (fun kx : nat * nat => w kx.2) body
                (indexed batch)) with (s := s1) (s' := s2)
      as [P2 M2]; [|exact Hs1|exact H12|].
    + intros [k i] s3 s4 Hs3 H34. exact (Hstep k i s3 s4 Hs3 H34).
    + split; [exact P2|]. rewrite M2, flat_map_indexed. reflexivity.
  - split; [exact Ps'|]. rewrite Ms', flat_map_concat. unfold batches.
    destruct (batchesFrom_concat BATCH_SIZE refs
                ltac:(unfold BATCH_SIZE; lia) (length refs) (le_n _)) as [-> _].
    reflexivity.
Qed.

Lemma key_app rs r : map key (rs ++ [r]) = map key rs ++ [key r].
Proof. rewrite map_app. reflexivity. Qed.

(** What round 1 records of reference [i]: a presentation, if the expert
    of the finding is registered. *)
Definition presented (ag : gmap string Agent.DynamicAgent)
    (store : list VulnerabilityFinding) (i : nat)
  : list (nat * RoundType * list (DebateRole * DebateAction * option string)) :=
  match store !! i with
  | Some f =>
      match ag !! f_discoveredBy f with
      | Some _ => recordOf store (1, PRESENTATION, proposer, present) i
      | None => []
      end
  | None => []
  end.

Lemma round1_records ag store0 refs s s' :
  bodies s.1 = bodies store0 ->
  inBatches (round1 W ag) refs s = Ok s' ->
  bodies s'.1 = bodies store0
  /\ map key s'.2 = map key s.2 ++ flat_map (presented ag store0) refs.
Proof.
  intros Hs H.
  refine (inBatches_trace (fun s1 => bodies s1.1 = bodies store0)
            (fun s1 => map key s1.2) (presented ag store0)
            (round1 W ag) refs _ s s' Hs H).
  clear. intros k i s s' Hs. unfold round1, presented, recordOf. simpl.
  destruct (store0 !! i) as [f0|] eqn:E0.
  - destruct (bodies_lookup _ _ _ _ Hs E0) as (f & Hf & Hb). rewrite Hf.
    rewrite (body_discoveredBy _ _ Hb).
    destruct (ag !! f_discoveredBy f0) as [a|].
    + intros H. inv_await H. injection H as <-. simpl. split.
      * rewrite bodies_alter by apply body_set_status. exact Hs.
      * rewrite key_app. unfold key. simpl. rewrite (body_id _ _ Hb). reflexivity.
    + intros [= <-]. rewrite app_nil_r. auto.
  - destruct (s.1 !! i) as [f|] eqn:E.
    + exfalso. apply (f_equal (fun l => l !! i)) in Hs. unfold bodies in Hs.
      rewrite !list_lookup_fmap, E, E0 in Hs. discriminate.
    + intros [= <-]. rewrite app_nil_r. auto.
Qed.

(** A later round records one entry on every reference. *)
Lemma teamRound_records n t team role action call push store0 refs s s' :
  (forall e f, f_id (push e f) = f_id f) ->
  ids s.1 = ids store0 ->
  inBatches (teamRound W n t team role action call push) refs s = Ok s' ->
  ids s'.1 = ids store0
  /\ map key s'.2
     = map key s.2 ++ flat_map (recordOf store0 (n, t, role, action)) refs.
Proof.
  intros Hpush Hs H.
  refine (inBatches_trace (fun s1 => ids s1.1 = ids store0)
            (fun s1 => map key s1.2) (recordOf store0 (n, t, role, action))
            (teamRound W n t team role action call push) refs _ s s' Hs H).
  clear - Hpush. intros k i s s' Hs. unfold teamRound, recordOf. simpl.
  destruct (s.1 !! i) as [f|] eqn:E.
  - assert (E0 : exists f0, store0 !! i = Some f0 /\ f_id f0 = f_id f).
    { apply ids_lookup_inv. rewrite <- Hs. apply ids_lookup. exact E. }
    destruct E0 as (f0 & -> & Hid).
    intros H. inv_await H. injection H as <-. simpl. split.
    + rewrite ids_alter by apply Hpush. exact Hs.
    + rewrite key_app. unfold key. simpl. rewrite Hid. reflexivity.
  - assert (E0 : store0 !! i = None).
    { destruct (store0 !! i) as [f0|] eqn:E0; [|reflexivity]. exfalso.
      apply ids_lookup in E0. rewrite <- Hs in E0.
      apply ids_lookup_inv in E0. destruct E0 as (f & Hf & _). congruence. }
    rewrite E0. intros [= <-]. rewrite app_nil_r. auto.
Qed.

Lemma bodies_ids a b : bodies a = bodies b -> ids a = ids b.
Proof.
  intros H. unfold ids. apply list_eq. intros i.
  change (map f_id ?l) with (f_id <$> l). rewrite !list_lookup_fmap.
  destruct (b !! i) as [f|] eqn:E.
  - destruct (bodies_lookup _ _ _ _ H E) as (f' & -> & Hb). simpl.
    rewrite (body_id _ _ Hb). reflexivity.
  - destruct (a !! i) as [f'|] eqn:E'; [|reflexivity]. exfalso.
    apply (f_equal (fun l => l !! i)) in H. unfold bodies in H.
    rewrite !list_lookup_fmap, E, E' in H. discriminate.
Qed.

Lemma recordOf_length store kind refs :
  (forall i, In i refs -> i < length store) ->
  length (flat_map (recordOf store kind) refs) = length refs.
Proof.
  induction refs as [|i refs IH]; intros Hin; simpl; [reflexivity|].
  rewrite length_app, IH by (intros j Hj; apply Hin; right; exact Hj).
  unfold recordOf.
  destruct (lookup_lt_is_Some_2 store i (Hin i (or_introl eq_refl))) as [f ->].
  reflexivity.
Qed.

(** The records of a debate in which the expert of every selected finding
    is registered. *)
Lemma session_records st st' session :
  findings st <> [] ->
  adversarialDebate W st = Ok st' ->
  debates st' = debates st ++ [session] ->
  (forall j g, j ∈ prioritize (findings st) -> findings st !! j = Some g ->
               is_Some (agents st !! f_discoveredBy g)) ->
  map key (s_rounds session)
  ≡ₚ flat_map (fun kind => flat_map (recordOf (findings st) kind)
                             (prioritize (findings st)))
       roundKinds
  /\ length (s_rounds session) = 4 * length (prioritize (findings st)).
Proof.
  intros Hne H Hds Hreg.
  destruct (adversarialDebate_rounds W st st' Hne H)
    as (ag & s1 & s2 & s3 & s4 & session' & Hag & H1 & H2 & H3 & H4 & Hd' & Hr').
  cbv zeta in *.
  set (store := findings st) in *. set (selected := prioritize store) in *.
  assert (Hsame : session' = session).
  { rewrite Hds in Hd'. apply app_inj_tail in Hd'. destruct Hd' as [_ Hd'].
    symmetry. exact Hd'. }
  subst session'.
  assert (Hall : List.filter
                   (fun i => match s1.1 !! i with
                             | Some f => bool_decide (f_status f = debating)
                             | None => false
                             end) selected = selected).
  { apply filter_all. intros j Hj.
    apply list_elem_of_In in Hj.
    destruct (proj1 (list_elem_of_lookup _ _) Hj) as (q & Hq).
    assert (Hlt : j < length store).
    { apply prioritize_inRange. exact Hj. }
    destruct (lookup_lt_is_Some_2 _ _ Hlt) as [g Hg].
    destruct (round1_marks W ag _ _ _ H1 q j g Hq Hg) as (g' & Hg' & Hst).
    { apply Hag. exact (Hreg j g Hj Hg). }
    rewrite Hg'. apply bool_decide_eq_true. exact Hst. }
  rewrite Hall in H2, H3, H4.
  destruct (round1_records ag store selected (store, []) s1 eq_refl H1)
    as [B1 K1].
  destruct (teamRound_records _ _ _ _ _ _ _ store selected s1 s2
              ltac:(intros; apply f_id_history_init_push)
              (bodies_ids _ _ B1) H2) as [B2 K2].
  destruct (teamRound_records _ _ _ _ _ _ _ store selected s2 s3
              ltac:(intros; apply f_id_history_push) B2 H3) as [B3 K3].
  destruct (teamRound_records _ _ _ _ _ _ _ store selected s3 s4
              ltac:(intros; apply f_id_history_push) B3 H4) as [B4 K4].
  assert (E1 : flat_map (presented ag store) selected
               = flat_map (recordOf store (1, PRESENTATION, proposer, present))
                   selected).
  { rewrite !flat_map_concat_map. f_equal. apply map_ext_in.
    intros i Hi. unfold presented.
    destruct (store !! i) as [g|] eqn:Eg; [|unfold recordOf; rewrite Eg; reflexivity].
    destruct (Hag _ (Hreg i g (proj2 (list_elem_of_In _ _) Hi) Eg)) as [a ->].
    reflexivity. }
  assert (Hkeys : map key (s_rounds session)
                  = flat_map (fun kind => flat_map (recordOf store kind) selected)
                      roundKinds).
  { rewrite Hr', K4, K3, K2, K1, E1. simpl. rewrite app_nil_r, <- !app_assoc.
    reflexivity. }
  split; [rewrite Hkeys; reflexivity|].
  rewrite <- (length_map key), Hkeys. simpl.
  rewrite !length_app, !recordOf_length; simpl;
    try (intros i Hi; apply prioritize_inRange, list_elem_of_In; exact Hi).
  lia.
Qed.

End SessionRecords.

(** X11. What the debate stage of the orchestrator records and decides.
    Every round record of the session it appends has exactly one entry and
    the outcome CONTINUES, and the entry is a presentation by the proposer
    (round 1), an attack by the red team (2), a defense by the blue team (3)
    or a challenge by a devil's advocate (4). When the experts of all
    selected findings are registered, the session holds one such record per
    selected finding and stage, targeting the finding, and no other. The
    defender's answer is never read as a concession, and the stage decides
    nothing: the status of a finding afterwards is the one it had,
    'debating' or 'proposed'. *)
Theorem orchestrator_debate_records_and_decides_nothing W st st' :
  Orchestrator.findings st <> [] ->
  Orchestrator.adversarialDebate W st = Ok st' ->
  let store := Orchestrator.findings st in
  let selected := Orchestrator.prioritize store in
  (exists session,
     Orchestrator.debates st' = Orchestrator.debates st ++ [session]
     /\ Forall singleEntry (s_rounds session)
     /\ (forall r e, r ∈ s_rounds session -> e ∈ r_entries r ->
                     e_action e <> concede)
     /\ ((forall j g, j ∈ selected -> store !! j = Some g ->
                      is_Some (Orchestrator.agents st !! f_discoveredBy g)) ->
         map key (s_rounds session)
         ≡ₚ flat_map (fun kind => flat_map (recordOf store kind) selected)
              roundKinds
         /\ length (s_rounds session) = 4 * length selected))
  /\ forall j f', Orchestrator.findings st' !! j = Some f' ->
       exists f, store !! j = Some f
                 /\ (f_status f' = f_status f \/ f_status f' = debating
                     \/ f_status f' = proposed).
Proof.
  intros Hne H store selected.
  destruct (adversarialDebate_shape W st st' Hne H)
    as (ag0 & s1 & s2 & s3 & s4 & refs & session
        & H1 & Hrefs & H2 & H3 & H4 & Hfs & Hds & _ & Hrounds & _).
  assert (I0 : Forall singleEntry (Orchestrator.findings st, @nil DebateRound).2
               /\ statusKept (Orchestrator.findings st)
                    (Orchestrator.findings st, @nil DebateRound)).
  { split; [constructor|]. intros j f' Hf'. exists f'. auto. }
  pose proof (round1_session _ _ _ _ _ _ H1 I0) as I1.
  assert (I2 : Forall singleEntry s2.2
               /\ statusKept (Orchestrator.findings st) s2).
  { refine (teamRound_session _ _ _ _ _ _ _ _ _ _ _ _ _ _ H2 I1);
      [right; left|reflexivity]. }
  assert (I3 : Forall singleEntry s3.2
               /\ statusKept (Orchestrator.findings st) s3).
  { refine (teamRound_session _ _ _ _ _ _ _ _ _ _ _ _ _ _ H3 I2);
      [right; right; left|apply f_status_history_push]. }
  assert (I4 : Forall singleEntry s4.2
               /\ statusKept (Orchestrator.findings st) s4).
  { refine (teamRound_session _ _ _ _ _ _ _ _ _ _ _ _ _ _ H4 I3);
      [right; right; right; left|apply f_status_history_push]. }
  destruct I4 as [Hr Hk]. split.
  - exists session. split; [exact Hds|]. split; [rewrite Hrounds; exact Hr|].
    split.
    { intros r e Hin He. rewrite Hrounds in Hin. rewrite Forall_forall in Hr.
      destruct (Hr r Hin) as (e0 & He0 & _ & _ & Hkind).
      rewrite He0 in He. apply list_elem_of_singleton in He. subst e0.
      unfold roundKinds in Hkind.
      repeat (apply elem_of_cons in Hkind;
              destruct Hkind as [Hkind|Hkind];
              [injection Hkind as _ _ _ ->; discriminate|]).
      apply elem_of_nil in Hkind. contradiction. }
    intros Hreg.
    exact (session_records W st st' session Hne H Hds Hreg).
  - intros j f' Hf'. rewrite Hfs in Hf'. unfold Orchestrator.markUndebated in Hf'.
    rewrite list_lookup_imap in Hf'.
    destruct (s4.1 !! j) as [f4|] eqn:E4; [|discriminate]. simpl in Hf'.
    destruct (Hk j f4 E4) as (f & Hf & Hst). exists f. split; [exact Hf|].
    destruct (bool_decide _) in Hf'; injection Hf' as <-.
    + destruct Hst; auto.
    + right. right. reflexivity.
Qed.

Lemma orchestrator_debate_records_and_decides_nothing_witness :
  exists st' session,
    Orchestrator.adversarialDebate Sample.world Sample.single = Ok st'
    /\ Orchestrator.debates st' = [session]
    /\ length (s_rounds session) = 4
    /\ map key (s_rounds session)
       ≡ₚ [ (1, PRESENTATION, [(proposer, present, Some "ReentrancyExpert-1-0")]);
            (2, ATTACK, [(red_team, attack, Some "ReentrancyExpert-1-0")]);
            (3, DEFENSE, [(blue_team, defend, Some "ReentrancyExpert-1-0")]);
            (4, DEVILS_ADVOCATE,
             [(devils_advocate, challenge, Some "ReentrancyExpert-1-0")]) ]
    /\ Forall singleEntry (s_rounds session).
Proof.
  assert (Hrun : exists st' session,
            Orchestrator.adversarialDebate Sample.world Sample.single = Ok st'
            /\ Orchestrator.debates st' = [session]).
  { eexists _, _. split; [vm_compute; reflexivity|]. reflexivity. }
  destruct Hrun as (st' & session & H & Hd).
  destruct (orchestrator_debate_records_and_decides_nothing
              Sample.world Sample.single st') as ((s & Hs & Hr & _ & Hrec) & _).
  - discriminate.
  - exact H.
  - rewrite Hd in Hs. simpl in Hs. injection Hs as <-.
    destruct Hrec as [Hperm Hlen].
    { intros j g Hj Hg. destruct j as [|j]; [|discriminate].
      injection Hg as <-. vm_compute. eexists. reflexivity. }
    exists st', session. split; [exact H|]. split; [exact Hd|].
    split; [exact Hlen|]. split; [exact Hperm|]. exact Hr.
Defined.



(** X17. Who attacks which finding. In round 2 the attacker of a finding
    is chosen by the finding's position within its batch of five, not by its
    position in the selection: when the experts of all selected findings are
    registered, the finding at position [p] of the selection is attacked by
    red-team member number [(p mod 5) mod 3 + 1]. Members 1 and 2 thus get
    two findings of every full batch and member 3 only one. *)
Theorem red_team_rotation W st st' p i f :
  Orchestrator.adversarialDebate W st = Ok st' ->
  (forall j g, j ∈ Orchestrator.prioritize (Orchestrator.findings st) ->
               Orchestrator.findings st !! j = Some g ->
               is_Some (Orchestrator.agents st !! f_discoveredBy g)) ->
  Orchestrator.prioritize (Orchestrator.findings st) !! p = Some i ->
  Orchestrator.findings st !! i = Some f ->
  exists session r e,
    Orchestrator.debates st' = Orchestrator.debates st ++ [session]
    /\ r ∈ s_rounds session
    /\ r_roundNumber r = 2
    /\ r_entries r = [e]
    /\ e_targetFinding e = Some (f_id f)
    /\ e_speaker e = "RedTeamAttacker_" +:+ pretty ((p mod 5) mod 3 + 1).
Proof.
  intros H Hreg Hp Hf.
  assert (Hne : Orchestrator.findings st <> []).
  { intros E. rewrite E in Hf. discriminate. }
  destruct (adversarialDebate_rounds W st st' Hne H)
    as (ag & s1 & s2 & s3 & s4 & session & Hag & H1 & H2 & H3 & H4 & Hd & Hr).
  cbv zeta in *.
  set (sel := Orchestrator.prioritize (Orchestrator.findings st)) in *.
  assert (Hall : List.filter
                   (fun i => match s1.1 !! i with
                             | Some f => bool_decide (f_status f = debating)
                             | None => false
                             end) sel = sel).
  { apply filter_all. intros j Hj.
    apply list_elem_of_In in Hj.
    destruct (proj1 (list_elem_of_lookup _ _) Hj) as (q & Hq).
    assert (Hlt : j < length (Orchestrator.findings st)).
    { apply prioritize_inRange. exact Hj. }
    destruct (lookup_lt_is_Some_2 _ _ Hlt) as [g Hg].
    destruct (round1_marks W ag _ _ _ H1 q j g Hq Hg) as (g' & Hg' & Hst).
    { apply Hag. exact (Hreg j g Hj Hg). }
    rewrite Hg'. apply bool_decide_eq_true. exact Hst. }
  rewrite Hall in H2, H3, H4.
  assert (Hf1 : exists f1, s1.1 !! i = Some f1 /\ f_id f1 = f_id f).
  { apply ids_lookup_inv. rewrite (round1_ids _ _ _ _ _ H1). simpl.
    apply ids_lookup. exact Hf. }
  destruct Hf1 as (f1 & Hf1 & Hid).
  destruct (teamRound_speaks W _ _ _ _ _ _ _ _ _ _
              ltac:(intros; apply f_id_history_init_push) H2 p i f1 Hp Hf1)
    as (r & e & Hin & Hn & He & Ht & Hs).
  exists session, r, e. split; [exact Hd|]. rewrite Hr.
  split.
  { eapply teamRound_grows; [exact H4|].
    eapply teamRound_grows; [exact H3|]. exact Hin. }
  split; [exact Hn|]. split; [exact He|]. split; [rewrite <- Hid; exact Ht|].
  rewrite Hs. unfold Orchestrator.BATCH_SIZE, Orchestrator.teamNames. simpl length.
  assert (Hlt : (p mod 5) mod 3 < 3) by (apply Nat.mod_upper_bound; lia).
  destruct ((p mod 5) mod 3) as [|[|[|k]]]; try reflexivity. lia.
Qed.

Lemma red_team_rotation_witness :
  exists st' session r e,
    Orchestrator.adversarialDebate Sample.world Sample.analysed = Ok st'
    /\ Orchestrator.prioritize (Orchestrator.findings Sample.analysed) !! 7 = Some 13
    /\ Orchestrator.debates st' = [session]
    /\ r ∈ s_rounds session
    /\ r_roundNumber r = 2
    /\ r_entries r = [e]
    /\ e_targetFinding e = Some "ReentrancyExpert-1-13"
    /\ e_speaker e = "RedTeamAttacker_3".
Proof.
  assert (Hrun : exists st',
            Orchestrator.adversarialDebate Sample.world Sample.analysed = Ok st').
  { eexists. vm_compute. reflexivity. }
  destruct Hrun as (st' & H).
  destruct (red_team_rotation Sample.world Sample.analysed st' 7 13
              (Sample.candidate 13) H) as (session & r & e & Hd & Hrest).
  - intros j g Hj Hg.
    assert (Hdisc : f_discoveredBy g = "ReentrancyExpert").
    { apply list_elem_of_lookup_2, list_elem_of_In in Hg.
      apply (in_map_iff Sample.candidate (seq 0 17) g) in Hg.
      destruct Hg as (k & <- & _). reflexivity. }
    rewrite Hdisc. vm_compute. eexists. reflexivity.
  - vm_compute. reflexivity.
  - reflexivity.
  - exists st', session, r, e. split; [exact H|].
    split; [vm_compute; reflexivity|]. split; [exact Hd|]. exact Hrest.
Defined.

(** ** The fenced block and the concession pattern *)

Section Fence.

Lemma prefix_drop p : forall s,
  String.prefix p s = true -> s = p +:+ JS.drop (String.length p) s.
Proof.
  induction p as [|a p IH]; intros s H; [destruct s; reflexivity|].
  destruct s as [|c s]; [discriminate|]. simpl in H.
  destruct (ascii_dec a c) as [->|]; [|discriminate].
  rewrite append_cons. simpl. f_equal. apply IH. exact H.
Qed.

Lemma prefix_app p : forall a b,
  String.prefix p a = true -> String.prefix p (a +:+ b) = true.
Proof.
  induction p as [|x p IH]; intros a b H; [destruct (a +:+ b); reflexivity|].
  destruct a as [|c a]; [discriminate|]. simpl in H. rewrite append_cons. simpl.
  destruct (ascii_dec x c); [|discriminate]. apply IH. exact H.
Qed.

Lemma splitAt_Some pat : forall s a b,
  JS.splitAt pat s = Some (a, b) -> s = a +:+ pat +:+ b.
Proof.
  induction s as [|c s IH]; intros a b.
  - cbn [JS.splitAt]. destruct (String.prefix pat EmptyString) eqn:E; [|discriminate].
    intros H. injection H as <- <-. rewrite append_nil_l. apply (prefix_drop pat _ E).
  - cbn [JS.splitAt]. destruct (String.prefix pat (String c s)) eqn:E.
    + intros H. injection H as <- <-. rewrite append_nil_l.
      apply (prefix_drop pat _ E).
    + destruct (JS.splitAt pat s) as [[a' b']|]; [|discriminate].
      intros H. injection H as <- <-. rewrite append_cons. f_equal.
      apply IH. reflexivity.
Qed.

(** The text before the first occurrence of a pattern holds no
    occurrence of it. *)
Lemma splitAt_first pat : pat <> EmptyString -> forall s a b,
  JS.splitAt pat s = Some (a, b) -> JS.splitAt pat a = None.
Proof.
  intros Hpat.
  assert (Hnil : JS.splitAt pat EmptyString = None).
  { simpl. destruct pat; [contradiction|reflexivity]. }
  induction s as [|c s IH]; intros a b.
  - cbn [JS.splitAt]. destruct (String.prefix pat EmptyString); [|discriminate].
    intros H. injection H as <- <-. exact Hnil.
  - cbn [JS.splitAt]. destruct (String.prefix pat (String c s)) eqn:E.
    + intros H. injection H as <- <-. exact Hnil.
    + destruct (JS.splitAt pat s) as [[a' b']|] eqn:Es; [|discriminate].
      intros H. injection H as <- <-. cbn [JS.splitAt].
      rewrite (IH a' b' eq_refl).
      destruct (String.prefix pat (String c a')) eqn:E'; [|reflexivity].
      apply splitAt_Some in Es. rewrite Es in E.
      rewrite <- append_cons in E.
      rewrite (prefix_app pat _ _ E') in E. discriminate.
Qed.

(** White space only. *)
Fixpoint blank (s : string) : bool :=
  match s with
  | EmptyString => true
  | String c s' => JS.isWhiteSpace c && blank s'
  end.

Lemma trimStart_split s :
  exists ws, s = ws +:+ JS.trimStart s /\ blank ws = true.
Proof.
  induction s as [|c s (ws & IH & Hws)]; [exists EmptyString; auto|].
  simpl. destruct (JS.isWhiteSpace c) eqn:E.
  - exists (String c ws). rewrite append_cons, <- IH. simpl. rewrite E. auto.
  - exists EmptyString. auto.
Qed.

Lemma trimStart_head s :
  match JS.trimStart s with
  | EmptyString => True
  | String c _ => JS.isWhiteSpace c = false
  end.
Proof.
  induction s as [|c s IH]; simpl; [exact I|].
  destruct (JS.isWhiteSpace c) eqn:E; [exact IH|exact E].
Qed.

End Fence.

(** X18. What the fence pattern of analyzeStructured captures. When the
    response holds a fenced block, the text is: anything without a fence,
    the opening fence, an optional tag "json" and white space, the captured
    block, the closing fence, and the rest. The captured block holds no
    fence and does not begin with white space; a language tag other than
    "json" is not stripped but is part of the block. *)
Theorem fence_capture s block :
  JS.matchFence s = Some block ->
  exists before tag ws after,
    s = before +:+ "```" +:+ tag +:+ ws +:+ block +:+ "```" +:+ after
    /\ JS.splitAt "```" before = None
    /\ (tag = EmptyString \/ tag = "json")
    /\ blank ws = true
    /\ JS.splitAt "```" block = None
    /\ match block with
       | EmptyString => True
       | String c _ => JS.isWhiteSpace c = false
       end.
Proof.
  unfold JS.matchFence. intros H.
  destruct (JS.splitAt "```" s) as [[before rest]|] eqn:E1; [|discriminate].
  set (rest1 := if String.prefix "json" rest then JS.drop 4 rest else rest) in *.
  destruct (JS.splitAt "```" (JS.trimStart rest1)) as [[captured after]|] eqn:E2;
    [|discriminate].
  injection H as <-.
  assert (Htag : exists tag, rest = tag +:+ rest1
                             /\ (tag = EmptyString \/ tag = "json")).
  { unfold rest1. destruct (String.prefix "json" rest) eqn:Ep.
    - exists "json". split; [apply (prefix_drop "json" _ Ep)|auto].
    - exists EmptyString. auto. }
  destruct Htag as (tag & Hrest & Htag).
  destruct (trimStart_split rest1) as (ws & Hws & Hblank).
  pose proof (trimStart_head rest1) as Hhead.
  pose proof (splitAt_first "```" ltac:(discriminate) _ _ _ E1) as Hb.
  pose proof (splitAt_first "```" ltac:(discriminate) _ _ _ E2) as Hc.
  apply splitAt_Some in E1. apply splitAt_Some in E2.
  exists before, tag, ws, after.
  split.
  { rewrite E1, Hrest, Hws, E2. reflexivity. }
  split; [exact Hb|]. split; [exact Htag|]. split; [exact Hblank|].
  split; [exact Hc|].
  rewrite E2 in Hhead. destruct captured; [exact I|exact Hhead].
Qed.

Lemma fence_capture_witness :
  exists block before tag ws after,
    JS.matchFence "Here: ```json [1] ``` done" = Some block
    /\ block = "[1] "
    /\ "Here: ```json [1] ``` done"
       = before +:+ "```" +:+ tag +:+ ws +:+ block +:+ "```" +:+ after
    /\ JS.splitAt "```" block = None.
Proof.
  destruct (fence_capture "Here: ```json [1] ``` done" "[1] " eq_refl)
    as (before & tag & ws & after & H1 & _ & _ & _ & H5 & _).
  exists "[1] ", before, tag, ws, after. auto.
Defined.

Section Concede.

(** Is the character before the end of [a] a word character? [prev]
    answers for the empty text. *)
Fixpoint endsInWord (prev : bool) (a : string) : bool :=
  match a with
  | EmptyString => prev
  | String c a' => endsInWord (JS.isWordChar c) a'
  end.

Lemma testWords_context ws a : forall prev s,
  JS.testWords ws (endsInWord prev a) s = true ->
  JS.testWords ws prev (a +:+ s) = true.
Proof.
  induction a as [|c a IH]; intros prev s H; [exact H|].
  rewrite append_cons. simpl. apply orb_true_iff. right.
  apply IH. exact H.
Qed.

(** Every character of [w] is its own lower-case form. *)
Fixpoint lowered (w : string) : bool :=
  match w with
  | EmptyString => true
  | String c w' => Ascii.eqb c (JS.toLower c) && lowered w'
  end.

Lemma startsWithWord_self w b :
  lowered w = true -> JS.startsWithWord EmptyString b = true ->
  JS.startsWithWord w (w +:+ b) = true.
Proof.
  intros Hw Hb. induction w as [|c w IH]; [rewrite append_nil_l; exact Hb|].
  simpl in Hw. apply andb_true_iff in Hw. destruct Hw as [Hc Hw].
  rewrite append_cons. simpl. rewrite Hc. simpl. apply IH. exact Hw.
Qed.

Lemma testWords_here ws s :
  existsb (fun w => JS.startsWithWord w s) ws = true ->
  JS.testWords ws false s = true.
Proof. intros H. destruct s; simpl; rewrite H; reflexivity. Qed.

End Concede.

(** X19. The concession pattern looks for its phrases as whole words
    anywhere in the answer and reads nothing else: whatever comes before
    (a negation, say) and after, an answer that holds one of the phrases
    between characters that are not word characters counts as a
    concession. *)
Theorem concession_found_in_any_context a w b :
  In w ["concede"; "accept"; "valid point"; "they're right";
        "cannot defend"; "unable to defend"] ->
  endsInWord false a = false ->
  match b with
  | EmptyString => True
  | String c _ => JS.isWordChar c = false
  end ->
  Agent.concedesPattern_test (a +:+ w +:+ b) = true.
Proof.
  intros Hw Ha Hb. unfold Agent.concedesPattern_test.
  apply testWords_context. rewrite Ha. apply testWords_here.
  apply existsb_exists. exists w. split; [exact Hw|].
  apply startsWithWord_self.
  - simpl in Hw.
    destruct Hw as [<-|[<-|[<-|[<-|[<-|[<-|[]]]]]]]; reflexivity.
  - destruct b; [reflexivity|]. simpl. rewrite Hb. reflexivity.
Qed.

Lemma concession_found_in_any_context_witness :
  Agent.concedesPattern_test ("I do not " +:+ "concede" +:+ " anything.") = true.
Proof.
  apply concession_found_in_any_context.
  - left. reflexivity.
  - reflexivity.
  - reflexivity.
Defined.


(** ** The tribunal over several exploits *)

Lemma combine_seq_nth_inv {A : Type} (xs : list A) : forall a p i y,
  combine (seq a (length xs)) xs !! p = Some (i, y) ->
  i = a + p /\ xs !! p = Some y.
Proof.
  induction xs as [|x xs IH]; intros a [|p] i y; simpl; try discriminate.
  - intros [= <- <-]. split; [lia|reflexivity].
  - intros H. apply IH in H. destruct H as [-> H]. split; [lia|exact H].
Qed.

Section TribunalRun.

Import Orchestrator TribunalExploits.

Variable config : Tribunal.TribunalConfig.
Variable store : list VulnerabilityFinding.
Variable runVerifier : nat -> nat -> Result VerificationVote.

(** The flag that the verdict [r] puts on an exploit. *)
Definition flagged (r : VerificationResult) (x : ForgedExploit) : ForgedExploit :=
  set_verified (bool_decide (consensus r = PASS)) x.

(** The exploits of [done] have been verified and flagged. *)
Definition verified (done : list (nat * ForgedExploit))
    (xs xs' : list ForgedExploit) (rs : list VerificationResult) : Prop :=
  length rs = length done
  /\ length xs' = length xs
  /\ (forall p k x, done !! p = Some (k, x) ->
        exists r, rs !! p = Some r
                  /\ verifyExploit config store runVerifier (k, x) = Ok r
                  /\ xs' !! k = flagged r <$> xs !! k)
  /\ (forall j, j ∉ map fst done -> xs' !! j = xs !! j).

Lemma verifyFrom_run todo : forall results xs out xs',
  verifyFrom config store runVerifier todo results xs = (out, xs') ->
  NoDup (map fst todo) ->
  exists done rs,
    verified done xs xs' rs
    /\ match out with
       | Ok all => done = todo /\ all = results ++ rs
       | Throw e =>
           exists kx rest,
             todo = done ++ kx :: rest
             /\ verifyExploit config store runVerifier kx = Throw e
       end.
Proof.
  induction todo as [|[k x] todo IH]; intros results xs out xs'; simpl.
  - intros [= <- <-] _. exists [], []. rewrite app_nil_r.
    split; [|auto]. split; [reflexivity|]. split; [reflexivity|].
    split; [|reflexivity].
    intros p k x Hp. discriminate.
  - intros H Hnd. apply NoDup_cons in Hnd. destruct Hnd as [Hk Hnd].
    destruct (verifyExploit config store runVerifier (k, x)) as [r|e] eqn:Ev.
    + destruct (IH _ _ _ _ H Hnd)
        as (done & rs & (Hlen & Hxs & Heach & Hother) & Hout).
      rewrite length_alter in Hxs.
      assert (Hkd : out = out -> k ∉ map fst done).
      { intros _ Hin. apply Hk. destruct out as [all|e].
        - destruct Hout as [-> _]. exact Hin.
        - destruct Hout as (kx & rest & -> & _).
          rewrite map_app. apply elem_of_app. left. exact Hin. }
      exists ((k, x) :: done), (r :: rs). split.
      * split; [simpl; f_equal; exact Hlen|]. split; [exact Hxs|]. split.
        -- intros [|p] k' x' Hp; simpl in Hp.
           ++ injection Hp as <- <-. exists r. split; [reflexivity|].
              split; [exact Ev|].
              rewrite (Hother k (Hkd eq_refl)). apply list_lookup_alter_eq.
           ++ destruct (Heach p k' x' Hp) as (r' & Hr' & Hv' & Hx').
              exists r'. split; [exact Hr'|]. split; [exact Hv'|].
              rewrite Hx'. rewrite list_lookup_alter_ne; [reflexivity|].
              intros ->. apply (Hkd eq_refl).
              apply list_elem_of_fmap. exists (k', x').
              split; [reflexivity|]. eapply list_elem_of_lookup_2. exact Hp.
        -- intros j Hj. rewrite Hother.
           ++ apply list_lookup_alter_ne. intros ->. apply Hj. left.
           ++ intros Hj'. apply Hj. right. exact Hj'.
      * destruct out as [all|e].
        -- destruct Hout as [-> ->]. split; [reflexivity|].
           rewrite <- app_assoc. reflexivity.
        -- destruct Hout as (kx & rest & -> & Hfail).
           exists kx, rest. split; [reflexivity|exact Hfail].
    + injection H as <- <-. exists [], []. split.
      * split; [reflexivity|]. split; [reflexivity|]. split; [|reflexivity].
        intros p k' x' Hp. discriminate.
      * exists (k, x), todo. split; [reflexivity|exact Ev].
Qed.

End TribunalRun.

(** X20. verifyAll flags the exploits as it goes. When it resolves, it
    returns one result per exploit, in order, and every exploit carries the
    flag of its own verdict (verified exactly when the consensus is PASS).
    When the verification of some exploit rejects, verifyAll rejects with
    that error and returns no result at all, but the exploits before that
    one have already been flagged with their verdicts, and the others are
    untouched. *)
Theorem verifyAll_flags_as_it_goes config store runVerifier exploits out exploits' :
  TribunalExploits.verifyAll config store runVerifier exploits = (out, exploits') ->
  length exploits' = length exploits
  /\ match out with
     | Ok results =>
         length results = length exploits
         /\ forall k x, exploits !! k = Some x ->
              exists r,
                results !! k = Some r
                /\ TribunalExploits.verifyExploit config store runVerifier (k, x)
                   = Ok r
                /\ exploits' !! k = Some (flagged r x)
     | Throw e =>
         exists k x,
           exploits !! k = Some x
           /\ TribunalExploits.verifyExploit config store runVerifier (k, x)
              = Throw e
           /\ (forall j y, j < k -> exploits !! j = Some y ->
                 exists r,
                   TribunalExploits.verifyExploit config store runVerifier (j, y)
                   = Ok r
                   /\ exploits' !! j = Some (flagged r y))
           /\ (forall j, k <= j -> exploits' !! j = exploits !! j)
     end.
Proof.
  unfold TribunalExploits.verifyAll. intros H.
  apply verifyFrom_run in H;
    [|unfold Orchestrator.indexed; rewrite combine_seq_fst; apply NoDup_seq].
  destruct H as (done & rs & (Hlen & Hxs & Heach & Hother) & Hout).
  split; [exact Hxs|].
  destruct out as [results|e].
  - destruct Hout as [-> ->]. simpl.
    split; [rewrite Hlen; apply indexed_length|].
    intros k x Hx.
    destruct (Heach k k x (combine_seq_nth exploits 0 k x Hx))
      as (r & Hr & Hv & Hflag).
    exists r. split; [exact Hr|]. split; [exact Hv|].
    rewrite Hflag, Hx. reflexivity.
  - destruct Hout as ([k x] & rest & Hsplit & Hfail).
    assert (Hk : Orchestrator.indexed exploits !! length done = Some (k, x)).
    { rewrite Hsplit. apply list_lookup_middle. reflexivity. }
    apply (combine_seq_nth_inv exploits 0) in Hk. destruct Hk as [-> Hx].
    simpl in *.
    exists (length done), x. split; [exact Hx|]. split; [exact Hfail|]. split.
    + intros j y Hj Hy.
      assert (Hd : done !! j = Some (j, y)).
      { pose proof (combine_seq_nth exploits 0 j y Hy) as Hi.
        fold (Orchestrator.indexed exploits) in Hi.
        rewrite Hsplit, lookup_app_l in Hi by exact Hj. exact Hi. }
      destruct (Heach j j y Hd) as (r & _ & Hv & Hflag).
      exists r. split; [exact Hv|]. rewrite Hflag, Hy. reflexivity.
    + intros j Hj. apply Hother. intros Hin.
      apply list_elem_of_fmap in Hin. destruct Hin as ([i y] & -> & Hin).
      apply list_elem_of_lookup in Hin. destruct Hin as (p & Hp).
      pose proof (lookup_lt_Some _ _ _ Hp) as Hlt.
      assert (Hi : Orchestrator.indexed exploits !! p = Some (i, y)).
      { rewrite Hsplit, lookup_app_l by exact Hlt. exact Hp. }
      apply (combine_seq_nth_inv exploits 0) in Hi. destruct Hi as [-> _].
      simpl in Hj. lia.
Qed.

Lemma verifyAll_flags_as_it_goes_witness :
  exists exploits' x0,
    TribunalExploits.verifyAll Tribunal.defaultConfig [Sample.reentrancy]
      Cases.failingOnSecond Cases.twoExploits = (Throw "timeout", exploits')
    /\ exploits' !! 0 = Some x0
    /\ Orchestrator.ex_verified x0 = true
    /\ length exploits' = 2
    /\ exists k x,
         Cases.twoExploits !! k = Some x
         /\ TribunalExploits.verifyExploit Tribunal.defaultConfig
              [Sample.reentrancy] Cases.failingOnSecond (k, x) = Throw "timeout"
         /\ (forall j y, j < k -> Cases.twoExploits !! j = Some y ->
               exists r,
                 TribunalExploits.verifyExploit Tribunal.defaultConfig
                   [Sample.reentrancy] Cases.failingOnSecond (j, y) = Ok r
                 /\ exploits' !! j = Some (flagged r y))
         /\ (forall j, k <= j -> exploits' !! j = Cases.twoExploits !! j).
Proof.
  eexists _, _. split; [vm_compute; reflexivity|].
  split; [reflexivity|]. split; [reflexivity|].
  apply (verifyAll_flags_as_it_goes Tribunal.defaultConfig [Sample.reentrancy]
           Cases.failingOnSecond Cases.twoExploits (Throw "timeout")).
  vm_compute. reflexivity.
Defined.

(** ** The hunter: what it makes of the state that hunt returns *)

Section HunterResults.

Import Orchestrator Hunter.

Definition isSubmission (e : Event) : bool :=
  match e with
  | onSubmission _ _ _ _ _ _ => true
  | _ => false
  end.

(** The range that a bounty program pays for a severity. *)
Definition rangeFor (bounty : PrioritizedBounty) (s : Severity) : option Range :=
  match s with
  | CRITICAL => Some (sr_critical (b_severity bounty))
  | HIGH => Some (sr_high (b_severity bounty))
  | MEDIUM => Some (sr_medium (b_severity bounty))
  | LOW => Some (sr_low (b_severity bounty))
  | INFORMATIONAL => None
  end.

Lemma midpoint_within r :
  (rg_min r <= rg_max r)%Q ->
  (rg_min r <= midpoint r)%Q /\ (midpoint r <= rg_max r)%Q.
Proof.
  unfold midpoint, Qdiv. change (/ 2)%Q with (1 # 2)%Q. intros H. split; lra.
Qed.

Variable F : Formats.
Variable minConfidenceToSubmit : Q.
Variable bounty : PrioritizedBounty.
Variable st : PipelineState.
Variable sy : PopeSynthesis nat nat.

Definition submissionOf (vuln : VulnerabilityFinding) : Event :=
  onSubmission (b_platform bounty) (b_name bounty) (f_title vuln)
    (f_severity vuln) "pending" (estimateBountyValue bounty vuln).

Lemma queue_submission vuln :
  List.filter isSubmission (queue F minConfidenceToSubmit bounty st sy vuln)
  = [submissionOf vuln].
Proof.
  unfold queue. rewrite List.filter_app. simpl.
  destruct (autoSubmits _ _ _ _); reflexivity.
Qed.

Lemma queued_submissions refs :
  (forall i, In i refs -> is_Some (findings st !! i)) ->
  exists vulns,
    Forall2 (fun i v => findings st !! i = Some v) refs vulns
    /\ List.filter isSubmission
         (flat_map
            (fun i =>
               match findings st !! i with
               | Some vuln => queue F minConfidenceToSubmit bounty st sy vuln
               | None => []
               end) refs)
       = map submissionOf vulns.
Proof.
  induction refs as [|i refs IH]; intros H.
  - exists []. split; [constructor|reflexivity].
  - destruct IH as (vulns & Hv & Hs); [intros j Hj; apply H; right; exact Hj|].
    destruct (H i (or_introl eq_refl)) as [v Hi].
    exists (v :: vulns). split; [constructor; assumption|].
    simpl flat_map. rewrite Hi, List.filter_app, queue_submission, Hs. reflexivity.
Qed.

End HunterResults.

(** X21. The hunter queues every validated finding, once. When the
    synthesis of the returned state validated something, processResults
    calls onSubmission exactly once per validated finding, in their order,
    with the finding's title and severity and the status 'pending'. The
    bounty value it reports is the midpoint of the range that the program
    pays for the finding's severity, so it lies within that range, and it is
    0 for an informational finding. *)
Theorem hunter_queues_every_validated F minConfidenceToSubmit bounty st sy :
  Orchestrator.synthesis st = Some sy ->
  p_validatedVulnerabilities sy <> [] ->
  (forall i, In i (p_validatedVulnerabilities sy) ->
             is_Some (Orchestrator.findings st !! i)) ->
  exists vulns,
    Forall2 (fun i v => Orchestrator.findings st !! i = Some v)
      (p_validatedVulnerabilities sy) vulns
    /\ List.filter isSubmission
         (Hunter.processResults F minConfidenceToSubmit bounty st)
       = map (fun v =>
                Hunter.onSubmission (Hunter.b_platform bounty)
                  (Hunter.b_name bounty) (f_title v) (f_severity v) "pending"
                  (Hunter.estimateBountyValue bounty v)) vulns
    /\ forall v, In v vulns ->
         match rangeFor bounty (f_severity v) with
         | Some r =>
             (Hunter.rg_min r <= Hunter.rg_max r)%Q ->
             (Hunter.rg_min r <= Hunter.estimateBountyValue bounty v)%Q
             /\ (Hunter.estimateBountyValue bounty v <= Hunter.rg_max r)%Q
         | None => Hunter.estimateBountyValue bounty v = 0%Q
         end.
Proof.
  intros Hsy Hne Hall.
  destruct (queued_submissions F minConfidenceToSubmit bounty st sy _ Hall)
    as (vulns & Hv & Hs).
  exists vulns. split; [exact Hv|]. split.
  - unfold Hunter.processResults. rewrite Hsy.
    destruct (p_validatedVulnerabilities sy) as [|i refs] eqn:E; [contradiction|].
    cbn [length Nat.eqb]. cbn [List.filter isSubmission]. exact Hs.
  - intros v _. unfold rangeFor, Hunter.estimateBountyValue.
    destruct (f_severity v); try apply midpoint_within. reflexivity.
Qed.

Lemma hunter_queues_every_validated_witness :
  exists sy vulns,
    Orchestrator.synthesis Cases.hunted = Some sy
    /\ Forall2 (fun i v => Orchestrator.findings Cases.hunted !! i = Some v)
         [0; 1] vulns
    /\ List.filter isSubmission
         (Hunter.processResults Cases.integerPart (8 # 10) Cases.program
            Cases.hunted)
       = map (fun v =>
                Hunter.onSubmission "immunefi" "Vault" (f_title v) (f_severity v)
                  "pending" (Hunter.estimateBountyValue Cases.program v)) vulns.
Proof.
  assert (Hsy : exists sy, Orchestrator.synthesis Cases.hunted = Some sy
                           /\ p_validatedVulnerabilities sy = [0; 1]).
  { eexists. split; vm_compute; reflexivity. }
  destruct Hsy as (sy & Hsy & Hrefs).
  destruct (hunter_queues_every_validated Cases.integerPart (8 # 10)
              Cases.program Cases.hunted sy Hsy) as (vulns & Hv & Hs & _).
  - rewrite Hrefs. discriminate.
  - rewrite Hrefs. intros i [<-|[<-|[]]]; vm_compute; eexists; reflexivity.
  - rewrite Hrefs in Hv. exists sy, vulns. auto.
Defined.

(** X22. What the hunter announces as auto-submission. For a validated
    finding the hunter pairs the first exploit whose finding has the same
    id; after the verification stage that exploit is flagged verified
    exactly when the consensus of its result is PASS. So when the
    confidence of the synthesis reaches minConfidenceToSubmit, the hunter
    logs "Auto-submitting" for every finding whose exploit got PASS, whether
    or not the result itself is marked autoSubmit. *)
Theorem hunter_announces_passed_exploits
    W F minConfidenceToSubmit bounty st st' sy i vuln x :
  Orchestrator.verify W st = Ok st' ->
  Orchestrator.synthesis st' = Some sy ->
  In i (p_validatedVulnerabilities sy) ->
  Orchestrator.findings st' !! i = Some vuln ->
  Hunter.exploitOf st' vuln = Some x ->
  (minConfidenceToSubmit <= p_confidence sy)%Q ->
  exists r,
    r ∈ Orchestrator.verificationResults st'
    /\ findingId r = f_id vuln
    /\ Orchestrator.ex_verified x = bool_decide (consensus r = PASS)
    /\ (consensus r = PASS ->
        In (Hunter.onLog "success" "submission"
              ("Auto-submitting: " +:+ f_title vuln)
              (Some ("Verified exploit with "
                     +:+ Hunter.toFixed0 F (p_confidence sy * 100)
                     +:+ "% confidence")))
           (Hunter.processResults F minConfidenceToSubmit bounty st')).
Proof.
  intros H Hsy Hi Hvuln Hx Hconf.
  (* the exploit that the hunter pairs with the finding *)
  pose proof Hx as Hpair.
  unfold Hunter.exploitOf in Hx. apply find_first in Hx.
  destruct Hx as (l1 & l2 & Hsplit & Hp & _).
  assert (Hk : Orchestrator.exploits st' !! length l1 = Some x).
  { rewrite Hsplit. apply list_lookup_middle. reflexivity. }
  (* what the verification stage did to it *)
  unfold Orchestrator.verify in H.
  set (st1 := fold_left (fun s n => Orchestrator.register n s)
                (Orchestrator.teamNames "Verifier_" Orchestrator.verifierIds) st) in *.
  apply verify_flags_loop in H;
    [|unfold Orchestrator.indexed; rewrite combine_seq_fst; apply NoDup_seq].
  destruct H as (Hfs & new & Hnew & Hlen & Heach & Hother).
  destruct (Orchestrator.exploits st1 !! length l1) as [x0|] eqn:E0.
  2:{ exfalso. rewrite Hother in Hk; [congruence|].
      unfold Orchestrator.indexed. rewrite combine_seq_fst.
      intros Hin. apply elem_of_seq in Hin.
      apply lookup_ge_None in E0. lia. }
  destruct (Heach (length l1) (length l1) x0
              (combine_seq_nth (Orchestrator.exploits st1) 0 _ x0 E0))
    as (r & f & Hr & Hf & Hid & Hflag).
  rewrite E0, Hk in Hflag. injection Hflag as ->.
  simpl in Hp. rewrite Hfs, Hf in Hp. apply String.eqb_eq in Hp.
  exists r. split.
  { rewrite Hnew. apply elem_of_app. right.
    eapply list_elem_of_lookup_2. exact Hr. }
  split; [congruence|]. split; [reflexivity|].
  intros Hpass. unfold Hunter.processResults. rewrite Hsy.
  destruct (p_validatedVulnerabilities sy) as [|i0 refs] eqn:Erefs; [destruct Hi|].
  cbn [length Nat.eqb]. right. apply in_flat_map. exists i. split; [exact Hi|].
  rewrite Hvuln. unfold Hunter.queue. apply in_or_app. right.
  assert (Hauto : Hunter.autoSubmits minConfidenceToSubmit st' sy vuln = true).
  { unfold Hunter.autoSubmits. rewrite Hpair. simpl.
    rewrite bool_decide_eq_true_2 by exact Hpass.
    simpl. apply Qle_bool_iff. exact Hconf. }
  rewrite Hauto. left. reflexivity.
Qed.

Lemma hunter_announces_passed_exploits_witness :
  exists r,
    r ∈ Orchestrator.verificationResults Cases.hunted
    /\ consensus r = PASS
    /\ autoSubmit r = false
    /\ In (Hunter.onLog "success" "submission"
             "Auto-submitting: Reentrancy in withdraw"
             (Some "Verified exploit with 90% confidence"))
          (Hunter.processResults Cases.integerPart (8 # 10) Cases.program
             Cases.hunted).
Proof.
  assert (Hrun : exists sy vuln x,
            Orchestrator.verify Sample.popeWorld Cases.forged = Ok Cases.hunted
            /\ Orchestrator.synthesis Cases.hunted = Some sy
            /\ In 0 (p_validatedVulnerabilities sy)
            /\ Orchestrator.findings Cases.hunted !! 0 = Some vuln
            /\ Hunter.exploitOf Cases.hunted vuln = Some x
            /\ (8 # 10 <= p_confidence sy)%Q
            /\ f_title vuln = "Reentrancy in withdraw"
            /\ f_id vuln = "ReentrancyExpert-1-a"
            /\ Hunter.toFixed0 Cases.integerPart (p_confidence sy * 100) = "90"
            /\ forall r, r ∈ Orchestrator.verificationResults Cases.hunted ->
                         consensus r = PASS /\ autoSubmit r = false).
  { eexists _, _, _.
    split; [vm_compute; reflexivity|]. split; [vm_compute; reflexivity|].
    split; [left; reflexivity|]. split; [vm_compute; reflexivity|].
    split; [vm_compute; reflexivity|]. split; [vm_compute; discriminate|].
    split; [reflexivity|]. split; [reflexivity|].
    split; [vm_compute; reflexivity|].
    intros r Hr. vm_compute in Hr.
    repeat (apply elem_of_cons in Hr; destruct Hr as [->|Hr];
            [split; reflexivity|]).
    apply elem_of_nil in Hr. contradiction. }
  destruct Hrun as (sy & vuln & x & H & Hsy & Hi & Hv & Hx & Hc
                    & Ht & Hid & Hfmt & Hall).
  destruct (hunter_announces_passed_exploits Sample.popeWorld Cases.integerPart
              (8 # 10) Cases.program Cases.forged Cases.hunted sy 0 vuln x
              H Hsy Hi Hv Hx Hc) as (r & Hr & _ & _ & Hlog).
  destruct (Hall r Hr) as [Hpass Hauto].
  exists r. split; [exact Hr|]. split; [exact Hpass|]. split; [exact Hauto|].
  specialize (Hlog Hpass). rewrite Ht, Hfmt in Hlog. exact Hlog.
Defined.


(** ** The debate arena: what it reads of its configuration *)

Lemma rbind_ext {A B : Type} (r : Result A) (k k' : A -> Result B) :
  (forall a, k a = k' a) -> rbind r k = rbind r k'.
Proof. intros H. destruct r; simpl; [apply H|reflexivity]. Qed.

(** X23. What the arena reads of its configuration. A debate depends on
    the sizes of the three teams and on whether maxRounds exceeds 4, and on
    nothing else of the configuration: the option concessionThreshold is
    never read, and rounds 1 to 4 are held whatever maxRounds says (a
    maxRounds of 2 still gives four rounds). *)
Theorem arena_reads_team_sizes_only W config config' findings contracts specialists :
  Arena.redTeamSize config' = Arena.redTeamSize config ->
  Arena.blueTeamSize config' = Arena.blueTeamSize config ->
  Arena.devilsAdvocateSize config' = Arena.devilsAdvocateSize config ->
  (4 <? Arena.maxRounds config') = (4 <? Arena.maxRounds config) ->
  Arena.debate W config' findings contracts specialists
  = Arena.debate W config findings contracts specialists.
Proof.
  destruct config as [m r b d t], config' as [m' r' b' d' t']. simpl.
  intros -> -> -> Hm. unfold Arena.debate.
  apply rbind_ext. intros r1.
  apply rbind_ext. intros r2.
  apply rbind_ext. intros r3.
  destruct (Arena.processConcessions _ _) as [store3 status3].
  apply rbind_ext. intros r4.
  cbn [length Arena.maxRounds]. rewrite Hm. reflexivity.
Qed.

Lemma arena_reads_team_sizes_only_witness :
  Arena.debate ArenaSample.world
    {| Arena.maxRounds := 2; Arena.redTeamSize := 3; Arena.blueTeamSize := 2;
       Arena.devilsAdvocateSize := 2; Arena.concessionThreshold := 1 |}
    [ArenaSample.named] [] ArenaSample.specialists
  = Arena.debate ArenaSample.world
      {| Arena.maxRounds := 4; Arena.redTeamSize := 3; Arena.blueTeamSize := 2;
         Arena.devilsAdvocateSize := 2; Arena.concessionThreshold := 3 # 10 |}
      [ArenaSample.named] [] ArenaSample.specialists.
Proof.
  apply arena_reads_team_sizes_only; reflexivity.
Defined.


(** ** Parallel analysis: focus areas that are not an array *)

Section FocusAreas.

Import Orchestrator.

Definition notAFunction : string := "expertDef.focusAreas.join is not a function".

Lemma Promise_all_Throw {A B : Type} (f : A -> Result B) xs msg x :
  (forall y, In y xs -> is_ok (f y) = true \/ f y = Throw msg) ->
  In x xs -> f x = Throw msg ->
  Promise_all f xs = Throw msg.
Proof.
  induction xs as [|y xs IH]; intros Hall Hin Hx; [destruct Hin|].
  simpl. destruct (Hall y (or_introl eq_refl)) as [Hy|Hy].
  - destruct (f y) as [b|] eqn:E; [|discriminate]. simpl.
    destruct Hin as [->|Hin]; [congruence|].
    rewrite IH; [reflexivity| |exact Hin|exact Hx].
    intros z Hz. apply Hall. right. exact Hz.
  - rewrite Hy. reflexivity.
Qed.

Lemma analysisTask_outcome W ag cs ie :
  is_ok (analysisTask W ag cs ie) = true
  \/ analysisTask W ag cs ie = Throw notAFunction.
Proof.
  unfold analysisTask. destruct (ag !! x_name ie.2) as [a|]; [|left; reflexivity].
  fold (taskLoop W ie.2 ie.1 (indexed cs) ([], [])).
  destruct (x_focusAreas ie.2) as [l|] eqn:E.
  - left. destruct (taskLoop_resolves W ie.2 ie.1 (indexed cs)
                      (ex_intro _ l E) ([], [])) as [r ->].
    reflexivity.
  - destruct (indexed cs) as [|ic ics]; [left; reflexivity|].
    right. apply taskLoop_rejects. exact E.
Qed.

Lemma parallelAnalysis_rejects W st x :
  contracts st <> [] ->
  x ∈ spawnedExperts st ->
  registered (x_name x) st ->
  x_focusAreas x = notAnArray ->
  parallelAnalysis W st = Throw notAFunction.
Proof.
  intros Hcs Hx [a Ha] Hfa. unfold parallelAnalysis.
  apply list_elem_of_lookup_1 in Hx. destruct Hx as [e He].
  rewrite (Promise_all_Throw _ _ notAFunction (e, x)); [reflexivity| | |].
  - intros ie _. apply analysisTask_outcome.
  - apply indexed_lookup. exact He.
  - unfold analysisTask. cbn [agents contracts log with_logs fst snd].
    rewrite Ha.
    fold (taskLoop W x e (indexed (contracts st)) ([], [])).
    destruct (contracts st) as [|c0 cs]; [contradiction|].
    apply taskLoop_rejects. exact Hfa.
Qed.

End FocusAreas.

(** X25. An expert definition whose focus areas are not an array aborts
    the run. The spawner's answer is parsed and its focus_areas are copied
    unchecked; the prompt of the analysis calls join on them outside the
    try block. So when the answer for some contract defines an expert
    whose focus_areas are anything but an array (or null), parallel
    analysis rejects with a TypeError and so does hunt, whatever the other
    experts would have found. *)
Theorem hunt_rejects_on_malformed_focus_areas W name cs c x :
  c < length cs ->
  x ∈ expertsFor W c ->
  Orchestrator.x_focusAreas x = Orchestrator.notAnArray ->
  (Orchestrator.hunt W name cs).1 = Throw notAFunction.
Proof.
  intros Hc Hx Hfa.
  destruct (hunt_run W name cs)
    as (stB & Hxs & Hcs & Hreg & _ & _ & _ & _ & Hthrow & _).
  apply Hthrow.
  assert (Hin : x ∈ Orchestrator.spawnedExperts stB).
  { rewrite Hxs. apply list_elem_of_In, in_concat.
    exists (expertsFor W c). split.
    - apply in_map, in_seq. lia.
    - apply list_elem_of_In. exact Hx. }
  apply (parallelAnalysis_rejects W stB x); [|exact Hin|apply Hreg; exact Hin|exact Hfa].
  rewrite Hcs. intros E. rewrite E in Hc. simpl in Hc. lia.
Qed.

Lemma hunt_rejects_on_malformed_focus_areas_witness :
  (Orchestrator.hunt Cases.looseWorld "demo" [Sample.vault]).1
  = Throw "expertDef.focusAreas.join is not a function".
Proof.
  apply (hunt_rejects_on_malformed_focus_areas Cases.looseWorld "demo"
           [Sample.vault] 0 Cases.looseExpert).
  - simpl. lia.
  - apply list_elem_of_here.
  - reflexivity.
Defined.
